(** * Go runtime allocator (cloudfly/readgo): size classes, mallocgc, mcentral

    A shallow embedding of three source files of the annotated Go 1.5
    runtime:
    - msize.go    (size-class tables, [sizeToClass], [computeDivMagic]),
    - malloc.go   ([mallocgc], [largeAlloc], [newarray]),
    - mcentral.go ([mCentral_CacheSpan], [mCentral_UncacheSpan],
                   [mCentral_FreeSpan], [mCentral_Grow]).

    Conventions.  Platform constants are those of linux/amd64 (the values
    the source's own comments give: 8K pages, 512GB arena, 8-byte words).
    [uintptr]/[uint64] values are [Z] reduced modulo 2^64 where the source
    can wrap, [uint32] modulo 2^32, [uint16] modulo 2^16, [uint8] modulo 2^8.
    A Go array is a [list]; reads and writes go through [index] and [store],
    which fail where Go panics with "index out of range".  [throw] (fatal),
    [panic] and loops cut off by fuel are the constructors of [outcome]. *)

From Stdlib Require Import ZArith Lia String.
From stdpp Require Import base decidable option list gmap.

Local Open Scope string_scope.
Local Open Scope list_scope.
Local Open Scope Z_scope.

(** ** Outcomes of runtime calls *)

Inductive outcome (A : Type) : Type :=
| Ret (a : A)
| Throw (msg : string)
| Panic (msg : string)
| OutOfFuel.
Arguments Ret {A} a.
Arguments Throw {A} msg.
Arguments Panic {A} msg.
Arguments OutOfFuel {A}.

Definition obind {A B} (m : outcome A) (k : A -> outcome B) : outcome B :=
  match m with
  | Ret a => k a
  | Throw msg => Throw msg
  | Panic msg => Panic msg
  | OutOfFuel => OutOfFuel
  end.

Notation "'let!' x ':=' m 'in' k" := (obind m (fun x => k))
  (at level 10, x pattern, m at level 100, k at level 200).

(** ** Machine integers *)

Definition wrap8 (z : Z) : Z := z mod 2 ^ 8.
Definition wrap16 (z : Z) : Z := z mod 2 ^ 16.
Definition wrap32 (z : Z) : Z := z mod 2 ^ 32.
Definition wrap64 (z : Z) : Z := z mod 2 ^ 64.

(** [int8(x)]: two's complement reinterpretation of the low byte. *)
Definition int8 (z : Z) : Z :=
  let b := wrap8 z in if b <? 128 then b else b - 256.

(** ** Go arrays *)

Definition index {A} (a : list A) (i : Z) : outcome A :=
  if 0 <=? i then
    match a !! Z.to_nat i with
    | Some x => Ret x
    | None => Panic "index out of range"
    end
  else Panic "index out of range".

Definition store {A} (a : list A) (i : Z) (x : A) : outcome (list A) :=
  if (0 <=? i) && (i <? Z.of_nat (length a)) then Ret (<[Z.to_nat i := x]> a)
  else Panic "index out of range".

(** [range_all f z n] checks [f] on [z, z+1, ..., z+n-1]. *)
Fixpoint range_all (f : Z -> bool) (z : Z) (n : nat) : bool :=
  match n with
  | O => true
  | S k => f z && range_all f (z + 1) k
  end.

(** ** Constants of malloc.go *)

Definition _PageShift : Z := 13.
Definition _PageSize : Z := Z.shiftl 1 _PageShift.
Definition _PageMask : Z := _PageSize - 1.
Definition _NumSizeClasses : Z := 67.
Definition _MaxSmallSize : Z := Z.shiftl 32 10.
Definition _TinySize : Z := 16.
Definition _TinySizeClass : Z := 2.
Definition _FlagNoScan : Z := Z.shiftl 1 0.
Definition _FlagNoZero : Z := Z.shiftl 1 1.
Definition ptrSize : Z := 8.
(** [_MHeapMap_TotalBits] on 64-bit non-Windows, non-darwin/arm64. *)
Definition _MHeapMap_TotalBits : Z := 39.
Definition _MaxMem : Z := Z.shiftl 1 _MHeapMap_TotalBits - 1.

Definition maxTinySize : Z := _TinySize.
Definition tinySizeClass : Z := _TinySizeClass.
Definition maxSmallSize : Z := _MaxSmallSize.
Definition flagNoScan : Z := _FlagNoScan.
Definition flagNoZero : Z := _FlagNoZero.
Definition pageShift : Z := _PageShift.
Definition pageSize : Z := _PageSize.

(** * msize.go *)

Module Msize.

Record divMagic : Type := mkDivMagic {
  shift : Z;      (* uint8 *)
  mul : Z;        (* uint32 *)
  shift2 : Z;     (* uint8 *)
  baseMask : Z    (* uintptr *)
}.

Definition zeroDivMagic : divMagic := mkDivMagic 0 0 0 0.

(** The five global tables [initSizes] fills in. *)
Record tables : Type := mkTables {
  class_to_size : list Z;          (* [_NumSizeClasses]int32 *)
  class_to_allocnpages : list Z;   (* [_NumSizeClasses]int32 *)
  class_to_divmagic : list divMagic;
  size_to_class8 : list Z;         (* [1024/8 + 1]int8 *)
  size_to_class128 : list Z        (* [(_MaxSmallSize-1024)/128 + 1]int8 *)
}.

(** Zero-initialised globals. *)
Definition zeroTables : tables :=
  mkTables (replicate (Z.to_nat _NumSizeClasses) 0)
           (replicate (Z.to_nat _NumSizeClasses) 0)
           (replicate (Z.to_nat _NumSizeClasses) zeroDivMagic)
           (replicate (Z.to_nat (Z.quot 1024 8 + 1)) 0)
           (replicate (Z.to_nat (Z.quot (_MaxSmallSize - 1024) 128 + 1)) 0).

(** *** computeDivMagic *)

(** [for d&1 == 0 { m.shift++; d >>= 1 }] *)
Fixpoint shiftLoop (fuel : nat) (d sh : Z) : outcome (Z * Z) :=
  match fuel with
  | O => OutOfFuel
  | S fuel' =>
      if Z.land d 1 =? 0
      then shiftLoop fuel' (Z.shiftr d 1) (wrap8 (sh + 1))
      else Ret (d, sh)
  end.

(** [((1<<k)+d64-1)/d64], in uint64. *)
Definition ceilPow2Div (k d64 : Z) : Z :=
  Z.quot (wrap64 (wrap64 (wrap64 (Z.shiftl 1 k) + d64) - 1)) d64.

(** [for ((1<<k)+d64-1)/d64 >= 1<<32 { k-- }] *)
Fixpoint kLoop (fuel : nat) (k d64 : Z) : outcome Z :=
  match fuel with
  | O => OutOfFuel
  | S fuel' =>
      if ceilPow2Div k d64 >=? Z.shiftl 1 32
      then kLoop fuel' (wrap8 (k - 1)) d64
      else Ret k
  end.

Definition computeDivMagic (d : Z) : outcome divMagic :=
  let bm := if Z.land d (wrap32 (d - 1)) =? 0
            then wrap64 (Z.lnot (wrap64 (d - 1)))
            else 0 in
  let! (d, sh) := shiftLoop 33 d 0 in
  if d =? 0 then Panic "integer divide by zero" else
  let! k := kLoop 64 63 d in
  Ret (mkDivMagic sh (wrap32 (ceilPow2Div k d)) k bm).

(** *** initSizes *)

(** [for allocsize%size > allocsize/8 { allocsize += _PageSize }] *)
Fixpoint allocsizeLoop (fuel : nat) (size allocsize : Z) : outcome Z :=
  match fuel with
  | O => OutOfFuel
  | S fuel' =>
      if Z.rem allocsize size >? Z.quot allocsize 8
      then allocsizeLoop fuel' size (allocsize + _PageSize)
      else Ret allocsize
  end.

(** The first loop of [initSizes]:
    [for size := align; size <= _MaxSmallSize; size += align].
    The Go [int]s of this loop stay below 2^20, far from wrapping. *)
Fixpoint classLoop (fuel : nat) (size align sizeclass : Z)
    (cts ctn : list Z) : outcome (Z * list Z * list Z) :=
  match fuel with
  | O => OutOfFuel
  | S fuel' =>
      if size <=? _MaxSmallSize then
        let align :=
          if Z.land size (size - 1) =? 0 then
            if size >=? 2048 then 256
            else if size >=? 128 then Z.quot size 8
            else if size >=? 16 then 16
            else align
          else align in
        if negb (Z.land align (align - 1) =? 0) then Throw "InitSizes - bug" else
        let! allocsize := allocsizeLoop 64 size _PageSize in
        let npages := Z.shiftr allocsize _PageShift in
        let! same :=
          if sizeclass >? 1 then
            let! pn := index ctn (sizeclass - 1) in
            if npages =? pn then
              let! ps := index cts (sizeclass - 1) in
              if ps =? 0 then Panic "integer divide by zero"
              else Ret (Z.quot allocsize size =? Z.quot allocsize ps)
            else Ret false
          else Ret false in
        if same then
          let! cts := store cts (sizeclass - 1) size in
          classLoop fuel' (size + align) align sizeclass cts ctn
        else
          let! ctn := store ctn sizeclass npages in
          let! cts := store cts sizeclass size in
          classLoop fuel' (size + align) align (sizeclass + 1) cts ctn
      else Ret (sizeclass, cts, ctn)
  end.

(** [for ; nextsize < 1024 && nextsize <= int(class_to_size[sizeclass]); nextsize += 8] *)
Fixpoint fill8 (fuel : nat) (nextsize sizeclass csize : Z) (t8 : list Z)
    : outcome (Z * list Z) :=
  match fuel with
  | O => OutOfFuel
  | S fuel' =>
      if (nextsize <? 1024) && (nextsize <=? csize) then
        let! t8 := store t8 (Z.quot nextsize 8) (int8 sizeclass) in
        fill8 fuel' (nextsize + 8) sizeclass csize t8
      else Ret (nextsize, t8)
  end.

(** [for ; nextsize <= int(class_to_size[sizeclass]); nextsize += 128] *)
Fixpoint fill128 (fuel : nat) (nextsize sizeclass csize : Z) (t128 : list Z)
    : outcome (Z * list Z) :=
  match fuel with
  | O => OutOfFuel
  | S fuel' =>
      if nextsize <=? csize then
        let! t128 := store t128 (Z.quot (nextsize - 1024) 128) (int8 sizeclass) in
        fill128 fuel' (nextsize + 128) sizeclass csize t128
      else Ret (nextsize, t128)
  end.

(** [for sizeclass = 1; sizeclass < _NumSizeClasses; sizeclass++] *)
Fixpoint lookupLoop (fuel : nat) (sizeclass nextsize : Z) (cts t8 t128 : list Z)
    : outcome (list Z * list Z) :=
  match fuel with
  | O => OutOfFuel
  | S fuel' =>
      if sizeclass <? _NumSizeClasses then
        let! csize := index cts sizeclass in
        let! (nextsize, t8) := fill8 200 nextsize sizeclass csize t8 in
        let! (nextsize, t128) :=
          if nextsize >=? 1024 then fill128 300 nextsize sizeclass csize t128
          else Ret (nextsize, t128) in
        lookupLoop fuel' (sizeclass + 1) nextsize cts t8 t128
      else Ret (t8, t128)
  end.

(** [for i := 1; i < len(class_to_size); i++] *)
Fixpoint magicLoop (fuel : nat) (i : Z) (cts : list Z) (ctd : list divMagic)
    : outcome (list divMagic) :=
  match fuel with
  | O => OutOfFuel
  | S fuel' =>
      if i <? Z.of_nat (length cts) then
        let! d := index cts i in
        let! m := computeDivMagic (wrap32 d) in
        let! ctd := store ctd i m in
        magicLoop fuel' (i + 1) cts ctd
      else Ret ctd
  end.

(** [initSizes], run on the zeroed globals.  [testdefersizes] and the copy
    into [memstats.by_size] write no table and are left out. *)
Definition initSizes : outcome tables :=
  let t := zeroTables in
  let! cts := store (class_to_size t) 0 0 in
  let! (sizeclass, cts, ctn) := classLoop 5000 8 8 1 cts (class_to_allocnpages t) in
  if negb (sizeclass =? _NumSizeClasses) then Throw "InitSizes - bad NumSizeClasses" else
  let! (t8, t128) := lookupLoop 100 1 0 cts (size_to_class8 t) (size_to_class128 t) in
  let! ctd := magicLoop 100 1 cts (class_to_divmagic t) in
  Ret (mkTables cts ctn ctd t8 t128).

(** [sizeToClass(size int32) int32] *)
Definition sizeToClass (t : tables) (size : Z) : outcome Z :=
  if size >? _MaxSmallSize then Throw "SizeToClass - invalid size" else
  if size >? 1024 - 8 then
    index (size_to_class128 t) (Z.shiftr (size - 1024 + 127) 7)
  else
    index (size_to_class8 t) (Z.shiftr (size + 7) 3).

End Msize.

(** * Spans (the fields of [mspan] the three files use) *)

Record mspan : Type := mkSpan {
  start : Z;            (* pageID: first page of the run *)
  npages : Z;           (* number of pages *)
  freelist : list Z;    (* gclinkptr chain of free objects, head first *)
  sweepgen : Z;         (* uint32 *)
  ref : Z;              (* uint16: objects handed out *)
  sizeclass : Z;
  incache : bool;       (* being used by an mcache *)
  elemsize : Z;
  needzero : Z;
  limit : Z             (* end of the usable bytes *)
}.

Definition set_freelist (fl : list Z) (s : mspan) : mspan :=
  mkSpan (start s) (npages s) fl (sweepgen s) (ref s) (sizeclass s)
         (incache s) (elemsize s) (needzero s) (limit s).
Definition set_sweepgen (g : Z) (s : mspan) : mspan :=
  mkSpan (start s) (npages s) (freelist s) g (ref s) (sizeclass s)
         (incache s) (elemsize s) (needzero s) (limit s).
Definition set_ref (r : Z) (s : mspan) : mspan :=
  mkSpan (start s) (npages s) (freelist s) (sweepgen s) r (sizeclass s)
         (incache s) (elemsize s) (needzero s) (limit s).
Definition set_incache (b : bool) (s : mspan) : mspan :=
  mkSpan (start s) (npages s) (freelist s) (sweepgen s) (ref s) (sizeclass s)
         b (elemsize s) (needzero s) (limit s).
Definition set_needzero (z : Z) (s : mspan) : mspan :=
  mkSpan (start s) (npages s) (freelist s) (sweepgen s) (ref s) (sizeclass s)
         (incache s) (elemsize s) z (limit s).
Definition set_limit (l : Z) (s : mspan) : mspan :=
  mkSpan (start s) (npages s) (freelist s) (sweepgen s) (ref s) (sizeclass s)
         (incache s) (elemsize s) (needzero s) l.
Definition set_class (cl es : Z) (s : mspan) : mspan :=
  mkSpan (start s) (npages s) (freelist s) (sweepgen s) (ref s) cl
         (incache s) es (needzero s) (limit s).

(** [l.ptr() == nil] for a chain [l]: the head pointer is nil.  A chain
    ends at its first nil link, so a head of 0 is the empty chain. *)
Definition isNil (l : list Z) : bool :=
  match l with
  | [] => true
  | v :: _ => v =? 0
  end.

(** The tables every allocation reads: the result of [initSizes], which
    [mallocinit] runs before the first allocation (evaluated once, here). *)
Definition sizeTables : Msize.tables :=
  Eval vm_compute in
    match Msize.initSizes with
    | Ret t => t
    | _ => Msize.zeroTables
    end.

(** * A state-and-outcome monad for the stateful runtime code

    A failing call keeps the state it had reached, so that what a [throw]
    or [panic] leaves behind can be inspected. *)

Definition M (St A : Type) : Type := St -> outcome A * St.

Definition ret {St A} (a : A) : M St A := fun s => (Ret a, s).
Definition throw {St A} (msg : string) : M St A := fun s => (Throw msg, s).
Definition panic {St A} (msg : string) : M St A := fun s => (Panic msg, s).
Definition lift {St A} (o : outcome A) : M St A := fun s => (o, s).
Definition get {St} : M St St := fun s => (Ret s, s).
Definition modify {St} (f : St -> St) : M St unit := fun s => (Ret tt, f s).

Definition bind {St A B} (m : M St A) (k : A -> M St B) : M St B :=
  fun s =>
    match m s with
    | (Ret a, s') => k a s'
    | (Throw msg, s') => (Throw msg, s')
    | (Panic msg, s') => (Panic msg, s')
    | (OutOfFuel, s') => (OutOfFuel, s')
    end.

Notation "'do!' x '<-' m ';' k" := (bind m (fun x => k))
  (at level 10, x pattern, m at level 100, k at level 200).
Notation "m ';;' k" := (bind m (fun _ => k))
  (at level 100, k at level 200, right associativity).

(** * malloc.go *)

Module Malloc.

(** The fields of [_type] that [mallocgc] and [newarray] read. *)
Record _type : Type := mkType {
  tsize : Z;      (* typ.size, uintptr *)
  ptrdata : Z;    (* typ.ptrdata, uintptr *)
  kind : Z        (* typ.kind, uint8 *)
}.

(** The fields of [mcache] that [mallocgc] uses. *)
Record mcache : Type := mkCache {
  local_cachealloc : Z;   (* uintptr: bytes allocated from the cache *)
  local_scan : Z;         (* uintptr: bytes of scannable heap *)
  tiny : Z;               (* unsafe.Pointer; 0 is nil *)
  tinyoffset : Z;         (* uintptr *)
  local_tinyallocs : Z;   (* uintptr *)
  alloc : list mspan      (* [_NumSizeClasses]*mspan: spans to allocate from *)
}.

(** The allocating thread ([m]), its cache, and the shared tiers behind it.
    [H] is the state of the page heap and the central lists ([mheap_]). *)
Record world (H : Type) : Type := mkWorld {
  mallocing : Z;        (* mp.mallocing, int32 *)
  locks : Z;            (* mp.locks, int32 *)
  onGsignal : bool;     (* mp.gsignal == getg() *)
  cache : mcache;
  heap : H
}.
Arguments mkWorld {H}.
Arguments mallocing {H}.
Arguments locks {H}.
Arguments onGsignal {H}.
Arguments cache {H}.
Arguments heap {H}.

(** What malloc.go calls but does not define.  [mCache_Refill] (mcache.go),
    [mHeap_Alloc] (mheap.go) and [deductSweepCredit] (mgcsweep.go) are not
    among the sources; they are taken as features of the runtime at hand,
    acting on the shared state [H].  [mCache_Refill] receives the exhausted
    span of the class and returns the span it installs in [c.alloc]. *)
Class Runtime (H : Type) : Type := {
  zerobase : Z;                   (* &zerobase *)
  sizeofDefer : Z;                (* unsafe.Sizeof(_defer{}) *)
  isDeferType : _type -> bool;    (* typ == deferType *)
  kindNoPointers : Z;
  mCache_Refill : Z -> mspan -> M H mspan;
  mHeap_Alloc : Z -> Z -> bool -> bool -> M H (option mspan);
  deductSweepCredit : Z -> Z -> H -> H
}.

Definition set_mallocing {H} (v : Z) (w : world H) : world H :=
  mkWorld v (locks w) (onGsignal w) (cache w) (heap w).
Definition set_locks {H} (v : Z) (w : world H) : world H :=
  mkWorld (mallocing w) v (onGsignal w) (cache w) (heap w).
Definition set_cache {H} (c : mcache) (w : world H) : world H :=
  mkWorld (mallocing w) (locks w) (onGsignal w) c (heap w).
Definition set_heap {H} (h : H) (w : world H) : world H :=
  mkWorld (mallocing w) (locks w) (onGsignal w) (cache w) h.

Definition set_tiny (p off : Z) (c : mcache) : mcache :=
  mkCache (local_cachealloc c) (local_scan c) p off (local_tinyallocs c) (alloc c).
Definition set_tinyoffset (off : Z) (c : mcache) : mcache :=
  mkCache (local_cachealloc c) (local_scan c) (tiny c) off (local_tinyallocs c) (alloc c).
Definition set_local_tinyallocs (n : Z) (c : mcache) : mcache :=
  mkCache (local_cachealloc c) (local_scan c) (tiny c) (tinyoffset c) n (alloc c).
Definition set_local_cachealloc (n : Z) (c : mcache) : mcache :=
  mkCache n (local_scan c) (tiny c) (tinyoffset c) (local_tinyallocs c) (alloc c).
Definition set_local_scan (n : Z) (c : mcache) : mcache :=
  mkCache (local_cachealloc c) n (tiny c) (tinyoffset c) (local_tinyallocs c) (alloc c).
Definition set_alloc (a : list mspan) (c : mcache) : mcache :=
  mkCache (local_cachealloc c) (local_scan c) (tiny c) (tinyoffset c)
          (local_tinyallocs c) a.

(** [int32] arithmetic of the lock counter. *)
Definition sint32 (z : Z) : Z :=
  let u := wrap32 z in if u <? 2 ^ 31 then u else u - 2 ^ 32.

(** Modelled from the spec: [round] (stubs.go) is not among the sources;
    "aligning the offset to 8/4/2 bytes" is rounding [n] up to the next
    multiple of [a], in [uintptr]. *)
Definition round (n a : Z) : Z := wrap64 ((n + a - 1) / a * a).

(** [add(p, x)]: pointer arithmetic, [unsafe.Pointer(uintptr(p) + x)]. *)
Definition add (p x : Z) : Z := wrap64 (p + x).

(** The size class chosen inline on the small-object path:
    [if size <= 1024-8 { size_to_class8[(size+7)>>3] }
     else { size_to_class128[(size-1024+127)>>7] }], in [uintptr]. *)
Definition smallSizeclass (t : Msize.tables) (size : Z) : outcome Z :=
  if size <=? 1024 - 8 then
    index (Msize.size_to_class8 t) (Z.shiftr (wrap64 (size + 7)) 3)
  else
    index (Msize.size_to_class128 t)
          (Z.shiftr (wrap64 (wrap64 (size - 1024) + 127)) 7).

(** The alignment step of the tiny allocator. *)
Definition tinyAlign (off size : Z) : Z :=
  if Z.land size 7 =? 0 then round off 8
  else if Z.land size 3 =? 0 then round off 4
  else if Z.land size 1 =? 0 then round off 2
  else off.

(** [off+size <= maxTinySize && c.tiny != nil] *)
Definition tinyFits (c : mcache) (size : Z) : bool :=
  (wrap64 (tinyAlign (tinyoffset c) size + size) <=? maxTinySize)
  && negb (tiny c =? 0).

Section Mallocgc.
Context {H : Type} {RT : Runtime H}.

(** Run a computation on the shared state inside the world. *)
Definition onHeap {A} (m : M H A) : M (world H) A :=
  fun w => let '(o, h) := m (heap w) in (o, set_heap h w).

Definition modifyCache (f : mcache -> mcache) : M (world H) unit :=
  modify (fun w => set_cache (f (cache w)) w).

(** [acquirem]/[releasem] (runtime1.go, not among the sources): the lock
    count of the current [m] goes up and down. *)
Definition acquirem : M (world H) unit :=
  modify (fun w => set_locks (sint32 (locks w + 1)) w).
Definition releasem : M (world H) unit :=
  modify (fun w => set_locks (sint32 (locks w - 1)) w).

(** The slot pop that both small paths spell out:
    [s = c.alloc[sizeclass]; v := s.freelist;
     if v.ptr() == nil { mCache_Refill(c, sizeclass); s = c.alloc[sizeclass]; v = s.freelist }
     s.freelist = v.ptr().next; s.ref++; x = unsafe.Pointer(v)].
    Reading [v.ptr().next] of a nil [v] faults. *)
Definition popSlot (sizeclass : Z) (s : mspan) : M (world H) Z :=
  match freelist s with
  | [] => panic "nil pointer dereference"
  | v :: next =>
      if v =? 0 then panic "nil pointer dereference" else
      do! w <- get;
      let s' := set_ref (wrap16 (ref s + 1)) (set_freelist next s) in
      do! a <- lift (store (alloc (cache w)) sizeclass s');
      modifyCache (set_alloc a);;
      ret v
  end.

Definition nextFree (sizeclass : Z) : M (world H) Z :=
  do! w <- get;
  do! s <- lift (index (alloc (cache w)) sizeclass);
  if isNil (freelist s) then
    do! s' <- onHeap (mCache_Refill sizeclass s);
    do! a <- lift (store (alloc (cache w)) sizeclass s');
    modifyCache (set_alloc a);;
    popSlot sizeclass s'
  else popSlot sizeclass s.

(** The tiny allocator.  [inl x] is the early [return x] of a request that
    fits the current block; [inr (x, size)] goes on to the common tail.
    The two zeroing stores into the new block touch memory only. *)
Definition tinyAlloc (size : Z) : M (world H) (Z + Z * Z) :=
  do! w <- get;
  let c := cache w in
  let off := tinyAlign (tinyoffset c) size in
  if tinyFits c size then
    let x := add (tiny c) off in
    modifyCache (set_tinyoffset (wrap64 (off + size)));;
    modifyCache (fun c => set_local_tinyallocs (wrap64 (local_tinyallocs c + 1)) c);;
    modify (set_mallocing 0);;
    releasem;;
    ret (inl x)
  else
    do! x <- nextFree tinySizeClass;
    do! w <- get;
    (if size <? tinyoffset (cache w)
     then modifyCache (set_tiny x size)
     else ret tt);;
    ret (inr (x, maxTinySize)).

(** The ordinary small-object path.  Clearing the slot ([flagNoZero])
    touches memory only. *)
Definition smallAlloc (size : Z) : M (world H) (Z + Z * Z) :=
  do! sizeclass <- lift (smallSizeclass sizeTables size);
  do! size <- lift (index (Msize.class_to_size sizeTables) sizeclass);
  do! x <- nextFree sizeclass;
  ret (inr (x, size)).

(** [largeAlloc]: the span is returned by value, with its [limit] set.
    [heapBitsForSpan(...).initSpan] writes the collector's bitmap only. *)
Definition largeNpages (size : Z) : Z :=
  let npages := Z.shiftr size _PageShift in
  if negb (Z.land size _PageMask =? 0) then wrap64 (npages + 1) else npages.

Definition largeAlloc (size flag : Z) : M H mspan :=
  if wrap64 (size + _PageSize) <? size then throw "out of memory" else
  let npages := largeNpages size in
  modify (deductSweepCredit (wrap64 (npages * _PageSize)) npages);;
  do! r <- mHeap_Alloc npages 0 true (Z.land flag _FlagNoZero =? 0);
  match r with
  | None => throw "out of memory"
  | Some s =>
      ret (set_limit (wrap64 (wrap64 (Z.shiftl (start s) _PageShift) + size)) s)
  end.

(** The scan accounting of pointerful objects
    ([heapBitsSetType] and [publicationBarrier] write collector state only). *)
Definition scanAccount (typ : option _type) (size dataSize : Z) : M (world H) unit :=
  match typ with
  | None => panic "nil pointer dereference"
  | Some ty =>
      let dataSize := if isDeferType ty then sizeofDefer else dataSize in
      if dataSize >? tsize ty then
        if negb (ptrdata ty =? 0) then
          modifyCache (fun c =>
            set_local_scan
              (wrap64 (local_scan c + wrap64 (wrap64 (dataSize - tsize ty) + ptrdata ty))) c)
        else ret tt
      else
        modifyCache (fun c => set_local_scan (wrap64 (local_scan c + ptrdata ty)) c)
  end.

(** [mallocgc].  The hand-over to the collector after [releasem]
    ([gcmarknewobject_m], [startGC], [gcAssistAlloc], [Gosched]) acts on
    collector and scheduler state, which this model does not carry. *)
Definition mallocgc (size : Z) (typ : option _type) (flags : Z) : M (world H) Z :=
  if size =? 0 then ret zerobase else
  acquirem;;
  do! w <- get;
  if negb (mallocing w =? 0) then throw "malloc deadlock" else
  if onGsignal w then throw "malloc during signal" else
  modify (set_mallocing 1);;
  let dataSize := size in
  do! r <-
    (if size <=? maxSmallSize then
       do! r <-
         (if negb (Z.land flags flagNoScan =? 0) && (size <? maxTinySize)
          then tinyAlloc size
          else smallAlloc size);
       match r with
       | inl x => ret (inl x)
       | inr (x, size) =>
           modifyCache (fun c =>
             set_local_cachealloc (wrap64 (local_cachealloc c + size)) c);;
           ret (inr (x, size))
       end
     else
       do! s <- onHeap (largeAlloc size (wrap32 flags));
       ret (inr (wrap64 (Z.shiftl (start s) pageShift), elemsize s)));
  match r with
  | inl x => ret x
  | inr (x, size) =>
      (if negb (Z.land flags flagNoScan =? 0) then ret tt
       else scanAccount typ size dataSize);;
      modify (set_mallocing 0);;
      releasem;;
      ret x
  end.

(** [newarray]: implementation of the [make] builtin for slices. *)
Definition newarray (typ : _type) (n : Z) : M (world H) Z :=
  let flags := 0 in
  let flags :=
    if negb (Z.land (kind typ) kindNoPointers =? 0)
    then Z.lor flags flagNoScan else flags in
  if (2 ^ 63 <=? n)
     || ((tsize typ >? 0) && (n >? Z.quot _MaxMem (tsize typ)))
  then panic "runtime: allocation size out of range"
  else mallocgc (wrap64 (tsize typ * n)) (Some typ) flags.

(** A thread making pointer-free ([flagNoScan]) requests one after another
    through [rawmem]-style calls [mallocgc(size, nil, flagNoScan)]. *)
Fixpoint tinyAllocs (sizes : list Z) : M (world H) (list Z) :=
  match sizes with
  | [] => ret []
  | size :: rest =>
      do! x <- mallocgc size None flagNoScan;
      do! xs <- tinyAllocs rest;
      ret (x :: xs)
  end.

End Mallocgc.

(** The number of 16-byte slots taken from the cache between two states of
    it, read off the cache's own byte count ([c.local_cachealloc += size]
    with [size = maxTinySize] after each slot the tiny path takes). *)
Definition slotsTaken (c c' : mcache) : Z :=
  wrap64 (local_cachealloc c' - local_cachealloc c) / maxTinySize.

(** The sizes the tiny allocator serves. *)
Definition tinySize (size : Z) : Prop := 0 < size < maxTinySize.

(** Where a run of tiny objects ends when laid out one after another from
    offset [off], each at the alignment its size calls for (8, 4 or 2 by
    the low bits of the size). *)
Definition alignUp (n a : Z) : Z := (n + a - 1) / a * a.

Definition tinyPad (off size : Z) : Z :=
  if Z.land size 7 =? 0 then alignUp off 8
  else if Z.land size 3 =? 0 then alignUp off 4
  else if Z.land size 1 =? 0 then alignUp off 2
  else off.

Fixpoint packedEnd (off : Z) (sizes : list Z) : Z :=
  match sizes with
  | [] => off
  | size :: rest => packedEnd (tinyPad off size + size) rest
  end.

(** The world in which the allocation proper runs ([acquirem] done and
    [mp.mallocing] set), and the world a completed call leaves
    ([mp.mallocing] cleared, [releasem] done). *)
Definition entered {H} (w : world H) : world H :=
  set_mallocing 1 (set_locks (sint32 (locks w + 1)) w).
Definition left {H} (w : world H) : world H :=
  set_locks (sint32 (locks w - 1)) (set_mallocing 0 w).

(** What a slot pop leaves untouched. *)
Definition sameBut_alloc {H} (w w1 : world H) : Prop :=
  mallocing w1 = mallocing w /\ locks w1 = locks w /\ onGsignal w1 = onGsignal w /\
  tiny (cache w1) = tiny (cache w) /\ tinyoffset (cache w1) = tinyoffset (cache w) /\
  local_cachealloc (cache w1) = local_cachealloc (cache w) /\
  local_tinyallocs (cache w1) = local_tinyallocs (cache w) /\
  local_scan (cache w1) = local_scan (cache w).

(** A small runtime to run the code on: the shared state is the next
    unused page; the heap hands out fresh page runs, and a refill is a
    fresh one-page span carved into objects of the class. *)
Definition bumpSpan (page np cl es : Z) (fl : list Z) : mspan :=
  mkSpan page np fl 0 0 cl false es 0 (Z.shiftl (page + np) _PageShift).

Fixpoint carve (k : nat) (p size : Z) : list Z :=
  match k with
  | O => []
  | S k' => p :: carve k' (p + size) size
  end.

Definition bumpRuntime : Runtime Z := {|
  zerobase := 4096;
  sizeofDefer := 48;
  isDeferType := fun _ => false;
  kindNoPointers := Z.shiftl 1 7;
  mCache_Refill := fun cl _ page =>
    match index (Msize.class_to_size sizeTables) cl with
    | Ret es =>
        (Ret (bumpSpan page 1 cl es
                (carve (Z.to_nat (_PageSize / es)) (Z.shiftl page _PageShift) es)),
         page + 1)
    | _ => (Throw "out of memory", page)
    end;
  mHeap_Alloc := fun np cl _ _ page =>
    (Ret (Some (bumpSpan page np cl (Z.shiftl np _PageShift) [])), page + np);
  deductSweepCredit := fun _ _ page => page
|}.

(** A thread with an empty cache, its tiny block [p] filled up to [off]. *)
Definition bumpWorld (p off : Z) : world Z :=
  mkWorld 0 0 false
    (mkCache 0 0 p off 0
       (replicate (Z.to_nat _NumSizeClasses) (bumpSpan 0 0 0 0 [])))
    16.

End Malloc.

(** * mcentral.go *)

Module Central.

(** One central free list [c], the span objects it links (by address), the
    page heap's pool of free spans, and the heap's sweep generation. *)
Record state : Type := mkState {
  spans : gmap Z mspan;   (* the mspan objects, by address *)
  csizeclass : Z;         (* c.sizeclass *)
  nonempty : list Z;      (* c.nonempty: list of spans with a free object *)
  empty : list Z;         (* c.empty: spans with no free objects, or cached in an mcache *)
  heapfree : list Z;      (* spans linked in the page heap's free lists *)
  hsweepgen : Z           (* mheap_.sweepgen, uint32 *)
}.

Inductive spanList : Type := Nonempty | Empty.

(** The collaborators of mcentral.go that are not among the sources: what
    a sweep of a span finds to free, and which free span the page heap
    hands out for a request of [npages] pages (a position in its pool). *)
Class Collaborators : Type := {
  sweepFinds : mspan -> list Z;
  heapChoose : list Z -> Z -> option nat
}.

Definition set_spans (m : gmap Z mspan) (st : state) : state :=
  mkState m (csizeclass st) (nonempty st) (empty st) (heapfree st) (hsweepgen st).
Definition set_lists (ne em hf : list Z) (st : state) : state :=
  mkState (spans st) (csizeclass st) ne em hf (hsweepgen st).

(** Dereferencing and updating a span through its pointer. *)
Definition deref (s : Z) : M state mspan :=
  fun st =>
    match spans st !! s with
    | Some sp => (Ret sp, st)
    | None => (Panic "nil pointer dereference", st)
    end.

Definition update (s : Z) (f : mspan -> mspan) : M state unit :=
  do! sp <- deref s;
  modify (fun st => set_spans (<[s := f sp]> (spans st)) st).

(** Modelled from the spec: the span-list primitives [mSpanList_Remove],
    [mSpanList_Insert] and [mSpanList_InsertBack] (mheap.go) are not among
    the sources.  The lists are "doubly linked lists of spans" threaded
    through the span itself, so a span is unlinked from whichever list
    holds it, and linking a span that is still linked is refused. *)
Definition unlink (s : Z) (l : list Z) : list Z := filter (fun x => x <> s) l.

Definition linked (s : Z) (st : state) : bool :=
  bool_decide (s ∈ nonempty st ++ empty st ++ heapfree st).

Definition mSpanList_Remove (s : Z) : M state unit :=
  modify (fun st =>
    set_lists (unlink s (nonempty st)) (unlink s (empty st)) (unlink s (heapfree st)) st).

Definition mSpanList_Insert (l : spanList) (s : Z) : M state unit :=
  do! st <- get;
  if linked s st then throw "MSpanList_Insert" else
  match l with
  | Nonempty => modify (set_lists (s :: nonempty st) (empty st) (heapfree st))
  | Empty => modify (set_lists (nonempty st) (s :: empty st) (heapfree st))
  end.

Definition mSpanList_InsertBack (l : spanList) (s : Z) : M state unit :=
  do! st <- get;
  if linked s st then throw "MSpanList_InsertBack" else
  match l with
  | Nonempty => modify (set_lists (nonempty st ++ [s]) (empty st) (heapfree st))
  | Empty => modify (set_lists (nonempty st) (empty st ++ [s]) (heapfree st))
  end.

(** Modelled from the spec: [mHeap_Free] (mheap.go) is not among the
    sources; PageHeap.FreeSpan "reinserts the free run into the free
    lists": the span joins the heap's pool of free spans. *)
Definition mHeap_Free (s : Z) : M state unit :=
  do! st <- get;
  if linked s st then throw "MHeap_Free" else
  modify (set_lists (nonempty st) (empty st) (s :: heapfree st)).

Section Operations.
Context {X : Collaborators}.

(** Modelled from the spec: [mHeap_Alloc] (mheap.go) is not among the
    sources; PageHeap.AllocSpan takes a run out of the free lists and
    returns it as a span owned by the given class: the chosen span leaves
    the pool, with its class, element size and generation stamp set and no
    object handed out.  No span to hand out is the nil result. *)
Definition mHeap_Alloc (npage sizeclass : Z) (large needzero : bool)
    : M state (option Z) :=
  do! st <- get;
  match heapChoose (heapfree st) npage with
  | None => ret None
  | Some i =>
      match heapfree st !! i with
      | None => ret None
      | Some s =>
          mSpanList_Remove s;;
          do! es <- lift (index (Msize.class_to_size sizeTables) sizeclass);
          update s (fun sp =>
            set_sweepgen (hsweepgen st) (set_ref 0 (set_class sizeclass es sp)));;
          ret (Some s)
      end
  end.

(** [mCentral_FreeSpan(c, s, n, start, end, preserve)]; [objs] is the
    chain of [n] objects from [start] to [end]. *)
Definition mCentral_FreeSpan (s n : Z) (objs : list Z) (preserve : bool)
    : M state bool :=
  do! sp <- deref s;
  if incache sp then throw "freespan into cached span" else
  let wasempty := isNil (freelist sp) in
  if isNil objs then panic "nil pointer dereference" else
      update s (fun sp =>
        set_ref (wrap16 (ref sp - wrap16 n)) (set_freelist (objs ++ freelist sp) sp));;
      do! st <- get;
      if preserve then
        if negb (linked s st) then throw "can't preserve unlinked span" else
        update s (set_sweepgen (hsweepgen st));;
        ret false
      else
        (if wasempty
         then mSpanList_Remove s;; mSpanList_Insert Nonempty s
         else ret tt);;
        update s (set_sweepgen (hsweepgen st));;
        do! sp <- deref s;
        if negb (ref sp =? 0) then ret false else
        mSpanList_Remove s;;
        update s (fun sp => set_freelist [] (set_needzero 1 sp));;
        mHeap_Free s;;
        ret true.

(** Modelled from the spec: [mSpan_Sweep] (mgcsweep.go) is not among the
    sources; the external sweeper "TrySweep(span) -> reclaimedCount" hands
    what it reclaims to [mCentral_FreeSpan] ("called during sweep"), and a
    swept span carries the current generation stamp. *)
Definition mSpan_Sweep (s : Z) (preserve : bool) : M state bool :=
  do! sp <- deref s;
  let objs := sweepFinds sp in
  if isNil objs then
    do! st <- get;
    update s (set_sweepgen (hsweepgen st));;
    ret false
  else mCentral_FreeSpan s (Z.of_nat (length objs)) objs preserve.

(** The chain [mCentral_Grow] links: [p := start; for i := 1; i < n; i++ \{ p += size; ... \}]. *)
Fixpoint carveLoop (k : nat) (p size : Z) : list Z :=
  match k with
  | O => []
  | S k' => let p := wrap64 (p + size) in p :: carveLoop k' p size
  end.

Definition mCentral_Grow : M state (option Z) :=
  do! st <- get;
  do! npages <- lift (index (Msize.class_to_allocnpages sizeTables) (csizeclass st));
  do! size <- lift (index (Msize.class_to_size sizeTables) (csizeclass st));
  if size =? 0 then panic "integer divide by zero" else
  let n := Z.quot (wrap64 (Z.shiftl npages _PageShift)) size in
  do! r <- mHeap_Alloc npages (csizeclass st) false true;
  match r with
  | None => ret None
  | Some s =>
      do! sp <- deref s;
      let p := wrap64 (Z.shiftl (start sp) _PageShift) in
      update s (set_limit (wrap64 (p + wrap64 (size * n))));;
      if negb (isNil (freelist sp)) then throw "freelist not empty" else
      update s (set_freelist (p :: carveLoop (Z.to_nat (n - 1)) p size));;
      ret (Some s)
  end.

(** The scan of [c.nonempty]: the first span that is not being swept by
    someone else, and whether it still needs sweeping (the
    compare-and-swap of a span seen at [sg-2] succeeds when no one else
    runs). *)
Fixpoint scanNonempty (m : gmap Z mspan) (sg : Z) (l : list Z)
    : outcome (option (Z * bool)) :=
  match l with
  | [] => Ret None
  | s :: l' =>
      match m !! s with
      | None => Panic "nil pointer dereference"
      | Some sp =>
          if sweepgen sp =? wrap32 (sg - 2) then Ret (Some (s, true))
          else if sweepgen sp =? wrap32 (sg - 1) then scanNonempty m sg l'
          else Ret (Some (s, false))
      end
  end.

(** The scan of [c.empty]: the first span that needs sweeping, skipping
    those being swept, up to the first span already swept. *)
Fixpoint scanEmpty (m : gmap Z mspan) (sg : Z) (l : list Z) : outcome (option Z) :=
  match l with
  | [] => Ret None
  | s :: l' =>
      match m !! s with
      | None => Panic "nil pointer dereference"
      | Some sp =>
          if sweepgen sp =? wrap32 (sg - 2) then Ret (Some s)
          else if sweepgen sp =? wrap32 (sg - 1) then scanEmpty m sg l'
          else Ret None
      end
  end.

(** The code after the label [havespan]. *)
Definition havespan (s : Z) : M state (option Z) :=
  do! sp <- deref s;
  if elemsize sp =? 0 then panic "integer divide by zero" else
  let cap := Malloc.sint32 (Z.quot (wrap64 (Z.shiftl (npages sp) _PageShift)) (elemsize sp)) in
  let n := Malloc.sint32 (cap - Malloc.sint32 (ref sp)) in
  if n =? 0 then throw "empty span" else
  if isNil (freelist sp) then throw "freelist empty" else
  update s (set_incache true);;
  ret (Some s).

(** The code from the label [retry]; one unit of fuel per [goto retry]. *)
Fixpoint cacheSpanRetry (fuel : nat) (sg : Z) : M state (option Z) :=
  match fuel with
  | O => lift OutOfFuel
  | S fuel' =>
      do! st <- get;
      do! r <- lift (scanNonempty (spans st) sg (nonempty st));
      match r with
      | Some (s, true) =>
          update s (set_sweepgen (wrap32 (sg - 1)));;
          mSpanList_Remove s;;
          mSpanList_InsertBack Empty s;;
          mSpan_Sweep s true;;
          havespan s
      | Some (s, false) =>
          mSpanList_Remove s;;
          mSpanList_InsertBack Empty s;;
          havespan s
      | None =>
          do! r <- lift (scanEmpty (spans st) sg (empty st));
          match r with
          | Some s =>
              update s (set_sweepgen (wrap32 (sg - 1)));;
              mSpanList_Remove s;;
              mSpanList_InsertBack Empty s;;
              mSpan_Sweep s true;;
              do! sp <- deref s;
              if negb (isNil (freelist sp)) then havespan s
              else cacheSpanRetry fuel' sg
          | None =>
              do! r <- mCentral_Grow;
              match r with
              | None => ret None
              | Some s =>
                  mSpanList_InsertBack Empty s;;
                  havespan s
              end
          end
      end
  end.

(** [mCentral_CacheSpan].  It starts with
    [deductSweepCredit(uintptr(class_to_size[c.sizeclass]), 0)]: the read
    of the table panics for a class out of range.  The credit paid
    ([deductSweepCredit], mgcsweep.go, is not among the sources) is work
    of the background sweeper on other spans; each such sweep is a call
    of [mSpan_Sweep] of its own. *)
Definition mCentral_CacheSpan : M state (option Z) :=
  do! st0 <- get;
  do! _ <- lift (index (Msize.class_to_size sizeTables) (csizeclass st0));
  do! st <- get;
  cacheSpanRetry (S (length (empty st))) (hsweepgen st).

Definition mCentral_UncacheSpan (s : Z) : M state unit :=
  update s (set_incache false);;
  do! sp <- deref s;
  if ref sp =? 0 then throw "uncaching full span" else
  if elemsize sp =? 0 then panic "integer divide by zero" else
  let cap := Malloc.sint32 (Z.quot (wrap64 (Z.shiftl (npages sp) _PageShift)) (elemsize sp)) in
  let n := Malloc.sint32 (cap - Malloc.sint32 (ref sp)) in
  if n >? 0 then
    mSpanList_Remove s;;
    mSpanList_Insert Nonempty s
  else ret tt.

End Operations.

(** ** Stating the linking discipline *)

(** Every span the state links, list by list. *)
Definition allLinks (st : state) : list Z := nonempty st ++ empty st ++ heapfree st.

(** The containers of the claim: the heap's free pool, the two central
    lists, and "cached by an mcache" ([s.incache]). *)
Definition incacheAt (st : state) (s : Z) : bool :=
  match spans st !! s with
  | Some sp => incache sp
  | None => false
  end.


Definition containers3 (st : state) (s : Z) : nat :=
  (if bool_decide (s ∈ heapfree st) then 1 else 0)
  + (if bool_decide (s ∈ nonempty st) then 1 else 0)
  + (if bool_decide (s ∈ empty st) then 1 else 0).

(** The linking discipline, possibly with one span [u] in transit (taken
    off its list and not yet linked again). *)
Definition InvEx (u : option Z) (st : state) : Prop :=
  NoDup (allLinks st) /\
  (forall s, s ∈ allLinks st -> is_Some (spans st !! s)) /\
  (forall s, is_Some (spans st !! s) -> s ∈ allLinks st \/ u = Some s) /\
  (forall s sp, spans st !! s = Some sp -> incache sp = true ->
     s ∈ empty st \/ u = Some s).

Definition Inv : state -> Prop := InvEx None.





(** A heap that hands out the first span of its pool. *)
Definition firstFit : Collaborators :=
  {| sweepFinds := fun _ => []; heapChoose := fun _ _ => Some 0%nat |}.

(** One swept span (address 100) of the 16-byte class with two free
    objects, linked in [c.nonempty]; and the same with a free one-page
    span (address 200) in the heap's pool. *)
Definition oneSpan : state :=
  mkState {[ 100 := mkSpan 16 1 [131104; 131120] 4 2 2 false 16 0 139264 ]}
          2 [100] [] [] 4.

Definition twoSpans : state :=
  mkState (<[ 200 := mkSpan 17 1 [] 4 0 0 false 0 0 0 ]>
             {[ 100 := mkSpan 16 1 [131104; 131120] 4 2 2 false 16 0 139264 ]})
          2 [100] [] [200] 4.

(** The discipline as a check that runs on a given state. *)
Definition invb (st : state) : bool :=
  bool_decide (NoDup (allLinks st))
  && forallb (fun s => bool_decide (is_Some (spans st !! s))) (allLinks st)
  && forallb (fun e : Z * mspan =>
                bool_decide (e.1 ∈ allLinks st)
                && (negb (incache e.2) || bool_decide (e.1 ∈ empty st)))
             (map_to_list (spans st)).











End Central.

(** * Size classes: what the claims speak of *)

(** [class_to_size[sizeToClass(s)]] *)
Definition classSize (t : Msize.tables) (s : Z) : outcome Z :=
  let! c := Msize.sizeToClass t s in index (Msize.class_to_size t) c.

(** The bound of the waste claim: [ceil(s * 1.125)] rounded up to the
    granularity of the lookup array that serves [s] (8 bytes up to 1024,
    128 bytes above). *)
Definition granularity (s : Z) : Z := if s <=? 1024 then 8 else 128.
Definition roundUpTo (x g : Z) : Z := (x + g - 1) / g * g.
Definition wasteBound (s : Z) : Z := roundUpTo ((9 * s + 7) / 8) (granularity s).

(** The request sizes whose class exceeds that bound: the sizes just above
    a class that is followed by a wider step (16-byte alignment below 128
    bytes, classes merged into their successor above). *)
Definition wasteGaps : list (Z * Z) :=
  [(17, 21); (33, 35); (49, 49); (769, 789); (897, 903); (1665, 1706);
   (3329, 3527); (4609, 4664); (6913, 7168); (10497, 10808); (14081, 14449);
   (17665, 18090); (21249, 21731); (24833, 25144); (28417, 29013)].
Definition inGaps (s : Z) : bool :=
  existsb (fun g => (fst g <=? s) && (s <=? snd g)) wasteGaps.

(** The checks run over all request sizes and all classes. *)
Definition c1_ok (t : Msize.tables) (s : Z) : bool :=
  match Msize.sizeToClass t s with
  | Ret c =>
      match index (Msize.class_to_size t) c, index (Msize.class_to_size t) (c - 1) with
      | Ret sz, Ret prev =>
          (1 <=? c) && (c <? _NumSizeClasses) && (prev <? s) && (s <=? sz)
          && eqb (sz <=? wasteBound s) (negb (inGaps s))
          && (sz <=? roundUpTo (2 * s) 8)
      | _, _ => false
      end
  | _ => false
  end.

Definition c2_ok (t : Msize.tables) (c : Z) : bool :=
  match index (Msize.class_to_size t) c with
  | Ret sz =>
      match Msize.sizeToClass t sz with
      | Ret c' => c' =? c
      | _ => false
      end
  | _ => false
  end.

(** Division by multiplication, as the [divMagic] comment gives it:
    [n/d == ((n>>m.shift) * m.mul) >> m.shift2], in [uint64]. *)
Definition magicDiv (m : Msize.divMagic) (n : Z) : Z :=
  Z.shiftr (wrap64 (Z.shiftr n (Msize.shift m) * Msize.mul m)) (Msize.shift2 m).

Definition isPow2 (d : Z) : bool := Z.land d (d - 1) =? 0.

Definition divMagic_eqb (a b : Msize.divMagic) : bool :=
  (Msize.shift a =? Msize.shift b) && (Msize.mul a =? Msize.mul b)
  && (Msize.shift2 a =? Msize.shift2 b) && (Msize.baseMask a =? Msize.baseMask b).

(** The side conditions under which the multiply-shift of [m] divides
    every offset below [cap] by [d] exactly. *)
Definition magic_ok (d cap : Z) (m : Msize.divMagic) : bool :=
  let sh := Msize.shift m in
  let k := Msize.shift2 m in
  let d1 := d / 2 ^ sh in
  let e := Msize.mul m * d1 - 2 ^ k in
  (0 <=? sh) && (0 <=? k) && (0 <? d1) && (d =? 2 ^ sh * d1)
  && (0 <=? e) && (e <? d1) && (cap * e <? 2 ^ k)
  && (cap * Msize.mul m <? 2 ^ 64) && (cap <=? 2 ^ 64)
  && (if isPow2 d
      then (d1 =? 1) && (Msize.baseMask m =? wrap64 (Z.lnot (2 ^ sh - 1)))
      else true).

Definition c7_ok (t : Msize.tables) (c : Z) : bool :=
  match index (Msize.class_to_size t) c,
        index (Msize.class_to_allocnpages t) c,
        index (Msize.class_to_divmagic t) c with
  | Ret d, Ret np, Ret m =>
      match Msize.computeDivMagic d with
      | Ret m' =>
          (wrap32 d =? d) && divMagic_eqb m' m && magic_ok d (np * _PageSize) m
      | _ => false
      end
  | _, _, _ => false
  end.

(** * msize.go: the rest of the file *)

(** [roundupsize(size uintptr) uintptr]: the size of the block [mallocgc]
    will hand out for a request of [size] bytes. *)
Definition roundupsize (t : Msize.tables) (size : Z) : outcome Z :=
  if size <? _MaxSmallSize then
    if size <=? 1024 - 8 then
      let! c := index (Msize.size_to_class8 t) (Z.shiftr (wrap64 (size + 7)) 3) in
      let! sz := index (Msize.class_to_size t) c in
      Ret (wrap64 sz)
    else
      let! c := index (Msize.size_to_class128 t)
                      (Z.shiftr (wrap64 (wrap64 (size - 1024) + 127)) 7) in
      let! sz := index (Msize.class_to_size t) c in
      Ret (wrap64 sz)
  else if wrap64 (size + _PageSize) <? size then Ret size
  else Ret (Malloc.round size _PageSize).

(** The tables as the comment above [initSizes] lists them ("the result
    [initSizes] computes on 64-bit ubuntu"). *)

Definition listed_class_to_size : list Z :=
  [0; 8; 16; 32; 48; 64; 80; 96; 112; 128; 144; 160; 176; 192; 208; 224;
   240; 256; 288; 320; 352; 384; 416; 448; 480; 512; 576; 640; 704; 768;
   896; 1024; 1152; 1280; 1408; 1536; 1664; 2048; 2304; 2560; 2816; 3072;
   3328; 4096; 4608; 5376; 6144; 6400; 6656; 6912; 8192; 8448; 8704; 9472;
   10496; 12288; 13568; 14080; 16384; 16640; 17664; 20480; 21248; 24576;
   24832; 28416; 32768].

Definition listed_size_to_class8 : list Z :=
  [1; 1; 2; 3; 3; 4; 4; 5; 5; 6; 6; 7; 7; 8; 8; 9; 9; 10; 10; 11; 11; 12;
   12; 13; 13; 14; 14; 15; 15; 16; 16; 17; 17; 18; 18; 18; 18; 19; 19; 19;
   19; 20; 20; 20; 20; 21; 21; 21; 21; 22; 22; 22; 22; 23; 23; 23; 23; 24;
   24; 24; 24; 25; 25; 25; 25; 26; 26; 26; 26; 26; 26; 26; 26; 27; 27; 27;
   27; 27; 27; 27; 27; 28; 28; 28; 28; 28; 28; 28; 28; 29; 29; 29; 29; 29;
   29; 29; 29; 30; 30; 30; 30; 30; 30; 30; 30; 30; 30; 30; 30; 30; 30; 30;
   30; 31; 31; 31; 31; 31; 31; 31; 31; 31; 31; 31; 31; 31; 31; 31; 0].

Definition listed_size_to_class128 : list Z :=
  [31; 32; 33; 34; 35; 36; 37; 37; 37; 38; 38; 39; 39; 40; 40; 41; 41; 42;
   42; 43; 43; 43; 43; 43; 43; 44; 44; 44; 44; 45; 45; 45; 45; 45; 45; 46;
   46; 46; 46; 46; 46; 47; 47; 48; 48; 49; 49; 50; 50; 50; 50; 50; 50; 50;
   50; 50; 50; 51; 51; 52; 52; 53; 53; 53; 53; 53; 53; 54; 54; 54; 54; 54;
   54; 54; 54; 55; 55; 55; 55; 55; 55; 55; 55; 55; 55; 55; 55; 55; 55; 56;
   56; 56; 56; 56; 56; 56; 56; 56; 56; 57; 57; 57; 57; 58; 58; 58; 58; 58;
   58; 58; 58; 58; 58; 58; 58; 58; 58; 58; 58; 58; 58; 59; 59; 60; 60; 60;
   60; 60; 60; 60; 60; 61; 61; 61; 61; 61; 61; 61; 61; 61; 61; 61; 61; 61;
   61; 61; 61; 61; 61; 61; 61; 61; 61; 62; 62; 62; 62; 62; 62; 63; 63; 63;
   63; 63; 63; 63; 63; 63; 63; 63; 63; 63; 63; 63; 63; 63; 63; 63; 63; 63;
   63; 63; 63; 63; 63; 64; 64; 65; 65; 65; 65; 65; 65; 65; 65; 65; 65; 65;
   65; 65; 65; 65; 65; 65; 65; 65; 65; 65; 65; 65; 65; 65; 65; 65; 65; 66;
   66; 66; 66; 66; 66; 66; 66; 66; 66; 66; 66; 66; 66; 66; 66; 66; 66; 66;
   66; 66; 66; 66; 66; 66; 66; 66; 66; 66; 66; 66; 66; 66; 66].

(** The class of a size, with -1 where [sizeToClass] fails. *)
Definition classOf (t : Msize.tables) (s : Z) : Z :=
  match Msize.sizeToClass t s with
  | Ret c => c
  | _ => -1
  end.

(** One step of the size scan: the class of [s] is a real class, the class
    of [s + 1] is no smaller, and [roundupsize] agrees with the class size,
    covers [s] and is a fixed point of itself. *)
Definition small_ok (t : Msize.tables) (s : Z) : bool :=
  (1 <=? classOf t s) && (classOf t s <=? classOf t (s + 1))
  && (classOf t (s + 1) <=? 66)
  && match roundupsize t s, index (Msize.class_to_size t) (classOf t s) with
     | Ret r, Ret sz =>
         (r =? sz) && (s <=? r) && (r <=? _MaxSmallSize)
         && match roundupsize t r with
            | Ret r' => r' =? r
            | _ => false
            end
     | _, _ => false
     end.

(** What [initSizes] aims at, class by class: sizes grow, stay multiples
    of 8, the span of the class wastes at most an eighth at its tail, no
    shorter span does, and a class is kept apart from its predecessor only
    if it differs in span length or in objects per span. *)
Definition class_ok (t : Msize.tables) (c : Z) : bool :=
  match index (Msize.class_to_size t) c, index (Msize.class_to_size t) (c - 1),
        index (Msize.class_to_allocnpages t) c,
        index (Msize.class_to_allocnpages t) (c - 1) with
  | Ret sz, Ret prev, Ret np, Ret pnp =>
      let span := np * _PageSize in
      (0 <=? prev) && (prev <? sz) && (sz mod 8 =? 0) && (1 <=? np)
      && (1 <=? span / sz)
      && (span mod sz <=? span / 8)
      && range_all (fun p => (p * _PageSize) mod sz >? (p * _PageSize) / 8)
                   1 (Z.to_nat (np - 1))
      && ((c =? 1) || negb ((np =? pnp) && (span / sz =? span / prev)))
  | _, _, _, _ => false
  end.

(** * malloc.go: the entry points around [mallocgc] *)

Module Entry.
Import Malloc.

Section Entry.
Context {H : Type} {RT : Runtime H}.

(** [newobject]: implementation of the [new] builtin. *)
Definition newobject (typ : _type) : M (world H) Z :=
  let flags := 0 in
  let flags :=
    if negb (Z.land (kind typ) kindNoPointers =? 0)
    then Z.lor flags flagNoScan else flags in
  mallocgc (wrap64 (tsize typ)) (Some typ) flags.

Definition reflect_unsafe_New (typ : _type) : M (world H) Z := newobject typ.

Definition reflect_unsafe_NewArray (typ : _type) (n : Z) : M (world H) Z :=
  newarray typ n.

(** [rawmem] returns a chunk of pointerless memory, not zeroed. *)
Definition rawmem (size : Z) : M (world H) Z :=
  mallocgc size None (Z.lor flagNoScan flagNoZero).

End Entry.

(** A thread whose cache holds, for the 32-byte class, a one-page span
    (page 16) with four free objects left. *)
Definition smallWorld : world Z :=
  mkWorld 0 0 false
    (mkCache 0 0 0 0 0
       (<[3%nat := bumpSpan 16 1 3 32 (carve 4 131072 32)]>
          (replicate (Z.to_nat _NumSizeClasses) (bumpSpan 0 0 0 0 []))))
    17.

(** The fields of the allocating thread that an allocation brackets. *)
Definition sameThread {H} (w w' : world H) : Prop :=
  mallocing w' = mallocing w /\ locks w' = locks w /\ onGsignal w' = onGsignal w.

End Entry.

(** * malloc.go: profiling, persistent memory and the arena *)

(** [profilealloc]: the new value of [c.next_sample].  [rate] is
    [MemProfileRate] (an [int]), [rnd] the value [fastrand1()] returns;
    [mProf_Malloc] (mprof.go, not among the sources) records the sample and
    writes profiling state only. *)
Definition profilealloc (rate rnd size next_sample : Z) : outcome Z :=
  if size <? wrap64 rate then
    let rate := if rate >? 1073741823 then 1073741823 else rate in
    let m := Malloc.sint32 (2 * Malloc.sint32 rate) in
    if m =? 0 then Panic "integer divide by zero" else
    let next := Z.rem (Malloc.sint32 rnd) m in
    let next := Malloc.sint32 (next - Malloc.sint32 (Malloc.sint32 size - next_sample)) in
    Ret (if next <? 0 then 0 else next)
  else Ret next_sample.

Module Persistent.

Record persistentAlloc : Type := mkPA {
  base : Z;   (* unsafe.Pointer; 0 is nil *)
  off : Z     (* uintptr *)
}.

(** The current [m] (its lock count, and whether it has a [p]), the
    per-P allocator [mp.p.palloc], the global allocator with its mutex,
    and the state [O] of the operating system and of [memstats]. *)
Record state (O : Type) : Type := mkState {
  mlocks : Z;               (* mp.locks, int32 *)
  hasP : bool;              (* mp != nil && mp.p != 0 *)
  palloc : persistentAlloc; (* mp.p.ptr().palloc *)
  galloc : persistentAlloc; (* globalAlloc.persistentAlloc *)
  gmutex : bool;            (* globalAlloc.mutex is held *)
  os : O
}.
Arguments mkState {O}.
Arguments mlocks {O}.
Arguments hasP {O}.
Arguments palloc {O}.
Arguments galloc {O}.
Arguments gmutex {O}.
Arguments os {O}.

(** What [persistentalloc1] calls but malloc.go does not define:
    [sysAlloc] (mem_linux.go) with the statistic it is charged to, and
    [mSysStatInc]/[mSysStatDec] (mstats.go).  [other_sys] stands for
    [&memstats.other_sys]. *)
Class OS (O : Type) : Type := {
  sysAlloc : Z -> Z -> O -> Z * O;
  mSysStatInc : Z -> Z -> O -> O;
  mSysStatDec : Z -> Z -> O -> O;
  other_sys : Z
}.

Definition chunk : Z := Z.shiftl 256 10.
Definition maxBlock : Z := Z.shiftl 64 10.

Definition set_mlocks {O} (v : Z) (st : state O) : state O :=
  mkState v (hasP st) (palloc st) (galloc st) (gmutex st) (os st).
Definition set_gmutex {O} (b : bool) (st : state O) : state O :=
  mkState (mlocks st) (hasP st) (palloc st) (galloc st) b (os st).
Definition set_os {O} (o : O) (st : state O) : state O :=
  mkState (mlocks st) (hasP st) (palloc st) (galloc st) (gmutex st) o.

(** [persistent]: the allocator the call works on. *)
Definition persistent {O} (st : state O) : persistentAlloc :=
  if hasP st then palloc st else galloc st.
Definition set_persistent {O} (pa : persistentAlloc) (st : state O) : state O :=
  if hasP st
  then mkState (mlocks st) (hasP st) pa (galloc st) (gmutex st) (os st)
  else mkState (mlocks st) (hasP st) (palloc st) pa (gmutex st) (os st).

Section Persistentalloc.
Context {O : Type} {SYS : OS O}.

(** [lock]/[unlock] (lock_futex.go, not among the sources): the mutex is
    taken and given back; taking a mutex that is held never returns. *)
Definition lock : M (state O) unit :=
  do! st <- get;
  if gmutex st then lift OutOfFuel else modify (set_gmutex true).
Definition unlock : M (state O) unit :=
  do! st <- get;
  if gmutex st then modify (set_gmutex false)
  else throw "unlock of unlocked lock".

Definition acquirem : M (state O) unit :=
  modify (fun st => set_mlocks (Malloc.sint32 (mlocks st + 1)) st).
Definition releasem : M (state O) unit :=
  modify (fun st => set_mlocks (Malloc.sint32 (mlocks st - 1)) st).

Definition onOS {A} (f : O -> A * O) : M (state O) A :=
  fun st => let '(a, o) := f (os st) in (Ret a, set_os o st).

Definition unlockGlobal : M (state O) unit :=
  do! st <- get;
  if hasP st then ret tt else unlock.

(** [persistentalloc1(size, align, sysStat)] *)
Definition persistentalloc1 (size align sysStat : Z) : M (state O) Z :=
  if size =? 0 then throw "persistentalloc: size == 0" else
  do! align <-
    (if negb (align =? 0) then
       if negb (Z.land align (wrap64 (align - 1)) =? 0)
       then throw "persistentalloc: align is not a power of 2"
       else if align >? _PageSize
       then throw "persistentalloc: align is too large"
       else ret align
     else ret 8);
  if size >=? maxBlock then onOS (sysAlloc size sysStat) else
  acquirem;;
  do! st <- get;
  (if hasP st then ret tt else lock);;
  modify (fun st =>
    set_persistent (mkPA (base (persistent st))
                         (Malloc.round (off (persistent st)) align)) st);;
  do! st <- get;
  (if (wrap64 (off (persistent st) + size) >? chunk) || (base (persistent st) =? 0)
   then
     do! b <- onOS (sysAlloc chunk other_sys);
     modify (fun st => set_persistent (mkPA b (off (persistent st))) st);;
     if b =? 0 then
       unlockGlobal;;
       throw "runtime: cannot allocate memory"
     else
       modify (fun st => set_persistent (mkPA (base (persistent st)) 0) st)
   else ret tt);;
  do! st <- get;
  let p := Malloc.add (base (persistent st)) (off (persistent st)) in
  modify (fun st =>
    set_persistent (mkPA (base (persistent st))
                         (wrap64 (off (persistent st) + size))) st);;
  releasem;;
  unlockGlobal;;
  (if negb (sysStat =? other_sys) then
     onOS (fun o => (tt, mSysStatInc sysStat size o));;
     onOS (fun o => (tt, mSysStatDec other_sys size o))
   else ret tt);;
  ret p.

(** The statistics after a small block is charged to [sysStat]. *)
Definition charge (sysStat size : Z) (o : O) : O :=
  if sysStat =? other_sys then o
  else mSysStatDec other_sys size (mSysStatInc sysStat size o).

(** [persistentalloc]: the same, run on the system stack. *)
Definition persistentalloc (size align sysStat : Z) : M (state O) Z :=
  persistentalloc1 size align sysStat.

End Persistentalloc.

(** An operating system that hands out memory upwards from a break, in
    whole pages, and keeps no statistics. *)
Definition bumpOS : OS Z := {|
  sysAlloc := fun n _ brk => (brk, brk + (n + 8191) / 8192 * 8192);
  mSysStatInc := fun _ _ brk => brk;
  mSysStatDec := fun _ _ brk => brk;
  other_sys := 1
|}.

(** A thread with a [p] whose allocator has handed out 100 bytes of the
    chunk at 1048576. *)
Definition started : state Z :=
  mkState 0 true (mkPA 1048576 100) (mkPA 0 0) false 2097152.

End Persistent.

Module Arena.

(** The arena fields of [mheap]. *)
Record mheap : Type := mkHeap {
  spans : Z;            (* **mspan *)
  bitmap : Z;
  arena_start : Z;
  arena_used : Z;
  arena_end : Z;
  arena_reserved : bool
}.

Record state (O : Type) : Type := mkState {
  h : mheap;
  os : O
}.
Arguments mkState {O}.
Arguments h {O}.
Arguments os {O}.

(** The OS-defined helpers (mem_linux.go) and the mapping of the bitmap
    and span table (mbitmap.go, mheap.go), none of them among the
    sources.  [sysReserve] receives the current value of [*reserved] and
    returns the new one with the pointer; nil is 0. *)
Class OS (O : Type) : Type := {
  sysReserve : Z -> Z -> bool -> O -> (Z * bool) * O;
  sysMap : Z -> Z -> bool -> O -> O;
  sysFree : Z -> Z -> O -> O;
  sysAlloc : Z -> O -> Z * O;
  mHeap_MapBits : Z -> O -> O;
  mHeap_MapSpans : Z -> O -> O;
  mHeap_Init : Z -> O -> O;
  allocmcache : O -> O
}.

Definition _MaxArena32 : Z := Z.shiftl 2 30.
Definition uintptrMask : Z := Z.shiftl 1 (8 * ptrSize) - 1.

Definition set_h {O} (hp : mheap) (st : state O) : state O := mkState hp (os st).
Definition set_os {O} (o : O) (st : state O) : state O := mkState (h st) o.

Definition set_arena_used (v : Z) (hp : mheap) : mheap :=
  mkHeap (spans hp) (bitmap hp) (arena_start hp) v (arena_end hp) (arena_reserved hp).
Definition set_arena_end (v : Z) (hp : mheap) : mheap :=
  mkHeap (spans hp) (bitmap hp) (arena_start hp) (arena_used hp) v (arena_reserved hp).
Definition set_arena_reserved (b : bool) (hp : mheap) : mheap :=
  mkHeap (spans hp) (bitmap hp) (arena_start hp) (arena_used hp) (arena_end hp) b.

Section Arena.
Context {O : Type} {SYS : OS O}.

Definition onOS {A} (f : O -> A * O) : M (state O) A :=
  fun st => let '(a, o) := f (os st) in (Ret a, set_os o st).
Definition doOS (f : O -> O) : M (state O) unit :=
  modify (fun st => set_os (f (os st)) st).
Definition modifyHeap (f : mheap -> mheap) : M (state O) unit :=
  modify (fun st => set_h (f (h st)) st).

(** The arena sizes of the 64-bit layout. *)
Definition arenaSize : Z := Malloc.round _MaxMem _PageSize.
Definition bitmapSize : Z := Z.quot arenaSize (Z.quot (ptrSize * 8) 4).
Definition spansSize : Z :=
  Malloc.round (wrap64 (Z.quot arenaSize _PageSize * ptrSize)) _PageSize.
Definition pSize : Z :=
  wrap64 (wrap64 (wrap64 (bitmapSize + spansSize) + arenaSize) + _PageSize).

(** The address asked for in round [i]: [uintptr(i)<<40 | uintptrMask&(0x00c0<<32)]. *)
Definition hint (i : Z) : Z :=
  Z.lor (wrap64 (Z.shiftl i 40)) (Z.land uintptrMask (Z.shiftl 192 32)).

(** [for i := 0; i <= 0x7f; i++ \{ ...; p = sysReserve(p, pSize, &reserved);
     if p != 0 \{ break \} \}] *)
Fixpoint reserveLoop (fuel : nat) (i : Z) (p : Z) (reserved : bool)
    : M (state O) (Z * bool) :=
  match fuel with
  | 0%nat => lift OutOfFuel
  | S fuel' =>
      if i <=? 127 then
        do! r <- onOS (sysReserve (hint i) pSize reserved);
        let '(p, reserved) := r in
        if negb (p =? 0) then ret (p, reserved)
        else reserveLoop fuel' (i + 1) p reserved
      else ret (p, reserved)
  end.

(** [mallocinit], on a 64-bit machine ([ptrSize == 8], [limit == 0]). *)
Definition mallocinit : M (state O) unit :=
  do! t <- lift Msize.initSizes;
  do! ts <- lift (index (Msize.class_to_size t) _TinySizeClass);
  if negb (ts =? _TinySize) then throw "bad TinySizeClass" else
  do! r <- reserveLoop 129 0 0 false;
  let '(p, reserved) := r in
  let p1 := Malloc.round p _PageSize in
  modifyHeap (fun _ =>
    let start := wrap64 (p1 + wrap64 (spansSize + bitmapSize)) in
    mkHeap p1 (wrap64 (p1 + spansSize)) start start (wrap64 (p + pSize)) reserved);;
  do! st <- get;
  if negb (Z.land (arena_start (h st)) (_PageSize - 1) =? 0)
  then throw "misrounded allocation in mallocinit" else
  doOS (mHeap_Init spansSize);;
  doOS allocmcache.

(** [p + (-uintptr(p) & (_PageSize - 1))]: [p] rounded up to a page. *)
Definition pageUp (p : Z) : Z :=
  wrap64 (p + Z.land (wrap64 (- p)) (_PageSize - 1)).

(** [mHeap_SysAlloc(h, n)].  The race detector is off ([raceenabled] is
    false). *)
Definition mHeap_SysAlloc (n : Z) : M (state O) Z :=
  do! st <- get;
  let hp := h st in
  (if n >? wrap64 (arena_end hp - arena_used hp) then
     let p_size := Malloc.round (wrap64 (n + _PageSize)) (Z.shiftl 256 20) in
     let new_end := wrap64 (arena_end hp + p_size) in
     if new_end <=? wrap64 (arena_start hp + _MaxArena32) then
       do! r <- onOS (sysReserve (arena_end hp) p_size false);
       let '(p, reserved) := r in
       if p =? arena_end hp then
         modifyHeap (set_arena_end new_end);;
         modifyHeap (set_arena_reserved reserved)
       else if wrap64 (p + p_size) <=? wrap64 (arena_start hp + _MaxArena32) then
         modifyHeap (set_arena_end (wrap64 (p + p_size)));;
         let used := pageUp p in
         doOS (mHeap_MapBits used);;
         doOS (mHeap_MapSpans used);;
         modifyHeap (set_arena_used used);;
         modifyHeap (set_arena_reserved reserved)
       else
         doOS (sysFree p p_size)
     else ret tt
   else ret tt);;
  do! st <- get;
  let hp := h st in
  if n <=? wrap64 (arena_end hp - arena_used hp) then
    let p := arena_used hp in
    doOS (sysMap p n (arena_reserved hp));;
    doOS (mHeap_MapBits (wrap64 (p + n)));;
    doOS (mHeap_MapSpans (wrap64 (p + n)));;
    modifyHeap (set_arena_used (wrap64 (p + n)));;
    if negb (Z.land p (_PageSize - 1) =? 0)
    then throw "misrounded allocation in MHeap_SysAlloc"
    else ret p
  else if wrap64 (arena_end hp - arena_start hp) >=? _MaxArena32 then ret 0
  else
    let p_size := wrap64 (Malloc.round n _PageSize + _PageSize) in
    do! p <- onOS (sysAlloc p_size);
    if p =? 0 then ret 0 else
    if (p <? arena_start hp)
       || (wrap64 (wrap64 (p + p_size) - arena_start hp) >=? _MaxArena32)
    then
      doOS (sysFree p p_size);;
      ret 0
    else
      let p_end := wrap64 (p + p_size) in
      let p := pageUp p in
      (if wrap64 (p + n) >? arena_used hp then
         doOS (mHeap_MapBits (wrap64 (p + n)));;
         doOS (mHeap_MapSpans (wrap64 (p + n)));;
         modifyHeap (set_arena_used (wrap64 (p + n)));;
         (if p_end >? arena_end hp then modifyHeap (set_arena_end p_end) else ret tt)
       else ret tt);;
      if negb (Z.land p (_PageSize - 1) =? 0)
      then throw "misrounded allocation in MHeap_SysAlloc"
      else ret p.

End Arena.

(** An operating system that grants every reservation at the address
    asked for, and a machine on which nothing has been set up yet. *)
Definition grantingOS : OS unit := {|
  sysReserve := fun p _ _ o => ((p, true), o);
  sysMap := fun _ _ _ o => o;
  sysFree := fun _ _ o => o;
  sysAlloc := fun _ o => (0, o);
  mHeap_MapBits := fun _ o => o;
  mHeap_MapSpans := fun _ o => o;
  mHeap_Init := fun _ o => o;
  allocmcache := fun o => o
|}.

Definition blank : state unit := mkState (mkHeap 0 0 0 0 0 false) tt.

(** The heap as [mallocinit] leaves it on that machine. *)
Definition laidOut : state unit :=
  mkState (mkHeap 824633720832 825170591744 859530330112 859530330112
             1409286152192 true) tt.

End Arena.

(** * mcentral.go: the rest of the file *)

Module CentralInit.
Import Central.

(** [mCentral_Init(c, sizeclass)]; [mSpanList_Init] leaves a list with no
    span in it. *)
Definition mCentral_Init (sizeclass : Z) : M state unit :=
  modify (fun st =>
    mkState (spans st) sizeclass [] [] (heapfree st) (hsweepgen st)).

(** The objects a span of [np] pages can hold and has handed out:
    [cap := int32((s.npages << _PageShift) / s.elemsize); n := cap - int32(s.ref)]. *)
Definition room (sp : mspan) : Z :=
  Malloc.sint32
    (Malloc.sint32 (Z.quot (wrap64 (Z.shiftl (npages sp) _PageShift)) (elemsize sp))
     - Malloc.sint32 (ref sp)).

(** A fresh central list for the 48-byte class over a heap with one free
    one-page span (address 300, page 20). *)
Definition fresh : state :=
  mkState {[ 300 := mkSpan 20 1 [] 0 0 0 false 0 0 0 ]} 4 [] [] [300] 6.

(** The span 100 of [oneSpan] with three objects handed out, cached, in
    [c.empty]. *)
Definition inUse : state :=
  mkState {[ 100 := mkSpan 16 1 [131120] 4 3 2 true 16 0 139264 ]}
          2 [] [100] [] 4.

(** The same span swept and back in [c.nonempty], not cached. *)
Definition swept : state :=
  mkState {[ 100 := mkSpan 16 1 [131120] 4 3 2 false 16 0 139264 ]}
          2 [100] [] [] 4.

End CentralInit.

(** * chan.go

    Channels.  Pointers are addresses, nil is 0.  The channel and sudog
    objects live in stores keyed by address; element data lives in a byte
    memory.  A call that puts its goroutine to sleep ([gopark],
    [goparkunlock]) ends as [Parked]: what the goroutine does once it is
    woken is the code after the park, given here as functions of their
    own ([chansend_woken], [chanrecv_woken], [chansend_rewoken],
    [chanrecv_rewoken]). *)

Module Chan.

Inductive res (A : Type) : Type :=
| Done (a : A)
| Parked (reason : string).
Arguments Done {A} a.
Arguments Parked {A} reason.

Definition maxAlign : Z := 8.

(** [int64(x)]: two's complement reading of a 64-bit word. *)
Definition sint64 (z : Z) : Z :=
  let u := wrap64 z in if u <? 2 ^ 63 then u else u - 2 ^ 64.

(** [unsafe.Sizeof(hchan\{\})] on amd64: five words up to [elemtype]
    (with [elemsize] and [closed] sharing one), [sendx], [recvx], two
    two-word queues and the one-word [lock]. *)
Definition sizeofHchan : Z := 96.
Definition hchanSize : Z :=
  wrap64 (sizeofHchan + Z.land (wrap64 (- sizeofHchan)) (maxAlign - 1)).

Record waitq : Type := mkWaitq {
  first : Z;   (* *sudog *)
  last : Z     (* *sudog *)
}.

Record hchan : Type := mkHchan {
  qcount : Z;     (* uint: total data in the queue *)
  dataqsiz : Z;   (* uint: size of the circular queue *)
  buf : Z;        (* unsafe.Pointer: an array of dataqsiz elements *)
  elemsize : Z;   (* uint16 *)
  closed : Z;     (* uint32 *)
  elemtype : option Malloc._type;   (* *_type: element type; nil is None *)
  sendx : Z;      (* uint: send index *)
  recvx : Z;      (* uint: receive index *)
  recvq : waitq;  (* list of recv waiters *)
  sendq : waitq;  (* list of send waiters *)
  lock : bool     (* the mutex is held *)
}.

(** The fields of [sudog] (runtime2.go) that chan.go uses. *)
Record sudog : Type := mkSudog {
  g : Z;             (* *g *)
  selectdone : Z;    (* *uint32 *)
  next : Z;          (* *sudog *)
  prev : Z;          (* *sudog *)
  elem : Z;          (* unsafe.Pointer: data element *)
  releasetime : Z;   (* int64 *)
  waitlink : Z       (* *sudog *)
}.

(** The fields of [g] that chan.go uses. *)
Record gobj : Type := mkG {
  param : Z;     (* unsafe.Pointer: passed on wakeup *)
  waiting : Z    (* *sudog *)
}.

(** The channel type descriptor: its element type [t.elem], with the
    element type's [align]. *)
Record chantype : Type := mkChantype {
  telem : Malloc._type;   (* t.elem *)
  elemalign : Z           (* t.elem.align, uint8 *)
}.

Record state : Type := mkState {
  chans : gmap Z hchan;    (* the hchan objects, by address *)
  sudogs : gmap Z sudog;   (* the sudog objects, by address *)
  gs : gmap Z gobj;        (* the g objects, by address *)
  mem : Z -> Z;            (* element memory, byte by byte *)
  cells : gmap Z Z;        (* the uint32 cells [selectdone] points to *)
  runq : list Z;           (* goroutines made runnable, oldest first *)
  curg : Z;                (* getg() *)
  ticks : Z                (* cputicks() *)
}.

Inductive dir : Type := Recvq | Sendq.

Definition set_chans (m : gmap Z hchan) (st : state) : state :=
  mkState m (sudogs st) (gs st) (mem st) (cells st) (runq st) (curg st) (ticks st).
Definition set_sudogs (m : gmap Z sudog) (st : state) : state :=
  mkState (chans st) m (gs st) (mem st) (cells st) (runq st) (curg st) (ticks st).
Definition set_gs (m : gmap Z gobj) (st : state) : state :=
  mkState (chans st) (sudogs st) m (mem st) (cells st) (runq st) (curg st) (ticks st).
Definition set_mem (m : Z -> Z) (st : state) : state :=
  mkState (chans st) (sudogs st) (gs st) m (cells st) (runq st) (curg st) (ticks st).
Definition set_cells (m : gmap Z Z) (st : state) : state :=
  mkState (chans st) (sudogs st) (gs st) (mem st) m (runq st) (curg st) (ticks st).
Definition set_runq (l : list Z) (st : state) : state :=
  mkState (chans st) (sudogs st) (gs st) (mem st) (cells st) l (curg st) (ticks st).

Definition set_qcount (v : Z) (c : hchan) : hchan :=
  mkHchan v (dataqsiz c) (buf c) (elemsize c) (closed c) (elemtype c) (sendx c) (recvx c)
          (recvq c) (sendq c) (lock c).
Definition set_closed (v : Z) (c : hchan) : hchan :=
  mkHchan (qcount c) (dataqsiz c) (buf c) (elemsize c) v (elemtype c) (sendx c) (recvx c)
          (recvq c) (sendq c) (lock c).
Definition set_sendx (v : Z) (c : hchan) : hchan :=
  mkHchan (qcount c) (dataqsiz c) (buf c) (elemsize c) (closed c) (elemtype c) v (recvx c)
          (recvq c) (sendq c) (lock c).
Definition set_recvx (v : Z) (c : hchan) : hchan :=
  mkHchan (qcount c) (dataqsiz c) (buf c) (elemsize c) (closed c) (elemtype c) (sendx c) v
          (recvq c) (sendq c) (lock c).
Definition set_lock (b : bool) (c : hchan) : hchan :=
  mkHchan (qcount c) (dataqsiz c) (buf c) (elemsize c) (closed c) (elemtype c) (sendx c) (recvx c)
          (recvq c) (sendq c) b.
Definition getq (d : dir) (c : hchan) : waitq :=
  match d with Recvq => recvq c | Sendq => sendq c end.
Definition set_q (d : dir) (q : waitq) (c : hchan) : hchan :=
  match d with
  | Recvq => mkHchan (qcount c) (dataqsiz c) (buf c) (elemsize c) (closed c) (elemtype c) (sendx c)
                     (recvx c) q (sendq c) (lock c)
  | Sendq => mkHchan (qcount c) (dataqsiz c) (buf c) (elemsize c) (closed c) (elemtype c) (sendx c)
                     (recvx c) (recvq c) q (lock c)
  end.

Definition set_next (v : Z) (s : sudog) : sudog :=
  mkSudog (g s) (selectdone s) v (prev s) (elem s) (releasetime s) (waitlink s).
Definition set_prev (v : Z) (s : sudog) : sudog :=
  mkSudog (g s) (selectdone s) (next s) v (elem s) (releasetime s) (waitlink s).
Definition set_elem (v : Z) (s : sudog) : sudog :=
  mkSudog (g s) (selectdone s) (next s) (prev s) v (releasetime s) (waitlink s).
Definition set_releasetime (v : Z) (s : sudog) : sudog :=
  mkSudog (g s) (selectdone s) (next s) (prev s) (elem s) v (waitlink s).
Definition set_param (v : Z) (x : gobj) : gobj := mkG v (waiting x).
Definition set_waiting (v : Z) (x : gobj) : gobj := mkG (param x) v.

(** Reading and writing an object through its pointer. *)
Definition chanAt (c : Z) : M state hchan :=
  fun st =>
    match chans st !! c with
    | Some h => (Ret h, st)
    | None => (Panic "nil pointer dereference", st)
    end.
Definition updChan (c : Z) (f : hchan -> hchan) : M state unit :=
  do! h <- chanAt c;
  modify (fun st => set_chans (<[c := f h]> (chans st)) st).

Definition sudogAt (s : Z) : M state sudog :=
  fun st =>
    match sudogs st !! s with
    | Some x => (Ret x, st)
    | None => (Panic "nil pointer dereference", st)
    end.
Definition updSudog (s : Z) (f : sudog -> sudog) : M state unit :=
  do! x <- sudogAt s;
  modify (fun st => set_sudogs (<[s := f x]> (sudogs st)) st).

Definition gAt (gp : Z) : M state gobj :=
  fun st =>
    match gs st !! gp with
    | Some x => (Ret x, st)
    | None => (Panic "nil pointer dereference", st)
    end.
Definition updG (gp : Z) (f : gobj -> gobj) : M state unit :=
  do! x <- gAt gp;
  modify (fun st => set_gs (<[gp := f x]> (gs st)) st).

Definition cellAt (p : Z) : M state Z :=
  fun st =>
    match cells st !! p with
    | Some v => (Ret v, st)
    | None => (Panic "nil pointer dereference", st)
    end.

(** Element memory.  [memmove] (memmove_amd64.s) and [memclr], which
    [typedmemmove] (mbarrier.go) comes down to, are not among the sources:
    [n] bytes are copied from [src] to [dst], or cleared at [p]; addresses
    wrap around as [uintptr]s do. *)
Definition memmove (dst src n : Z) (m : Z -> Z) : Z -> Z :=
  fun a =>
    let i := wrap64 (a - dst) in
    if i <? n then m (wrap64 (src + i)) else m a.
Definition memclr (p n : Z) (m : Z -> Z) : Z -> Z :=
  fun a => if wrap64 (a - p) <? n then 0 else m a.
(** The [n] bytes at [p]. *)
Definition load (m : Z -> Z) (p : Z) (n : Z) : list Z :=
  List.map (fun i => m (wrap64 (p + Z.of_nat i))) (seq 0 (Z.to_nat n)).

(** [typedmemmove(typ, dst, src)] copies [typ.size] bytes. *)
Definition typedmemmove (typ : option Malloc._type) (dst src : Z) : M state unit :=
  match typ with
  | None => panic "nil pointer dereference"
  | Some t => modify (fun st => set_mem (memmove dst src (Malloc.tsize t) (mem st)) st)
  end.

(** [lock]/[unlock] (lock_futex.go, not among the sources): the mutex is
    taken and given back; taking a mutex that is held never returns. *)
Definition lockChan (c : Z) : M state unit :=
  do! h <- chanAt c;
  if lock h then lift OutOfFuel else updChan c (set_lock true).
Definition unlockChan (c : Z) : M state unit :=
  do! h <- chanAt c;
  if lock h then updChan c (set_lock false)
  else throw "unlock of unlocked lock".

(** [goready] (proc.go, not among the sources) makes the goroutine
    runnable: it joins the run queue. *)
Definition goready (gp : Z) : M state unit :=
  modify (fun st => set_runq (runq st ++ [gp]) st).

Definition cputicks : M state Z := fun st => (Ret (ticks st), st).

(** [chanbuf(c, i)]: the address of slot [i] of the buffer. *)
Definition chanbuf (h : hchan) (i : Z) : Z :=
  Malloc.add (buf h) (wrap64 (i * elemsize h)).

(** *** waitq *)

(** [(q *waitq) enqueue(sgp)], on the queue [d] of the channel [c]. *)
Definition enqueue (c : Z) (d : dir) (sgp : Z) : M state unit :=
  updSudog sgp (set_next 0);;
  do! h <- chanAt c;
  let x := last (getq d h) in
  if x =? 0 then
    updSudog sgp (set_prev 0);;
    updChan c (fun h => set_q d (mkWaitq sgp (last (getq d h))) h);;
    updChan c (fun h => set_q d (mkWaitq (first (getq d h)) sgp) h)
  else
    updSudog sgp (set_prev x);;
    updSudog x (set_next sgp);;
    updChan c (fun h => set_q d (mkWaitq (first (getq d h)) sgp) h).

(** [(q *waitq) dequeue()]; one unit of fuel per round of its [for]
    loop.  The compare-and-swap on a cell just read as 0 succeeds when no
    one else runs. *)
Fixpoint dequeueLoop (fuel : nat) (c : Z) (d : dir) : M state Z :=
  match fuel with
  | 0%nat => lift OutOfFuel
  | S fuel' =>
      do! h <- chanAt c;
      let sgp := first (getq d h) in
      if sgp =? 0 then ret 0 else
      do! sg <- sudogAt sgp;
      let y := next sg in
      (if y =? 0 then
         updChan c (fun h => set_q d (mkWaitq 0 (last (getq d h))) h);;
         updChan c (fun h => set_q d (mkWaitq (first (getq d h)) 0) h)
       else
         updSudog y (set_prev 0);;
         updChan c (fun h => set_q d (mkWaitq y (last (getq d h))) h);;
         updSudog sgp (set_next 0));;
      if negb (selectdone sg =? 0) then
        do! v <- cellAt (selectdone sg);
        if negb (v =? 0) then dequeueLoop fuel' c d
        else
          modify (fun st => set_cells (<[selectdone sg := 1]> (cells st)) st);;
          ret sgp
      else ret sgp
  end.

(** Each round unlinks a sudog, so the loop makes no more rounds than
    there are sudogs. *)
Definition dequeue (c : Z) (d : dir) : M state Z :=
  do! st <- get;
  dequeueLoop (S (size (sudogs st))) c d.

(** *** send *)

(** [syncsend(c, sg, elem)] *)
Definition syncsend (c sg ep : Z) : M state unit :=
  do! h <- chanAt c;
  do! s <- sudogAt sg;
  typedmemmove (elemtype h) (elem s) ep;;
  updSudog sg (set_elem 0).

(** The wake-up of a waiter: [if sg.releasetime != 0 \{ sg.releasetime =
    cputicks() \}; goready(gp, 3)]. *)
Definition wake (sg gp : Z) : M state unit :=
  do! s <- sudogAt sg;
  (if negb (releasetime s =? 0) then
     do! t <- cputicks;
     updSudog sg (set_releasetime t)
   else ret tt);;
  goready gp.

(** [acquireSudog] and [releaseSudog] (proc.go) are not among the sources:
    they hand out and take back sudog objects. *)
Class Sudogs : Type := {
  acquireSudog : M state Z;
  releaseSudog : Z -> M state unit
}.

Section Sched.
Context {SG : Sudogs}.

(** The sudog a blocking goroutine queues: [mysg.releasetime = 0] ([t0]
    is never assigned, so [if t0 != 0] is not taken), then the fields as
    the unbuffered ([sync]) and the buffered case set them; [ep] is
    [mysg.elem] in the unbuffered case.  In the buffered case [chanrecv]
    writes [elem] before [g] and [chansend] after it. *)
Definition newWaiter (ep : Z) (sync : bool) : M state Z :=
  do! st <- get;
  let gp := curg st in
  do! mysg <- acquireSudog;
  updSudog mysg (set_releasetime 0);;
  (if sync then
     updSudog mysg (set_elem ep);;
     updSudog mysg
       (fun s => mkSudog (g s) (selectdone s) (next s) (prev s) (elem s)
                         (releasetime s) 0);;
     updG gp (set_waiting mysg);;
     updSudog mysg
       (fun s => mkSudog gp (selectdone s) (next s) (prev s) (elem s)
                         (releasetime s) (waitlink s));;
     updSudog mysg
       (fun s => mkSudog (g s) 0 (next s) (prev s) (elem s)
                         (releasetime s) (waitlink s));;
     updG gp (set_param 0)
   else
     updSudog mysg
       (fun s => mkSudog gp (selectdone s) (next s) (prev s) (elem s)
                         (releasetime s) (waitlink s));;
     updSudog mysg (set_elem 0);;
     updSudog mysg
       (fun s => mkSudog (g s) 0 (next s) (prev s) (elem s)
                         (releasetime s) (waitlink s)));;
  ret mysg.

(** The buffered send from the head of its loop
    [for ...; c.qcount >= c.dataqsiz; ...], with [c.lock] held. *)
Definition sendAsync (c ep : Z) (block : bool) : M state (res bool) :=
  do! h <- chanAt c;
  if qcount h >=? dataqsiz h then
    if negb block then
      unlockChan c;;
      ret (Done false)
    else
      do! mysg <- newWaiter 0 false;
      enqueue c Sendq mysg;;
      unlockChan c;;
      ret (Parked "chan send")
  else
    typedmemmove (elemtype h) (chanbuf h (sendx h)) ep;;
    updChan c (fun h => set_sendx (wrap64 (sendx h + 1)) h);;
    do! h <- chanAt c;
    (if sendx h =? dataqsiz h then updChan c (set_sendx 0) else ret tt);;
    updChan c (fun h => set_qcount (wrap64 (qcount h + 1)) h);;
    do! sg <- dequeue c Recvq;
    (if negb (sg =? 0) then
       do! s <- sudogAt sg;
       unlockChan c;;
       wake sg (g s)
     else unlockChan c);;
    ret (Done true).

(** [chansend(t, c, ep, block, callerpc)] *)
Definition chansend (c ep : Z) (block : bool) : M state (res bool) :=
  if c =? 0 then
    if negb block then ret (Done false)
    else ret (Parked "chan send (nil chan)")
  else
  do! h <- chanAt c;
  if negb block && (closed h =? 0)
     && (((dataqsiz h =? 0) && (first (recvq h) =? 0))
         || ((dataqsiz h >? 0) && (qcount h =? dataqsiz h)))
  then ret (Done false) else
  lockChan c;;
  do! h <- chanAt c;
  if negb (closed h =? 0) then
    unlockChan c;;
    panic "send on closed channel"
  else
  if dataqsiz h =? 0 then
    do! sg <- dequeue c Recvq;
    if negb (sg =? 0) then
      unlockChan c;;
      do! s <- sudogAt sg;
      let recvg := g s in
      (if negb (elem s =? 0) then syncsend c sg ep else ret tt);;
      updG recvg (set_param sg);;
      wake sg recvg;;
      ret (Done true)
    else
    if negb block then
      unlockChan c;;
      ret (Done false)
    else
      do! mysg <- newWaiter ep true;
      enqueue c Sendq mysg;;
      unlockChan c;;
      ret (Parked "chan send")
  else sendAsync c ep block.


(** The code after the park of a blocking send on a buffered channel
    ("someone woke us up - try again"). *)
Definition chansend_rewoken (c ep mysg : Z) : M state (res bool) :=
  releaseSudog mysg;;
  lockChan c;;
  do! h <- chanAt c;
  if negb (closed h =? 0) then
    unlockChan c;;
    panic "send on closed channel"
  else sendAsync c ep true.

(** [chansend1]: entry point for [c <- x] from compiled code. *)
Definition chansend1 (c ep : Z) : M state (res bool) := chansend c ep true.

(** [selectnbsend]: [select \{ case c <- v: ... default: ... \}]. *)
Definition selectnbsend (c ep : Z) : M state (res bool) := chansend c ep false.

(** *** close *)

(** [for \{ sg := q.dequeue(); if sg == nil \{ break \}; gp := sg.g;
     sg.elem = nil; gp.param = nil; goready(gp, 3) \}] *)
Fixpoint releaseAll (fuel : nat) (c : Z) (d : dir) : M state unit :=
  match fuel with
  | 0%nat => lift OutOfFuel
  | S fuel' =>
      do! sg <- dequeue c d;
      if sg =? 0 then ret tt else
      do! s <- sudogAt sg;
      let gp := g s in
      updSudog sg (set_elem 0);;
      updG gp (set_param 0);;
      goready gp;;
      releaseAll fuel' c d
  end.

(** [closechan(c)] *)
Definition closechan (c : Z) : M state unit :=
  if c =? 0 then panic "close of nil channel" else
  lockChan c;;
  do! h <- chanAt c;
  if negb (closed h =? 0) then
    unlockChan c;;
    panic "close of closed channel"
  else
  updChan c (set_closed 1);;
  do! st <- get;
  releaseAll (S (size (sudogs st))) c Recvq;;
  releaseAll (S (size (sudogs st))) c Sendq;;
  unlockChan c.

Definition reflect_chanclose (c : Z) : M state unit := closechan c.

(** *** receive *)

(** [recvclosed(c, ep)] *)
Definition recvclosed (c ep : Z) : M state (bool * bool) :=
  unlockChan c;;
  (if negb (ep =? 0) then
     do! h <- chanAt c;
     modify (fun st => set_mem (memclr ep (elemsize h) (mem st)) st)
   else ret tt);;
  ret (true, false).

(** The buffered receive from the head of its loop
    [for ...; c.qcount <= 0; ...], with [c.lock] held. *)
Definition recvAsync (c ep : Z) (block : bool) : M state (res (bool * bool)) :=
  do! h <- chanAt c;
  if qcount h <=? 0 then
    if negb (closed h =? 0) then
      do! r <- recvclosed c ep;
      ret (Done r)
    else if negb block then
      unlockChan c;;
      ret (Done (false, false))
    else
      do! mysg <- newWaiter 0 false;
      enqueue c Recvq mysg;;
      unlockChan c;;
      ret (Parked "chan receive")
  else
    (if negb (ep =? 0)
     then typedmemmove (elemtype h) ep (chanbuf h (recvx h))
     else ret tt);;
    modify (fun st =>
      set_mem (memclr (chanbuf h (recvx h)) (elemsize h) (mem st)) st);;
    updChan c (fun h => set_recvx (wrap64 (recvx h + 1)) h);;
    do! h <- chanAt c;
    (if recvx h =? dataqsiz h then updChan c (set_recvx 0) else ret tt);;
    updChan c (fun h => set_qcount (wrap64 (qcount h - 1)) h);;
    do! sg <- dequeue c Sendq;
    (if negb (sg =? 0) then
       do! s <- sudogAt sg;
       unlockChan c;;
       wake sg (g s)
     else unlockChan c);;
    ret (Done (true, true)).

(** [chanrecv(t, c, ep, block)]: [(selected, received)]. *)
Definition chanrecv (c ep : Z) (block : bool) : M state (res (bool * bool)) :=
  if c =? 0 then
    if negb block then ret (Done (false, false))
    else ret (Parked "chan receive (nil chan)")
  else
  do! h <- chanAt c;
  if negb block
     && (((dataqsiz h =? 0) && (first (sendq h) =? 0))
         || ((dataqsiz h >? 0) && (qcount h =? 0)))
     && (closed h =? 0)
  then ret (Done (false, false)) else
  lockChan c;;
  do! h <- chanAt c;
  if dataqsiz h =? 0 then
    if negb (closed h =? 0) then
      do! r <- recvclosed c ep;
      ret (Done r)
    else
    do! sg <- dequeue c Sendq;
    if negb (sg =? 0) then
      unlockChan c;;
      do! s <- sudogAt sg;
      (if negb (ep =? 0) then typedmemmove (elemtype h) ep (elem s) else ret tt);;
      updSudog sg (set_elem 0);;
      let gp := g s in
      updG gp (set_param sg);;
      wake sg gp;;
      ret (Done (true, true))
    else
    if negb block then
      unlockChan c;;
      ret (Done (false, false))
    else
      do! mysg <- newWaiter ep true;
      enqueue c Recvq mysg;;
      unlockChan c;;
      ret (Parked "chan receive")
  else recvAsync c ep block.


(** The code after the park of a blocking receive on a buffered channel. *)
Definition chanrecv_rewoken (c ep mysg : Z) : M state (res (bool * bool)) :=
  releaseSudog mysg;;
  lockChan c;;
  recvAsync c ep true.

Definition chanrecv1 (c ep : Z) : M state (res (bool * bool)) := chanrecv c ep true.

(** [chanrecv2]: [_, received = chanrecv(t, c, elem, true)]. *)
Definition chanrecv2 (c ep : Z) : M state (res bool) :=
  do! r <- chanrecv c ep true;
  match r with
  | Done (_, received) => ret (Done received)
  | Parked why => ret (Parked why)
  end.

(** [selectnbrecv]: [selected, _ = chanrecv(t, c, elem, false)]. *)
Definition selectnbrecv (ep c : Z) : M state (res bool) :=
  do! r <- chanrecv c ep false;
  match r with
  | Done (selected, _) => ret (Done selected)
  | Parked why => ret (Parked why)
  end.

(** [selectnbrecv2]: [selected, *received = chanrecv(t, c, elem, false)]. *)
Definition selectnbrecv2 (ep c : Z) : M state (res (bool * bool)) :=
  chanrecv c ep false.

End Sched.

(** *** makechan *)

Section Makechan.
Context {H : Type} {RT : Malloc.Runtime H}.
(** The type descriptor the compiler passes for [new(hchan)]. *)
Context (hchanType : Malloc._type).

Definition inWorld {A} (m : M (Malloc.world H) A) : M (Malloc.world H * state) A :=
  fun s => let '(o, w) := m (fst s) in (o, (w, snd s)).
Definition inChans {A} (m : M state A) : M (Malloc.world H * state) A :=
  fun s => let '(o, st) := m (snd s) in (o, (fst s, st)).

(** Freshly allocated memory is zeroed: the new [hchan] has every field
    zero. *)
Definition zeroHchan : hchan :=
  mkHchan 0 0 0 0 0 None 0 0 (mkWaitq 0 0) (mkWaitq 0 0) false.

Definition set_buf (v : Z) (c : hchan) : hchan :=
  mkHchan (qcount c) (dataqsiz c) v (elemsize c) (closed c) (elemtype c) (sendx c) (recvx c)
          (recvq c) (sendq c) (lock c).

(** [makechan(t, size)]; [size] is an [int64]. *)
Definition makechan (t : chantype) (size : Z) : M (Malloc.world H * state) Z :=
  let elem_ := telem t in
  if Malloc.tsize elem_ >=? Z.shiftl 1 16
  then throw "makechan: invalid channel element type" else
  if negb (Z.rem hchanSize maxAlign =? 0) || (elemalign t >? maxAlign)
  then throw "makechan: bad alignment" else
  if (size <? 0)
     || negb (sint64 (wrap64 size) =? size)
     || ((Malloc.tsize elem_ >? 0)
         && (wrap64 size >? Z.quot (_MaxMem - hchanSize) (Malloc.tsize elem_)))
  then panic "makechan: size out of range" else
  do! c <-
    (if negb (Z.land (Malloc.kind elem_) Malloc.kindNoPointers =? 0) || (size =? 0)
     then
       do! c <- inWorld (Malloc.mallocgc
                  (wrap64 (hchanSize + wrap64 (wrap64 size * Malloc.tsize elem_)))
                  None flagNoScan);
       inChans (modify (fun st => set_chans (<[c := zeroHchan]> (chans st)) st));;
       (if (size >? 0) && negb (Malloc.tsize elem_ =? 0)
        then inChans (updChan c (set_buf (Malloc.add c hchanSize)))
        else inChans (updChan c (set_buf c)));;
       ret c
     else
       do! c <- inWorld (Entry.newobject hchanType);
       inChans (modify (fun st => set_chans (<[c := zeroHchan]> (chans st)) st));;
       do! b <- inWorld (Malloc.newarray elem_ (wrap64 size));
       inChans (updChan c (set_buf b));;
       ret c);
  inChans (updChan c (fun h =>
    mkHchan (qcount h) (dataqsiz h) (buf h) (wrap16 (Malloc.tsize elem_)) (closed h)
            (elemtype h) (sendx h) (recvx h) (recvq h) (sendq h) (lock h)));;
  inChans (updChan c (fun h =>
    mkHchan (qcount h) (dataqsiz h) (buf h) (elemsize h) (closed h)
            (Some elem_) (sendx h) (recvx h) (recvq h) (sendq h) (lock h)));;
  inChans (updChan c (fun h =>
    mkHchan (qcount h) (wrap64 size) (buf h) (elemsize h) (closed h)
            (elemtype h) (sendx h) (recvx h) (recvq h) (sendq h) (lock h)));;
  ret c.

Definition reflect_makechan (t : chantype) (size : Z) : M (Malloc.world H * state) Z :=
  makechan t size.

End Makechan.

(** *** Vocabulary of the statements *)

(** [wp m Q s]: the outcome and the final state of the run of [m] from
    [s] satisfy [Q]. *)
Definition wp {St A} (m : M St A) (Q : outcome A -> St -> Prop) (s : St) : Prop :=
  Q (fst (m s)) (snd (m s)).

(** A buffered channel between two operations: the element size is its
    type's, the counters are in range, [sendx] is [qcount] slots after
    [recvx], and the buffer lies in the address space. *)
Definition buffered (h : hchan) : bool :=
  match elemtype h with
  | Some t => Malloc.tsize t =? elemsize h
  | None => false
  end
  && (0 <=? elemsize h) && (0 <? dataqsiz h) && (dataqsiz h <? 2 ^ 64)
  && (0 <=? qcount h) && (qcount h <=? dataqsiz h)
  && (0 <=? recvx h) && (recvx h <? dataqsiz h)
  && (sendx h =? (recvx h + qcount h) mod dataqsiz h)
  && (0 <=? buf h) && (buf h <? 2 ^ 64)
  && (buf h + dataqsiz h * elemsize h <=? 2 ^ 64).

(** The element at [p] lies in the address space, outside the buffer. *)
Definition apart (h : hchan) (p : Z) : bool :=
  (0 <=? p) && (p + elemsize h <=? 2 ^ 64)
  && ((p + elemsize h <=? buf h) || (buf h + dataqsiz h * elemsize h <=? p)).

(** The channel after one more element went into, and came out of, the
    buffer. *)
Definition afterSend (h : hchan) : hchan :=
  set_qcount (qcount h + 1) (set_sendx ((sendx h + 1) mod dataqsiz h) h).
Definition afterRecv (h : hchan) : hchan :=
  set_qcount (qcount h - 1) (set_recvx ((recvx h + 1) mod dataqsiz h) h).

(** The elements in the buffer, oldest first. *)
Definition contents (st : state) (h : hchan) : list (list Z) :=
  List.map
    (fun i => load (mem st) (chanbuf h ((recvx h + Z.of_nat i) mod dataqsiz h))
                   (elemsize h))
    (seq 0 (Z.to_nat (qcount h))).

(** Zeroed bytes. *)
Definition zeros (n : Z) : list Z := List.map (fun _ => 0) (seq 0 (Z.to_nat n)).

(** The sudogs of [l] are linked through [next], in this order. *)
Fixpoint linked (sd : gmap Z sudog) (l : list Z) : bool :=
  match l with
  | [] => true
  | x :: l' =>
      negb (x =? 0)
      && match sd !! x with
         | Some s => next s =? hd 0 l'
         | None => false
         end
      && linked sd l'
  end.

(** The queue [q] holds the sudogs of [l], oldest first. *)
Definition isQueue (sd : gmap Z sudog) (q : waitq) (l : list Z) : bool :=
  (first q =? hd 0 l) && (last q =? List.last l 0) && linked sd l
  && bool_decide (NoDup l).

(** The sudog was queued by a [select] that has fired already: [dequeue]
    passes over it. *)
Definition fired (st : state) (x : Z) : bool :=
  match sudogs st !! x with
  | Some s =>
      negb (selectdone s =? 0)
      && match cells st !! selectdone s with
         | Some v => negb (v =? 0)
         | None => false
         end
  | None => false
  end.

(** The sudog can be woken: it was queued by a channel operation, or by
    a [select] that has not fired. *)
Definition waiting_on (st : state) (x : Z) : bool :=
  match sudogs st !! x with
  | Some s =>
      (selectdone s =? 0)
      || match cells st !! selectdone s with
         | Some v => v =? 0
         | None => false
         end
  | None => false
  end.

(** What a waiter carries: the fields of its sudog that the queue
    operations leave alone. *)
Definition payload (s : sudog) : Z * Z * Z * Z * Z :=
  (g s, selectdone s, elem s, releasetime s, waitlink s).
Definition sameWaiters (sd sd' : gmap Z sudog) : Prop :=
  forall y, payload <$> (sd' !! y) = payload <$> (sd !! y).

(** The cells once the sudog [x] is claimed. *)
Definition claim (st : state) (x : Z) : gmap Z Z :=
  match sudogs st !! x with
  | Some s => if selectdone s =? 0 then cells st else <[selectdone s := 1]> (cells st)
  | None => cells st
  end.

(** The sudogs of [l] were queued by channel operations: none belongs to
    a [select]. *)
Definition plain (sd : gmap Z sudog) (l : list Z) : bool :=
  forallb (fun x => match sd !! x with
                    | Some s => selectdone s =? 0
                    | None => false
                    end) l.

(** The goroutines of the sudogs of [l]. *)
Definition goroutines (sd : gmap Z sudog) (l : list Z) : list Z :=
  List.map (fun x => match sd !! x with Some s => g s | None => 0 end) l.

(** The goroutines of the sudogs of [l] exist. *)
Definition alive (st : state) (l : list Z) : bool :=
  forallb (fun gp => match gs st !! gp with Some _ => true | None => false end)
          (goroutines (sudogs st) l).

(** Who waits: the goroutine of a sudog and its [select]. *)
Definition owner (s : sudog) : Z * Z := (g s, selectdone s).
Definition sameOwners (sd sd' : gmap Z sudog) : Prop :=
  forall y, owner <$> (sd' !! y) = owner <$> (sd !! y).

(** The scheduler runs the goroutine [gp]. *)
Definition set_curg (gp : Z) (st : state) : state :=
  mkState (chans st) (sudogs st) (gs st) (mem st) (cells st) (runq st) gp (ticks st).

(** A supply of sudogs that hands out the one at [p]: enough for one
    blocked goroutine. *)
Definition oneSudog (p : Z) : Sudogs :=
  {| acquireSudog := ret p; releaseSudog := fun _ => ret tt |}.

(** [st'] is [st] but for the queue [d] of the channel [c], which holds
    [rest], and the links of the sudogs of [l]. *)
Definition requeued (c : Z) (d : dir) (h : hchan) (l rest : list Z)
    (st st' : state) : Prop :=
  (exists q', chans st' = <[c := set_q d q' h]> (chans st) /\
              isQueue (sudogs st') q' rest = true) /\
  sameWaiters (sudogs st) (sudogs st') /\
  (forall y, y ∉ l -> sudogs st' !! y = sudogs st !! y) /\
  gs st' = gs st /\ mem st' = mem st /\ runq st' = runq st /\
  curg st' = curg st /\ ticks st' = ticks st.

(** *** Example states *)

(** A memory whose bytes at 2000 .. 2255 are 1, 2, 3, ... *)
Definition exMem : Z -> Z :=
  fun a => if (2000 <=? a) && (a <? 2256) then a - 1999 else 0.

(** A 4-byte element type without pointers. *)
Definition exType : Malloc._type := Malloc.mkType 4 0 (Z.shiftl 1 7).

(** A channel of three such elements, its buffer at 1000. *)
Definition exBuffered (qc sx rx cl : Z) : hchan :=
  mkHchan qc 3 1000 4 cl (Some exType) sx rx (mkWaitq 0 0) (mkWaitq 0 0) false.

(** An unbuffered channel of such elements with the receivers [rq]
    waiting. *)
Definition exUnbuffered (rq : waitq) : hchan :=
  mkHchan 0 0 100 4 0 (Some exType) 0 0 rq (mkWaitq 0 0) false.

(** The channel [h] at 100, goroutines 7 (running) and 8, and the sudogs
    [sd]. *)
Definition exState (h : hchan) (sd : gmap Z sudog) (ce : gmap Z Z) : state :=
  mkState {[ 100 := h ]} sd {[ 7 := mkG 0 0; 8 := mkG 0 0 ]} exMem ce [] 7 0.

(** Two sudogs: 500, of goroutine 7, followed by 501, of goroutine 8;
    500 belongs to a [select] when [sel] is not nil. *)
Definition exSudogs (sel next500 : Z) : gmap Z sudog :=
  {[ 500 := mkSudog 7 sel next500 0 0 0 0; 501 := mkSudog 8 0 0 0 0 0 0 ]}.

End Chan.

(** * Proofs *)

Lemma initSizes_ok : Msize.initSizes = Ret sizeTables.
Proof. vm_compute. reflexivity. Qed.

Lemma range_all_nat (f : Z -> bool) (n : nat) :
  forall z, range_all f z n = true ->
  forall x, z <= x < z + Z.of_nat n -> f x = true.
Proof.
  induction n as [|n IH]; intros z Hall x Hx.
  - lia.
  - simpl in Hall. apply andb_prop in Hall as [Hz Hrest].
    destruct (Z.eq_dec x z) as [->|Hne]; [exact Hz|].
    apply (IH (z + 1) Hrest). lia.
Qed.

Lemma range_all_spec (f : Z -> bool) (z len x : Z) :
  range_all f z (Z.to_nat len) = true -> z <= x < z + len -> f x = true.
Proof.
  intros Hall Hx. apply (range_all_nat f (Z.to_nat len) z Hall).
  rewrite Z2Nat.id; lia.
Qed.

Lemma c1_all : range_all (c1_ok sizeTables) 1 (Z.to_nat 32768) = true.
Proof. vm_compute. reflexivity. Qed.

(** C1, as stated, fails at request size 17: [sizeToClass(17)] is class 3
    of 32 bytes, while [ceil(17 * 1.125) = 20] rounded up to the 8-byte
    granularity is 24. *)
Lemma C1_counterexample :
  classSize sizeTables 17 = Ret 32 /\ wasteBound 17 = 24 /\ ~ (32 <= wasteBound 17).
Proof. repeat split; vm_compute; congruence. Qed.

(** C1 (amended): for every request size [s] in [1, 32768], [sizeToClass]
    returns the smallest class whose object size covers [s]
    ([class_to_size[c-1] < s <= class_to_size[c]]); the object size stays
    within [ceil(s * 1.125)] rounded up to the lookup granularity exactly
    when [s] is outside the fifteen intervals of [wasteGaps], and within
    [2 * s] rounded up to 8 bytes always. *)
Theorem C1_class_covers (s : Z) :
  1 <= s <= maxSmallSize ->
  exists c sz prev,
    Msize.sizeToClass sizeTables s = Ret c /\ 1 <= c < _NumSizeClasses /\
    index (Msize.class_to_size sizeTables) c = Ret sz /\
    index (Msize.class_to_size sizeTables) (c - 1) = Ret prev /\
    prev < s <= sz /\
    (sz <= wasteBound s <-> inGaps s = false) /\
    sz <= roundUpTo (2 * s) 8.
Proof.
  intros Hs.
  assert (Hok : c1_ok sizeTables s = true).
  { apply (range_all_spec _ 1 32768 s c1_all). change maxSmallSize with 32768 in Hs. lia. }
  unfold c1_ok in Hok.
  destruct (Msize.sizeToClass sizeTables s) as [c| | |] eqn:Ec; try discriminate.
  destruct (index (Msize.class_to_size sizeTables) c) as [sz| | |] eqn:Esz; try discriminate.
  destruct (index (Msize.class_to_size sizeTables) (c - 1)) as [prev| | |] eqn:Eprev;
    try discriminate.
  repeat (apply andb_prop in Hok as [Hok ?]).
  match goal with Hb : eqb _ _ = true |- _ => apply eqb_prop in Hb; rename Hb into Hgap end.
  exists c, sz, prev.
  split; [reflexivity|]. split; [lia|]. split; [exact Esz|]. split; [exact Eprev|].
  split; [lia|]. split; [|lia].
  split.
  - intros Hle. apply Z.leb_le in Hle. rewrite Hle in Hgap.
    destruct (inGaps s); [discriminate | reflexivity].
  - intros Hg. rewrite Hg in Hgap. apply Z.leb_le. exact Hgap.
Qed.

Lemma C1_class_covers_witness :
  1 <= 5000 <= maxSmallSize /\
  exists c sz prev,
    Msize.sizeToClass sizeTables 5000 = Ret c /\ 1 <= c < _NumSizeClasses /\
    index (Msize.class_to_size sizeTables) c = Ret sz /\
    index (Msize.class_to_size sizeTables) (c - 1) = Ret prev /\
    prev < 5000 <= sz /\
    (sz <= wasteBound 5000 <-> inGaps 5000 = false) /\
    sz <= roundUpTo (2 * 5000) 8.
Proof.
  assert (Hs : 1 <= 5000 <= maxSmallSize) by (vm_compute; split; discriminate).
  split; [exact Hs | exact (C1_class_covers 5000 Hs)].
Defined.

Lemma c2_all : range_all (c2_ok sizeTables) 1 (Z.to_nat 66) = true.
Proof. vm_compute. reflexivity. Qed.

(** C2: for every class [c] in [1, 66], classifying the class's own object
    size gives the class back: [sizeToClass(class_to_size[c]) = c]. *)
Theorem C2_classify_idempotent (c : Z) :
  1 <= c <= 66 ->
  exists sz, index (Msize.class_to_size sizeTables) c = Ret sz /\
             Msize.sizeToClass sizeTables sz = Ret c.
Proof.
  intros Hc.
  assert (Hok : c2_ok sizeTables c = true).
  { apply (range_all_spec _ 1 66 c c2_all). lia. }
  unfold c2_ok in Hok.
  destruct (index (Msize.class_to_size sizeTables) c) as [sz| | |] eqn:Esz; try discriminate.
  destruct (Msize.sizeToClass sizeTables sz) as [c'| | |] eqn:Ec; try discriminate.
  apply Z.eqb_eq in Hok. subst c'. exists sz. split; [reflexivity | exact Ec].
Qed.

Lemma C2_classify_idempotent_witness :
  1 <= 31 <= 66 /\
  exists sz, index (Msize.class_to_size sizeTables) 31 = Ret sz /\
             Msize.sizeToClass sizeTables sz = Ret 31.
Proof.
  assert (Hc : 1 <= 31 <= 66) by lia.
  split; [exact Hc | exact (C2_classify_idempotent 31 Hc)].
Defined.

Lemma divMagic_eqb_eq a b : divMagic_eqb a b = true -> a = b.
Proof.
  destruct a, b. unfold divMagic_eqb. simpl. intros Hb.
  repeat (apply andb_prop in Hb as [Hb ?]).
  f_equal; apply Z.eqb_eq; assumption.
Qed.

Lemma magic_quotient (d1 k mul e q : Z) :
  0 < d1 -> 0 <= k -> mul * d1 = 2 ^ k + e -> 0 <= e < d1 ->
  0 <= q -> q * e < 2 ^ k ->
  (q * mul) / 2 ^ k = q / d1.
Proof.
  intros Hd Hk Hmul He Hq Hqe.
  assert (Hpow : 0 < 2 ^ k) by (apply Z.pow_pos_nonneg; lia).
  pose proof (Z.div_mod q d1 ltac:(lia)) as Hdm.
  pose proof (Z.mod_pos_bound q d1 Hd) as Hr.
  set (a := q / d1) in *. set (r := q mod d1) in *.
  assert (Ha : 0 <= a) by (apply Z.div_pos; lia).
  assert (Hmulpos : 0 < mul) by nia.
  symmetry. apply (Z.div_unique (q * mul) (2 ^ k) a (a * e + r * mul)).
  - left. split; [nia|].
    assert (d1 * (a * e + r * mul) < d1 * 2 ^ k); [|nia].
    replace (d1 * (a * e + r * mul)) with (e * q + r * 2 ^ k) by (rewrite Hdm; nia).
    nia.
  - rewrite Hdm. nia.
Qed.

Lemma wrap64_small z : 0 <= z < 2 ^ 64 -> wrap64 z = z.
Proof. intros Hz. unfold wrap64. apply Z.mod_small. exact Hz. Qed.

Lemma mask_rounds_down (sh n : Z) :
  0 <= sh -> 0 <= n < 2 ^ 64 ->
  Z.land n (wrap64 (Z.lnot (2 ^ sh - 1))) = n / 2 ^ sh * 2 ^ sh.
Proof.
  intros Hsh Hn. unfold wrap64.
  rewrite <- (Z.land_ones _ 64) by lia.
  replace (2 ^ sh - 1) with (Z.ones sh) by (rewrite Z.ones_equiv; lia).
  rewrite (Z.land_comm (Z.lnot _)), Z.land_assoc.
  rewrite (Z.land_ones n 64) by lia.
  rewrite (Z.mod_small n) by exact Hn.
  rewrite <- Z.ldiff_land, Z.ldiff_ones_r by exact Hsh.
  rewrite Z.shiftr_div_pow2, Z.shiftl_mul_pow2 by exact Hsh. reflexivity.
Qed.

Lemma magic_ok_exact (d cap : Z) (m : Msize.divMagic) (n : Z) :
  magic_ok d cap m = true -> 0 <= n < cap ->
  magicDiv m n = n / d /\
  (isPow2 d = true -> Z.land n (Msize.baseMask m) = n / d * d).
Proof.
  unfold magic_ok. intros Hok Hn.
  repeat (apply andb_prop in Hok as [Hok ?]).
  set (sh := Msize.shift m) in *. set (k := Msize.shift2 m) in *.
  set (d1 := d / 2 ^ sh) in *. set (mu := Msize.mul m) in *.
  assert (Hsh : 0 <= sh) by lia. assert (Hk : 0 <= k) by lia.
  assert (Hp : 0 < 2 ^ sh) by (apply Z.pow_pos_nonneg; lia).
  assert (Hpk : 0 < 2 ^ k) by (apply Z.pow_pos_nonneg; lia).
  assert (Hd1 : 0 < d1) by lia.
  assert (Hd : d = 2 ^ sh * d1) by lia.
  assert (Hq : 0 <= n / 2 ^ sh <= n).
  { split; [apply Z.div_pos; lia|]. apply Z.div_le_upper_bound; nia. }
  assert (Hmu : 0 < mu) by nia.
  split.
  - unfold magicDiv. fold sh k mu.
    rewrite (Z.shiftr_div_pow2 n sh) by exact Hsh.
    rewrite wrap64_small by nia.
    rewrite Z.shiftr_div_pow2 by exact Hk.
    rewrite (magic_quotient d1 k mu (mu * d1 - 2 ^ k)); try lia; try nia.
    rewrite Hd. rewrite Z.div_div by lia. reflexivity.
  - intros Hpow. rewrite Hpow in H.
    apply andb_prop in H as [Hone Hbm].
    apply Z.eqb_eq in Hone, Hbm. rewrite Hbm.
    rewrite mask_rounds_down by lia.
    rewrite Hd, Hone, Z.mul_1_r. reflexivity.
Qed.

Lemma c7_all : range_all (c7_ok sizeTables) 1 (Z.to_nat 66) = true.
Proof. vm_compute. reflexivity. Qed.

(** C7: for every class [c] in [1, 66], with [d = class_to_size[c]] and
    [m = computeDivMagic(d)] (the entry [class_to_divmagic[c]]), every
    offset [n] below the byte capacity of the class's page run satisfies
    [((n >> m.shift) * m.mul) >> m.shift2 = n / d], and when [d] is a
    power of two, [n & m.baseMask = (n / d) * d]. *)
Theorem C7_divmagic_exact (c : Z) :
  1 <= c <= 66 ->
  exists d np m,
    index (Msize.class_to_size sizeTables) c = Ret d /\
    index (Msize.class_to_allocnpages sizeTables) c = Ret np /\
    Msize.computeDivMagic d = Ret m /\
    index (Msize.class_to_divmagic sizeTables) c = Ret m /\
    forall n, 0 <= n < np * _PageSize ->
      magicDiv m n = n / d /\
      (isPow2 d = true -> Z.land n (Msize.baseMask m) = n / d * d).
Proof.
  intros Hc.
  assert (Hok : c7_ok sizeTables c = true).
  { apply (range_all_spec _ 1 66 c c7_all). lia. }
  unfold c7_ok in Hok.
  destruct (index (Msize.class_to_size sizeTables) c) as [d| | |] eqn:Ed; try discriminate.
  destruct (index (Msize.class_to_allocnpages sizeTables) c) as [np| | |] eqn:Enp;
    try discriminate.
  destruct (index (Msize.class_to_divmagic sizeTables) c) as [m| | |] eqn:Em;
    try discriminate.
  destruct (Msize.computeDivMagic d) as [m'| | |] eqn:Ecm; try discriminate.
  apply andb_prop in Hok as [Heq Hmagic]. apply andb_prop in Heq as [_ Heq].
  apply divMagic_eqb_eq in Heq. subst m'.
  exists d, np, m. repeat (split; [assumption || reflexivity|]).
  intros n Hn. apply (magic_ok_exact d (np * _PageSize) m n Hmagic Hn).
Qed.

Lemma C7_divmagic_exact_witness :
  1 <= 4 <= 66 /\
  exists d np m,
    index (Msize.class_to_size sizeTables) 4 = Ret d /\
    index (Msize.class_to_allocnpages sizeTables) 4 = Ret np /\
    Msize.computeDivMagic d = Ret m /\
    index (Msize.class_to_divmagic sizeTables) 4 = Ret m /\
    forall n, 0 <= n < np * _PageSize ->
      magicDiv m n = n / d /\
      (isPow2 d = true -> Z.land n (Msize.baseMask m) = n / d * d).
Proof.
  assert (Hc : 1 <= 4 <= 66) by lia.
  split; [exact Hc | exact (C7_divmagic_exact 4 Hc)].
Defined.

(** C10: for every size in [1, 32768] the classification spelled out
    inline in [mallocgc] gives what [sizeToClass] gives; sizes in
    (1016, 1024] go through entry 0 of the 128-byte array in both and get
    class 31, of 1024 bytes. *)
Theorem C10_inline_classification (s : Z) :
  1 <= s <= maxSmallSize ->
  Malloc.smallSizeclass sizeTables s = Msize.sizeToClass sizeTables s /\
  (1016 < s <= 1024 ->
   Malloc.smallSizeclass sizeTables s = index (Msize.size_to_class128 sizeTables) 0 /\
   Msize.sizeToClass sizeTables s = index (Msize.size_to_class128 sizeTables) 0 /\
   index (Msize.size_to_class128 sizeTables) 0 = Ret 31 /\
   index (Msize.class_to_size sizeTables) 31 = Ret 1024).
Proof.
  intros Hs. change maxSmallSize with 32768 in Hs.
  unfold Malloc.smallSizeclass, Msize.sizeToClass.
  change _MaxSmallSize with 32768. change (1024 - 8) with 1016.
  destruct (Z.gtb_spec s 32768) as [Hbig|_]; [lia|].
  destruct (Z.leb_spec s 1016) as [Hle|Hgt].
  - destruct (Z.gtb_spec s 1016) as [?|_]; [lia|].
    rewrite (wrap64_small (s + 7)) by lia. split; [reflexivity | lia].
  - destruct (Z.gtb_spec s 1016) as [_|?]; [|lia].
    assert (Hw : wrap64 (wrap64 (s - 1024) + 127) = s - 1024 + 127).
    { unfold wrap64. rewrite Zplus_mod_idemp_l. apply Z.mod_small. lia. }
    rewrite Hw. split; [reflexivity|].
    intros Hb.
    assert (Hz : Z.shiftr (s - 1024 + 127) 7 = 0).
    { rewrite Z.shiftr_div_pow2 by lia. apply Z.div_small. lia. }
    rewrite Hz. repeat split; reflexivity.
Qed.

Lemma C10_inline_classification_witness :
  1 <= 1020 <= maxSmallSize /\
  Malloc.smallSizeclass sizeTables 1020 = Msize.sizeToClass sizeTables 1020 /\
  (1016 < 1020 <= 1024 ->
   Malloc.smallSizeclass sizeTables 1020 = index (Msize.size_to_class128 sizeTables) 0 /\
   Msize.sizeToClass sizeTables 1020 = index (Msize.size_to_class128 sizeTables) 0 /\
   index (Msize.size_to_class128 sizeTables) 0 = Ret 31 /\
   index (Msize.class_to_size sizeTables) 31 = Ret 1024).
Proof.
  assert (Hs : 1 <= 1020 <= maxSmallSize) by (vm_compute; split; discriminate).
  split; [exact Hs | exact (C10_inline_classification 1020 Hs)].
Defined.

(** * malloc.go: the allocation paths *)

Module MallocFacts.
Import Malloc.

Ltac run :=
  cbv beta iota zeta delta
    [bind ret throw panic lift get modify
     Malloc.acquirem Malloc.releasem Malloc.modifyCache Malloc.onHeap
     Malloc.tinyAlloc Malloc.smallAlloc
     Malloc.set_mallocing Malloc.set_locks Malloc.set_cache Malloc.set_heap
     Malloc.set_tiny Malloc.set_tinyoffset Malloc.set_local_tinyallocs
     Malloc.set_local_cachealloc Malloc.set_local_scan Malloc.set_alloc
     Malloc.mallocing Malloc.locks Malloc.onGsignal Malloc.cache Malloc.heap
     Malloc.local_cachealloc Malloc.local_scan Malloc.tiny Malloc.tinyoffset
     Malloc.local_tinyallocs Malloc.alloc negb].

Ltac run_in Hyp :=
  cbv beta iota zeta delta
    [bind ret throw panic lift get modify
     Malloc.acquirem Malloc.releasem Malloc.modifyCache Malloc.onHeap
     Malloc.tinyAlloc Malloc.smallAlloc
     Malloc.set_mallocing Malloc.set_locks Malloc.set_cache Malloc.set_heap
     Malloc.set_tiny Malloc.set_tinyoffset Malloc.set_local_tinyallocs
     Malloc.set_local_cachealloc Malloc.set_local_scan Malloc.set_alloc
     Malloc.mallocing Malloc.locks Malloc.onGsignal Malloc.cache Malloc.heap
     Malloc.local_cachealloc Malloc.local_scan Malloc.tiny Malloc.tinyoffset
     Malloc.local_tinyallocs Malloc.alloc negb] in Hyp.

Section MallocFacts.
Context {H : Type} {RT : Runtime H}.

Lemma tiny_cond (size flags : Z) :
  0 < size < maxTinySize -> Z.land flags flagNoScan <> 0 ->
  (size =? 0) = false /\ (size <=? maxSmallSize) = true /\
  (negb (Z.land flags flagNoScan =? 0) && (size <? maxTinySize)) = true.
Proof.
  intros Hs Hf. change maxTinySize with 16 in *. change maxSmallSize with 32768.
  repeat split.
  - apply Z.eqb_neq. lia.
  - apply Z.leb_le. lia.
  - apply andb_true_intro. split.
    + apply negb_true_iff, Z.eqb_neq. exact Hf.
    + apply Z.ltb_lt. lia.
Qed.

Lemma mallocgc_tiny_fit (w : world H) size typ flags :
  0 < size < maxTinySize -> Z.land flags flagNoScan <> 0 ->
  mallocing w = 0 -> onGsignal w = false ->
  tinyFits (cache w) size = true ->
  mallocgc size typ flags w =
  (Ret (add (tiny (cache w)) (tinyAlign (tinyoffset (cache w)) size)),
   left (set_cache
     (set_local_tinyallocs (wrap64 (local_tinyallocs (cache w) + 1))
        (set_tinyoffset (wrap64 (tinyAlign (tinyoffset (cache w)) size + size)) (cache w)))
     (entered w))).
Proof.
  intros Hs Hf Hm Hg Hfit.
  destruct (tiny_cond size flags Hs Hf) as (E0 & E1 & E2).
  destruct w as [m l g [lca ls t toff lta al] h]. cbn in Hm, Hg, Hfit. subst m g.
  unfold mallocgc. rewrite E0, E1, E2. run. change (0 =? 0) with true. run.
  rewrite Hfit. reflexivity.
Qed.
Lemma index_store {A} (a : list A) (i : Z) (x y : A) :
  index a i = Ret x -> store a i y = Ret (<[Z.to_nat i := y]> a).
Proof.
  unfold index, store. destruct (Z.leb_spec 0 i) as [Hi|Hi]; [|discriminate].
  destruct (a !! Z.to_nat i) eqn:Ea; [|discriminate]. intros _.
  apply lookup_lt_Some in Ea.
  destruct (Z.ltb_spec i (Z.of_nat (length a))) as [_|Hge]; [reflexivity | lia].
Qed.

Lemma popSlot_ret cls s (w : world H) x w1 :
  popSlot cls s w = (Ret x, w1) ->
  x <> 0 /\ sameBut_alloc w w1 /\ heap w1 = heap w.
Proof.
  unfold popSlot. destruct (freelist s) as [|v next]; [discriminate|].
  destruct (Z.eqb_spec v 0) as [?|Hv]; [discriminate|].
  destruct w as [m l g [lca ls t toff lta al] h]. run.
  match goal with |- context [store ?a ?i ?y] =>
    destruct (store a i y) as [a'| | |]; try discriminate end.
  intros [= <- <-]. unfold sameBut_alloc. cbn. auto 10.
Qed.

Lemma nextFree_ret cls (w : world H) x w1 :
  nextFree cls w = (Ret x, w1) -> x <> 0 /\ sameBut_alloc w w1.
Proof.
  unfold nextFree. destruct w as [m l g [lca ls t toff lta al] h]. run.
  destruct (index al cls) as [s| | |]; try discriminate.
  destruct (isNil (freelist s)).
  - destruct (mCache_Refill cls s h) as [[s'| | |] h']; try discriminate.
    destruct (store al cls s') as [a| | |]; try discriminate.
    intros Hp. apply popSlot_ret in Hp as (Hx & Hsame & _).
    split; [exact Hx|]. exact Hsame.
  - intros Hp. apply popSlot_ret in Hp as (Hx & Hsame & _). auto.
Qed.

(** With a free object at hand the pop succeeds without a refill. *)
Lemma nextFree_ready cls (w : world H) s :
  index (alloc (cache w)) cls = Ret s -> isNil (freelist s) = false ->
  exists v next, freelist s = v :: next /\ v <> 0 /\
    nextFree cls w =
    (Ret v, set_cache (set_alloc
       (<[Z.to_nat cls := set_ref (wrap16 (ref s + 1)) (set_freelist next s)]> (alloc (cache w)))
       (cache w)) w).
Proof.
  intros Hi Hn. destruct (freelist s) as [|v next] eqn:Efl; [discriminate|].
  cbn in Hn. apply Z.eqb_neq in Hn.
  exists v, next. split; [reflexivity|]. split; [exact Hn|].
  unfold nextFree. destruct w as [m l g [lca ls t toff lta al] h]. cbn in Hi. run. rewrite Hi.
  rewrite Efl. cbn [isNil]. destruct (Z.eqb_spec v 0) as [?|_]; [contradiction|].
  unfold popSlot. rewrite Efl. destruct (Z.eqb_spec v 0) as [?|_]; [contradiction|].
  run. rewrite (index_store _ _ _ _ Hi). reflexivity.
Qed.

Lemma mallocgc_tiny_slot (w : world H) size typ flags x w1 :
  0 < size < maxTinySize -> Z.land flags flagNoScan <> 0 ->
  mallocing w = 0 -> onGsignal w = false ->
  tinyFits (cache w) size = false ->
  nextFree tinySizeClass (entered w) = (Ret x, w1) ->
  mallocgc size typ flags w =
  (Ret x,
   left (set_cache
     (let c1 := if size <? tinyoffset (cache w1)
                then set_tiny x size (cache w1) else cache w1 in
      set_local_cachealloc (wrap64 (local_cachealloc c1 + maxTinySize)) c1)
     w1)).
Proof.
  intros Hs Hf Hm Hg Hfit Hnf.
  destruct (tiny_cond size flags Hs Hf) as (E0 & E1 & E2).
  destruct w as [m l g [lca ls t toff lta al] h]. cbn in Hm, Hg, Hfit. subst m g.
  unfold entered in Hnf. run_in Hnf.
  unfold mallocgc. rewrite E0, E1, E2. run. change (0 =? 0) with true. run.
  rewrite Hfit. rewrite Hnf.
  destruct w1 as [m1 l1 g1 [lca1 ls1 t1 toff1 lta1 al1] h1]. run.
  destruct (size <? toff1); run;
    (destruct (Z.eqb_spec (Z.land flags flagNoScan) 0) as [?|_]; [contradiction|]);
    reflexivity.
Qed.

(** *** Arithmetic of the tiny layout *)

Lemma alignUp_bounds n a : 0 < a -> n <= alignUp n a <= n + a - 1.
Proof.
  intros Ha. unfold alignUp.
  pose proof (Z.div_mod (n + a - 1) a ltac:(lia)) as Hdm.
  pose proof (Z.mod_pos_bound (n + a - 1) a Ha) as Hr. nia.
Qed.

Lemma alignUp_mono n1 n2 a : 0 < a -> n1 <= n2 -> alignUp n1 a <= alignUp n2 a.
Proof.
  intros Ha Hn. unfold alignUp.
  apply Z.mul_le_mono_nonneg_r; [lia|]. apply Z.div_le_mono; lia.
Qed.

Lemma tinyPad_bounds off size : off <= tinyPad off size <= off + 7.
Proof.
  unfold tinyPad.
  destruct (Z.land size 7 =? 0); [pose proof (alignUp_bounds off 8); lia|].
  destruct (Z.land size 3 =? 0); [pose proof (alignUp_bounds off 4); lia|].
  destruct (Z.land size 1 =? 0); [pose proof (alignUp_bounds off 2); lia|].
  lia.
Qed.

Lemma tinyPad_mono o1 o2 size : o1 <= o2 -> tinyPad o1 size <= tinyPad o2 size.
Proof.
  intros Ho. unfold tinyPad.
  destruct (Z.land size 7 =? 0); [apply alignUp_mono; lia|].
  destruct (Z.land size 3 =? 0); [apply alignUp_mono; lia|].
  destruct (Z.land size 1 =? 0); [apply alignUp_mono; lia|].
  exact Ho.
Qed.

Lemma tinyAlign_tinyPad off size :
  0 <= off <= 2 ^ 63 -> tinyAlign off size = tinyPad off size.
Proof.
  intros Ho. unfold tinyAlign, tinyPad, round. fold (alignUp off 8).
  fold (alignUp off 4). fold (alignUp off 2).
  pose proof (alignUp_bounds off 8). pose proof (alignUp_bounds off 4).
  pose proof (alignUp_bounds off 2).
  destruct (Z.land size 7 =? 0); [apply Z.mod_small; lia|].
  destruct (Z.land size 3 =? 0); [apply Z.mod_small; lia|].
  destruct (Z.land size 1 =? 0); [apply Z.mod_small; lia|].
  reflexivity.
Qed.

Lemma packedEnd_ge sizes : forall off,
  Forall tinySize sizes -> off <= packedEnd off sizes.
Proof.
  induction sizes as [|sz rest IH]; intros off Hall; cbn [packedEnd]; [lia|].
  inversion Hall as [|? ? Hsz Hrest]; subst.
  specialize (IH (tinyPad off sz + sz) Hrest).
  pose proof (tinyPad_bounds off sz). unfold tinySize in Hsz. lia.
Qed.

Lemma packedEnd_mono sizes : forall o1 o2,
  o1 <= o2 -> packedEnd o1 sizes <= packedEnd o2 sizes.
Proof.
  induction sizes as [|sz rest IH]; intros o1 o2 Ho; cbn [packedEnd]; [exact Ho|].
  apply IH. pose proof (tinyPad_mono o1 o2 sz Ho). lia.
Qed.

Lemma mallocgc_tiny_slot_inv (w : world H) size typ flags x w2 :
  0 < size < maxTinySize -> Z.land flags flagNoScan <> 0 ->
  mallocing w = 0 -> onGsignal w = false ->
  tinyFits (cache w) size = false ->
  mallocgc size typ flags w = (Ret x, w2) ->
  exists w1, nextFree tinySizeClass (entered w) = (Ret x, w1) /\
    w2 = left (set_cache
     (let c1 := if size <? tinyoffset (cache w1)
                then set_tiny x size (cache w1) else cache w1 in
      set_local_cachealloc (wrap64 (local_cachealloc c1 + maxTinySize)) c1)
     w1).
Proof.
  intros Hs Hf Hm Hg Hfit Hrun.
  destruct (nextFree tinySizeClass (entered w)) as [[x1| | |] w1] eqn:Hnf.
  - rewrite (mallocgc_tiny_slot w size typ flags x1 w1 Hs Hf Hm Hg Hfit Hnf) in Hrun.
    injection Hrun as <- <-. exists w1. split; reflexivity.
  - exfalso. destruct (tiny_cond size flags Hs Hf) as (E0 & E1 & E2).
    destruct w as [m l g [lca ls t toff lta al] h]. cbn in Hm, Hg, Hfit. subst m g.
    unfold entered in Hnf. run_in Hnf.
    unfold mallocgc in Hrun. rewrite E0, E1, E2 in Hrun. run_in Hrun.
    change (0 =? 0) with true in Hrun. run_in Hrun.
    rewrite Hfit, Hnf in Hrun. discriminate.
  - exfalso. destruct (tiny_cond size flags Hs Hf) as (E0 & E1 & E2).
    destruct w as [m l g [lca ls t toff lta al] h]. cbn in Hm, Hg, Hfit. subst m g.
    unfold entered in Hnf. run_in Hnf.
    unfold mallocgc in Hrun. rewrite E0, E1, E2 in Hrun. run_in Hrun.
    change (0 =? 0) with true in Hrun. run_in Hrun.
    rewrite Hfit, Hnf in Hrun. discriminate.
  - exfalso. destruct (tiny_cond size flags Hs Hf) as (E0 & E1 & E2).
    destruct w as [m l g [lca ls t toff lta al] h]. cbn in Hm, Hg, Hfit. subst m g.
    unfold entered in Hnf. run_in Hnf.
    unfold mallocgc in Hrun. rewrite E0, E1, E2 in Hrun. run_in Hrun.
    change (0 =? 0) with true in Hrun. run_in Hrun.
    rewrite Hfit, Hnf in Hrun. discriminate.
Qed.

Lemma flagNoScan_set : Z.land flagNoScan flagNoScan <> 0.
Proof. discriminate. Qed.

Lemma tinyFits_packed (c : mcache) size rest :
  tiny c <> 0 -> 0 <= tinyoffset c -> tinySize size -> Forall tinySize rest ->
  packedEnd (tinyoffset c) (size :: rest) <= maxTinySize ->
  tinyFits c size = true /\
  wrap64 (tinyAlign (tinyoffset c) size + size) = tinyPad (tinyoffset c) size + size.
Proof.
  intros Ht Ho Hsz Hrest Hend. cbn [packedEnd] in Hend.
  pose proof (packedEnd_ge rest (tinyPad (tinyoffset c) size + size) Hrest) as Hge.
  pose proof (tinyPad_bounds (tinyoffset c) size) as Hb.
  unfold tinySize in Hsz. change maxTinySize with 16 in *.
  assert (Heq : tinyAlign (tinyoffset c) size = tinyPad (tinyoffset c) size).
  { apply tinyAlign_tinyPad. lia. }
  assert (Hw : wrap64 (tinyAlign (tinyoffset c) size + size)
               = tinyPad (tinyoffset c) size + size).
  { rewrite Heq. apply Z.mod_small. lia. }
  split; [|exact Hw].
  unfold tinyFits. rewrite Hw. change maxTinySize with 16.
  apply andb_true_intro. split; [apply Z.leb_le; lia|].
  apply negb_true_iff, Z.eqb_neq. exact Ht.
Qed.

(** A run that fits the current block takes no slot and always returns. *)
Lemma tinyAllocs_all_fit sizes : forall w : world H,
  mallocing w = 0 -> onGsignal w = false ->
  tiny (cache w) <> 0 -> 0 <= tinyoffset (cache w) ->
  Forall tinySize sizes ->
  packedEnd (tinyoffset (cache w)) sizes <= maxTinySize ->
  exists xs w', tinyAllocs sizes w = (Ret xs, w') /\
    local_cachealloc (cache w') = local_cachealloc (cache w) /\
    alloc (cache w') = alloc (cache w) /\ heap w' = heap w.
Proof.
  induction sizes as [|sz rest IH]; intros w Hm Hg Ht Ho Hall Hend.
  - exists [], w. repeat split; reflexivity.
  - inversion Hall as [|? ? Hsz Hrest]; subst.
    destruct (tinyFits_packed (cache w) sz rest Ht Ho Hsz Hrest Hend) as [Hfit Hw].
    pose proof (mallocgc_tiny_fit w sz None flagNoScan Hsz flagNoScan_set Hm Hg Hfit)
      as Hstep.
    set (c2 := set_local_tinyallocs _ _) in Hstep.
    assert (Hc2 : tiny c2 = tiny (cache w) /\
                  tinyoffset c2 = tinyPad (tinyoffset (cache w)) sz + sz /\
                  local_cachealloc c2 = local_cachealloc (cache w) /\
                  alloc c2 = alloc (cache w)).
    { subst c2. cbn. rewrite Hw. auto. }
    destruct Hc2 as (Ht2 & Ho2 & Hl2 & Ha2). clearbody c2.
    destruct (IH (left (set_cache c2 (entered w)))) as (xs & w' & Hrun & Hlca & Hal & Hh).
    + reflexivity.
    + exact Hg.
    + cbn. rewrite Ht2. exact Ht.
    + cbn. rewrite Ho2. pose proof (tinyPad_bounds (tinyoffset (cache w)) sz).
      unfold tinySize in Hsz. lia.
    + exact Hrest.
    + cbn. rewrite Ho2. exact Hend.
    + exists (add (tiny (cache w)) (tinyAlign (tinyoffset (cache w)) sz) :: xs), w'.
      split.
      * cbn [tinyAllocs]. unfold bind at 1. rewrite Hstep.
        unfold bind at 1. rewrite Hrun. reflexivity.
      * cbn in Hlca, Hal, Hh. rewrite Hlca, Hal, Hh. auto.
Qed.

(** The cache after the tiny path has taken a fresh slot [x]. *)
Lemma slot_world_facts (w w1 : world H) x size :
  sameBut_alloc (entered w) w1 ->
  let w2 := left (set_cache
     (let c1 := if size <? tinyoffset (cache w1)
                then set_tiny x size (cache w1) else cache w1 in
      set_local_cachealloc (wrap64 (local_cachealloc c1 + maxTinySize)) c1)
     w1) in
  mallocing w2 = 0 /\ onGsignal w2 = onGsignal w /\ heap w2 = heap w1 /\
  local_cachealloc (cache w2) = wrap64 (local_cachealloc (cache w) + maxTinySize) /\
  (size < tinyoffset (cache w) ->
     tiny (cache w2) = x /\ tinyoffset (cache w2) = size) /\
  (tinyoffset (cache w) <= size ->
     tiny (cache w2) = tiny (cache w) /\ tinyoffset (cache w2) = tinyoffset (cache w)).
Proof.
  intros (Hm & Hl & Hg & Ht & Ho & Hlca & Hlta & Hls).
  destruct w as [m l g [lca ls t toff lta al] h].
  destruct w1 as [m1 l1 g1 [lca1 ls1 t1 toff1 lta1 al1] h1].
  cbn in Hm, Hl, Hg, Ht, Ho, Hlca, Hlta, Hls. subst.
  cbn -[wrap64 Z.add]. destruct (Z.ltb_spec size toff) as [Hlt|Hge]; cbn -[wrap64 Z.add];
    (split; [reflexivity|]); (split; [reflexivity|]); (split; [reflexivity|]);
    (split; [reflexivity|]); split; intros Hcmp;
    solve [split; reflexivity | exfalso; lia].
Qed.

Lemma slots_zero_or_one (a b : Z) :
  b = a \/ b = wrap64 (a + maxTinySize) ->
  0 <= wrap64 (b - a) / maxTinySize <= 1.
Proof.
  unfold wrap64. change maxTinySize with 16. intros [->| ->].
  - rewrite Z.sub_diag. vm_compute. split; discriminate.
  - rewrite Zminus_mod_idemp_l. replace (a + 16 - a) with 16 by lia.
    vm_compute. split; discriminate.
Qed.

Lemma tinyAllocs_one_slot sizes : forall (w : world H) (P : Z),
  mallocing w = 0 -> onGsignal w = false ->
  tiny (cache w) <> 0 -> 0 <= tinyoffset (cache w) -> 0 <= P ->
  Forall tinySize sizes -> packedEnd P sizes <= maxTinySize ->
  (forall xs w', tinyAllocs sizes w = (Ret xs, w') ->
     local_cachealloc (cache w') = local_cachealloc (cache w) \/
     local_cachealloc (cache w') = wrap64 (local_cachealloc (cache w) + maxTinySize)) /\
  (forall s, index (alloc (cache w)) tinySizeClass = Ret s ->
     isNil (freelist s) = false ->
     exists xs w', tinyAllocs sizes w = (Ret xs, w')).
Proof.
  induction sizes as [|sz rest IH]; intros w P Hm Hg Ht Ho HP Hall Hend.
  { split.
    - intros xs w' [= <- <-]. left. reflexivity.
    - intros s _ _. exists [], w. reflexivity. }
  inversion Hall as [|? ? Hsz Hrest]; subst. cbn [packedEnd] in Hend.
  pose proof (tinyPad_bounds P sz) as HPb.
  assert (HP' : 0 <= tinyPad P sz + sz) by (unfold tinySize in Hsz; lia).
  destruct (tinyFits (cache w) sz) eqn:Hfit.
  - (* the request fits the current block *)
    pose proof (mallocgc_tiny_fit w sz None flagNoScan Hsz flagNoScan_set Hm Hg Hfit)
      as Hstep.
    set (c2 := set_local_tinyallocs _ _) in Hstep.
    assert (Hc2 : tiny c2 = tiny (cache w) /\ 0 <= tinyoffset c2 /\
                  local_cachealloc c2 = local_cachealloc (cache w) /\
                  alloc c2 = alloc (cache w)).
    { subst c2. cbn -[wrap64]. repeat split; try reflexivity.
      unfold wrap64. apply Z.mod_pos_bound. reflexivity. }
    destruct Hc2 as (Ht2 & Ho2 & Hl2 & Ha2). clearbody c2.
    destruct (IH (left (set_cache c2 (entered w))) (tinyPad P sz + sz))
      as [IH1 IH2]; try assumption; try reflexivity.
    { cbn. rewrite Ht2. exact Ht. }
    split.
    + intros xs w' Hrun. cbn [tinyAllocs] in Hrun. unfold bind at 1 in Hrun.
      rewrite Hstep in Hrun. unfold bind at 1 in Hrun.
      destruct (tinyAllocs rest _) as [[xs'| | |] w''] eqn:Hrest'; try discriminate.
      injection Hrun as <- <-.
      specialize (IH1 xs' w'' eq_refl). cbn in IH1. rewrite Hl2 in IH1. exact IH1.
    + intros s Hs Hnil.
      destruct (IH2 s) as (xs' & w'' & Hrest'); [cbn; rewrite Ha2; exact Hs | exact Hnil|].
      eexists _, w''. cbn [tinyAllocs]. unfold bind at 1. rewrite Hstep.
      unfold bind at 1. rewrite Hrest'. reflexivity.
  - (* a fresh slot is taken; whatever follows fits the block kept *)
    assert (Hafter : forall x w1,
      nextFree tinySizeClass (entered w) = (Ret x, w1) ->
      exists w2, mallocgc sz None flagNoScan w = (Ret x, w2) /\
        local_cachealloc (cache w2)
          = wrap64 (local_cachealloc (cache w) + maxTinySize) /\
        exists xs w', tinyAllocs rest w2 = (Ret xs, w') /\
          local_cachealloc (cache w') = local_cachealloc (cache w2)).
    { intros x w1 Hnf.
      pose proof (mallocgc_tiny_slot w sz None flagNoScan x w1
                    Hsz flagNoScan_set Hm Hg Hfit Hnf) as Hstep.
      destruct (nextFree_ret _ _ _ _ Hnf) as [Hx Hsame].
      pose proof (slot_world_facts w w1 x sz Hsame) as Hfacts.
      cbv zeta in Hfacts. set (w2 := left _) in Hstep, Hfacts.
      destruct Hfacts as (Hm2 & Hg2 & _ & Hlca2 & Hnew & Hold). clearbody w2.
      exists w2. split; [exact Hstep|]. split; [exact Hlca2|].
      assert (Hto : tiny (cache w2) <> 0 /\ 0 <= tinyoffset (cache w2) <= sz).
      { unfold tinySize in Hsz.
        destruct (Z.lt_ge_cases sz (tinyoffset (cache w))) as [Hlt|Hge].
        - destruct (Hnew Hlt) as [-> ->]. split; [exact Hx | lia].
        - destruct (Hold Hge) as [-> ->]. split; [exact Ht | lia]. }
      destruct Hto as [Ht2 Ho2].
      destruct (tinyAllocs_all_fit rest w2) as (xs & w' & Hrun & Hl & _ & _);
        try assumption; try lia.
      { rewrite Hg2. exact Hg. }
      { pose proof (packedEnd_mono rest (tinyoffset (cache w2)) (tinyPad P sz + sz)
                      ltac:(lia)). lia. }
      exists xs, w'. split; assumption. }
    split.
    + intros xs w' Hrun. cbn [tinyAllocs] in Hrun. unfold bind at 1 in Hrun.
      destruct (mallocgc sz None flagNoScan w) as [[x| | |] w2] eqn:Hstep;
        try discriminate.
      destruct (mallocgc_tiny_slot_inv w sz None flagNoScan x w2
                  Hsz flagNoScan_set Hm Hg Hfit Hstep) as (w1 & Hnf & _).
      destruct (Hafter x w1 Hnf) as (w2' & Hstep' & Hlca2 & xs' & w'' & Hrest' & Hl).
      injection Hstep' as <-.
      unfold bind at 1 in Hrun. rewrite Hrest' in Hrun. injection Hrun as <- <-.
      right. rewrite Hl. exact Hlca2.
    + intros s Hs Hnil.
      destruct (nextFree_ready tinySizeClass (entered w) s) as (v & next & _ & _ & Hnf);
        [destruct w; exact Hs | exact Hnil|].
      destruct (Hafter v _ Hnf) as (w2 & Hstep & _ & xs & w' & Hrest' & _).
      exists (v :: xs), w'. cbn [tinyAllocs]. unfold bind at 1. rewrite Hstep.
      unfold bind at 1. rewrite Hrest'. reflexivity.
Qed.

(** Where a cache does hold a tiny block ([c.tiny] not nil), requests of
    sizes 1 to 15 that, laid out one after another from offset 0 with
    the allocator's alignment padding, end within 16 bytes take at most
    one backing slot of the 16-byte class, whatever the block's fill
    was; and with a free slot at hand in [c.alloc[2]] the run does
    complete. *)
Lemma tiny_block_packs (w : world H) (sizes : list Z) :
  mallocing w = 0 -> onGsignal w = false ->
  tiny (cache w) <> 0 -> 0 <= tinyoffset (cache w) ->
  Forall tinySize sizes -> packedEnd 0 sizes <= maxTinySize ->
  (forall xs w', tinyAllocs sizes w = (Ret xs, w') ->
     0 <= slotsTaken (cache w) (cache w') <= 1) /\
  (forall s, index (alloc (cache w)) tinySizeClass = Ret s ->
     isNil (freelist s) = false ->
     exists xs w', tinyAllocs sizes w = (Ret xs, w') /\
       0 <= slotsTaken (cache w) (cache w') <= 1).
Proof.
  intros Hm Hg Ht Ho Hall Hend.
  destruct (tinyAllocs_one_slot sizes w 0 Hm Hg Ht Ho ltac:(lia) Hall Hend) as [H1 H2].
  split.
  - intros xs w' Hrun. apply slots_zero_or_one. exact (H1 xs w' Hrun).
  - intros s Hs Hnil. destruct (H2 s Hs Hnil) as (xs & w' & Hrun).
    exists xs, w'. split; [exact Hrun|].
    apply slots_zero_or_one. exact (H1 xs w' Hrun).
Qed.

(** A cache without a tiny block never fits a request. *)
Lemma no_block_no_fit (c : mcache) size : tiny c = 0 -> tinyFits c size = false.
Proof. intros Ht. unfold tinyFits. rewrite Ht. apply andb_false_r. Qed.

(** One tiny request on a cache that holds no tiny block ([c.tiny] nil,
    [c.tinyoffset] 0): it takes a slot of its own, and since
    [size < c.tinyoffset] is [size < 0] the slot is not kept as the tiny
    block: the cache holds none afterwards either. *)
Lemma fresh_cache_step (w : world H) size typ flags x w2 :
  0 < size < maxTinySize -> Z.land flags flagNoScan <> 0 ->
  mallocing w = 0 -> onGsignal w = false ->
  tiny (cache w) = 0 -> tinyoffset (cache w) = 0 ->
  mallocgc size typ flags w = (Ret x, w2) ->
  x <> 0 /\ fst (nextFree tinySizeClass (entered w)) = Ret x /\
  mallocing w2 = 0 /\ onGsignal w2 = false /\
  tiny (cache w2) = 0 /\ tinyoffset (cache w2) = 0 /\
  local_tinyallocs (cache w2) = local_tinyallocs (cache w) /\
  local_cachealloc (cache w2) = wrap64 (local_cachealloc (cache w) + maxTinySize).
Proof.
  intros Hs Hf Hm Hg Ht Ho Hrun.
  pose proof (no_block_no_fit (cache w) size Ht) as Hfit.
  destruct (mallocgc_tiny_slot_inv w size typ flags x w2 Hs Hf Hm Hg Hfit Hrun)
    as (w1 & Hnf & Hw2).
  cbv zeta in Hw2. subst w2.
  destruct (nextFree_ret _ _ _ _ Hnf) as [Hx Hsame].
  pose proof (slot_world_facts w w1 x size Hsame) as Hfacts. cbv zeta in Hfacts.
  destruct Hfacts as (Hm2 & Hg2 & _ & Hlca & _ & Hold).
  destruct (Hold ltac:(lia)) as [Ht2 Ho2].
  split; [exact Hx|]. split; [rewrite Hnf; reflexivity|].
  split; [exact Hm2|]. split; [rewrite Hg2; exact Hg|].
  split; [rewrite Ht2; exact Ht|]. split; [rewrite Ho2; exact Ho|].
  split; [|exact Hlca].
  destruct Hsame as (_ & _ & _ & _ & Ho1 & _ & Hlta & _).
  destruct w as [m l g [lca ls t toff lta al] h].
  destruct w1 as [m1 l1 g1 [lca1 ls1 t1 toff1 lta1 al1] h1].
  cbn in Ho, Ho1, Hlta. subst toff toff1 lta1.
  cbn -[wrap64 Z.add]. destruct (Z.ltb_spec size 0) as [?|_]; [lia|]. reflexivity.
Qed.

Lemma fresh_cache_run sizes : forall (w : world H) xs w',
  mallocing w = 0 -> onGsignal w = false ->
  tiny (cache w) = 0 -> tinyoffset (cache w) = 0 ->
  Forall tinySize sizes ->
  tinyAllocs sizes w = (Ret xs, w') ->
  length xs = length sizes /\ Forall (fun x => x <> 0) xs /\
  tiny (cache w') = 0 /\ tinyoffset (cache w') = 0 /\
  local_tinyallocs (cache w') = local_tinyallocs (cache w) /\
  wrap64 (local_cachealloc (cache w') - local_cachealloc (cache w))
    = wrap64 (maxTinySize * Z.of_nat (length sizes)).
Proof.
  induction sizes as [|sz rest IH]; intros w xs w' Hm Hg Ht Ho Hall Hrun.
  - injection Hrun as <- <-. rewrite Z.sub_diag.
    repeat split; try assumption. constructor.
  - inversion Hall as [|? ? Hsz Hrest]; subst.
    cbn [tinyAllocs] in Hrun. unfold bind at 1 in Hrun.
    destruct (mallocgc sz None flagNoScan w) as [[x| | |] w2] eqn:Hstep;
      try discriminate.
    unfold bind at 1 in Hrun.
    destruct (tinyAllocs rest w2) as [[xs'| | |] w3] eqn:Hrest'; try discriminate.
    injection Hrun as <- <-.
    destruct (fresh_cache_step w sz None flagNoScan x w2 Hsz flagNoScan_set
                Hm Hg Ht Ho Hstep)
      as (Hx & _ & Hm2 & Hg2 & Ht2 & Ho2 & Hlta2 & Hlca2).
    destruct (IH w2 xs' w3 Hm2 Hg2 Ht2 Ho2 Hrest Hrest')
      as (Hlen & Hnz & Ht3 & Ho3 & Hlta3 & Hlca3).
    split; [cbn [length]; rewrite Hlen; reflexivity|].
    split; [constructor; assumption|].
    split; [exact Ht3|]. split; [exact Ho3|].
    split; [rewrite Hlta3; exact Hlta2|].
    replace (local_cachealloc (cache w3) - local_cachealloc (cache w))
      with ((local_cachealloc (cache w3) - local_cachealloc (cache w2))
            + (local_cachealloc (cache w2) - local_cachealloc (cache w))) by lia.
    unfold wrap64 in *. rewrite Zplus_mod, Hlca3, Hlca2.
    rewrite Zminus_mod_idemp_l.
    replace (local_cachealloc (cache w) + maxTinySize - local_cachealloc (cache w))
      with maxTinySize by lia.
    rewrite <- Zplus_mod. f_equal. cbn [length]. lia.
Qed.

(** C5: on a thread whose cache holds no tiny block ([c.tiny] nil and
    [c.tinyoffset] 0, as in a fresh mcache) nothing is ever packed: every
    request of a run of pointer-free requests of sizes 1 to 15 takes a
    backing slot of the 16-byte class for itself, however small the sum
    of the sizes.  When the run returns it has taken as many slots as it
    made requests, none was counted in [c.local_tinyallocs], and the
    cache still holds no tiny block. *)
Theorem C5_fresh_cache_never_packs (w : world H) (sizes : list Z) xs w' :
  mallocing w = 0 -> onGsignal w = false ->
  tiny (cache w) = 0 -> tinyoffset (cache w) = 0 ->
  Forall tinySize sizes -> Z.of_nat (length sizes) < 2 ^ 60 ->
  tinyAllocs sizes w = (Ret xs, w') ->
  length xs = length sizes /\ Forall (fun x => x <> 0) xs /\
  slotsTaken (cache w) (cache w') = Z.of_nat (length sizes) /\
  local_tinyallocs (cache w') = local_tinyallocs (cache w) /\
  tiny (cache w') = 0 /\ tinyoffset (cache w') = 0.
Proof.
  intros Hm Hg Ht Ho Hall Hlen Hrun.
  destruct (fresh_cache_run sizes w xs w' Hm Hg Ht Ho Hall Hrun)
    as (Hl & Hnz & Ht' & Ho' & Hlta & Hlca).
  split; [exact Hl|]. split; [exact Hnz|].
  split; [|split; [exact Hlta|split; assumption]].
  unfold slotsTaken. rewrite Hlca. unfold wrap64. change maxTinySize with 16.
  rewrite Z.mod_small by lia.
  rewrite Z.mul_comm. apply Z.div_mul. discriminate.
Qed.

(** Where the cache holds a tiny block and a pointer-free request of size
    below 16 does not fit it, the slot pop yields [x], [mallocgc]
    returns [x] and the cache keeps the block with more room: the new
    block [x] with [tinyoffset = size] exactly when [size < c.tinyoffset]
    (the offset before the call), else the old block and offset
    unchanged; either way the room left is the larger of the two. *)
Lemma tiny_block_choice (w : world H) size typ flags x :
  0 < size < maxTinySize -> Z.land flags flagNoScan <> 0 ->
  mallocing w = 0 -> onGsignal w = false ->
  tiny (cache w) <> 0 ->
  tinyFits (cache w) size = false ->
  fst (nextFree tinySizeClass (entered w)) = Ret x ->
  exists w2,
    mallocgc size typ flags w = (Ret x, w2) /\ x <> 0 /\
    (size < tinyoffset (cache w) ->
       tiny (cache w2) = x /\ tinyoffset (cache w2) = size) /\
    (tinyoffset (cache w) <= size ->
       tiny (cache w2) = tiny (cache w) /\
       tinyoffset (cache w2) = tinyoffset (cache w)) /\
    maxTinySize - tinyoffset (cache w2)
      = Z.max (maxTinySize - size) (maxTinySize - tinyoffset (cache w)).
Proof.
  intros Hs Hf Hm Hg _ Hfit Hx.
  destruct (nextFree tinySizeClass (entered w)) as [o w1] eqn:Hnf.
  cbn in Hx. subst o.
  pose proof (mallocgc_tiny_slot w size typ flags x w1 Hs Hf Hm Hg Hfit Hnf) as Hstep.
  destruct (nextFree_ret _ _ _ _ Hnf) as [Hx0 Hsame].
  pose proof (slot_world_facts w w1 x size Hsame) as Hfacts.
  cbv zeta in Hfacts. set (w2 := left _) in Hstep, Hfacts.
  destruct Hfacts as (_ & _ & _ & _ & Hnew & Hold). clearbody w2.
  exists w2. split; [exact Hstep|]. split; [exact Hx0|].
  split; [exact Hnew|]. split; [exact Hold|].
  destruct (Z.lt_ge_cases size (tinyoffset (cache w))) as [Hlt|Hge].
  - destruct (Hnew Hlt) as [_ ->]. lia.
  - destruct (Hold Hge) as [_ ->]. lia.
Qed.

(** C8: on a cache that holds no tiny block ([c.tiny] nil and
    [c.tinyoffset] 0, as in a fresh mcache) a pointer-free request of
    size below 16 cannot fit; the slot pop yields a fresh block [x] and
    [mallocgc] returns it, but [size < c.tinyoffset] is [size < 0], so
    the block is not kept: afterwards [c.tiny] is still nil and
    [c.tinyoffset] still 0, although the new block has [16 - size] bytes
    free and there is no old block to prefer. *)
Theorem C8_fresh_block_dropped (w : world H) size typ flags x :
  0 < size < maxTinySize -> Z.land flags flagNoScan <> 0 ->
  mallocing w = 0 -> onGsignal w = false ->
  tiny (cache w) = 0 -> tinyoffset (cache w) = 0 ->
  fst (nextFree tinySizeClass (entered w)) = Ret x ->
  tinyFits (cache w) size = false /\
  exists w2,
    mallocgc size typ flags w = (Ret x, w2) /\ x <> 0 /\
    tiny (cache w2) = 0 /\ tinyoffset (cache w2) = 0 /\
    0 < maxTinySize - size.
Proof.
  intros Hs Hf Hm Hg Ht Ho Hx.
  pose proof (no_block_no_fit (cache w) size Ht) as Hfit.
  split; [exact Hfit|].
  destruct (nextFree tinySizeClass (entered w)) as [o w1] eqn:Hnf.
  cbn in Hx. subst o.
  pose proof (mallocgc_tiny_slot w size typ flags x w1 Hs Hf Hm Hg Hfit Hnf) as Hstep.
  destruct (nextFree_ret _ _ _ _ Hnf) as [Hx0 Hsame].
  pose proof (slot_world_facts w w1 x size Hsame) as Hfacts.
  cbv zeta in Hfacts. set (w2 := left _) in Hstep, Hfacts.
  destruct Hfacts as (_ & _ & _ & _ & _ & Hold). clearbody w2.
  destruct (Hold ltac:(lia)) as [Ht2 Ho2].
  exists w2. split; [exact Hstep|]. split; [exact Hx0|].
  split; [rewrite Ht2; exact Ht|]. split; [rewrite Ho2; exact Ho|]. lia.
Qed.

(** C9: a request of size 0 returns the address of [zerobase] and leaves
    the whole state as it was, in every state and for every type and
    flags; so any two such requests yield equal pointers. *)
Theorem C9_zero_size_sentinel (w1 w2 : world H) typ1 typ2 flags1 flags2 :
  mallocgc 0 typ1 flags1 w1 = (Ret zerobase, w1) /\
  mallocgc 0 typ2 flags2 w2 = (Ret zerobase, w2) /\
  fst (mallocgc 0 typ1 flags1 w1) = fst (mallocgc 0 typ2 flags2 w2).
Proof. repeat split. Qed.

Lemma largeAlloc_overflow size flag (h : H) :
  0 <= size < 2 ^ 64 -> 2 ^ 64 <= size + _PageSize ->
  largeAlloc size flag h = (Throw "out of memory", h).
Proof.
  intros Hs Hov. unfold largeAlloc.
  assert (Hw : wrap64 (size + _PageSize) = size + _PageSize - 2 ^ 64).
  { unfold wrap64. symmetry. apply (Z.mod_unique _ _ 1); [left|];
      change _PageSize with 8192 in *; lia. }
  rewrite Hw. change _PageSize with 8192 in *.
  destruct (Z.ltb_spec (size + 8192 - 2 ^ 64) size) as [_|?]; [reflexivity | lia].
Qed.

(** C6 (amended): [newarray] of [n] elements whose bytes exceed [_MaxMem]
    panics, which its caller sees as a failed call, with the whole state
    as it was.  A large request whose [size + _PageSize] wraps around is
    not reported to the caller: [largeAlloc] throws "out of memory",
    which is fatal, before it touches the heap, so [mallocgc] ends in a
    throw, never in a return or a panic, with the heap and the cache as
    they were. *)
Theorem C6_overflow_fails (w : world H) size typ flags ty n :
  0 <= size < 2 ^ 64 -> 2 ^ 64 <= size + _PageSize ->
  0 <= n < 2 ^ 64 -> 0 <= tsize ty -> _MaxMem < tsize ty * n ->
  largeAlloc size (wrap32 flags) (heap w) = (Throw "out of memory", heap w) /\
  (exists msg w', mallocgc size typ flags w = (Throw msg, w') /\
     heap w' = heap w /\ cache w' = cache w) /\
  (mallocing w = 0 -> onGsignal w = false ->
   exists w', mallocgc size typ flags w = (Throw "out of memory", w') /\
     heap w' = heap w /\ cache w' = cache w) /\
  newarray ty n w = (Panic "runtime: allocation size out of range", w).
Proof.
  intros Hs Hov Hn Hts Hmem.
  pose proof (largeAlloc_overflow size (wrap32 flags) (heap w) Hs Hov) as Hlarge.
  split; [exact Hlarge|]. split; [|split].
  - change _PageSize with 8192 in Hov.
    destruct w as [m l g c h]. cbn [heap cache] in *.
    unfold mallocgc.
    destruct (Z.eqb_spec size 0) as [?|_]; [lia|].
    destruct (Z.leb_spec size maxSmallSize) as [Hle|_];
      [change maxSmallSize with 32768 in Hle; lia|].
    run. destruct (m =? 0); run.
    + destruct g; run.
      * eexists _, _. split; [reflexivity|]. split; reflexivity.
      * rewrite Hlarge. eexists _, _. split; [reflexivity|]. split; reflexivity.
    + eexists _, _. split; [reflexivity|]. split; reflexivity.
  - intros Hm Hg. change _PageSize with 8192 in Hov.
    destruct w as [m l g c h]. cbn [heap cache mallocing onGsignal] in *. subst m g.
    unfold mallocgc.
    destruct (Z.eqb_spec size 0) as [?|_]; [lia|].
    destruct (Z.leb_spec size maxSmallSize) as [Hle|_];
      [change maxSmallSize with 32768 in Hle; lia|].
    run. change (0 =? 0) with true. run.
    rewrite Hlarge. eexists. split; [reflexivity|]. split; reflexivity.
  - unfold newarray.
    assert (Hcond : (2 ^ 63 <=? n) || ((tsize ty >? 0) && (n >? Z.quot _MaxMem (tsize ty)))
                    = true).
    { destruct (Z.leb_spec (2 ^ 63) n) as [?|Hsmall]; [reflexivity|]. cbn [orb].
      assert (Hpos : 0 < tsize ty) by (change _MaxMem with 549755813887 in Hmem; nia).
      apply andb_true_intro. split; [apply Z.gtb_lt; exact Hpos|].
      apply Z.gtb_lt. rewrite Z.quot_div_nonneg by (change _MaxMem with 549755813887; lia).
      apply Z.div_lt_upper_bound; [exact Hpos | exact Hmem]. }
    rewrite Hcond. reflexivity.
Qed.

Lemma largeNpages_ceil size :
  0 <= size -> size + _PageSize < 2 ^ 64 ->
  largeNpages size = (size + _PageSize - 1) / _PageSize.
Proof.
  intros Hs Hov. unfold largeNpages.
  change _PageMask with (Z.ones 13). change _PageShift with 13.
  change _PageSize with 8192 in *.
  rewrite Z.land_ones, Z.shiftr_div_pow2 by lia. change (2 ^ 13) with 8192.
  pose proof (Z.div_mod size 8192 ltac:(lia)) as Hdm.
  pose proof (Z.mod_pos_bound size 8192 ltac:(lia)) as Hr.
  destruct (Z.eqb_spec (size mod 8192) 0) as [Hz|Hnz]; cbn [negb].
  - apply (Z.div_unique _ _ _ 8191); lia.
  - unfold wrap64. rewrite Z.mod_small by lia.
    apply (Z.div_unique _ _ _ (size mod 8192 - 1)); lia.
Qed.

(** C3: for a request above [maxSmallSize] (short of wrapping around, the
    heap handing out the span asked for), [mallocgc] goes through
    [largeAlloc] only: the heap is asked for [ceil(size / _PageSize)] pages,
    the cache's spans, tiny block and byte counts stay as they were, the
    pointer returned is the span's start address, the span has that page
    count, and its [limit] is the start address plus exactly [size], which
    is within the page-rounded capacity. *)
Theorem C3_large_path (w : world H) size typ flags s h' :
  maxSmallSize < size -> size + _PageSize < 2 ^ 64 ->
  mallocing w = 0 -> onGsignal w = false ->
  Z.land flags flagNoScan <> 0 \/ typ <> None ->
  let np := (size + _PageSize - 1) / _PageSize in
  mHeap_Alloc np 0 true (Z.land (wrap32 flags) _FlagNoZero =? 0)
    (deductSweepCredit (np * _PageSize) np (heap w)) = (Ret (Some s), h') ->
  npages s = np ->
  0 <= start s -> (start s + npages s) * _PageSize < 2 ^ 64 ->
  let s' := set_limit (wrap64 (wrap64 (Z.shiftl (start s) _PageShift) + size)) s in
  largeNpages size = np /\
  largeAlloc size (wrap32 flags) (heap w) = (Ret s', h') /\
  (exists w', mallocgc size typ flags w = (Ret (start s * _PageSize), w') /\
     heap w' = h' /\ mallocing w' = 0 /\
     alloc (cache w') = alloc (cache w) /\ tiny (cache w') = tiny (cache w) /\
     tinyoffset (cache w') = tinyoffset (cache w) /\
     local_cachealloc (cache w') = local_cachealloc (cache w) /\
     local_tinyallocs (cache w') = local_tinyallocs (cache w)) /\
  npages s' = (size + _PageSize - 1) / _PageSize /\
  limit s' = start s * _PageSize + size /\
  limit s' <= (start s + npages s') * _PageSize.
Proof.
  intros Hbig Hov Hm Hg Htyp np Hheap Hnp Hstart Hend s'.
  change maxSmallSize with 32768 in Hbig.
  pose proof (largeNpages_ceil size ltac:(lia) Hov) as Hceil. fold np in Hceil.
  assert (Hnpb : size <= np * _PageSize < size + _PageSize).
  { subst np. change _PageSize with 8192 in *.
    pose proof (Z.div_mod (size + 8192 - 1) 8192 ltac:(lia)).
    pose proof (Z.mod_pos_bound (size + 8192 - 1) 8192 ltac:(lia)). lia. }
  assert (Hlarge : largeAlloc size (wrap32 flags) (heap w) = (Ret s', h')).
  { unfold largeAlloc. unfold wrap64 at 1. rewrite Z.mod_small by (change _PageSize with 8192 in *; lia).
    destruct (Z.ltb_spec (size + _PageSize) size) as [?|_];
      [change _PageSize with 8192 in *; lia|].
    rewrite Hceil. unfold bind, modify.
    unfold wrap64 at 1. rewrite (Z.mod_small (np * _PageSize)) by lia.
    rewrite Hheap. reflexivity. }
  assert (Hbase : wrap64 (Z.shiftl (start s) _PageShift) = start s * _PageSize).
  { rewrite Z.shiftl_mul_pow2 by (change _PageShift with 13; lia).
    change (2 ^ _PageShift) with _PageSize. unfold wrap64. apply Z.mod_small.
    change _PageSize with 8192 in *. nia. }
  assert (Hlimit : limit s' = start s * _PageSize + size).
  { subst s'. cbn [limit set_limit]. rewrite Hbase. unfold wrap64. apply Z.mod_small.
    rewrite Hnp in Hend. change _PageSize with 8192 in *. nia. }
  split; [exact Hceil|]. split; [exact Hlarge|]. split.
  - destruct w as [m l g [lca ls t toff lta al] h]. cbn in Hm, Hg. subst m g.
    cbn [heap] in Hlarge. unfold mallocgc.
    destruct (Z.eqb_spec size 0) as [?|_]; [lia|].
    destruct (Z.leb_spec size maxSmallSize) as [Hle|_];
      [change maxSmallSize with 32768 in Hle; lia|].
    run. change (0 =? 0) with true. run. rewrite Hlarge.
    subst s'. cbn [start set_limit elemsize].
    change pageShift with _PageShift. rewrite Hbase.
    destruct (Z.eqb_spec (Z.land flags flagNoScan) 0) as [Hz|Hnz]; run.
    + destruct typ as [ty|]; [|destruct Htyp as [?|?]; contradiction].
      unfold scanAccount. run.
      destruct (isDeferType ty); destruct (_ >? tsize ty); run;
        try (destruct (ptrdata ty =? 0); run);
        (eexists; split; [reflexivity|]; cbn; repeat split; reflexivity).
    + eexists; split; [reflexivity|]; cbn; repeat split; reflexivity.
  - split; [subst s'; cbn [npages set_limit]; exact Hnp|].
    split; [exact Hlimit|].
    rewrite Hlimit. subst s'. cbn [npages set_limit]. rewrite Hnp.
    change _PageSize with 8192 in *. lia.
Qed.

End MallocFacts.

(** *** The claims on a concrete runtime *)

(** C5, at a fresh mcache ([bumpWorld 0 0]: [c.tiny] nil, [c.tinyoffset] 0,
    every span of [c.alloc] empty): two pointer-free objects of 1 byte,
    2 bytes in all, end in two different 16-byte slots, at 131072 and at
    131088.  The span of the 16-byte class has handed out two objects,
    the cache has counted 32 bytes, no allocation was counted as
    combined, and the cache still holds no tiny block. *)
Lemma C5_counterexample :
  1 + 1 <= 16 /\
  tiny (cache (bumpWorld 0 0)) = 0 /\ tinyoffset (cache (bumpWorld 0 0)) = 0 /\
  fst (tinyAllocs (RT := bumpRuntime) [1; 1] (bumpWorld 0 0))
    = Ret [131072; 131088] /\
  131088 - 131072 = maxTinySize /\
  slotsTaken (cache (bumpWorld 0 0))
    (cache (snd (tinyAllocs (RT := bumpRuntime) [1; 1] (bumpWorld 0 0)))) = 2 /\
  (exists s,
     index (alloc (cache (snd (tinyAllocs (RT := bumpRuntime) [1; 1] (bumpWorld 0 0)))))
           tinySizeClass = Ret s /\
     ref s = 2 /\ length (freelist s) = 510%nat) /\
  local_tinyallocs
    (cache (snd (tinyAllocs (RT := bumpRuntime) [1; 1] (bumpWorld 0 0)))) = 0 /\
  tiny (cache (snd (tinyAllocs (RT := bumpRuntime) [1; 1] (bumpWorld 0 0)))) = 0.
Proof.
  split; [lia|]. split; [reflexivity|]. split; [reflexivity|].
  split; [vm_compute; reflexivity|]. split; [reflexivity|].
  split; [vm_compute; reflexivity|].
  split; [|split; vm_compute; reflexivity].
  eexists. split; [vm_compute; reflexivity|]. split; vm_compute; reflexivity.
Qed.

Lemma C5_fresh_cache_never_packs_witness :
  let w := bumpWorld 0 0 in
  let sizes := [1; 1] in
  let xs := [131072; 131088] in
  let w' := snd (tinyAllocs (RT := bumpRuntime) sizes w) in
  (mallocing w = 0 /\ onGsignal w = false /\
   tiny (cache w) = 0 /\ tinyoffset (cache w) = 0 /\
   Forall tinySize sizes /\ Z.of_nat (length sizes) < 2 ^ 60 /\
   tinyAllocs (RT := bumpRuntime) sizes w = (Ret xs, w')) /\
  length xs = length sizes /\ Forall (fun x => x <> 0) xs /\
  slotsTaken (cache w) (cache w') = Z.of_nat (length sizes) /\
  local_tinyallocs (cache w') = local_tinyallocs (cache w) /\
  tiny (cache w') = 0 /\ tinyoffset (cache w') = 0.
Proof.
  intros w sizes xs w'.
  assert (Hm : mallocing w = 0) by reflexivity.
  assert (Hg : onGsignal w = false) by reflexivity.
  assert (Ht : tiny (cache w) = 0) by reflexivity.
  assert (Ho : tinyoffset (cache w) = 0) by reflexivity.
  assert (Hall : Forall tinySize sizes).
  { repeat constructor; vm_compute; reflexivity. }
  assert (Hlen : Z.of_nat (length sizes) < 2 ^ 60) by reflexivity.
  assert (Hrun : tinyAllocs (RT := bumpRuntime) sizes w = (Ret xs, w'))
    by (vm_compute; reflexivity).
  split; [auto 10|].
  exact (C5_fresh_cache_never_packs (RT := bumpRuntime) w sizes xs w'
           Hm Hg Ht Ho Hall Hlen Hrun).
Defined.

(** In a cache that holds a tiny block, alignment limits what is packed:
    from a block that is full, the sizes 1, 8 and 4 (13 bytes in all)
    take two slots: after 1 and 8 the new block is full up to offset 16,
    because 8 is placed at offset 8. *)
Lemma tiny_padding_example :
  1 + 8 + 4 <= 16 /\
  fst (tinyAllocs (RT := bumpRuntime) [1; 8; 4] (bumpWorld 8192 16))
    = Ret [131072; 131080; 131088] /\
  slotsTaken (cache (bumpWorld 8192 16))
    (cache (snd (tinyAllocs (RT := bumpRuntime) [1; 8; 4] (bumpWorld 8192 16)))) = 2.
Proof. split; [lia|]. split; vm_compute; reflexivity. Qed.

(** C8, at a fresh mcache ([bumpWorld 0 0]): a pointer-free request of 1
    byte is given the fresh block at 131072, of which 15 bytes stay
    free, and there is no old block; yet the cache keeps no tiny block
    ([c.tiny] nil, [c.tinyoffset] 0), and the next request of 1 byte is
    given a block of its own, at 131088. *)
Lemma C8_counterexample :
  tiny (cache (bumpWorld 0 0)) = 0 /\ tinyoffset (cache (bumpWorld 0 0)) = 0 /\
  fst (mallocgc (RT := bumpRuntime) 1 None flagNoScan (bumpWorld 0 0)) = Ret 131072 /\
  maxTinySize - 1 = 15 /\
  tiny (cache (snd (mallocgc (RT := bumpRuntime) 1 None flagNoScan (bumpWorld 0 0)))) = 0 /\
  tinyoffset (cache (snd (mallocgc (RT := bumpRuntime) 1 None flagNoScan (bumpWorld 0 0))))
    = 0 /\
  fst (mallocgc (RT := bumpRuntime) 1 None flagNoScan
         (snd (mallocgc (RT := bumpRuntime) 1 None flagNoScan (bumpWorld 0 0))))
    = Ret 131088.
Proof. repeat split; vm_compute; reflexivity. Qed.

Lemma C8_fresh_block_dropped_witness :
  let w := bumpWorld 0 0 in
  (0 < 1 < maxTinySize /\ Z.land flagNoScan flagNoScan <> 0 /\
   mallocing w = 0 /\ onGsignal w = false /\
   tiny (cache w) = 0 /\ tinyoffset (cache w) = 0 /\
   fst (nextFree (RT := bumpRuntime) tinySizeClass (entered w)) = Ret 131072) /\
  tinyFits (cache w) 1 = false /\
  exists w2,
    mallocgc (RT := bumpRuntime) 1 None flagNoScan w = (Ret 131072, w2) /\
    131072 <> 0 /\
    tiny (cache w2) = 0 /\ tinyoffset (cache w2) = 0 /\
    0 < maxTinySize - 1.
Proof.
  intros w.
  assert (Hs : 0 < 1 < maxTinySize) by (vm_compute; split; reflexivity).
  assert (Hf : Z.land flagNoScan flagNoScan <> 0) by discriminate.
  assert (Hm : mallocing w = 0) by reflexivity.
  assert (Hg : onGsignal w = false) by reflexivity.
  assert (Ht : tiny (cache w) = 0) by reflexivity.
  assert (Ho : tinyoffset (cache w) = 0) by reflexivity.
  assert (Hx : fst (nextFree (RT := bumpRuntime) tinySizeClass (entered w)) = Ret 131072)
    by (vm_compute; reflexivity).
  split; [auto 10|].
  exact (C8_fresh_block_dropped (RT := bumpRuntime) w 1 None flagNoScan 131072
           Hs Hf Hm Hg Ht Ho Hx).
Defined.

(** C6, as stated, fails for the large request: at size [2^64 - 1],
    where [size + _PageSize] wraps around, the call is not reported to
    its caller as failed: it neither returns nor panics, it ends in the
    fatal [throw("out of memory")]. *)
Lemma C6_counterexample :
  wrap64 (2 ^ 64 - 1 + _PageSize) < 2 ^ 64 - 1 /\
  fst (mallocgc (RT := bumpRuntime) (2 ^ 64 - 1) None 0 (bumpWorld 8192 0))
    = Throw "out of memory" /\
  (forall msg, fst (mallocgc (RT := bumpRuntime) (2 ^ 64 - 1) None 0 (bumpWorld 8192 0))
               <> Panic msg) /\
  (forall x, fst (mallocgc (RT := bumpRuntime) (2 ^ 64 - 1) None 0 (bumpWorld 8192 0))
             <> Ret x).
Proof.
  assert (Hrun : fst (mallocgc (RT := bumpRuntime) (2 ^ 64 - 1) None 0 (bumpWorld 8192 0))
                 = Throw "out of memory") by (vm_compute; reflexivity).
  split; [vm_compute; reflexivity|]. split; [exact Hrun|].
  split; intros ?; rewrite Hrun; discriminate.
Qed.

Lemma C6_overflow_fails_witness :
  let w := bumpWorld 8192 0 in
  let size := 2 ^ 64 - 1 in
  let ty := mkType 8 0 0 in
  let n := 2 ^ 40 in
  (0 <= size < 2 ^ 64 /\ 2 ^ 64 <= size + _PageSize /\
   0 <= n < 2 ^ 64 /\ 0 <= tsize ty /\ _MaxMem < tsize ty * n /\
   mallocing w = 0 /\ onGsignal w = false) /\
  largeAlloc (RT := bumpRuntime) size (wrap32 0) (heap w)
    = (Throw "out of memory", heap w) /\
  (exists msg w', mallocgc (RT := bumpRuntime) size None 0 w = (Throw msg, w') /\
     heap w' = heap w /\ cache w' = cache w) /\
  (exists w', mallocgc (RT := bumpRuntime) size None 0 w = (Throw "out of memory", w') /\
     heap w' = heap w /\ cache w' = cache w) /\
  newarray (RT := bumpRuntime) ty n w
    = (Panic "runtime: allocation size out of range", w).
Proof.
  intros w size ty n.
  assert (Hs : 0 <= size < 2 ^ 64) by (vm_compute; split; [discriminate | reflexivity]).
  assert (Hov : 2 ^ 64 <= size + _PageSize) by (vm_compute; discriminate).
  assert (Hn : 0 <= n < 2 ^ 64) by (vm_compute; split; [discriminate | reflexivity]).
  assert (Hts : 0 <= tsize ty) by (vm_compute; discriminate).
  assert (Hmem : _MaxMem < tsize ty * n) by (vm_compute; reflexivity).
  assert (Hm : mallocing w = 0) by reflexivity.
  assert (Hg : onGsignal w = false) by reflexivity.
  split; [auto 10|].
  pose proof (C6_overflow_fails (RT := bumpRuntime) w size None 0 ty n Hs Hov Hn Hts Hmem)
    as (H1 & H2 & H3 & H4).
  split; [exact H1|]. split; [exact H2|]. split; [exact (H3 Hm Hg) | exact H4].
Defined.

Lemma C3_large_path_witness :
  let w := bumpWorld 8192 0 in
  let size := 40000 in
  let s := bumpSpan 16 5 0 40960 [] in
  let np := (size + _PageSize - 1) / _PageSize in
  let s' := set_limit (wrap64 (wrap64 (Z.shiftl (start s) _PageShift) + size)) s in
  (maxSmallSize < size /\ size + _PageSize < 2 ^ 64 /\
   mallocing w = 0 /\ onGsignal w = false /\
   mHeap_Alloc (Runtime := bumpRuntime) np 0 true
     (Z.land (wrap32 flagNoScan) _FlagNoZero =? 0)
     (deductSweepCredit (Runtime := bumpRuntime) (np * _PageSize) np (heap w))
     = (Ret (Some s), 21) /\
   npages s = np /\ 0 <= start s /\ (start s + npages s) * _PageSize < 2 ^ 64) /\
  largeNpages size = np /\
  largeAlloc (RT := bumpRuntime) size (wrap32 flagNoScan) (heap w) = (Ret s', 21) /\
  (exists w', mallocgc (RT := bumpRuntime) size None flagNoScan w
                = (Ret (start s * _PageSize), w') /\
     heap w' = 21 /\ mallocing w' = 0 /\
     alloc (cache w') = alloc (cache w) /\ tiny (cache w') = tiny (cache w) /\
     tinyoffset (cache w') = tinyoffset (cache w) /\
     local_cachealloc (cache w') = local_cachealloc (cache w) /\
     local_tinyallocs (cache w') = local_tinyallocs (cache w)) /\
  npages s' = (size + _PageSize - 1) / _PageSize /\
  limit s' = start s * _PageSize + size /\
  limit s' <= (start s + npages s') * _PageSize.
Proof.
  intros w size s np s'.
  assert (H1 : maxSmallSize < size) by reflexivity.
  assert (H2 : size + _PageSize < 2 ^ 64) by reflexivity.
  assert (H3 : mallocing w = 0) by reflexivity.
  assert (H4 : onGsignal w = false) by reflexivity.
  assert (H5 : mHeap_Alloc (Runtime := bumpRuntime) np 0 true
     (Z.land (wrap32 flagNoScan) _FlagNoZero =? 0)
     (deductSweepCredit (Runtime := bumpRuntime) (np * _PageSize) np (heap w))
     = (Ret (Some s), 21)) by (vm_compute; reflexivity).
  assert (H6 : npages s = np) by reflexivity.
  assert (H7 : 0 <= start s) by (vm_compute; discriminate).
  assert (H8 : (start s + npages s) * _PageSize < 2 ^ 64) by reflexivity.
  split; [auto 10|].
  exact (C3_large_path (RT := bumpRuntime) w size None flagNoScan s 21
           H1 H2 H3 H4 (or_introl flagNoScan_set) H5 H6 H7 H8).
Defined.

End MallocFacts.

(** * mcentral.go: the span lists *)

Module CentralFacts.
Import Central.

Section Triples.
Context {A B : Type}.








End Triples.






(** *** Membership after unlinking and linking *)

Lemma elem_of_unlink s x l : x ∈ unlink s l <-> x <> s /\ x ∈ l.
Proof. unfold unlink. exact (list_elem_of_filter (fun y => y <> s) l x). Qed.







(** *** One span [s] at work: what the operations on it keep *)








Lemma not_in_unlinked s ne em hf :
  s ∉ unlink s ne ++ unlink s em ++ unlink s hf.
Proof. rewrite !elem_of_app, !elem_of_unlink. tauto. Qed.









(** *** mCentral_FreeSpan, mSpan_Sweep and the code after [havespan] *)

Section CentralOps.
Context {X : Collaborators}.














(** *** The scans *)



(** *** The sweep debt of [c.empty] goes down with every retry *)



(** *** mCentral_CacheSpan *)







(** *** mCentral_UncacheSpan *)



(** *** The discipline, read as exclusivity *)





End CentralOps.

(** *** The claims on concrete states *)

Lemma invb_sound st : invb st = true -> Inv st.
Proof.
  unfold invb. intros Hb.
  apply andb_prop in Hb as [Hb Hmap]. apply andb_prop in Hb as [Hnd Hdom].
  apply bool_decide_eq_true in Hnd.
  rewrite forallb_forall in Hdom. rewrite forallb_forall in Hmap.
  assert (Hspan : forall s sp, spans st !! s = Some sp ->
            s ∈ allLinks st /\ (incache sp = true -> s ∈ empty st)).
  { intros s sp Hs.
    assert (Hin : In (s, sp) (map_to_list (spans st))).
    { apply list_elem_of_In, elem_of_map_to_list. exact Hs. }
    specialize (Hmap _ Hin). cbn in Hmap.
    apply andb_prop in Hmap as [H1 H2]. apply bool_decide_eq_true in H1.
    split; [exact H1|]. intros Hic. rewrite Hic in H2. cbn in H2.
    apply bool_decide_eq_true in H2. exact H2. }
  split; [exact Hnd|]. split; [|split].
  - intros s Hs. apply list_elem_of_In in Hs. specialize (Hdom s Hs).
    apply bool_decide_eq_true in Hdom. exact Hdom.
  - intros s [sp Hs]. left. exact (proj1 (Hspan s sp Hs)).
  - intros s sp Hs Hic. left. exact (proj2 (Hspan s sp Hs) Hic).
Qed.

Lemma oneSpan_Inv : Inv oneSpan.
Proof. apply invb_sound. vm_compute. reflexivity. Qed.


(** With nothing to reclaim, [mCentral_CacheSpan] cannot take the span of
    [c.nonempty] twice: the second call grows the list from the heap, and
    the fresh span ends up in [c.empty], cached. *)
Example CacheSpan_twice :
  let st1 := snd (mCentral_CacheSpan (X := firstFit) twoSpans) in
  let st2 := snd (mCentral_CacheSpan (X := firstFit) st1) in
  fst (mCentral_CacheSpan (X := firstFit) twoSpans) = Ret (Some 100) /\
  fst (mCentral_CacheSpan (X := firstFit) st1) = Ret (Some 200) /\
  nonempty st2 = [] /\ empty st2 = [100; 200] /\ heapfree st2 = [] /\
  incacheAt st2 100 = true /\ incacheAt st2 200 = true.
Proof. vm_compute. repeat split; reflexivity. Qed.

(** [mCentral_Grow] on its own hands back a span that is in no list. *)
Example Grow_unlinked :
  fst (mCentral_Grow (X := firstFit) twoSpans) = Ret (Some 200) /\
  containers3 (snd (mCentral_Grow (X := firstFit) twoSpans)) 200 = 0%nat.
Proof. vm_compute. split; reflexivity. Qed.



End CentralFacts.

Lemma small_all : range_all (small_ok sizeTables) 0 (Z.to_nat 32768) = true.
Proof. vm_compute. reflexivity. Qed.

Lemma class_all : range_all (class_ok sizeTables) 1 (Z.to_nat 66) = true.
Proof. vm_compute. reflexivity. Qed.

(** X1: [initSizes] runs to completion (neither "InitSizes - bug" nor
    "InitSizes - bad NumSizeClasses" is thrown) and fills the three lookup
    tables with exactly the values the source lists above the function. *)
Theorem initSizes_listed :
  exists t, Msize.initSizes = Ret t /\
    Msize.class_to_size t = listed_class_to_size /\
    Msize.size_to_class8 t = listed_size_to_class8 /\
    Msize.size_to_class128 t = listed_size_to_class128.
Proof.
  exists sizeTables. split; [exact initSizes_ok|].
  repeat split; vm_compute; reflexivity.
Qed.

Lemma classOf_Ret s c : classOf sizeTables s = c -> 1 <= c ->
  Msize.sizeToClass sizeTables s = Ret c.
Proof.
  unfold classOf. destruct (Msize.sizeToClass sizeTables s); intros; subst; try lia.
  reflexivity.
Qed.

Lemma small_ok_at s : 0 <= s < 32768 -> small_ok sizeTables s = true.
Proof. intros Hs. apply (range_all_spec _ 0 32768 s small_all). lia. Qed.

Lemma classOf_step s : 0 <= s < 32768 ->
  1 <= classOf sizeTables s <= classOf sizeTables (s + 1) /\
  classOf sizeTables (s + 1) <= 66.
Proof.
  intros Hs. pose proof (small_ok_at s Hs) as Hok. unfold small_ok in Hok.
  repeat (apply andb_prop in Hok as [Hok ?]). lia.
Qed.

Lemma classOf_mono_nat (n : nat) : forall s,
  0 <= s -> s + Z.of_nat n <= 32768 ->
  classOf sizeTables s <= classOf sizeTables (s + Z.of_nat n).
Proof.
  induction n as [|n IH]; intros s Hs Hn.
  - rewrite Z.add_0_r. lia.
  - replace (s + Z.of_nat (S n)) with ((s + Z.of_nat n) + 1) by lia.
    pose proof (IH s Hs ltac:(lia)).
    pose proof (classOf_step (s + Z.of_nat n) ltac:(lia)). lia.
Qed.

(** X2: [sizeToClass] is monotone on the sizes it serves: for
    [0 <= s1 <= s2 <= 32768] both sizes have a class in [1, 66] and the
    class of the smaller size is no larger. *)
Theorem sizeToClass_monotone (s1 s2 : Z) :
  0 <= s1 -> s1 <= s2 -> s2 <= _MaxSmallSize ->
  exists c1 c2,
    Msize.sizeToClass sizeTables s1 = Ret c1 /\
    Msize.sizeToClass sizeTables s2 = Ret c2 /\
    1 <= c1 /\ c1 <= c2 /\ c2 <= 66.
Proof.
  intros H1 H12 H2. change _MaxSmallSize with 32768 in H2.
  assert (Hb : forall s, 0 <= s <= 32768 -> 1 <= classOf sizeTables s <= 66).
  { intros s Hs. destruct (Z.eq_dec s 32768) as [->|Hne].
    - vm_compute. split; discriminate.
    - pose proof (classOf_step s ltac:(lia)). lia. }
  pose proof (classOf_mono_nat (Z.to_nat (s2 - s1)) s1 H1) as Hm.
  rewrite Z2Nat.id in Hm by lia. replace (s1 + (s2 - s1)) with s2 in Hm by lia.
  specialize (Hm H2).
  pose proof (Hb s1 ltac:(lia)). pose proof (Hb s2 ltac:(lia)).
  exists (classOf sizeTables s1), (classOf sizeTables s2).
  split; [apply classOf_Ret; [reflexivity | lia]|].
  split; [apply classOf_Ret; [reflexivity | lia]|]. lia.
Qed.

Lemma sizeToClass_monotone_witness :
  0 <= 100 /\ 100 <= 3000 /\ 3000 <= _MaxSmallSize /\
  exists c1 c2,
    Msize.sizeToClass sizeTables 100 = Ret c1 /\
    Msize.sizeToClass sizeTables 3000 = Ret c2 /\
    1 <= c1 /\ c1 <= c2 /\ c2 <= 66.
Proof.
  assert (H1 : 0 <= 100) by lia.
  assert (H2 : 100 <= 3000) by lia.
  assert (H3 : 3000 <= _MaxSmallSize) by (vm_compute; discriminate).
  split; [exact H1|]. split; [exact H2|]. split; [exact H3|].
  exact (sizeToClass_monotone 100 3000 H1 H2 H3).
Defined.

Lemma round_page (s : Z) :
  0 <= s -> s + _PageSize < 2 ^ 64 ->
  Malloc.round s _PageSize = (s + 8191) / 8192 * 8192 /\
  s <= Malloc.round s _PageSize < s + 8192.
Proof.
  intros Hs Hov. change _PageSize with 8192 in *. unfold Malloc.round.
  replace (s + 8192 - 1) with (s + 8191) by lia.
  pose proof (Z.div_mod (s + 8191) 8192 ltac:(lia)) as Hdm.
  pose proof (Z.mod_pos_bound (s + 8191) 8192 ltac:(lia)) as Hr.
  rewrite wrap64_small by lia. split; [reflexivity | lia].
Qed.

(** X3: [roundupsize] never fails on a [uintptr]; the size it returns covers
    the request, is a fixed point of [roundupsize], is the object size of
    the request's class for requests of 1 to 32768 bytes, and above that
    (short of wrapping around) the request rounded up to whole pages. *)
Theorem roundupsize_covers (s : Z) :
  0 <= s -> s < 2 ^ 64 ->
  exists r,
    roundupsize sizeTables s = Ret r /\ s <= r /\
    roundupsize sizeTables r = Ret r /\
    (1 <= s <= _MaxSmallSize -> classSize sizeTables s = Ret r) /\
    (_MaxSmallSize < s -> s + _PageSize < 2 ^ 64 ->
       r mod _PageSize = 0 /\ r < s + _PageSize).
Proof.
  intros H0 H64.
  destruct (Z.ltb_spec s 32768) as [Hsmall|Hlarge].
  - pose proof (small_ok_at s ltac:(lia)) as Hok. unfold small_ok in Hok.
    apply andb_prop in Hok as [Hcls Hok].
    repeat (apply andb_prop in Hcls as [Hcls ?]).
    destruct (roundupsize sizeTables s) as [r| | |] eqn:Er; try discriminate.
    destruct (index (Msize.class_to_size sizeTables) (classOf sizeTables s))
      as [sz| | |] eqn:Esz; try discriminate.
    repeat (apply andb_prop in Hok as [Hok ?]).
    destruct (roundupsize sizeTables r) as [r'| | |] eqn:Er'; try discriminate.
    assert (r' = r) by lia. assert (r = sz) by lia. subst r' sz.
    exists r. split; [reflexivity|]. split; [lia|]. split; [exact Er'|].
    split.
    + intros _. unfold classSize.
      rewrite (classOf_Ret s _ eq_refl) by lia. exact Esz.
    + change _MaxSmallSize with 32768. lia.
  - assert (Hbr : roundupsize sizeTables s =
                  if wrap64 (s + _PageSize) <? s then Ret s
                  else Ret (Malloc.round s _PageSize)).
    { unfold roundupsize. change _MaxSmallSize with 32768.
      destruct (Z.ltb_spec s 32768) as [?|_]; [lia | reflexivity]. }
    destruct (Z.ltb_spec (wrap64 (s + _PageSize)) s) as [Hwrap|Hno].
    + (* the request is within a page of the top of the address space *)
      exists s. split; [exact Hbr|]. split; [lia|].
      split.
      * rewrite Hbr. destruct (Z.ltb_spec (wrap64 (s + _PageSize)) s); [reflexivity | lia].
      * split; [change _MaxSmallSize with 32768; intros ?|].
        -- assert (s = 32768) by lia. subst s. vm_compute in Hwrap. discriminate.
        -- intros _ Hov. rewrite wrap64_small in Hwrap by (change _PageSize with 8192 in *; lia).
           change _PageSize with 8192 in *. lia.
    + assert (Hov : s + _PageSize < 2 ^ 64).
      { destruct (Z.lt_ge_cases (s + _PageSize) (2 ^ 64)) as [?|Hge]; [assumption|].
        exfalso. change _PageSize with 8192 in *.
        assert (Hw : wrap64 (s + 8192) = s + 8192 - 2 ^ 64).
        { unfold wrap64. symmetry. apply (Z.mod_unique _ _ 1); [left; lia | lia]. }
        lia. }
      destruct (round_page s H0 Hov) as [Hr Hrb].
      set (r := Malloc.round s _PageSize) in *.
      assert (Hmul : r mod 8192 = 0) by (rewrite Hr; apply Z.mod_mul; lia).
      exists r. split; [exact Hbr|]. split; [lia|].
      split.
      * unfold roundupsize. change _MaxSmallSize with 32768.
        destruct (Z.ltb_spec r 32768) as [?|_]; [lia|].
        destruct (Z.ltb_spec (wrap64 (r + _PageSize)) r) as [_|Hno']; [reflexivity|].
        f_equal.
        assert (Hov' : r + _PageSize < 2 ^ 64).
        { destruct (Z.lt_ge_cases (r + _PageSize) (2 ^ 64)) as [?|Hge]; [assumption|].
          exfalso. change _PageSize with 8192 in *.
          assert (Hw : wrap64 (r + 8192) = r + 8192 - 2 ^ 64).
          { unfold wrap64. symmetry. apply (Z.mod_unique _ _ 1); [left; lia | lia]. }
          lia. }
        destruct (round_page r ltac:(lia) Hov') as [Hr' _]. rewrite Hr'.
        pose proof (Z.div_mod r 8192 ltac:(lia)) as Hdm. rewrite Hmul in Hdm.
        assert (Hq : (r + 8191) / 8192 = r / 8192).
        { symmetry. apply (Z.div_unique _ _ _ 8191); lia. }
        rewrite Hq. lia.
      * split.
        -- change _MaxSmallSize with 32768. intros Hs.
           assert (s = 32768) by lia. subst s. vm_compute. reflexivity.
        -- intros _ _. change _PageSize with 8192 in *. split; [exact Hmul | lia].
Qed.

Lemma roundupsize_covers_witness :
  0 <= 40000 /\ 40000 < 2 ^ 64 /\
  exists r,
    roundupsize sizeTables 40000 = Ret r /\ 40000 <= r /\
    roundupsize sizeTables r = Ret r /\
    (1 <= 40000 <= _MaxSmallSize -> classSize sizeTables 40000 = Ret r) /\
    (_MaxSmallSize < 40000 -> 40000 + _PageSize < 2 ^ 64 ->
       r mod _PageSize = 0 /\ r < 40000 + _PageSize).
Proof.
  assert (H1 : 0 <= 40000) by lia.
  assert (H2 : 40000 < 2 ^ 64) by lia.
  split; [exact H1|]. split; [exact H2|].
  exact (roundupsize_covers 40000 H1 H2).
Defined.

(** X4: The span of every class, as [initSizes] sizes it: the class's object
    size exceeds that of the class before and is a multiple of 8; chopping
    the class's [class_to_allocnpages] pages into objects leaves at least
    one object and a tail of at most an eighth of the span; no shorter
    span would do; and from the second class on, a class differs from its
    predecessor in span length or in objects per span (else the two would
    have been merged). *)
Theorem class_span_waste (c : Z) :
  1 <= c -> c <= 66 ->
  exists sz prev np pnp,
    index (Msize.class_to_size sizeTables) c = Ret sz /\
    index (Msize.class_to_size sizeTables) (c - 1) = Ret prev /\
    index (Msize.class_to_allocnpages sizeTables) c = Ret np /\
    index (Msize.class_to_allocnpages sizeTables) (c - 1) = Ret pnp /\
    prev < sz /\ sz mod 8 = 0 /\ 1 <= np /\
    1 <= (np * _PageSize) / sz /\
    (np * _PageSize) mod sz <= (np * _PageSize) / 8 /\
    (forall p, 1 <= p < np -> (p * _PageSize) mod sz > (p * _PageSize) / 8) /\
    (2 <= c -> np <> pnp \/ (np * _PageSize) / sz <> (np * _PageSize) / prev).
Proof.
  intros H1 H2.
  assert (Hok : class_ok sizeTables c = true).
  { apply (range_all_spec _ 1 66 c class_all). lia. }
  unfold class_ok in Hok.
  destruct (index (Msize.class_to_size sizeTables) c) as [sz| | |]; try discriminate.
  destruct (index (Msize.class_to_size sizeTables) (c - 1)) as [prev| | |];
    try discriminate.
  destruct (index (Msize.class_to_allocnpages sizeTables) c) as [np| | |];
    try discriminate.
  destruct (index (Msize.class_to_allocnpages sizeTables) (c - 1)) as [pnp| | |];
    try discriminate.
  apply andb_prop in Hok as [Hok Hmerge]. apply andb_prop in Hok as [Hok Hmin].
  repeat (apply andb_prop in Hok as [Hok ?]).
  exists sz, prev, np, pnp. repeat (split; [reflexivity|]).
  split; [lia|]. split; [lia|]. split; [lia|]. split; [lia|]. split; [lia|].
  split.
  - intros p Hp.
    pose proof (range_all_spec _ 1 (np - 1) p Hmin ltac:(lia)) as Hp'.
    cbv beta in Hp'. lia.
  - intros Hc. apply orb_prop in Hmerge as [Hc1|Hne]; [lia|].
    apply negb_true_iff, andb_false_iff in Hne as [Hne|Hne]; [left | right]; lia.
Qed.

Lemma class_span_waste_witness :
  1 <= 45 /\ 45 <= 66 /\
  exists sz prev np pnp,
    index (Msize.class_to_size sizeTables) 45 = Ret sz /\
    index (Msize.class_to_size sizeTables) (45 - 1) = Ret prev /\
    index (Msize.class_to_allocnpages sizeTables) 45 = Ret np /\
    index (Msize.class_to_allocnpages sizeTables) (45 - 1) = Ret pnp /\
    prev < sz /\ sz mod 8 = 0 /\ 1 <= np /\
    1 <= (np * _PageSize) / sz /\
    (np * _PageSize) mod sz <= (np * _PageSize) / 8 /\
    (forall p, 1 <= p < np -> (p * _PageSize) mod sz > (p * _PageSize) / 8) /\
    (2 <= 45 -> np <> pnp \/ (np * _PageSize) / sz <> (np * _PageSize) / prev).
Proof.
  assert (H1 : 1 <= 45) by lia.
  assert (H2 : 45 <= 66) by lia.
  split; [exact H1|]. split; [exact H2|].
  exact (class_span_waste 45 H1 H2).
Defined.

(** *** computeDivMagic on any divisor *)

Lemma land1_even d : (Z.land d 1 =? 0) = Z.even d.
Proof.
  change 1 with (Z.ones 1) at 1. rewrite Z.land_ones by lia.
  change (2 ^ 1) with 2. rewrite Zmod_even. destruct (Z.even d); reflexivity.
Qed.

Lemma shiftLoop_spec (f : nat) : forall d sh,
  0 < d < 2 ^ Z.of_nat f -> 0 <= sh -> sh + Z.of_nat f < 256 ->
  exists d1 sh1, Msize.shiftLoop (S f) d sh = Ret (d1, sh1) /\
    Z.odd d1 = true /\ 0 < d1 /\ sh <= sh1 <= sh + Z.of_nat f /\
    d = d1 * 2 ^ (sh1 - sh).
Proof.
  induction f as [|f IH]; intros d sh Hd Hsh Hb.
  - change (2 ^ Z.of_nat 0) with 1 in Hd. lia.
  - cbn [Msize.shiftLoop]. rewrite land1_even.
    destruct (Z.even d) eqn:Hev.
    + assert (Hd2 : d = 2 * (d / 2)).
      { pose proof (Z.div_mod d 2 ltac:(lia)) as Hdm.
        rewrite Zmod_even, Hev in Hdm. lia. }
      assert (Hsr : Z.shiftr d 1 = d / 2) by (rewrite Z.shiftr_div_pow2 by lia; reflexivity).
      assert (Hw : wrap8 (sh + 1) = sh + 1) by (unfold wrap8; apply Z.mod_small; lia).
      rewrite Hsr, Hw.
      assert (Hp : 2 ^ Z.of_nat (S f) = 2 * 2 ^ Z.of_nat f).
      { rewrite Nat2Z.inj_succ, Z.pow_succ_r by lia. reflexivity. }
      destruct (IH (d / 2) (sh + 1)) as (d1 & sh1 & Hrun & Hodd & Hpos & Hs1 & Hfac);
        [lia | lia | lia |].
      exists d1, sh1. split; [exact Hrun|]. split; [exact Hodd|]. split; [exact Hpos|].
      split; [lia|].
      replace (sh1 - sh) with (Z.succ (sh1 - (sh + 1))) by lia.
      rewrite Z.pow_succ_r by lia. lia.
    + exists d, sh. split; [reflexivity|].
      split; [rewrite <- Z.negb_even, Hev; reflexivity|].
      split; [lia|]. split; [lia|]. rewrite Z.sub_diag. lia.
Qed.

Lemma ceilPow2Div_eq k d :
  0 <= k <= 63 -> 0 < d < 2 ^ 32 ->
  Msize.ceilPow2Div k d = (2 ^ k + d - 1) / d.
Proof.
  intros Hk Hd. unfold Msize.ceilPow2Div.
  rewrite Z.shiftl_mul_pow2, Z.mul_1_l by lia.
  assert (Hp : 0 < 2 ^ k <= 2 ^ 63).
  { split; [apply Z.pow_pos_nonneg; lia | apply Z.pow_le_mono_r; lia]. }
  rewrite (wrap64_small (2 ^ k)) by lia.
  rewrite (wrap64_small (2 ^ k + d)) by lia.
  rewrite wrap64_small by lia.
  apply Z.quot_div_nonneg; lia.
Qed.

Lemma kLoop_spec d (f : nat) : forall k,
  0 < d < 2 ^ 32 -> 31 <= k <= 63 -> k - 31 < Z.of_nat f ->
  exists k', Msize.kLoop f k d = Ret k' /\ 31 <= k' <= k /\
    (2 ^ k' + d - 1) / d < 2 ^ 32 /\
    (k' = k \/ 2 ^ 32 <= (2 ^ (k' + 1) + d - 1) / d).
Proof.
  induction f as [|f IH]; intros k Hd Hk Hf; [lia|].
  cbn [Msize.kLoop]. rewrite Z.geb_leb.
  rewrite ceilPow2Div_eq by lia. change (Z.shiftl 1 32) with (2 ^ 32).
  destruct (Z.leb_spec (2 ^ 32) ((2 ^ k + d - 1) / d)) as [Hbig|Hfit].
  - assert (Hk32 : 32 <= k).
    { destruct (Z.eq_dec k 31) as [->|?]; [|lia]. exfalso.
      assert ((2 ^ 31 + d - 1) / d < 2 ^ 32); [|lia].
      apply Z.div_lt_upper_bound; lia. }
    assert (Hw : wrap8 (k - 1) = k - 1) by (unfold wrap8; apply Z.mod_small; lia).
    rewrite Hw.
    destruct (IH (k - 1) Hd ltac:(lia) ltac:(lia)) as (k' & Hrun & Hk' & Hlt & Hmax).
    exists k'. split; [exact Hrun|]. split; [lia|]. split; [exact Hlt|]. right.
    destruct Hmax as [->|?]; [|assumption].
    replace (k - 1 + 1) with k by lia. exact Hbig.
  - exists k. split; [reflexivity|]. split; [lia|]. split; [exact Hfit|]. left. reflexivity.
Qed.

Lemma pow2_not_odd d1 sh j :
  0 < d1 -> Z.odd d1 = true -> 0 <= sh -> 0 <= j -> d1 * 2 ^ sh = 2 ^ j -> d1 = 1.
Proof.
  intros Hd Hodd Hsh Hj Heq.
  assert (Hps : 0 < 2 ^ sh) by (apply Z.pow_pos_nonneg; lia).
  destruct (Z.le_gt_cases sh j) as [Hle|Hgt].
  - replace j with (sh + (j - sh)) in Heq by lia.
    rewrite Z.pow_add_r in Heq by lia.
    assert (Hd1 : d1 = 2 ^ (j - sh)) by nia.
    destruct (Z.eq_dec (j - sh) 0) as [Hz|Hnz]; [rewrite Hz in Hd1; exact Hd1|].
    exfalso. replace (j - sh) with (Z.succ (j - sh - 1)) in Hd1 by lia.
    rewrite Z.pow_succ_r in Hd1 by lia.
    rewrite Hd1, Z.odd_mul in Hodd. discriminate.
  - exfalso. assert (2 ^ j < 2 ^ sh) by (apply Z.pow_lt_mono_r; lia). nia.
Qed.

Lemma land_pred_nonzero d d1 sh :
  d = d1 * 2 ^ sh -> 0 < d1 -> Z.odd d1 = true -> 0 <= sh -> d1 <> 1 ->
  Z.land d (d - 1) <> 0.
Proof.
  intros Hfac Hd1 Hodd Hsh Hne.
  assert (Hps : 0 < 2 ^ sh) by (apply Z.pow_pos_nonneg; lia).
  assert (Hd : 0 < d) by nia.
  pose proof (Z.log2_spec d Hd) as Hlog. set (j := Z.log2 d) in *.
  assert (Hj : 0 <= j) by apply Z.log2_nonneg.
  assert (Hnp : d <> 2 ^ j).
  { intros Heq. apply Hne. apply (pow2_not_odd d1 sh j); try assumption. lia. }
  assert (Hlog' : Z.log2 (d - 1) = j) by (apply Z.log2_unique; lia).
  intros Hz.
  assert (Hbit : Z.testbit (Z.land d (d - 1)) j = true).
  { rewrite Z.land_spec. unfold j at 1. rewrite (Z.bit_log2 d Hd).
    rewrite <- Hlog'. rewrite Z.bit_log2; [reflexivity|].
    pose proof (Z.pow_pos_nonneg 2 j ltac:(lia) Hj). lia. }
  rewrite Hz, Z.bits_0 in Hbit. discriminate.
Qed.

Lemma land_pred_pow2 sh : 0 <= sh -> Z.land (2 ^ sh) (2 ^ sh - 1) = 0.
Proof.
  intros Hsh. replace (2 ^ sh - 1) with (Z.ones sh) by (rewrite Z.ones_equiv; lia).
  rewrite Z.land_ones by lia. apply Z.mod_same.
  pose proof (Z.pow_pos_nonneg 2 sh ltac:(lia) Hsh). lia.
Qed.

Lemma computeDivMagic_shape d :
  0 < d < 2 ^ 32 ->
  exists m d1, Msize.computeDivMagic d = Ret m /\
    0 <= Msize.shift m <= 31 /\ 31 <= Msize.shift2 m <= 63 /\
    d = d1 * 2 ^ Msize.shift m /\ Z.odd d1 = true /\ 0 < d1 /\
    Msize.mul m = (2 ^ Msize.shift2 m + d1 - 1) / d1 /\
    0 < Msize.mul m < 2 ^ 32 /\
    0 <= Msize.mul m * d1 - 2 ^ Msize.shift2 m < d1 /\
    (Msize.shift2 m = 63 \/
     2 ^ 32 <= (2 ^ (Msize.shift2 m + 1) + d1 - 1) / d1) /\
    Msize.baseMask m =
      (if Z.eqb d1 1 then wrap64 (Z.lnot (2 ^ Msize.shift m - 1)) else 0).
Proof.
  intros Hd.
  destruct (shiftLoop_spec 32 d 0) as (d1 & sh & Hsl & Hodd & Hd1 & Hsh & Hfac);
    [exact Hd | lia | lia |].
  rewrite Z.sub_0_r in Hfac. change (Z.of_nat 32) with 32 in Hsh.
  assert (Hps : 0 < 2 ^ sh) by (apply Z.pow_pos_nonneg; lia).
  assert (Hsh31 : sh <= 31).
  { destruct (Z.le_gt_cases sh 31) as [?|Hgt]; [assumption|]. exfalso.
    assert (sh = 32) by lia. subst sh. lia. }
  assert (Hd1b : 0 < d1 < 2 ^ 32) by nia.
  destruct (kLoop_spec d1 64 63 Hd1b ltac:(lia) ltac:(lia)) as (k & Hkl & Hk & Hlt & Hmax).
  assert (Hpk : 0 < 2 ^ k) by (apply Z.pow_pos_nonneg; lia).
  set (mu := (2 ^ k + d1 - 1) / d1) in *.
  assert (Hmu : 0 < mu).
  { apply Z.div_str_pos. lia. }
  set (bm := if Z.eqb d1 1 then wrap64 (Z.lnot (2 ^ sh - 1)) else 0).
  exists (Msize.mkDivMagic sh mu k bm), d1.
  cbn [Msize.shift Msize.shift2 Msize.mul Msize.baseMask].
  split.
  - unfold Msize.computeDivMagic. rewrite Hsl. cbn [obind].
    destruct (Z.eqb_spec d1 0) as [?|_]; [lia|].
    rewrite Hkl. cbn [obind]. rewrite ceilPow2Div_eq by lia. fold mu.
    assert (Hw : wrap32 mu = mu) by (unfold wrap32; apply Z.mod_small; lia).
    rewrite Hw. f_equal. f_equal.
    assert (Hw' : wrap32 (d - 1) = d - 1) by (unfold wrap32; apply Z.mod_small; lia).
    rewrite Hw'. unfold bm.
    destruct (Z.eqb_spec d1 1) as [Hone|Hne].
    + assert (Hdp : d = 2 ^ sh) by lia. rewrite Hdp, land_pred_pow2 by lia.
      change (0 =? 0) with true. cbv iota.
      rewrite (wrap64_small (2 ^ sh - 1)); [reflexivity|].
      assert (2 ^ sh <= 2 ^ 31) by (apply Z.pow_le_mono_r; lia). lia.
    + pose proof (land_pred_nonzero d d1 sh Hfac Hd1 Hodd ltac:(lia) Hne) as Hnz.
      destruct (Z.eqb_spec (Z.land d (d - 1)) 0) as [?|_]; [contradiction | reflexivity].
  - split; [lia|]. split; [lia|]. split; [exact Hfac|]. split; [exact Hodd|].
    split; [exact Hd1|]. split; [reflexivity|]. split; [lia|].
    split.
    + pose proof (Z.div_mod (2 ^ k + d1 - 1) d1 ltac:(lia)) as Hdm.
      pose proof (Z.mod_pos_bound (2 ^ k + d1 - 1) d1 Hd1) as Hr.
      fold mu in Hdm. lia.
    + split; [|reflexivity].
      destruct Hmax as [->|Hbig]; [left; reflexivity | right; exact Hbig].
Qed.

(** X5: [computeDivMagic] handles every nonzero 32-bit divisor [d]: both of
    its loops end, and the result factors [d] as an odd [d1] times
    [2^shift], with [mul = ceil(2^shift2 / d1)] fitting 32 bits for the
    largest [shift2 <= 63] that allows it, and [baseMask] the mask
    [^(d-1)] when [d] is a power of two and 0 otherwise. *)
Theorem computeDivMagic_total (d : Z) :
  0 < d -> d < 2 ^ 32 ->
  exists m d1, Msize.computeDivMagic d = Ret m /\
    0 <= Msize.shift m <= 31 /\ 31 <= Msize.shift2 m <= 63 /\
    d = d1 * 2 ^ Msize.shift m /\ Z.odd d1 = true /\
    Msize.mul m = (2 ^ Msize.shift2 m + d1 - 1) / d1 /\
    0 < Msize.mul m < 2 ^ 32 /\
    (Msize.shift2 m = 63 \/
     2 ^ 32 <= (2 ^ (Msize.shift2 m + 1) + d1 - 1) / d1) /\
    Msize.baseMask m =
      (if Z.eqb d1 1 then wrap64 (Z.lnot (d - 1)) else 0).
Proof.
  intros H0 H32.
  destruct (computeDivMagic_shape d (conj H0 H32))
    as (m & d1 & Hrun & Hsh & Hk & Hfac & Hodd & Hd1 & Hmul & Hmu & _ & Hmax & Hbm).
  exists m, d1. repeat (split; [assumption|]).
  rewrite Hbm. destruct (Z.eqb_spec d1 1) as [Hone|_]; [|reflexivity].
  rewrite Hfac, Hone, Z.mul_1_l. reflexivity.
Qed.

Lemma computeDivMagic_total_witness :
  0 < 48 /\ 48 < 2 ^ 32 /\
  exists m d1, Msize.computeDivMagic 48 = Ret m /\
    0 <= Msize.shift m <= 31 /\ 31 <= Msize.shift2 m <= 63 /\
    48 = d1 * 2 ^ Msize.shift m /\ Z.odd d1 = true /\
    Msize.mul m = (2 ^ Msize.shift2 m + d1 - 1) / d1 /\
    0 < Msize.mul m < 2 ^ 32 /\
    (Msize.shift2 m = 63 \/
     2 ^ 32 <= (2 ^ (Msize.shift2 m + 1) + d1 - 1) / d1) /\
    Msize.baseMask m =
      (if Z.eqb d1 1 then wrap64 (Z.lnot (48 - 1)) else 0).
Proof.
  assert (H0 : 0 < 48) by lia.
  assert (H32 : 48 < 2 ^ 32) by lia.
  split; [exact H0|]. split; [exact H32|].
  exact (computeDivMagic_total 48 H0 H32).
Defined.

(** X6: Division by the magic constants is exact well beyond the class sizes:
    for every nonzero 32-bit [d] and every [n] below [2^(31+shift)],
    [((n >> shift) * mul) >> shift2 = n / d] in 64-bit arithmetic; so for
    every even [d] (as "malloc block sizes are always even") it is exact
    on all 32-bit [n]; and when [d] is a power of two,
    [n & baseMask = (n / d) * d] for every [uintptr] [n]. *)
Theorem computeDivMagic_exact (d : Z) :
  0 < d -> d < 2 ^ 32 ->
  exists m, Msize.computeDivMagic d = Ret m /\
    (forall n, 0 <= n < 2 ^ (31 + Msize.shift m) -> magicDiv m n = n / d) /\
    (Z.even d = true -> forall n, 0 <= n < 2 ^ 32 -> magicDiv m n = n / d) /\
    (isPow2 d = true -> forall n, 0 <= n < 2 ^ 64 ->
       Z.land n (Msize.baseMask m) = n / d * d).
Proof.
  intros H0 H32.
  destruct (computeDivMagic_shape d (conj H0 H32))
    as (m & d1 & Hrun & Hsh & Hk & Hfac & Hodd & Hd1 & Hmul & Hmu & He & Hmax & Hbm).
  set (sh := Msize.shift m) in *. set (k := Msize.shift2 m) in *.
  set (mu := Msize.mul m) in *.
  assert (Hps : 0 < 2 ^ sh) by (apply Z.pow_pos_nonneg; lia).
  assert (Hpk : 0 < 2 ^ k) by (apply Z.pow_pos_nonneg; lia).
  assert (Hcap : d1 <= 2 ^ (k - 31)).
  { assert (Hd1b : d1 < 2 ^ 32) by nia.
    destruct Hmax as [Hk63|Hbig].
    - rewrite Hk63. change (2 ^ (63 - 31)) with (2 ^ 32). lia.
    - assert (Hle : 2 ^ 32 * d1 <= 2 ^ (k + 1) + d1 - 1).
      { pose proof (Z.div_mod (2 ^ (k + 1) + d1 - 1) d1 ltac:(lia)) as Hdm.
        pose proof (Z.mod_pos_bound (2 ^ (k + 1) + d1 - 1) d1 Hd1) as Hr. nia. }
      assert (Hsplit : 2 ^ (k + 1) = 2 ^ 32 * 2 ^ (k - 31)).
      { rewrite <- Z.pow_add_r by lia. f_equal. lia. }
      destruct (Z.eq_dec k 63) as [Hk63|Hk63];
        [rewrite Hk63; change (2 ^ (63 - 31)) with (2 ^ 32); lia|].
      assert (Hp : 0 < 2 ^ (k - 31) <= 2 ^ 31).
      { split; [apply Z.pow_pos_nonneg; lia | apply Z.pow_le_mono_r; lia]. }
      rewrite Hsplit in Hle. set (P := 2 ^ (k - 31)) in *. lia. }
  assert (Hexact : forall n, 0 <= n < 2 ^ (31 + sh) -> magicDiv m n = n / d).
  { intros n Hn. unfold magicDiv. fold sh k mu.
    rewrite (Z.shiftr_div_pow2 n sh) by lia.
    assert (Hq : 0 <= n / 2 ^ sh < 2 ^ 31).
    { split; [apply Z.div_pos; lia|]. apply Z.div_lt_upper_bound; [lia|].
      rewrite <- Z.pow_add_r by lia. replace (sh + 31) with (31 + sh) by lia. lia. }
    set (q := n / 2 ^ sh) in *.
    rewrite wrap64_small by nia.
    rewrite Z.shiftr_div_pow2 by lia.
    assert (Hsplit : 2 ^ k = 2 ^ 31 * 2 ^ (k - 31)).
    { rewrite <- Z.pow_add_r by lia. f_equal. lia. }
    rewrite (magic_quotient d1 k mu (mu * d1 - 2 ^ k)); try lia.
    - unfold q. rewrite Z.div_div by lia. rewrite Hfac. f_equal. lia.
    - rewrite Hsplit. set (P := 2 ^ (k - 31)) in *. nia. }
  exists m. split; [exact Hrun|]. split; [exact Hexact|]. split.
  - intros Hev n Hn. apply Hexact.
    assert (Hsh1 : 1 <= sh).
    { destruct (Z.eq_dec sh 0) as [Hz|?]; [|lia]. exfalso.
      rewrite Hz, Z.mul_1_r in Hfac. subst d1.
      rewrite <- Z.negb_even, Hev in Hodd. discriminate. }
    assert (2 ^ 32 <= 2 ^ (31 + sh)) by (apply Z.pow_le_mono_r; lia). lia.
  - intros Hpow n Hn. unfold isPow2 in Hpow. apply Z.eqb_eq in Hpow.
    assert (Hone : d1 = 1).
    { destruct (Z.eq_dec d1 1) as [?|Hne]; [assumption|]. exfalso.
      exact (land_pred_nonzero d d1 sh Hfac Hd1 Hodd ltac:(lia) Hne Hpow). }
    rewrite Hbm, Hone. change (1 =? 1) with true. cbv iota.
    rewrite mask_rounds_down by lia.
    rewrite Hfac, Hone, Z.mul_1_l. reflexivity.
Qed.

Lemma computeDivMagic_exact_witness :
  0 < 4294967294 /\ 4294967294 < 2 ^ 32 /\
  exists m, Msize.computeDivMagic 4294967294 = Ret m /\
    (forall n, 0 <= n < 2 ^ (31 + Msize.shift m) -> magicDiv m n = n / 4294967294) /\
    (Z.even 4294967294 = true ->
       forall n, 0 <= n < 2 ^ 32 -> magicDiv m n = n / 4294967294) /\
    (isPow2 4294967294 = true -> forall n, 0 <= n < 2 ^ 64 ->
       Z.land n (Msize.baseMask m) = n / 4294967294 * 4294967294).
Proof.
  assert (H0 : 0 < 4294967294) by lia.
  assert (H32 : 4294967294 < 2 ^ 32) by lia.
  split; [exact H0|]. split; [exact H32|].
  exact (computeDivMagic_exact 4294967294 H0 H32).
Defined.

Module EntryFacts.
Import Malloc Entry.

Lemma bind_Ret {St A B} (m : M St A) (k : A -> M St B) s r s' :
  bind m k s = (Ret r, s') ->
  exists a s1, m s = (Ret a, s1) /\ k a s1 = (Ret r, s').
Proof.
  unfold bind. destruct (m s) as [[a| | |] s1]; try discriminate.
  intros Hk. exists a, s1. split; [reflexivity | exact Hk].
Qed.

Lemma lift_Ret {St A} (o : outcome A) (s : St) r s' :
  lift o s = (Ret r, s') -> o = Ret r /\ s' = s.
Proof. unfold lift. intros [= -> ->]. split; reflexivity. Qed.

Lemma modify_Ret {St} (f : St -> St) (s : St) r s' :
  modify f s = (Ret r, s') -> s' = f s.
Proof. unfold modify. intros [= _ <-]. reflexivity. Qed.

Lemma ret_Ret {St A} (a : A) (s : St) r s' :
  ret a s = (Ret r, s') -> r = a /\ s' = s.
Proof. unfold ret. intros [= <- <-]. split; reflexivity. Qed.

Lemma get_Ret {St} (s : St) r s' :
  get s = (Ret r, s') -> r = s /\ s' = s.
Proof. unfold get. intros [= <- <-]. split; reflexivity. Qed.

Lemma sint32_id z : - 2 ^ 31 <= z < 2 ^ 31 -> sint32 z = z.
Proof.
  intros Hz. unfold sint32, wrap32.
  destruct (Z.lt_ge_cases z 0) as [Hneg|Hpos].
  - assert (Hm : z mod 2 ^ 32 = z + 2 ^ 32).
    { symmetry. apply (Z.mod_unique _ _ (-1)); [left; lia | lia]. }
    rewrite Hm. destruct (Z.ltb_spec (z + 2 ^ 32) (2 ^ 31)); lia.
  - rewrite Z.mod_small by lia. destruct (Z.ltb_spec z (2 ^ 31)); lia.
Qed.

Lemma sint32_round_trip z : - 2 ^ 31 <= z < 2 ^ 31 -> sint32 (sint32 (z + 1) - 1) = z.
Proof.
  intros Hz. destruct (Z.eq_dec z (2 ^ 31 - 1)) as [->|Hne].
  - vm_compute. reflexivity.
  - rewrite (sint32_id (z + 1)) by lia. replace (z + 1 - 1) with z by lia.
    apply sint32_id. exact Hz.
Qed.

Section EntryFacts.
Context {H : Type} {RT : Runtime H}.

Lemma sameThread_refl (w : world H) : sameThread w w.
Proof. repeat split. Qed.

Lemma sameThread_trans (w1 w2 w3 : world H) :
  sameThread w1 w2 -> sameThread w2 w3 -> sameThread w1 w3.
Proof. unfold sameThread. intros (?&?&?) (?&?&?). repeat split; congruence. Qed.

Lemma sameBut_sameThread (w w1 : world H) : sameBut_alloc w w1 -> sameThread w w1.
Proof. unfold sameBut_alloc, sameThread. tauto. Qed.

Lemma modifyCache_frame f (w : world H) :
  modifyCache f w = (Ret tt, set_cache (f (cache w)) w).
Proof. reflexivity. Qed.

Lemma onHeap_frame {A} (m : M H A) (w : world H) r w' :
  onHeap m w = (Ret r, w') -> sameThread w w' /\ cache w' = cache w.
Proof.
  unfold onHeap. destruct (m (heap w)) as [o h]. intros [= -> <-].
  destruct w; repeat split.
Qed.

Lemma scanAccount_frame typ size dataSize (w : world H) w' :
  scanAccount typ size dataSize w = (Ret tt, w') -> sameThread w w' /\ heap w' = heap w.
Proof.
  unfold scanAccount. destruct typ as [ty|]; [|discriminate].
  destruct (_ >? tsize ty).
  - destruct (negb (ptrdata ty =? 0)).
    + intros Hm. apply modify_Ret in Hm as ->. destruct w; repeat split.
    + intros Hm. apply ret_Ret in Hm as [_ ->]. destruct w; repeat split.
  - intros Hm. apply modify_Ret in Hm as ->. destruct w; repeat split.
Qed.

(** What the allocation proper (between [mp.mallocing = 1] and the common
    tail) does to the thread: the early return of the tiny allocator has
    already cleared [mp.mallocing] and released [m]; the other paths leave
    the thread as it is. *)
Lemma tinyAlloc_frame size (w : world H) r w' :
  tinyAlloc size w = (Ret r, w') ->
  match r with
  | inl _ => mallocing w' = 0 /\ locks w' = sint32 (locks w - 1) /\
             onGsignal w' = onGsignal w
  | inr _ => sameThread w w'
  end.
Proof.
  unfold tinyAlloc. intros Hrun.
  apply bind_Ret in Hrun as (w0 & s1 & Hget & Hrun). apply get_Ret in Hget as [-> ->].
  destruct (tinyFits (cache w) size).
  - destruct w as [m l g c h]. MallocFacts.run_in Hrun. injection Hrun as <- <-.
    repeat split.
  - apply bind_Ret in Hrun as (x & w1 & Hnf & Hrun).
    apply MallocFacts.nextFree_ret in Hnf as [_ Hsame].
    apply bind_Ret in Hrun as (w1' & s2 & Hget & Hrun). apply get_Ret in Hget as [-> ->].
    apply bind_Ret in Hrun as (u & w2 & Hset & Hrun).
    apply ret_Ret in Hrun as [-> ->].
    apply sameBut_sameThread in Hsame.
    apply (sameThread_trans _ _ _ Hsame).
    destruct (size <? tinyoffset (cache w1)).
    + apply modify_Ret in Hset as ->. destruct w1; repeat split.
    + apply ret_Ret in Hset as [_ ->]. apply sameThread_refl.
Qed.

Lemma smallAlloc_frame size (w : world H) r w' :
  smallAlloc size w = (Ret r, w') ->
  (exists x sz, r = inr (x, sz)) /\ sameThread w w'.
Proof.
  unfold smallAlloc. intros Hrun.
  apply bind_Ret in Hrun as (c & s1 & Hc & Hrun). apply lift_Ret in Hc as [_ ->].
  apply bind_Ret in Hrun as (sz & s1 & Hsz & Hrun). apply lift_Ret in Hsz as [_ ->].
  apply bind_Ret in Hrun as (x & w1 & Hnf & Hrun).
  apply ret_Ret in Hrun as [-> ->].
  apply MallocFacts.nextFree_ret in Hnf as [_ Hsame].
  split; [eauto | apply sameBut_sameThread; exact Hsame].
Qed.

Lemma mallocgc_thread size typ flags (w : world H) x w' :
  mallocgc size typ flags w = (Ret x, w') ->
  (size = 0 /\ w' = w) \/
  (size <> 0 /\ mallocing w = 0 /\ onGsignal w = false /\
   mallocing w' = 0 /\ onGsignal w' = false /\
   locks w' = sint32 (sint32 (locks w + 1) - 1)).
Proof.
  unfold mallocgc. destruct (Z.eqb_spec size 0) as [Hz|Hnz].
  - intros Hr. apply ret_Ret in Hr as [_ ->]. left. split; [exact Hz | reflexivity].
  - intros Hrun. right. split; [exact Hnz|].
    apply bind_Ret in Hrun as (u & w1 & Hacq & Hrun).
    apply modify_Ret in Hacq. subst w1.
    apply bind_Ret in Hrun as (w1' & s1 & Hget & Hrun). apply get_Ret in Hget as [-> ->].
    set (w1 := set_locks (sint32 (locks w + 1)) w) in *.
    assert (Hm1 : mallocing w1 = mallocing w) by (destruct w; reflexivity).
    assert (Hg1 : onGsignal w1 = onGsignal w) by (destruct w; reflexivity).
    assert (Hl1 : locks w1 = sint32 (locks w + 1)) by (destruct w; reflexivity).
    rewrite Hm1, Hg1 in Hrun.
    destruct (Z.eqb_spec (mallocing w) 0) as [Hm|?]; [|discriminate]. cbn [negb] in Hrun.
    destruct (onGsignal w) eqn:Hg; [discriminate|].
    split; [exact Hm|]. split; [reflexivity|].
    apply bind_Ret in Hrun as (u' & w2 & Hset & Hrun).
    apply modify_Ret in Hset. subst w2.
    set (w2 := set_mallocing 1 w1) in *.
    assert (Hg2 : onGsignal w2 = false) by (destruct w; exact Hg).
    assert (Hl2 : locks w2 = sint32 (locks w + 1)) by (destruct w; reflexivity).
    apply bind_Ret in Hrun as (r & w3 & Hmid & Hrun).
    assert (Hmidspec :
      match r with
      | inl _ => mallocing w3 = 0 /\ locks w3 = sint32 (locks w2 - 1) /\
                 onGsignal w3 = onGsignal w2
      | inr _ => locks w3 = locks w2 /\ onGsignal w3 = onGsignal w2
      end).
    { destruct (size <=? maxSmallSize).
      - apply bind_Ret in Hmid as (r0 & w4 & Halloc & Hmid).
        assert (Hr0 :
          match r0 with
          | inl _ => mallocing w4 = 0 /\ locks w4 = sint32 (locks w2 - 1) /\
                     onGsignal w4 = onGsignal w2
          | inr _ => sameThread w2 w4
          end).
        { destruct (negb (Z.land flags flagNoScan =? 0) && (size <? maxTinySize)).
          - exact (tinyAlloc_frame _ _ _ _ Halloc).
          - destruct (smallAlloc_frame _ _ _ _ Halloc) as [(x0 & sz & ->) Hs]. exact Hs. }
        destruct r0 as [x0|[x0 sz]].
        + apply ret_Ret in Hmid as [-> ->]. exact Hr0.
        + apply bind_Ret in Hmid as (u'' & w5 & Hmc & Hmid).
          apply modify_Ret in Hmc. subst w5.
          apply ret_Ret in Hmid as [-> ->]. destruct Hr0 as (_ & Hl & Hgs).
          destruct w4; cbn in *. split; assumption.
      - apply bind_Ret in Hmid as (s & w4 & Hlarge & Hmid).
        apply ret_Ret in Hmid as [-> ->].
        apply onHeap_frame in Hlarge as [(_ & Hl & Hgs) _]. split; assumption. }
    destruct r as [x0|[x0 sz]].
    + apply ret_Ret in Hrun as [-> ->]. destruct Hmidspec as (Hm3 & Hl3 & Hg3).
      split; [exact Hm3|]. split; [congruence|]. rewrite Hl3, Hl2. reflexivity.
    + destruct Hmidspec as (Hl3 & Hg3).
      apply bind_Ret in Hrun as (u3 & w4 & Hscan & Hrun).
      assert (Hs4 : sameThread w3 w4).
      { destruct (negb (Z.land flags flagNoScan =? 0)).
        - apply ret_Ret in Hscan as [_ ->]. apply sameThread_refl.
        - destruct u3. exact (proj1 (scanAccount_frame _ _ _ _ _ Hscan)). }
      destruct Hs4 as (_ & Hl4 & Hg4).
      apply bind_Ret in Hrun as (u4 & w5 & Hclr & Hrun).
      apply modify_Ret in Hclr. subst w5.
      apply bind_Ret in Hrun as (u5 & w6 & Hrel & Hrun).
      apply modify_Ret in Hrel. subst w6.
      apply ret_Ret in Hrun as [-> ->].
      destruct w4 as [m4 l4 g4 c4 h4]. cbn in *.
      split; [reflexivity|]. split; [congruence|]. congruence.
Qed.

(** X7: Every successful [mallocgc] leaves the allocating thread as it found
    it: [mp.mallocing] is 0 again, the lock count taken by [acquirem] is
    given back, and no call succeeds while another allocation is under way
    on the thread ([mp.mallocing != 0]) or on its signal stack; this holds
    on every path (zero size, tiny, small, large), whatever the refill and
    the heap do. *)
Theorem mallocgc_balanced (w : world H) size typ flags x w' :
  - 2 ^ 31 <= locks w -> locks w < 2 ^ 31 ->
  mallocgc size typ flags w = (Ret x, w') ->
  sameThread w w' /\
  (size <> 0 -> mallocing w = 0 /\ onGsignal w = false).
Proof.
  intros Hlo Hhi Hrun.
  destruct (mallocgc_thread _ _ _ _ _ _ Hrun)
    as [[Hz ->]|(Hnz & Hm & Hg & Hm' & Hg' & Hl')].
  - split; [apply sameThread_refl | intros ?; contradiction].
  - split; [|intros _; split; assumption].
    unfold sameThread. rewrite Hm, Hg, Hm', Hg', Hl'.
    rewrite sint32_round_trip by lia. repeat split.
Qed.


Lemma smallSizeclass_eq s :
  1 <= s <= 32768 ->
  smallSizeclass sizeTables s = Msize.sizeToClass sizeTables s.
Proof.
  intros Hs. unfold smallSizeclass, Msize.sizeToClass.
  change _MaxSmallSize with 32768. change (1024 - 8) with 1016.
  destruct (Z.gtb_spec s 32768) as [?|_]; [lia|].
  destruct (Z.leb_spec s 1016) as [Hle|Hgt].
  - destruct (Z.gtb_spec s 1016) as [?|_]; [lia|].
    rewrite (wrap64_small (s + 7)) by lia. reflexivity.
  - destruct (Z.gtb_spec s 1016) as [_|?]; [|lia].
    assert (Hw : wrap64 (wrap64 (s - 1024) + 127) = s - 1024 + 127).
    { unfold wrap64. rewrite Zplus_mod_idemp_l. apply Z.mod_small. lia. }
    rewrite Hw. reflexivity.
Qed.

Lemma class_covers s c sz :
  1 <= s <= 32768 -> Msize.sizeToClass sizeTables s = Ret c ->
  index (Msize.class_to_size sizeTables) c = Ret sz -> s <= sz.
Proof.
  intros Hs Hc Hsz.
  pose proof (range_all_spec _ 1 32768 s c1_all ltac:(lia)) as Hok.
  unfold c1_ok in Hok. rewrite Hc, Hsz in Hok.
  destruct (index (Msize.class_to_size sizeTables) (c - 1)); try discriminate.
  repeat (apply andb_prop in Hok as [Hok ?]). lia.
Qed.

(** X8: The ordinary small path: a request that is not served by the tiny
    allocator (16 bytes or more, or with pointers) and is at most 32768
    bytes takes the first free object of the span cached for its size
    class, the class [sizeToClass] gives; the span's count of handed-out
    objects goes up by one, the cache accounts the full object size of the
    class, which covers the request, and neither the tiny block nor the
    heap is touched. *)
Theorem mallocgc_small_slot (w : world H) size typ flags c sz s :
  0 < size -> size <= maxSmallSize ->
  maxTinySize <= size \/ Z.land flags flagNoScan = 0 ->
  Z.land flags flagNoScan <> 0 \/ typ <> None ->
  mallocing w = 0 -> onGsignal w = false ->
  Msize.sizeToClass sizeTables size = Ret c ->
  index (Msize.class_to_size sizeTables) c = Ret sz ->
  index (alloc (cache w)) c = Ret s -> isNil (freelist s) = false ->
  exists v rest w',
    freelist s = v :: rest /\ v <> 0 /\
    mallocgc size typ flags w = (Ret v, w') /\ size <= sz /\
    alloc (cache w') =
      <[Z.to_nat c := set_ref (wrap16 (ref s + 1)) (set_freelist rest s)]>
        (alloc (cache w)) /\
    local_cachealloc (cache w') = wrap64 (local_cachealloc (cache w) + sz) /\
    tiny (cache w') = tiny (cache w) /\
    tinyoffset (cache w') = tinyoffset (cache w) /\
    local_tinyallocs (cache w') = local_tinyallocs (cache w) /\
    heap w' = heap w /\ mallocing w' = 0 /\
    (Z.land flags flagNoScan <> 0 -> local_scan (cache w') = local_scan (cache w)).
Proof.
  intros H0 Hmax Hnot Htyp Hm Hg Hc Hsz Hs Hfree.
  change maxSmallSize with 32768 in Hmax. change maxTinySize with 16 in Hnot.
  pose proof (class_covers size c sz ltac:(lia) Hc Hsz) as Hcov.
  destruct (MallocFacts.nextFree_ready c (entered w) s) as (v & rest & Hfl & Hv & Hnf);
    [destruct w; exact Hs | exact Hfree|].
  exists v, rest.
  destruct w as [m l g [lca ls t toff lta al] h]. cbn in Hm, Hg, Hs. subst m g.
  unfold entered in Hnf. MallocFacts.run_in Hnf.
  assert (Hcond : (negb (Z.land flags flagNoScan =? 0) && (size <? maxTinySize)) = false).
  { change maxTinySize with 16. destruct Hnot as [Hbig|Hscan].
    - destruct (Z.ltb_spec size 16); [lia|]. apply andb_false_r.
    - rewrite Hscan. reflexivity. }
  unfold mallocgc.
  destruct (Z.eqb_spec size 0) as [?|_]; [lia|].
  change maxSmallSize with 32768.
  destruct (Z.leb_spec size 32768) as [_|?]; [|lia].
  rewrite Hcond. MallocFacts.run. change (0 =? 0) with true. MallocFacts.run.
  rewrite (smallSizeclass_eq size) by lia. rewrite Hc, Hsz, Hnf.
  destruct (Z.eqb_spec (Z.land flags flagNoScan) 0) as [Hscan|Hno].
  - destruct Htyp as [?|Hty]; [contradiction|].
    destruct typ as [ty|]; [|contradiction].
    unfold scanAccount. MallocFacts.run.
    destruct (_ >? tsize ty).
    + destruct (ptrdata ty =? 0); MallocFacts.run;
        (eexists; split; [exact Hfl|]; split; [exact Hv|]; split; [reflexivity|];
         split; [exact Hcov|]; cbn; repeat split; intros; contradiction).
    + MallocFacts.run.
      eexists; split; [exact Hfl|]; split; [exact Hv|]; split; [reflexivity|].
      split; [exact Hcov|]. cbn. repeat split. intros; contradiction.
  - eexists; split; [exact Hfl|]; split; [exact Hv|]; split; [reflexivity|].
    split; [exact Hcov|]. cbn. repeat split.
Qed.

Lemma alignUp_multiple n a : 0 < a -> alignUp n a mod a = 0.
Proof. intros Ha. unfold alignUp. apply Z.mod_mul. lia. Qed.

Lemma land_mod size k : 0 <= k -> Z.land size (2 ^ k - 1) = size mod 2 ^ k.
Proof.
  intros Hk. replace (2 ^ k - 1) with (Z.ones k) by (rewrite Z.ones_equiv; lia).
  apply Z.land_ones. exact Hk.
Qed.

Lemma tinyPad_aligned off size :
  (size mod 8 = 0 -> tinyPad off size mod 8 = 0) /\
  (size mod 4 = 0 -> tinyPad off size mod 4 = 0) /\
  (size mod 2 = 0 -> tinyPad off size mod 2 = 0).
Proof.
  unfold tinyPad.
  pose proof (land_mod size 3 ltac:(lia)) as H8. change (2 ^ 3 - 1) with 7 in H8.
  pose proof (land_mod size 2 ltac:(lia)) as H4. change (2 ^ 2 - 1) with 3 in H4.
  pose proof (land_mod size 1 ltac:(lia)) as H2. change (2 ^ 1 - 1) with 1 in H2.
  change (2 ^ 3) with 8 in H8. change (2 ^ 2) with 4 in H4. change (2 ^ 1) with 2 in H2.
  rewrite H8, H4, H2.
  pose proof (Z.mod_pos_bound size 8 ltac:(lia)) as B8.
  pose proof (Z.div_mod size 8 ltac:(lia)) as D8.
  pose proof (Z.mod_pos_bound size 4 ltac:(lia)) as B4.
  pose proof (Z.div_mod size 4 ltac:(lia)) as D4.
  pose proof (Z.mod_pos_bound size 2 ltac:(lia)) as B2.
  pose proof (Z.div_mod size 2 ltac:(lia)) as D2.
  destruct (Z.eqb_spec (size mod 8) 0) as [E8|N8].
  - pose proof (alignUp_multiple off 8 ltac:(lia)) as Ha.
    pose proof (Z.div_mod (alignUp off 8) 8 ltac:(lia)) as Da.
    pose proof (Z.mod_pos_bound (alignUp off 8) 4 ltac:(lia)).
    pose proof (Z.div_mod (alignUp off 8) 4 ltac:(lia)).
    pose proof (Z.mod_pos_bound (alignUp off 8) 2 ltac:(lia)).
    pose proof (Z.div_mod (alignUp off 8) 2 ltac:(lia)).
    repeat split; intros; lia.
  - destruct (Z.eqb_spec (size mod 4) 0) as [E4|N4].
    + pose proof (alignUp_multiple off 4 ltac:(lia)) as Ha.
      pose proof (Z.div_mod (alignUp off 4) 4 ltac:(lia)) as Da.
      pose proof (Z.mod_pos_bound (alignUp off 4) 2 ltac:(lia)).
      pose proof (Z.div_mod (alignUp off 4) 2 ltac:(lia)).
      repeat split; intros; lia.
    + destruct (Z.eqb_spec (size mod 2) 0) as [E2|N2].
      * pose proof (alignUp_multiple off 2 ltac:(lia)) as Ha.
        repeat split; intros; lia.
      * repeat split; intros; lia.
Qed.

(** X9: Placement inside the tiny block: a pointer-free request below 16
    bytes that fits the current block is placed at an offset at or after
    everything handed out from the block before, ends within the block's
    16 bytes, and is aligned to 8, 4 or 2 bytes when its size is a multiple
    of 8, 4 or 2; no span, no byte count of the cache and nothing of the
    heap changes. *)
Theorem mallocgc_tiny_placement (w : world H) size typ flags :
  0 < size < maxTinySize -> Z.land flags flagNoScan <> 0 ->
  mallocing w = 0 -> onGsignal w = false ->
  0 <= tinyoffset (cache w) <= maxTinySize ->
  tinyFits (cache w) size = true ->
  exists off w',
    mallocgc size typ flags w = (Ret (add (tiny (cache w)) off), w') /\
    tinyoffset (cache w) <= off /\ off + size <= maxTinySize /\
    tinyoffset (cache w') = off + size /\
    (size mod 8 = 0 -> off mod 8 = 0) /\
    (size mod 4 = 0 -> off mod 4 = 0) /\
    (size mod 2 = 0 -> off mod 2 = 0) /\
    tiny (cache w') = tiny (cache w) /\ alloc (cache w') = alloc (cache w) /\
    local_cachealloc (cache w') = local_cachealloc (cache w) /\
    heap w' = heap w.
Proof.
  intros Hs Hf Hm Hg Hoff Hfit.
  pose proof (MallocFacts.mallocgc_tiny_fit w size typ flags Hs Hf Hm Hg Hfit) as Hrun.
  change maxTinySize with 16 in *.
  assert (Heq : tinyAlign (tinyoffset (cache w)) size = tinyPad (tinyoffset (cache w)) size).
  { apply MallocFacts.tinyAlign_tinyPad. lia. }
  pose proof (MallocFacts.tinyPad_bounds (tinyoffset (cache w)) size) as Hb.
  rewrite Heq in Hrun.
  assert (Hw : wrap64 (tinyPad (tinyoffset (cache w)) size + size)
               = tinyPad (tinyoffset (cache w)) size + size).
  { apply wrap64_small. lia. }
  assert (Hend : tinyPad (tinyoffset (cache w)) size + size <= 16).
  { unfold tinyFits in Hfit. apply andb_prop in Hfit as [Hle _].
    rewrite Heq, Hw in Hle. change maxTinySize with 16 in Hle. lia. }
  rewrite Hw in Hrun.
  destruct (tinyPad_aligned (tinyoffset (cache w)) size) as (A8 & A4 & A2).
  eexists _, _. split; [exact Hrun|].
  destruct w as [m l g [lca ls t toff lta al] h]. cbn in *.
  split; [lia|]. split; [lia|]. split; [reflexivity|].
  split; [exact A8|]. split; [exact A4|]. split; [exact A2|].
  repeat split.
Qed.

(** X10: [newarray] either panics with the state untouched or passes
    [mallocgc] the exact byte count [typ.size * n], which is then at most
    [_MaxMem]: the product it requests never wraps around.  The request is
    flagged pointer-free exactly when the element kind has
    [kindNoPointers] set. *)
Theorem newarray_exact (w : world H) typ n :
  0 <= n -> n < 2 ^ 64 -> 0 <= tsize typ ->
  newarray typ n w = (Panic "runtime: allocation size out of range", w) \/
  (tsize typ * n <= _MaxMem /\
   newarray typ n w =
     mallocgc (tsize typ * n) (Some typ)
       (if Z.land (kind typ) kindNoPointers =? 0 then 0 else flagNoScan) w).
Proof.
  intros Hn0 Hn Hts. unfold newarray.
  destruct (Z.leb_spec (2 ^ 63) n) as [Hbig|Hsmall]; [left; reflexivity|].
  cbn [orb].
  destruct (Z.gtb_spec (tsize typ) 0) as [Hpos|Hzero]; cbn [andb].
  - destruct (Z.gtb_spec n (Z.quot _MaxMem (tsize typ))) as [Hgt|Hle];
      [left; reflexivity|].
    right.
    rewrite Z.quot_div_nonneg in Hle by (change _MaxMem with 549755813887; lia).
    assert (Hprod : tsize typ * n <= _MaxMem).
    { pose proof (Z.mul_div_le _MaxMem (tsize typ) Hpos).
      assert (tsize typ * n <= tsize typ * (_MaxMem / tsize typ)) by nia. lia. }
    split; [exact Hprod|].
    rewrite wrap64_small by (change _MaxMem with 549755813887 in Hprod; nia).
    destruct (Z.land (kind typ) kindNoPointers =? 0); reflexivity.
  - right. assert (Hz : tsize typ = 0) by lia. rewrite Hz.
    split; [change _MaxMem with 549755813887; lia|].
    rewrite Z.mul_0_l. destruct (Z.land (kind typ) kindNoPointers =? 0); reflexivity.
Qed.

(** X11: [newobject] is [newarray] of one element: for every type whose size
    does not exceed [_MaxMem] the two calls behave alike, in every state;
    and a zero-size type gets the [zerobase] pointer with the state
    untouched, as does an array of no elements. *)
Theorem newobject_newarray (w : world H) typ :
  0 <= tsize typ -> tsize typ <= _MaxMem ->
  newarray typ 1 w = newobject typ w /\
  (tsize typ = 0 -> newobject typ w = (Ret zerobase, w)) /\
  newarray typ 0 w = (Ret zerobase, w).
Proof.
  intros H0 Hmax. change _MaxMem with 549755813887 in Hmax.
  split; [|split].
  - unfold newarray, newobject.
    destruct (Z.leb_spec (2 ^ 63) 1) as [?|_]; [lia|]. cbn [orb].
    assert (Hc : ((tsize typ >? 0) && (1 >? Z.quot _MaxMem (tsize typ))) = false).
    { destruct (Z.gtb_spec (tsize typ) 0) as [Hpos|?]; [|reflexivity]. cbn [andb].
      rewrite Z.quot_div_nonneg by (change _MaxMem with 549755813887; lia).
      destruct (Z.gtb_spec 1 (_MaxMem / tsize typ)) as [Hlt|?]; [|reflexivity].
      exfalso. assert (1 <= _MaxMem / tsize typ); [|lia].
      apply Z.div_le_lower_bound; change _MaxMem with 549755813887; lia. }
    rewrite Hc, Z.mul_1_r. reflexivity.
  - intros Hz. unfold newobject. rewrite Hz. reflexivity.
  - unfold newarray.
    destruct (Z.leb_spec (2 ^ 63) 0) as [?|_]; [lia|]. cbn [orb].
    assert (Hc : ((tsize typ >? 0) && (0 >? Z.quot _MaxMem (tsize typ))) = false).
    { destruct (Z.gtb_spec (tsize typ) 0) as [Hpos|?]; [|reflexivity]. cbn [andb].
      rewrite Z.quot_div_nonneg by (change _MaxMem with 549755813887; lia).
      destruct (Z.gtb_spec 0 (_MaxMem / tsize typ)) as [Hlt|?]; [|reflexivity].
      exfalso. assert (0 <= _MaxMem / tsize typ); [|lia].
      apply Z.div_pos; change _MaxMem with 549755813887; lia. }
    rewrite Hc, Z.mul_0_r. reflexivity.
Qed.

End EntryFacts.

(** *** The entry points on a concrete runtime *)

Lemma mallocgc_balanced_witness :
  let w := bumpWorld 8192 16 in
  let w' := snd (mallocgc (RT := bumpRuntime) 24 None flagNoScan w) in
  (- 2 ^ 31 <= locks w /\ locks w < 2 ^ 31 /\
   mallocgc (RT := bumpRuntime) 24 None flagNoScan w = (Ret 131072, w')) /\
  sameThread w w' /\
  (24 <> 0 -> mallocing w = 0 /\ onGsignal w = false).
Proof.
  intros w w'.
  assert (Hlo : - 2 ^ 31 <= locks w) by (vm_compute; discriminate).
  assert (Hhi : locks w < 2 ^ 31) by reflexivity.
  assert (Hrun : mallocgc (RT := bumpRuntime) 24 None flagNoScan w = (Ret 131072, w'))
    by (vm_compute; reflexivity).
  split; [auto|].
  exact (mallocgc_balanced (RT := bumpRuntime) w 24 None flagNoScan 131072 w' Hlo Hhi Hrun).
Defined.

Lemma mallocgc_small_slot_witness :
  let w := smallWorld in
  let s := bumpSpan 16 1 3 32 (carve 4 131072 32) in
  (0 < 24 /\ 24 <= maxSmallSize /\
   (maxTinySize <= 24 \/ Z.land flagNoScan flagNoScan = 0) /\
   (Z.land flagNoScan flagNoScan <> 0 \/ @None _type <> None) /\
   mallocing w = 0 /\ onGsignal w = false /\
   Msize.sizeToClass sizeTables 24 = Ret 3 /\
   index (Msize.class_to_size sizeTables) 3 = Ret 32 /\
   index (alloc (cache w)) 3 = Ret s /\ isNil (freelist s) = false) /\
  exists v rest w',
    freelist s = v :: rest /\ v <> 0 /\
    mallocgc (RT := bumpRuntime) 24 None flagNoScan w = (Ret v, w') /\ 24 <= 32 /\
    alloc (cache w') =
      <[Z.to_nat 3 := set_ref (wrap16 (ref s + 1)) (set_freelist rest s)]>
        (alloc (cache w)) /\
    local_cachealloc (cache w') = wrap64 (local_cachealloc (cache w) + 32) /\
    tiny (cache w') = tiny (cache w) /\
    tinyoffset (cache w') = tinyoffset (cache w) /\
    local_tinyallocs (cache w') = local_tinyallocs (cache w) /\
    heap w' = heap w /\ mallocing w' = 0 /\
    (Z.land flagNoScan flagNoScan <> 0 -> local_scan (cache w') = local_scan (cache w)).
Proof.
  intros w s.
  assert (H0 : 0 < 24) by lia.
  assert (H1 : 24 <= maxSmallSize) by (vm_compute; discriminate).
  assert (H2 : maxTinySize <= 24 \/ Z.land flagNoScan flagNoScan = 0)
    by (left; vm_compute; discriminate).
  assert (H3 : Z.land flagNoScan flagNoScan <> 0 \/ @None _type <> None)
    by (left; discriminate).
  assert (H4 : mallocing w = 0) by reflexivity.
  assert (H5 : onGsignal w = false) by reflexivity.
  assert (H6 : Msize.sizeToClass sizeTables 24 = Ret 3) by reflexivity.
  assert (H7 : index (Msize.class_to_size sizeTables) 3 = Ret 32) by reflexivity.
  assert (H8 : index (alloc (cache w)) 3 = Ret s) by reflexivity.
  assert (H9 : isNil (freelist s) = false) by reflexivity.
  split; [auto 12|].
  exact (mallocgc_small_slot (RT := bumpRuntime) w 24 None flagNoScan 3 32 s
           H0 H1 H2 H3 H4 H5 H6 H7 H8 H9).
Defined.

Lemma mallocgc_tiny_placement_witness :
  let w := bumpWorld 8192 3 in
  (0 < 4 < maxTinySize /\ Z.land flagNoScan flagNoScan <> 0 /\
   mallocing w = 0 /\ onGsignal w = false /\
   0 <= tinyoffset (cache w) <= maxTinySize /\ tinyFits (cache w) 4 = true) /\
  exists off w',
    mallocgc (RT := bumpRuntime) 4 None flagNoScan w
      = (Ret (add (tiny (cache w)) off), w') /\
    tinyoffset (cache w) <= off /\ off + 4 <= maxTinySize /\
    tinyoffset (cache w') = off + 4 /\
    (4 mod 8 = 0 -> off mod 8 = 0) /\
    (4 mod 4 = 0 -> off mod 4 = 0) /\
    (4 mod 2 = 0 -> off mod 2 = 0) /\
    tiny (cache w') = tiny (cache w) /\ alloc (cache w') = alloc (cache w) /\
    local_cachealloc (cache w') = local_cachealloc (cache w) /\
    heap w' = heap w.
Proof.
  intros w.
  assert (H1 : 0 < 4 < maxTinySize) by (vm_compute; split; reflexivity).
  assert (H2 : Z.land flagNoScan flagNoScan <> 0) by discriminate.
  assert (H3 : mallocing w = 0) by reflexivity.
  assert (H4 : onGsignal w = false) by reflexivity.
  assert (H5 : 0 <= tinyoffset (cache w) <= maxTinySize)
    by (vm_compute; split; discriminate).
  assert (H6 : tinyFits (cache w) 4 = true) by (vm_compute; reflexivity).
  split; [auto 10|].
  exact (mallocgc_tiny_placement (RT := bumpRuntime) w 4 None flagNoScan
           H1 H2 H3 H4 H5 H6).
Defined.

Lemma newarray_exact_witness :
  let w := bumpWorld 8192 16 in
  let typ := mkType 24 0 0 in
  (0 <= 1000 /\ 1000 < 2 ^ 64 /\ 0 <= tsize typ) /\
  (newarray (RT := bumpRuntime) typ 1000 w
     = (Panic "runtime: allocation size out of range", w) \/
   (tsize typ * 1000 <= _MaxMem /\
    newarray (RT := bumpRuntime) typ 1000 w =
      mallocgc (RT := bumpRuntime) (tsize typ * 1000) (Some typ)
        (if Z.land (kind typ) (kindNoPointers (Runtime := bumpRuntime)) =? 0
         then 0 else flagNoScan) w)).
Proof.
  intros w typ.
  assert (H1 : 0 <= 1000) by lia.
  assert (H2 : 1000 < 2 ^ 64) by lia.
  assert (H3 : 0 <= tsize typ) by (vm_compute; discriminate).
  split; [auto|].
  exact (newarray_exact (RT := bumpRuntime) w typ 1000 H1 H2 H3).
Defined.

Lemma newobject_newarray_witness :
  let w := bumpWorld 8192 16 in
  let typ := mkType 24 0 0 in
  (0 <= tsize typ /\ tsize typ <= _MaxMem) /\
  newarray (RT := bumpRuntime) typ 1 w = newobject (RT := bumpRuntime) typ w /\
  (tsize typ = 0 -> newobject (RT := bumpRuntime) typ w
                    = (Ret (zerobase (Runtime := bumpRuntime)), w)) /\
  newarray (RT := bumpRuntime) typ 0 w = (Ret (zerobase (Runtime := bumpRuntime)), w).
Proof.
  intros w typ.
  assert (H1 : 0 <= tsize typ) by (vm_compute; discriminate).
  assert (H2 : tsize typ <= _MaxMem) by (vm_compute; discriminate).
  split; [auto|].
  exact (newobject_newarray (RT := bumpRuntime) w typ H1 H2).
Defined.

End EntryFacts.

(** *** profilealloc *)

Lemma sint32_range z : - 2 ^ 31 <= Malloc.sint32 z < 2 ^ 31.
Proof.
  unfold Malloc.sint32, wrap32.
  pose proof (Z.mod_pos_bound z (2 ^ 32) ltac:(lia)).
  destruct (Z.ltb_spec (z mod 2 ^ 32) (2 ^ 31)); lia.
Qed.

(** X12: [profilealloc] picks the next sampling point: with a positive
    [MemProfileRate] it never fails; an allocation of at least [rate]
    bytes leaves [c.next_sample] alone; a smaller one sets it to a
    non-negative [int32]; and when the random number is a non-negative
    [int32] and the allocation has used up the current distance
    ([0 <= next_sample <= size]), the new distance is below twice the
    rate, the rate being capped at [0x3fffffff]. *)
Theorem profilealloc_sample (rate rnd size ns : Z) :
  0 < rate -> rate < 2 ^ 63 -> 0 <= size -> size < 2 ^ 64 ->
  0 <= rnd -> rnd < 2 ^ 32 -> - 2 ^ 31 <= ns -> ns < 2 ^ 31 ->
  exists ns',
    profilealloc rate rnd size ns = Ret ns' /\
    (rate <= size -> ns' = ns) /\
    (size < rate -> 0 <= ns' < 2 ^ 31) /\
    (size < rate -> rnd < 2 ^ 31 -> 0 <= ns -> ns <= size -> size < 2 ^ 31 ->
       ns' < 2 * Z.min rate 1073741823).
Proof.
  intros Hr0 Hr1 Hs0 Hs1 Hd0 Hd1 Hn0 Hn1. unfold profilealloc.
  rewrite (wrap64_small rate) by lia.
  destruct (Z.ltb_spec size rate) as [Hlt|Hge].
  - set (r := if rate >? 1073741823 then 1073741823 else rate).
    assert (Hr : r = Z.min rate 1073741823 /\ 1 <= r <= 1073741823).
    { unfold r. destruct (Z.gtb_spec rate 1073741823); lia. }
    destruct Hr as [Hrmin Hrb].
    rewrite (EntryFacts.sint32_id r) by lia.
    rewrite (EntryFacts.sint32_id (2 * r)) by lia.
    destruct (Z.eqb_spec (2 * r) 0) as [?|_]; [lia|].
    set (next := Malloc.sint32
                   (Z.rem (Malloc.sint32 rnd) (2 * r)
                    - Malloc.sint32 (Malloc.sint32 size - ns))).
    pose proof (sint32_range (Z.rem (Malloc.sint32 rnd) (2 * r)
                              - Malloc.sint32 (Malloc.sint32 size - ns))) as Hrange.
    fold next in Hrange.
    eexists. split; [reflexivity|]. split; [lia|].
    split; [intros _; destruct (Z.ltb_spec next 0); lia|].
    intros _ Hpos Hns0 Hns Hsz.
    assert (Hnext : next = rnd mod (2 * r) - (size - ns)).
    { unfold next. rewrite (EntryFacts.sint32_id rnd) by lia.
      rewrite (EntryFacts.sint32_id size) by lia.
      rewrite (EntryFacts.sint32_id (size - ns)) by lia.
      rewrite Z.rem_mod_nonneg by lia.
      pose proof (Z.mod_pos_bound rnd (2 * r) ltac:(lia)).
      apply EntryFacts.sint32_id. lia. }
    pose proof (Z.mod_pos_bound rnd (2 * r) ltac:(lia)).
    destruct (Z.ltb_spec next 0); lia.
  - exists ns. split; [reflexivity|]. split; [reflexivity|]. split; intros; lia.
Qed.

Lemma profilealloc_sample_witness :
  (0 < 524288 /\ 524288 < 2 ^ 63 /\ 0 <= 4000 /\ 4000 < 2 ^ 64 /\
   0 <= 123456789 /\ 123456789 < 2 ^ 32 /\ - 2 ^ 31 <= 1000 /\ 1000 < 2 ^ 31) /\
  exists ns',
    profilealloc 524288 123456789 4000 1000 = Ret ns' /\
    (524288 <= 4000 -> ns' = 1000) /\
    (4000 < 524288 -> 0 <= ns' < 2 ^ 31) /\
    (4000 < 524288 -> 123456789 < 2 ^ 31 -> 0 <= 1000 -> 1000 <= 4000 ->
       4000 < 2 ^ 31 -> ns' < 2 * Z.min 524288 1073741823).
Proof.
  split; [lia|].
  exact (profilealloc_sample 524288 123456789 4000 1000
           ltac:(lia) ltac:(lia) ltac:(lia) ltac:(lia)
           ltac:(lia) ltac:(lia) ltac:(lia) ltac:(lia)).
Defined.

(** *** persistentalloc1 *)

Module PersistentFacts.
Import Persistent.

Ltac prun :=
  cbv beta iota zeta delta
    [bind ret throw lift get modify
     Persistent.acquirem Persistent.releasem Persistent.lock Persistent.unlock
     Persistent.unlockGlobal Persistent.onOS
     Persistent.persistent Persistent.set_persistent Persistent.set_mlocks
     Persistent.set_gmutex Persistent.set_os
     Persistent.mlocks Persistent.hasP Persistent.palloc Persistent.galloc
     Persistent.gmutex Persistent.os Persistent.base Persistent.off negb].

Lemma land_pred_zero_pow2 a :
  0 < a -> Z.land a (a - 1) = 0 -> a = 2 ^ Z.log2 a.
Proof.
  intros Ha Hz.
  pose proof (Z.log2_spec a Ha) as Hlog. set (j := Z.log2 a) in *.
  assert (Hj : 0 <= j) by apply Z.log2_nonneg.
  destruct (Z.eq_dec a (2 ^ j)) as [?|Hne]; [assumption|]. exfalso.
  assert (Hlog' : Z.log2 (a - 1) = j) by (apply Z.log2_unique; lia).
  assert (Hbit : Z.testbit (Z.land a (a - 1)) j = true).
  { rewrite Z.land_spec. unfold j at 1. rewrite (Z.bit_log2 a Ha).
    rewrite <- Hlog'. rewrite Z.bit_log2; [reflexivity|].
    pose proof (Z.pow_pos_nonneg 2 j ltac:(lia) Hj). lia. }
  rewrite Hz, Z.bits_0 in Hbit. discriminate.
Qed.

Lemma round_alignUp n a :
  0 <= n -> 0 < a -> n + a <= 2 ^ 64 ->
  Malloc.round n a = Malloc.alignUp n a /\
  n <= Malloc.alignUp n a < n + a /\ Malloc.alignUp n a mod a = 0.
Proof.
  intros Hn Ha Hb. pose proof (MallocFacts.alignUp_bounds n a Ha) as Hal.
  split; [|split; [lia|]].
  - unfold Malloc.round. fold (Malloc.alignUp n a). apply wrap64_small. lia.
  - unfold Malloc.alignUp. apply Z.mod_mul. lia.
Qed.

Section PersistentFacts.
Context {O : Type} {SYS : OS O}.

(** X13: [persistentalloc1] turns down, before it touches anything, a request
    of no bytes, an alignment that is not a power of two, and an alignment
    above the page size. *)
Theorem persistentalloc1_rejects (st : state O) size align sysStat :
  0 <= align -> align < 2 ^ 64 ->
  size = 0 \/
  (0 < align /\ forall k, 0 <= k -> align <> 2 ^ k) \/
  _PageSize < align ->
  exists msg, persistentalloc1 size align sysStat st = (Throw msg, st).
Proof.
  intros Ha0 Ha1 Hbad. unfold persistentalloc1.
  destruct (Z.eqb_spec size 0) as [?|Hsz]; [eexists; reflexivity|].
  destruct Hbad as [?|[[Hpos Hnp]|Hbig]]; [contradiction| |].
  - destruct (Z.eqb_spec align 0) as [?|_]; [lia|]. cbn [negb].
    rewrite (wrap64_small (align - 1)) by lia.
    destruct (Z.eqb_spec (Z.land align (align - 1)) 0) as [Hz|_];
      [|eexists; reflexivity].
    exfalso. apply (Hnp (Z.log2 align)); [apply Z.log2_nonneg|].
    apply land_pred_zero_pow2; assumption.
  - change _PageSize with 8192 in *.
    destruct (Z.eqb_spec align 0) as [?|_]; [lia|]. cbn [negb].
    destruct (Z.land align (wrap64 (align - 1)) =? 0); cbn [negb];
      [|eexists; reflexivity].
    destruct (Z.gtb_spec align 8192) as [_|?]; [|lia]. eexists; reflexivity.
Qed.

(** X14: The bump allocation of [persistentalloc1], for a block below 64K with
    an alignment [a] that is a power of two up to the page size (8 when
    [align] is 0): the offset is rounded up to [a]; a block that then fits
    the current 256K chunk is placed at that offset, after everything
    handed out from the chunk before, and the offset moves past it;
    otherwise a new chunk is taken from [sysAlloc] and the block is its
    first; if [sysAlloc] has no memory the call throws.  In all three cases
    the global mutex is free again at the end, and on return the lock
    count of [m] is what it was. *)
Theorem persistentalloc1_bump (st : state O) size align k sysStat :
  0 < size -> size < maxBlock ->
  0 <= k -> k <= 13 -> align = 0 \/ align = 2 ^ k ->
  hasP st = true \/ gmutex st = false ->
  0 <= off (persistent st) -> off (persistent st) <= chunk ->
  - 2 ^ 31 <= mlocks st -> mlocks st < 2 ^ 31 ->
  let a := if align =? 0 then 8 else align in
  let off1 := Malloc.alignUp (off (persistent st)) a in
  let b0 := base (persistent st) in
  off (persistent st) <= off1 < off (persistent st) + a /\ off1 mod a = 0 /\
  (b0 <> 0 -> off1 + size <= chunk ->
     persistentalloc1 size align sysStat st =
       (Ret (Malloc.add b0 off1),
        set_os (charge sysStat size (os st))
               (set_persistent (mkPA b0 (off1 + size)) st))) /\
  (b0 = 0 \/ chunk < off1 + size ->
     let '(b, o1) := sysAlloc chunk other_sys (os st) in
     (b <> 0 ->
        persistentalloc1 size align sysStat st =
          (Ret (Malloc.add b 0),
           set_os (charge sysStat size o1) (set_persistent (mkPA b size) st))) /\
     (b = 0 ->
        exists st', persistentalloc1 size align sysStat st =
          (Throw "runtime: cannot allocate memory", st') /\
          gmutex st' = gmutex st /\ persistent st' = mkPA 0 off1)).
Proof.
  intros Hs0 Hs1 Hk0 Hk1 Hal Hmx Ho0 Ho1 Hl0 Hl1 a off1 b0.
  change maxBlock with 65536 in Hs1. change chunk with 262144 in *.
  assert (Hpk : 1 <= 2 ^ k <= 8192).
  { split; [pose proof (Z.pow_pos_nonneg 2 k ltac:(lia) Hk0); lia|].
    change 8192 with (2 ^ 13). apply Z.pow_le_mono_r; lia. }
  assert (Ha : 1 <= a <= 8192).
  { unfold a. destruct Hal as [->| ->]; [cbn; lia|].
    destruct (Z.eqb_spec (2 ^ k) 0); lia. }
  destruct (round_alignUp (off (persistent st)) a Ho0 ltac:(lia) ltac:(lia))
    as (Hround & Hbound & Hmod).
  fold off1 in Hround, Hbound, Hmod.
  split; [exact Hbound|]. split; [exact Hmod|].
  (* the alignment check passes and yields [a] *)
  assert (Hprefix : forall (K : Z -> M (state O) Z),
    bind (if negb (align =? 0) then
            if negb (Z.land align (wrap64 (align - 1)) =? 0)
            then throw "persistentalloc: align is not a power of 2"
            else if align >? _PageSize
            then throw "persistentalloc: align is too large"
            else ret align
          else ret 8) K st = K a st).
  { intros K. unfold a. destruct Hal as [->| ->]; [reflexivity|].
    destruct (Z.eqb_spec (2 ^ k) 0) as [?|_]; [lia|]. cbn [negb].
    rewrite (wrap64_small (2 ^ k - 1)) by lia.
    rewrite land_pred_pow2 by lia. change (0 =? 0) with true. cbn [negb].
    change _PageSize with 8192.
    destruct (Z.gtb_spec (2 ^ k) 8192) as [?|_]; [lia | reflexivity]. }
  assert (Hsz : (size =? 0) = false) by (apply Z.eqb_neq; lia).
  assert (Hblk : (size >=? maxBlock) = false).
  { change maxBlock with 65536. rewrite Z.geb_leb. apply Z.leb_gt. lia. }
  assert (Hlk : Malloc.sint32 (Malloc.sint32 (mlocks st + 1) - 1) = mlocks st)
    by (apply EntryFacts.sint32_round_trip; lia).
  assert (Hw1 : wrap64 (off1 + size) = off1 + size) by (apply wrap64_small; lia).
  unfold persistentalloc1. rewrite Hsz, Hprefix, Hblk.
  destruct st as [l hp [pb po] [gb go] mx o]. cbn [mlocks] in Hlk.
  destruct hp; cbn in b0, off1, Hround, Hw1; prun.
  - (* the per-P allocator *)
    rewrite Hround, Hw1. fold b0. change chunk with 262144.
    split.
    + intros Hb Hfit.
      destruct (Z.gtb_spec (off1 + size) 262144) as [?|_]; [lia|].
      destruct (Z.eqb_spec b0 0) as [?|_]; [contradiction|]. cbn [orb].
      prun. rewrite Hw1, Hlk. unfold charge.
      destruct (sysStat =? other_sys); reflexivity.
    + intros Hcase.
      assert (Hc : ((off1 + size >? 262144) || (b0 =? 0)) = true).
      { destruct Hcase as [Hz|Hbig].
        - rewrite Hz. apply orb_true_r.
        - destruct (Z.gtb_spec (off1 + size) 262144); [reflexivity | lia]. }
      rewrite Hc. change (Z.shiftl 256 10) with 262144.
      destruct (sysAlloc 262144 other_sys o) as [b o1]. prun.
      split.
      * intros Hb. destruct (Z.eqb_spec b 0) as [?|_]; [contradiction|]. prun.
        rewrite (wrap64_small (0 + size)) by lia. rewrite Hlk. unfold charge.
        destruct (sysStat =? other_sys); reflexivity.
      * intros ->. change (0 =? 0) with true. cbv iota.
        eexists. split; [reflexivity|]. split; reflexivity.
  - (* the global allocator, under its mutex *)
    destruct Hmx as [?|Hfree]; [discriminate|]. cbn in Hfree. subst mx. prun.
    rewrite Hround, Hw1. fold b0. change chunk with 262144.
    split.
    + intros Hb Hfit.
      destruct (Z.gtb_spec (off1 + size) 262144) as [?|_]; [lia|].
      destruct (Z.eqb_spec b0 0) as [?|_]; [contradiction|]. cbn [orb].
      prun. rewrite Hw1, Hlk. unfold charge.
      destruct (sysStat =? other_sys); reflexivity.
    + intros Hcase.
      assert (Hc : ((off1 + size >? 262144) || (b0 =? 0)) = true).
      { destruct Hcase as [Hz|Hbig].
        - rewrite Hz. apply orb_true_r.
        - destruct (Z.gtb_spec (off1 + size) 262144); [reflexivity | lia]. }
      rewrite Hc. change (Z.shiftl 256 10) with 262144.
      destruct (sysAlloc 262144 other_sys o) as [b o1]. prun.
      split.
      * intros Hb. destruct (Z.eqb_spec b 0) as [?|_]; [contradiction|]. prun.
        rewrite (wrap64_small (0 + size)) by lia. rewrite Hlk. unfold charge.
        destruct (sysStat =? other_sys); reflexivity.
      * intros ->. change (0 =? 0) with true. cbv iota.
        eexists. split; [reflexivity|]. split; reflexivity.
Qed.

End PersistentFacts.

Lemma persistentalloc1_rejects_witness :
  (0 <= 24 /\ 24 < 2 ^ 64 /\
   (16 = 0 \/ (0 < 24 /\ forall k, 0 <= k -> 24 <> 2 ^ k) \/ _PageSize < 24)) /\
  exists msg, persistentalloc1 (SYS := bumpOS) 16 24 1 started = (Throw msg, started).
Proof.
  assert (H0 : 0 <= 24) by lia.
  assert (H1 : 24 < 2 ^ 64) by lia.
  assert (Hnp : forall k, 0 <= k -> 24 <> 2 ^ k).
  { intros k Hk Heq.
    destruct (Z.le_gt_cases k 4) as [Hle|Hgt].
    - assert (Hc : k = 0 \/ k = 1 \/ k = 2 \/ k = 3 \/ k = 4) by lia.
      destruct Hc as [-> | [-> | [-> | [-> | ->]]]]; vm_compute in Heq; discriminate.
    - assert (2 ^ 5 <= 2 ^ k) by (apply Z.pow_le_mono_r; lia).
      change (2 ^ 5) with 32 in *. lia. }
  assert (Hbad : 16 = 0 \/ (0 < 24 /\ forall k, 0 <= k -> 24 <> 2 ^ k) \/ _PageSize < 24).
  { right. left. split; [lia | exact Hnp]. }
  split; [auto|].
  exact (persistentalloc1_rejects (SYS := bumpOS) started 16 24 1 H0 H1 Hbad).
Defined.

Lemma persistentalloc1_bump_witness :
  let st := started in
  let a := if 16 =? 0 then 8 else 16 in
  let off1 := Malloc.alignUp (off (persistent st)) a in
  let b0 := base (persistent st) in
  (0 < 40 /\ 40 < maxBlock /\ 0 <= 4 /\ 4 <= 13 /\ (16 = 0 \/ 16 = 2 ^ 4) /\
   (hasP st = true \/ gmutex st = false) /\
   0 <= off (persistent st) /\ off (persistent st) <= chunk /\
   - 2 ^ 31 <= mlocks st /\ mlocks st < 2 ^ 31) /\
  off (persistent st) <= off1 < off (persistent st) + a /\ off1 mod a = 0 /\
  (b0 <> 0 -> off1 + 40 <= chunk ->
     persistentalloc1 (SYS := bumpOS) 40 16 1 st =
       (Ret (Malloc.add b0 off1),
        set_os (charge (SYS := bumpOS) 1 40 (os st))
               (set_persistent (mkPA b0 (off1 + 40)) st))) /\
  (b0 = 0 \/ chunk < off1 + 40 ->
     let '(b, o1) := sysAlloc (OS := bumpOS) chunk (other_sys (OS := bumpOS)) (os st) in
     (b <> 0 ->
        persistentalloc1 (SYS := bumpOS) 40 16 1 st =
          (Ret (Malloc.add b 0),
           set_os (charge (SYS := bumpOS) 1 40 o1) (set_persistent (mkPA b 40) st))) /\
     (b = 0 ->
        exists st', persistentalloc1 (SYS := bumpOS) 40 16 1 st =
          (Throw "runtime: cannot allocate memory", st') /\
          gmutex st' = gmutex st /\ persistent st' = mkPA 0 off1)).
Proof.
  intros st a off1 b0.
  assert (H1 : 0 < 40) by lia.
  assert (H2 : 40 < maxBlock) by reflexivity.
  assert (H3 : 0 <= 4) by lia.
  assert (H4 : 4 <= 13) by lia.
  assert (H5 : 16 = 0 \/ 16 = 2 ^ 4) by (right; reflexivity).
  assert (H6 : hasP st = true \/ gmutex st = false) by (left; reflexivity).
  assert (H7 : 0 <= off (persistent st)) by (vm_compute; discriminate).
  assert (H8 : off (persistent st) <= chunk) by (vm_compute; discriminate).
  assert (H9 : - 2 ^ 31 <= mlocks st) by (vm_compute; discriminate).
  assert (H10 : mlocks st < 2 ^ 31) by reflexivity.
  split; [auto 12|].
  exact (persistentalloc1_bump (SYS := bumpOS) st 40 16 4 1
           H1 H2 H3 H4 H5 H6 H7 H8 H9 H10).
Defined.

End PersistentFacts.

(** *** mallocinit and mHeap_SysAlloc *)

Module ArenaFacts.
Import Arena.

Ltac arun :=
  cbv beta iota zeta delta
    [bind ret throw lift get modify
     Arena.onOS Arena.doOS Arena.modifyHeap Arena.set_h Arena.set_os
     Arena.set_arena_used Arena.set_arena_end Arena.set_arena_reserved
     Arena.h Arena.os Arena.spans Arena.bitmap Arena.arena_start
     Arena.arena_used Arena.arena_end Arena.arena_reserved negb].

Lemma arena_sizes :
  arenaSize = 2 ^ 39 /\ bitmapSize = 2 ^ 35 /\ spansSize = 2 ^ 29 /\
  pSize = 2 ^ 39 + 2 ^ 35 + 2 ^ 29 + 8192.
Proof. vm_compute. repeat split; reflexivity. Qed.

Lemma land_page x : 0 <= x -> Z.land x (_PageSize - 1) = x mod 8192.
Proof.
  intros Hx. change (_PageSize - 1) with (Z.ones 13).
  rewrite Z.land_ones by lia. reflexivity.
Qed.

Section ArenaFacts.
Context {O : Type} {SYS : OS O}.

Lemma reserveLoop_total (fuel : nat) : forall i p r (st : state O),
  0 <= i <= 128 -> 128 - i < Z.of_nat fuel ->
  exists p' r' st', reserveLoop fuel i p r st = (Ret (p', r'), st') /\ h st' = h st.
Proof.
  induction fuel as [|fuel IH]; intros i p r st Hi Hf; [lia|].
  cbn [reserveLoop].
  destruct (Z.leb_spec i 127) as [Hle|Hgt].
  - unfold bind at 1. unfold onOS.
    destruct (sysReserve (hint i) pSize r (os st)) as [[p1 r1] o1].
    destruct (Z.eqb_spec p1 0) as [Hz|Hnz]; cbn [negb].
    + destruct (IH (i + 1) p1 r1 (set_os o1 st) ltac:(lia) ltac:(lia))
        as (p' & r' & st' & Hrun & Hh).
      exists p', r', st'. split; [exact Hrun|]. rewrite Hh. destruct st; reflexivity.
    + exists p1, r1, (set_os o1 st). split; [reflexivity|]. destruct st; reflexivity.
  - exists p, r, st. split; reflexivity.
Qed.

(** X15: [mallocinit] lays the reservation out as span table, bitmap, arena:
    whatever address [p] the reservation loop ends with (short of the top
    of the address space), [mallocinit] completes without throwing; the span
    table starts at [p] rounded up to a page, the bitmap 512M above it, the
    arena 32G above the bitmap; the arena starts page-aligned with nothing
    used; and between [arena_start] and [arena_end] there is room for more
    than [_MaxMem] bytes. *)
Theorem mallocinit_layout (st st1 : state O) p r :
  reserveLoop 129 0 0 false st = (Ret (p, r), st1) ->
  0 <= p -> p + pSize < 2 ^ 64 ->
  exists st',
    mallocinit st = (Ret tt, st') /\
    p <= spans (h st') < p + _PageSize /\ spans (h st') mod _PageSize = 0 /\
    bitmap (h st') = spans (h st') + 2 ^ 29 /\
    arena_start (h st') = bitmap (h st') + 2 ^ 35 /\
    arena_used (h st') = arena_start (h st') /\
    arena_start (h st') mod _PageSize = 0 /\
    arena_end (h st') = p + pSize /\
    arena_start (h st') + _MaxMem < arena_end (h st') /\
    arena_reserved (h st') = r.
Proof.
  intros Hloop Hp Hend.
  destruct arena_sizes as (Ha & Hb & Hs & Hps).
  rewrite Hps in Hend.
  destruct (PersistentFacts.round_alignUp p 8192 Hp ltac:(lia) ltac:(lia))
    as (Hround & Hbound & Hmod).
  set (p1 := Malloc.alignUp p 8192) in *.
  unfold mallocinit. rewrite initSizes_ok.
  unfold bind at 1. unfold lift at 1.
  change (index (Msize.class_to_size sizeTables) _TinySizeClass) with (Ret (A := Z) 16).
  unfold bind at 1. unfold lift at 1.
  change (negb (16 =? _TinySize)) with false. cbv iota.
  unfold bind at 1. rewrite Hloop.
  change _PageSize with 8192. rewrite Hround, Hs, Hb, Hps.
  change (wrap64 (2 ^ 29 + 2 ^ 35)) with (2 ^ 29 + 2 ^ 35).
  rewrite (wrap64_small (p1 + (2 ^ 29 + 2 ^ 35))) by lia.
  rewrite (wrap64_small (p1 + 2 ^ 29)) by lia.
  rewrite (wrap64_small (p + _)) by lia.
  destruct st1 as [h1 o1]. arun.
  change (8192 - 1) with (_PageSize - 1).
  rewrite land_page by lia.
  assert (Hstart : (p1 + (2 ^ 29 + 2 ^ 35)) mod 8192 = 0).
  { replace (p1 + (2 ^ 29 + 2 ^ 35)) with (p1 + 4259840 * 8192) by lia.
    rewrite Z_mod_plus_full. exact Hmod. }
  rewrite Hstart. change (0 =? 0) with true. cbv iota.
  eexists. split; [reflexivity|]. cbn.
  change _MaxMem with (2 ^ 39 - 1).
  repeat split; try lia.
Qed.

(** X16: [mHeap_SysAlloc] in the 64-bit layout (an arena of at least
    [_MaxArena32] bytes, used up to a page boundary): a request that fits
    what is left of the reservation gets the old [arena_used] and moves
    [arena_used] up by exactly [n], staying within the reservation; a
    request that does not fit gets nil, and neither the heap nor the
    operating system is touched. *)
Theorem mHeap_SysAlloc_64bit (st : state O) n :
  0 <= arena_start (h st) -> arena_start (h st) <= arena_used (h st) ->
  arena_used (h st) <= arena_end (h st) -> arena_end (h st) < 2 ^ 64 ->
  _MaxArena32 <= arena_end (h st) - arena_start (h st) ->
  arena_used (h st) mod _PageSize = 0 -> 0 <= n ->
  (n <= arena_end (h st) - arena_used (h st) ->
     mHeap_SysAlloc n st =
       (Ret (arena_used (h st)),
        mkState (set_arena_used (arena_used (h st) + n) (h st))
          (mHeap_MapSpans (arena_used (h st) + n)
             (mHeap_MapBits (arena_used (h st) + n)
                (sysMap (arena_used (h st)) n (arena_reserved (h st)) (os st))))) /\
     arena_used (h st) + n <= arena_end (h st)) /\
  (arena_end (h st) - arena_used (h st) < n ->
   arena_end (h st) + n + _PageSize + 2 ^ 28 < 2 ^ 64 ->
     mHeap_SysAlloc n st = (Ret 0, st)).
Proof.
  intros Hs0 Hsu Hue He Harena Hal Hn.
  destruct st as [[sp bm start used end_ rsv] o]. cbn in *.
  change _MaxArena32 with (2 ^ 31) in *. change _PageSize with 8192 in *.
  assert (Hleft : wrap64 (end_ - used) = end_ - used) by (apply wrap64_small; lia).
  split.
  - intros Hfit. split; [|lia].
    unfold mHeap_SysAlloc. arun. rewrite Hleft.
    destruct (Z.gtb_spec n (end_ - used)) as [?|_]; [lia|]. arun. rewrite Hleft.
    destruct (Z.leb_spec n (end_ - used)) as [_|?]; [|lia]. arun.
    rewrite (wrap64_small (used + n)) by lia.
    change (8192 - 1) with (_PageSize - 1). rewrite land_page by lia.
    rewrite Hal. reflexivity.
  - intros Hbig Hnowrap.
    unfold mHeap_SysAlloc. arun. rewrite Hleft.
    destruct (Z.gtb_spec n (end_ - used)) as [_|?]; [|lia].
    rewrite (wrap64_small (n + 8192)) by lia.
    change (Z.shiftl 256 20) with (2 ^ 28).
    destruct (PersistentFacts.round_alignUp (n + 8192) (2 ^ 28) ltac:(lia) ltac:(lia)
                ltac:(lia)) as (Hround & Hbound & _).
    rewrite Hround. set (p_size := Malloc.alignUp (n + 8192) (2 ^ 28)) in *.
    rewrite (wrap64_small (end_ + p_size)) by lia.
    rewrite (wrap64_small (start + 2 ^ 31)) by lia.
    destruct (Z.leb_spec (end_ + p_size) (start + 2 ^ 31)) as [?|_]; [lia|].
    arun. rewrite Hleft.
    destruct (Z.leb_spec n (end_ - used)) as [?|_]; [lia|].
    rewrite (wrap64_small (end_ - start)) by lia.
    rewrite Z.geb_leb.
    destruct (Z.leb_spec (2 ^ 31) (end_ - start)) as [_|?]; [|lia]. reflexivity.
Qed.

End ArenaFacts.

Lemma mallocinit_layout_witness :
  let p := 824633720832 in
  (reserveLoop (SYS := grantingOS) 129 0 0 false blank = (Ret (p, true), blank) /\
   0 <= p /\ p + pSize < 2 ^ 64) /\
  exists st',
    mallocinit (SYS := grantingOS) blank = (Ret tt, st') /\
    p <= spans (h st') < p + _PageSize /\ spans (h st') mod _PageSize = 0 /\
    bitmap (h st') = spans (h st') + 2 ^ 29 /\
    arena_start (h st') = bitmap (h st') + 2 ^ 35 /\
    arena_used (h st') = arena_start (h st') /\
    arena_start (h st') mod _PageSize = 0 /\
    arena_end (h st') = p + pSize /\
    arena_start (h st') + _MaxMem < arena_end (h st') /\
    arena_reserved (h st') = true.
Proof.
  intros p.
  assert (H1 : reserveLoop (SYS := grantingOS) 129 0 0 false blank = (Ret (p, true), blank))
    by (vm_compute; reflexivity).
  assert (H2 : 0 <= p) by (vm_compute; discriminate).
  assert (H3 : p + pSize < 2 ^ 64) by (vm_compute; reflexivity).
  split; [auto|].
  exact (mallocinit_layout (SYS := grantingOS) blank blank p true H1 H2 H3).
Defined.

Lemma mHeap_SysAlloc_64bit_witness :
  let st := laidOut in
  (0 <= arena_start (h st) /\ arena_start (h st) <= arena_used (h st) /\
   arena_used (h st) <= arena_end (h st) /\ arena_end (h st) < 2 ^ 64 /\
   _MaxArena32 <= arena_end (h st) - arena_start (h st) /\
   arena_used (h st) mod _PageSize = 0 /\ 0 <= 1048576) /\
  (1048576 <= arena_end (h st) - arena_used (h st) ->
     mHeap_SysAlloc (SYS := grantingOS) 1048576 st =
       (Ret (arena_used (h st)),
        mkState (set_arena_used (arena_used (h st) + 1048576) (h st))
          (mHeap_MapSpans (OS := grantingOS) (arena_used (h st) + 1048576)
             (mHeap_MapBits (OS := grantingOS) (arena_used (h st) + 1048576)
                (sysMap (OS := grantingOS) (arena_used (h st)) 1048576
                   (arena_reserved (h st)) (os st))))) /\
     arena_used (h st) + 1048576 <= arena_end (h st)) /\
  (arena_end (h st) - arena_used (h st) < 1048576 ->
   arena_end (h st) + 1048576 + _PageSize + 2 ^ 28 < 2 ^ 64 ->
     mHeap_SysAlloc (SYS := grantingOS) 1048576 st = (Ret 0, st)).
Proof.
  intros st.
  assert (H1 : 0 <= arena_start (h st)) by (vm_compute; discriminate).
  assert (H2 : arena_start (h st) <= arena_used (h st)) by (vm_compute; discriminate).
  assert (H3 : arena_used (h st) <= arena_end (h st)) by (vm_compute; discriminate).
  assert (H4 : arena_end (h st) < 2 ^ 64) by (vm_compute; reflexivity).
  assert (H5 : _MaxArena32 <= arena_end (h st) - arena_start (h st))
    by (vm_compute; discriminate).
  assert (H6 : arena_used (h st) mod _PageSize = 0) by (vm_compute; reflexivity).
  assert (H7 : 0 <= 1048576) by lia.
  split; [auto 10|].
  exact (mHeap_SysAlloc_64bit (SYS := grantingOS) st 1048576 H1 H2 H3 H4 H5 H6 H7).
Defined.

End ArenaFacts.

Module CentralMore.
Import Central CentralInit.

Lemma deref_Ret s st sp st' :
  deref s st = (Ret sp, st') -> spans st !! s = Some sp /\ st' = st.
Proof.
  unfold deref. destruct (spans st !! s) as [sp0|]; [|discriminate].
  intros [= <- <-]. split; reflexivity.
Qed.

Lemma update_Ret s f st u st' :
  update s f st = (Ret u, st') ->
  exists sp, spans st !! s = Some sp /\
    st' = set_spans (<[s := f sp]> (spans st)) st.
Proof.
  unfold update. intros Hrun.
  apply EntryFacts.bind_Ret in Hrun as (sp & st1 & Hd & Hm).
  apply deref_Ret in Hd as [Hsp ->].
  apply EntryFacts.modify_Ret in Hm. exists sp. split; [exact Hsp | exact Hm].
Qed.

Lemma update_run s f st sp :
  spans st !! s = Some sp ->
  update s f st = (Ret tt, set_spans (<[s := f sp]> (spans st)) st).
Proof. intros Hsp. unfold update, bind, deref. rewrite Hsp. reflexivity. Qed.

Lemma deref_run s st sp : spans st !! s = Some sp -> deref s st = (Ret sp, st).
Proof. intros Hsp. unfold deref. rewrite Hsp. reflexivity. Qed.

Lemma carveLoop_map (k : nat) : forall p size,
  0 <= p -> 0 <= size -> p + Z.of_nat k * size < 2 ^ 64 ->
  carveLoop k p size = List.map (fun i => p + Z.of_nat (S i) * size) (seq 0 k).
Proof.
  induction k as [|k IH]; intros p size Hp Hs Hb; [reflexivity|].
  cbn [carveLoop]. rewrite wrap64_small by nia.
  rewrite IH by nia.
  cbn [seq List.map]. f_equal; [lia|].
  rewrite <- seq_shift, List.map_map. apply List.map_ext. intros i. lia.
Qed.

Lemma carved_map (n : nat) p size :
  0 <= p -> 0 <= size -> p + Z.of_nat n * size < 2 ^ 64 ->
  p :: carveLoop n p size = List.map (fun i => p + Z.of_nat i * size) (seq 0 (S n)).
Proof.
  intros Hp Hs Hb. rewrite carveLoop_map by assumption.
  cbn [seq List.map]. f_equal; [lia|].
  rewrite <- seq_shift, List.map_map. reflexivity.
Qed.

Section CentralMore.
Context {X : Collaborators}.

Lemma mHeap_Alloc_Some npage cl large nz st s st1 :
  mHeap_Alloc npage cl large nz st = (Ret (Some s), st1) ->
  exists sp0 es,
    spans st !! s = Some sp0 /\ index (Msize.class_to_size sizeTables) cl = Ret es /\
    s ∈ heapfree st /\
    st1 = set_spans
            (<[s := set_sweepgen (hsweepgen st) (set_ref 0 (set_class cl es sp0))]> (spans st))
            (set_lists (unlink s (nonempty st)) (unlink s (empty st))
                       (unlink s (heapfree st)) st).
Proof.
  unfold mHeap_Alloc. intros Hrun.
  apply EntryFacts.bind_Ret in Hrun as (st0 & st0' & Hget & Hrun).
  apply EntryFacts.get_Ret in Hget as [-> ->].
  destruct (heapChoose (heapfree st) npage) as [i|]; [|discriminate].
  destruct (heapfree st !! i) as [s0|] eqn:Hi; [|discriminate].
  apply EntryFacts.bind_Ret in Hrun as (u & st2 & Hrem & Hrun).
  apply EntryFacts.modify_Ret in Hrem. subst st2.
  apply EntryFacts.bind_Ret in Hrun as (es & st3 & Hes & Hrun).
  apply EntryFacts.lift_Ret in Hes as [Hes ->].
  apply EntryFacts.bind_Ret in Hrun as (u' & st4 & Hup & Hrun).
  apply EntryFacts.ret_Ret in Hrun as [[= <-] ->].
  apply update_Ret in Hup as (sp0 & Hsp & ->).
  exists sp0, es. split; [exact Hsp|]. split; [exact Hes|].
  split; [apply list_elem_of_lookup; eauto | reflexivity].
Qed.

(** X17: [mCentral_Grow] carves the span it gets from the heap into the
    objects of its class: the free list holds the
    [n = (npages << _PageShift) / size] object addresses
    [base, base + size, ..., base + (n-1) * size] in this order, [base]
    being the span's first byte; there is at least one; [s.limit] is the
    end of the last object and lies within the span, of which at most an
    eighth is left over; the span carries the class, its object size, the
    heap's sweep generation, and no handed-out object. *)
Theorem mCentral_Grow_carves (st : state) s st' sp0 np size :
  1 <= csizeclass st -> csizeclass st <= 66 ->
  index (Msize.class_to_allocnpages sizeTables) (csizeclass st) = Ret np ->
  index (Msize.class_to_size sizeTables) (csizeclass st) = Ret size ->
  mCentral_Grow st = (Ret (Some s), st') ->
  spans st !! s = Some sp0 ->
  0 <= start sp0 -> (start sp0 + np) * _PageSize < 2 ^ 64 ->
  exists sp',
    spans st' !! s = Some sp' /\
    let base := start sp0 * _PageSize in
    let n := (np * _PageSize) / size in
    1 <= n /\
    freelist sp' = List.map (fun i => base + Z.of_nat i * size) (seq 0 (Z.to_nat n)) /\
    limit sp' = base + n * size /\
    limit sp' <= base + np * _PageSize /\
    base + np * _PageSize - limit sp' <= (np * _PageSize) / 8 /\
    sizeclass sp' = csizeclass st /\ elemsize sp' = size /\ ref sp' = 0 /\
    start sp' = start sp0 /\ sweepgen sp' = hsweepgen st.
Proof.
  intros Hc1 Hc2 Hnp Hsize Hrun Hsp0 Hstart Hend.
  (* what [initSizes] guarantees for the class *)
  pose proof (range_all_spec _ 1 66 (csizeclass st) class_all ltac:(lia)) as Hok.
  unfold class_ok in Hok. rewrite Hsize, Hnp in Hok.
  destruct (index (Msize.class_to_size sizeTables) (csizeclass st - 1)) as [prev| | |];
    try discriminate.
  destruct (index (Msize.class_to_allocnpages sizeTables) (csizeclass st - 1))
    as [pnp| | |]; try discriminate.
  apply andb_prop in Hok as [Hok _]. apply andb_prop in Hok as [Hok _].
  repeat (apply andb_prop in Hok as [Hok ?]).
  change _PageSize with 8192 in *.
  assert (Hsz : 0 < size) by lia.
  set (span := np * 8192) in *.
  set (n := span / size) in *.
  assert (Hn : 1 <= n) by lia.
  assert (Hns : n * size <= span).
  { pose proof (Z.mul_div_le span size Hsz). fold n in H4. lia. }
  assert (Htail : span - n * size = span mod size).
  { pose proof (Z.div_mod span size ltac:(lia)). fold n in H4. lia. }
  (* the run, step by step *)
  unfold mCentral_Grow in Hrun.
  apply EntryFacts.bind_Ret in Hrun as (st0 & st0' & Hget & Hrun).
  apply EntryFacts.get_Ret in Hget as [-> ->].
  apply EntryFacts.bind_Ret in Hrun as (np' & st1 & Hl & Hrun).
  apply EntryFacts.lift_Ret in Hl as [Hl ->]. rewrite Hnp in Hl. injection Hl as <-.
  apply EntryFacts.bind_Ret in Hrun as (size' & st1 & Hl & Hrun).
  apply EntryFacts.lift_Ret in Hl as [Hl ->]. rewrite Hsize in Hl. injection Hl as <-.
  destruct (Z.eqb_spec size 0) as [?|_]; [lia|].
  apply EntryFacts.bind_Ret in Hrun as (r & st1 & Halloc & Hrun).
  destruct r as [s0|]; [|apply EntryFacts.ret_Ret in Hrun as [[=] _]].
  apply EntryFacts.bind_Ret in Hrun as (sp & st1' & Hd & Hrun).
  apply deref_Ret in Hd as [Hsp1 ->].
  apply EntryFacts.bind_Ret in Hrun as (u & st2 & Hup & Hrun).
  apply update_Ret in Hup as (sp1 & Hsp1' & ->).
  rewrite Hsp1 in Hsp1'. injection Hsp1' as <-.
  destruct (isNil (freelist sp)) eqn:Hnil; cbn [negb] in Hrun; [|discriminate].
  apply EntryFacts.bind_Ret in Hrun as (u' & st3 & Hup2 & Hrun).
  apply update_Ret in Hup2 as (sp2 & Hsp2 & ->).
  apply EntryFacts.ret_Ret in Hrun as [[= <-] ->].
  cbn [spans set_spans] in Hsp2. rewrite lookup_insert_eq in Hsp2. injection Hsp2 as <-.
  apply mHeap_Alloc_Some in Halloc as (sp0' & es & Hsp0' & Hes & _ & ->).
  rewrite Hsp0 in Hsp0'. injection Hsp0' as <-.
  rewrite Hsize in Hes. injection Hes as <-.
  cbn [spans set_spans set_lists] in Hsp1. rewrite lookup_insert_eq in Hsp1.
  injection Hsp1 as <-.
  eexists. split; [cbn [spans set_spans]; apply lookup_insert_eq|].
  cbn [freelist limit sizeclass elemsize ref start sweepgen
       set_freelist set_limit set_sweepgen set_ref set_class hsweepgen set_lists].
  change _PageShift with 13.
  rewrite !Z.shiftl_mul_pow2 by lia. change (2 ^ 13) with 8192. fold span.
  rewrite (wrap64_small (start sp0 * 8192)) by nia.
  rewrite (wrap64_small span) by (unfold span; nia).
  rewrite Z.quot_div_nonneg by (unfold span; lia). fold n.
  rewrite (wrap64_small (size * n)) by (unfold span in *; nia).
  rewrite (wrap64_small (start sp0 * 8192 + size * n)) by (unfold span in *; nia).
  split; [exact Hn|]. split.
  - rewrite carved_map; [|nia|lia|].
    + replace (S (Z.to_nat (n - 1))) with (Z.to_nat n) by lia. reflexivity.
    + rewrite Z2Nat.id by lia. unfold span in *. nia.
  - split; [lia|]. split; [unfold span in *; nia|]. split; [|auto 10].
    unfold span in *. lia.
Qed.


Lemma havespan_usable s st r st' :
  havespan s st = (Ret r, st') ->
  r = Some s /\
  exists sp, spans st' !! s = Some sp /\ incache sp = true /\
    isNil (freelist sp) = false /\ room sp <> 0 /\ elemsize sp <> 0.
Proof.
  unfold havespan. intros Hrun.
  apply EntryFacts.bind_Ret in Hrun as (sp & st1 & Hd & Hrun).
  apply deref_Ret in Hd as [Hsp ->].
  destruct (Z.eqb_spec (elemsize sp) 0) as [?|Hes]; [discriminate|].
  fold (room sp) in Hrun.
  destruct (Z.eqb_spec (room sp) 0) as [?|Hroom]; [discriminate|].
  destruct (isNil (freelist sp)) eqn:Hnil; [discriminate|].
  apply EntryFacts.bind_Ret in Hrun as (u & st2 & Hup & Hrun).
  apply EntryFacts.ret_Ret in Hrun as [-> ->].
  apply update_Ret in Hup as (sp' & Hsp' & ->).
  rewrite Hsp in Hsp'. injection Hsp' as <-.
  split; [reflexivity|].
  exists (set_incache true sp). split; [cbn; apply lookup_insert_eq|].
  destruct sp; cbn in *. auto.
Qed.

Ltac peel Hrun :=
  let u := fresh "u" in let st := fresh "st" in
  apply EntryFacts.bind_Ret in Hrun as (u & st & _ & Hrun).

Lemma cacheSpanRetry_usable (fuel : nat) : forall sg st s st',
  cacheSpanRetry fuel sg st = (Ret (Some s), st') ->
  exists sp, spans st' !! s = Some sp /\ incache sp = true /\
    isNil (freelist sp) = false /\ room sp <> 0 /\ elemsize sp <> 0.
Proof.
  induction fuel as [|fuel IH]; intros sg st s st' Hrun; [discriminate|].
  cbn [cacheSpanRetry] in Hrun.
  apply EntryFacts.bind_Ret in Hrun as (st0 & st0' & Hget & Hrun).
  apply EntryFacts.get_Ret in Hget as [-> ->].
  apply EntryFacts.bind_Ret in Hrun as (r & st1 & Hscan & Hrun).
  apply EntryFacts.lift_Ret in Hscan as [_ ->].
  destruct r as [[s0 [|]]|].
  - peel Hrun. peel Hrun. peel Hrun. peel Hrun.
    apply havespan_usable in Hrun as [[= <-] Hsp]. exact Hsp.
  - peel Hrun. peel Hrun.
    apply havespan_usable in Hrun as [[= <-] Hsp]. exact Hsp.
  - apply EntryFacts.bind_Ret in Hrun as (r2 & st2 & Hscan2 & Hrun).
    apply EntryFacts.lift_Ret in Hscan2 as [_ ->].
    destruct r2 as [s0|].
    + peel Hrun. peel Hrun. peel Hrun. peel Hrun.
      apply EntryFacts.bind_Ret in Hrun as (sp & ? & _ & Hrun).
      destruct (negb (isNil (freelist sp))).
      * apply havespan_usable in Hrun as [[= <-] Hsp]. exact Hsp.
      * exact (IH _ _ _ _ Hrun).
    + apply EntryFacts.bind_Ret in Hrun as (r3 & ? & _ & Hrun).
      destruct r3 as [s0|]; [|apply EntryFacts.ret_Ret in Hrun as [[=] _]].
      peel Hrun.
      apply havespan_usable in Hrun as [[= <-] Hsp]. exact Hsp.
Qed.

(** X18: [mCentral_CacheSpan] never hands an mcache a span it cannot allocate
    from: the span it returns, wherever it came from (the nonempty list, a
    sweep of the empty list, or the heap), is marked as cached, has a free
    list that is not nil, and has room ([cap - ref] is not 0). *)
Theorem mCentral_CacheSpan_usable (st : state) s st' :
  mCentral_CacheSpan st = (Ret (Some s), st') ->
  exists sp, spans st' !! s = Some sp /\ incache sp = true /\
    isNil (freelist sp) = false /\ room sp <> 0 /\ elemsize sp <> 0.
Proof.
  unfold mCentral_CacheSpan. intros Hrun.
  apply EntryFacts.bind_Ret in Hrun as (st0 & st0' & Hget & Hrun).
  apply EntryFacts.get_Ret in Hget as [-> ->].
  apply EntryFacts.bind_Ret in Hrun as (sz & st1 & Hl & Hrun).
  apply EntryFacts.lift_Ret in Hl as [_ ->].
  apply EntryFacts.bind_Ret in Hrun as (st0 & st0' & Hget & Hrun).
  apply EntryFacts.get_Ret in Hget as [-> ->].
  exact (cacheSpanRetry_usable _ _ _ _ _ Hrun).
Qed.

Lemma unlink_absent s l : s ∉ l -> unlink s l = l.
Proof.
  intros Hs. unfold unlink. induction l as [|x l IH]; [reflexivity|].
  rewrite filter_cons. apply not_elem_of_cons in Hs as [Hne Hl].
  destruct (decide (x <> s)) as [_|Heq]; [f_equal; exact (IH Hl)|].
  exfalso. apply Heq. congruence.
Qed.

Lemma remove_then_unlinked s st :
  linked s (set_lists (unlink s (nonempty st)) (unlink s (empty st))
                      (unlink s (heapfree st)) st) = false.
Proof.
  unfold linked. apply bool_decide_eq_false. cbn [nonempty empty heapfree set_lists].
  apply CentralFacts.not_in_unlinked.
Qed.

(** X19: [mCentral_UncacheSpan] files the span by the room it has: a span in
    [c.empty] from which nothing was handed out ([s.ref == 0]) makes it
    throw; otherwise the span loses its cached mark, and moves to the front
    of [c.nonempty] when it has room, or stays where it is in [c.empty]
    when it is full. *)
Theorem mCentral_UncacheSpan_files (st : state) s sp :
  spans st !! s = Some sp -> elemsize sp <> 0 ->
  s ∉ nonempty st -> s ∉ heapfree st ->
  (ref sp = 0 ->
     exists st', mCentral_UncacheSpan s st = (Throw "uncaching full span", st')) /\
  (ref sp <> 0 ->
     exists st', mCentral_UncacheSpan s st = (Ret tt, st') /\
       spans st' = <[s := set_incache false sp]> (spans st) /\
       heapfree st' = heapfree st /\
       (0 < room sp ->
          nonempty st' = s :: nonempty st /\ empty st' = unlink s (empty st)) /\
       (room sp <= 0 -> nonempty st' = nonempty st /\ empty st' = empty st)).
Proof.
  intros Hsp Hes Hne Hhf.
  assert (Hstep : forall K : unit -> M state unit,
    bind (update s (set_incache false)) K st =
    K tt (set_spans (<[s := set_incache false sp]> (spans st)) st)).
  { intros K. unfold bind at 1. rewrite (update_run _ _ _ _ Hsp). reflexivity. }
  set (st1 := set_spans (<[s := set_incache false sp]> (spans st)) st) in *.
  assert (Hsp1 : spans st1 !! s = Some (set_incache false sp))
    by (cbn; apply lookup_insert_eq).
  assert (Hr : ref (set_incache false sp) = ref sp) by (destruct sp; reflexivity).
  assert (He : elemsize (set_incache false sp) = elemsize sp) by (destruct sp; reflexivity).
  assert (Hn : npages (set_incache false sp) = npages sp) by (destruct sp; reflexivity).
  split.
  - intros Hz.
    unfold mCentral_UncacheSpan. rewrite Hstep.
    unfold bind at 1. rewrite (deref_run _ _ _ Hsp1). rewrite Hr, He, Hn.
    rewrite Hz. change (0 =? 0) with true. cbv iota. eexists. reflexivity.
  - intros Hnz.
    unfold mCentral_UncacheSpan. rewrite Hstep.
    unfold bind at 1. rewrite (deref_run _ _ _ Hsp1). rewrite Hr, He, Hn.
    fold (room sp).
    destruct (Z.eqb_spec (ref sp) 0) as [?|_]; [contradiction|].
    destruct (Z.eqb_spec (elemsize sp) 0) as [?|_]; [contradiction|].
    destruct (Z.gtb_spec (room sp) 0) as [Hroom|Hfull].
    + unfold bind at 1. unfold mSpanList_Remove at 1. unfold modify at 1.
      unfold mSpanList_Insert. unfold bind at 1. unfold get at 1.
      cbv beta. rewrite remove_then_unlinked. unfold modify.
      eexists. split; [reflexivity|].
      cbn [spans nonempty empty heapfree set_lists set_spans st1].
      rewrite (unlink_absent s (nonempty st) Hne), (unlink_absent s (heapfree st) Hhf).
      split; [reflexivity|]. split; [reflexivity|]. split; [auto | lia].
    + eexists. split; [reflexivity|].
      cbn [spans nonempty empty heapfree set_spans st1].
      split; [reflexivity|]. split; [reflexivity|]. split; [lia | auto].
Qed.

(** X20: [mCentral_FreeSpan] outside a sweep on behalf of [mCentral_CacheSpan]
    ([preserve] false), for a span that is linked in one of the two lists
    of [c] (in [c.nonempty] if it had a free object) and not cached: the
    freed objects are put in front of the span's free list and taken off
    [s.ref]; the call returns true exactly when [s.ref] has come down to 0,
    and then the span is in the heap's pool and in neither list, its free
    list nil and [needzero] set; otherwise it returns false, the span is in
    [c.nonempty], and carries the heap's sweep generation. *)
Theorem mCentral_FreeSpan_returns (st : state) s sp n objs :
  spans st !! s = Some sp -> incache sp = false -> isNil objs = false ->
  s ∉ heapfree st ->
  (isNil (freelist sp) = false -> s ∈ nonempty st) ->
  let ref' := wrap16 (ref sp - wrap16 n) in
  let sp1 := set_sweepgen (hsweepgen st)
               (set_ref ref' (set_freelist (objs ++ freelist sp) sp)) in
  exists b st',
    mCentral_FreeSpan s n objs false st = (Ret b, st') /\
    (b = true <-> ref' = 0) /\
    (b = false ->
       s ∈ nonempty st' /\ (s ∉ heapfree st') /\ (spans st' !! s = Some sp1)) /\
    (b = true ->
       s ∈ heapfree st' /\ (s ∉ nonempty st') /\ (s ∉ empty st') /\
       (spans st' !! s = Some (set_freelist [] (set_needzero 1 sp1)))).
Proof.
  intros Hsp Hic Hobjs Hhf Hfl ref' sp1.
  unfold mCentral_FreeSpan.
  unfold bind at 1. rewrite (deref_run _ _ _ Hsp). rewrite Hic, Hobjs.
  unfold bind at 1. rewrite (update_run _ _ _ _ Hsp).
  set (sp0 := set_ref ref' (set_freelist (objs ++ freelist sp) sp)).
  set (st1 := set_spans (<[s := sp0]> (spans st)) st).
  unfold bind at 1. unfold get at 1.
  assert (Hsp1 : spans st1 !! s = Some sp0) by (cbn; apply lookup_insert_eq).
  assert (Hins : forall st2 (f : mspan -> mspan),
            <[s := f sp0]> (<[s := sp0]> (spans st2)) = <[s := f sp0]> (spans st2)).
  { intros st2 f. apply insert_insert_eq. }
  destruct (isNil (freelist sp)) eqn:Hwas.
  - (* the span had no free object: it moves to [c.nonempty] *)
    unfold bind at 1. unfold bind at 1.
    unfold mSpanList_Remove at 1. unfold modify at 1.
    unfold mSpanList_Insert at 1. unfold bind at 1. unfold get at 1.
    cbv beta. rewrite remove_then_unlinked. unfold modify at 1.
    set (st2 := set_lists (s :: nonempty _) _ _ _).
    assert (Hsp2 : spans st2 !! s = Some sp0) by (cbn; apply lookup_insert_eq).
    unfold bind at 1. rewrite (update_run _ _ _ _ Hsp2).
    set (st3 := set_spans _ st2).
    assert (Hsp3 : spans st3 !! s = Some sp1) by (cbn; apply lookup_insert_eq).
    unfold bind at 1. rewrite (deref_run _ _ _ Hsp3).
    replace (ref sp1) with ref' by (destruct sp; reflexivity).
    destruct (Z.eqb_spec ref' 0) as [Hz|Hnz]; cbn [negb].
    + unfold bind at 1. unfold mSpanList_Remove at 1. unfold modify at 1.
      set (st4 := set_lists _ _ _ st3).
      assert (Hsp4 : spans st4 !! s = Some sp1) by (cbn; apply lookup_insert_eq).
      unfold bind at 1. rewrite (update_run _ _ _ _ Hsp4).
      set (st5 := set_spans _ st4).
      assert (Hl5 : linked s st5 = false).
      { unfold linked. apply bool_decide_eq_false.
        cbn [nonempty empty heapfree set_lists set_spans st5 st4].
        apply CentralFacts.not_in_unlinked. }
      unfold bind at 1. unfold mHeap_Free. unfold bind at 1. unfold get at 1.
      rewrite Hl5. unfold modify.
      eexists true, _. split; [reflexivity|]. split; [tauto|].
      split; [discriminate|]. intros _.
      cbn [spans nonempty empty heapfree set_lists set_spans st5 st4 st3 st2 st1].
      split; [apply elem_of_cons; left; reflexivity|].
      split; [rewrite CentralFacts.elem_of_unlink; tauto|].
      split; [rewrite CentralFacts.elem_of_unlink; tauto|].
      apply lookup_insert_eq.
    + eexists false, _. split; [reflexivity|].
      split; [split; [discriminate | contradiction]|].
      split; [|discriminate]. intros _.
      cbn [spans nonempty empty heapfree set_lists set_spans st3 st2 st1].
      split; [apply elem_of_cons; left; reflexivity|].
      split; [rewrite CentralFacts.elem_of_unlink; tauto | exact Hsp3].
  - (* the span had a free object and stays in [c.nonempty] *)
    specialize (Hfl eq_refl).
    unfold bind at 1. unfold ret at 1.
    unfold bind at 1. rewrite (update_run _ _ _ _ Hsp1).
    set (st3 := set_spans _ st1).
    assert (Hsp3 : spans st3 !! s = Some sp1) by (cbn; apply lookup_insert_eq).
    unfold bind at 1. rewrite (deref_run _ _ _ Hsp3).
    replace (ref sp1) with ref' by (destruct sp; reflexivity).
    destruct (Z.eqb_spec ref' 0) as [Hz|Hnz]; cbn [negb].
    + unfold bind at 1. unfold mSpanList_Remove at 1. unfold modify at 1.
      set (st4 := set_lists _ _ _ st3).
      assert (Hsp4 : spans st4 !! s = Some sp1) by (cbn; apply lookup_insert_eq).
      unfold bind at 1. rewrite (update_run _ _ _ _ Hsp4).
      set (st5 := set_spans _ st4).
      assert (Hl5 : linked s st5 = false).
      { unfold linked. apply bool_decide_eq_false.
        cbn [nonempty empty heapfree set_lists set_spans st5 st4].
        apply CentralFacts.not_in_unlinked. }
      unfold bind at 1. unfold mHeap_Free. unfold bind at 1. unfold get at 1.
      rewrite Hl5. unfold modify.
      eexists true, _. split; [reflexivity|]. split; [tauto|].
      split; [discriminate|]. intros _.
      cbn [spans nonempty empty heapfree set_lists set_spans st5 st4 st3 st1].
      split; [apply elem_of_cons; left; reflexivity|].
      split; [rewrite CentralFacts.elem_of_unlink; tauto|].
      split; [rewrite CentralFacts.elem_of_unlink; tauto|].
      apply lookup_insert_eq.
    + eexists false, _. split; [reflexivity|].
      split; [split; [discriminate | contradiction]|].
      split; [|discriminate]. intros _.
      cbn [spans nonempty empty heapfree set_spans st3 st1].
      split; [exact Hfl|]. split; [exact Hhf | exact Hsp3].
Qed.

Lemma mHeap_Alloc_None npage cl large nz st st1 :
  mHeap_Alloc npage cl large nz st = (Ret None, st1) -> st1 = st.
Proof.
  unfold mHeap_Alloc. intros Hrun.
  apply EntryFacts.bind_Ret in Hrun as (st0 & st0' & Hget & Hrun).
  apply EntryFacts.get_Ret in Hget as [-> ->].
  destruct (heapChoose (heapfree st) npage) as [i|];
    [|apply EntryFacts.ret_Ret in Hrun as [_ ->]; reflexivity].
  destruct (heapfree st !! i) as [s0|];
    [|apply EntryFacts.ret_Ret in Hrun as [_ ->]; reflexivity].
  apply EntryFacts.bind_Ret in Hrun as (u & st2 & _ & Hrun).
  apply EntryFacts.bind_Ret in Hrun as (es & st3 & _ & Hrun).
  apply EntryFacts.bind_Ret in Hrun as (u' & st4 & _ & Hrun).
  apply EntryFacts.ret_Ret in Hrun as [[=] _].
Qed.

Lemma Grow_lists st r st' :
  mCentral_Grow st = (Ret r, st') ->
  csizeclass st' = csizeclass st /\
  match r with
  | None => st' = st
  | Some s =>
      s ∈ heapfree st /\ nonempty st' = unlink s (nonempty st) /\
      empty st' = unlink s (empty st) /\ heapfree st' = unlink s (heapfree st)
  end.
Proof.
  unfold mCentral_Grow. intros Hrun.
  apply EntryFacts.bind_Ret in Hrun as (st0 & st0' & Hget & Hrun).
  apply EntryFacts.get_Ret in Hget as [-> ->].
  apply EntryFacts.bind_Ret in Hrun as (np & st1 & Hl & Hrun).
  apply EntryFacts.lift_Ret in Hl as [_ ->].
  apply EntryFacts.bind_Ret in Hrun as (size & st1 & Hl & Hrun).
  apply EntryFacts.lift_Ret in Hl as [_ ->].
  destruct (size =? 0); [discriminate|].
  apply EntryFacts.bind_Ret in Hrun as (r0 & st1 & Halloc & Hrun).
  destruct r0 as [s0|].
  - apply mHeap_Alloc_Some in Halloc as (sp0 & es & _ & _ & Hin & ->).
    apply EntryFacts.bind_Ret in Hrun as (sp & st1' & Hd & Hrun).
    apply deref_Ret in Hd as [_ ->].
    apply EntryFacts.bind_Ret in Hrun as (u & st2 & Hup & Hrun).
    apply update_Ret in Hup as (sp1 & _ & ->).
    destruct (negb (isNil (freelist sp))); [discriminate|].
    apply EntryFacts.bind_Ret in Hrun as (u' & st3 & Hup2 & Hrun).
    apply update_Ret in Hup2 as (sp2 & _ & ->).
    apply EntryFacts.ret_Ret in Hrun as [-> ->].
    cbn. auto.
  - apply mHeap_Alloc_None in Halloc as ->.
    apply EntryFacts.ret_Ret in Hrun as [-> ->]. split; reflexivity.
Qed.

Lemma havespan_lists s st r st' :
  havespan s st = (Ret r, st') ->
  csizeclass st' = csizeclass st /\ nonempty st' = nonempty st /\
  empty st' = empty st /\ heapfree st' = heapfree st.
Proof.
  unfold havespan. intros Hrun.
  apply EntryFacts.bind_Ret in Hrun as (sp & st1 & Hd & Hrun).
  apply deref_Ret in Hd as [_ ->].
  destruct (elemsize sp =? 0); [discriminate|].
  destruct (_ =? 0); [discriminate|].
  destruct (isNil (freelist sp)); [discriminate|].
  apply EntryFacts.bind_Ret in Hrun as (u & st2 & Hup & Hrun).
  apply EntryFacts.ret_Ret in Hrun as [_ ->].
  apply update_Ret in Hup as (sp' & _ & ->). cbn. auto.
Qed.

(** X21: On a central list that has just been initialised, the first
    [mCentral_CacheSpan] can only grow the list from the heap: the span it
    returns was in the heap's pool and is now the one span of [c.empty],
    [c.nonempty] staying without spans; and when the heap has nothing to
    give, the call returns nil and leaves the initialised list as it
    was. *)
Theorem first_CacheSpan_grows (st : state) c r st' :
  (mCentral_Init c;; mCentral_CacheSpan) st = (Ret r, st') ->
  csizeclass st' = c /\ nonempty st' = [] /\
  match r with
  | Some s =>
      s ∈ heapfree st /\ empty st' = [s] /\ heapfree st' = unlink s (heapfree st)
  | None => st' = snd (mCentral_Init c st)
  end.
Proof.
  intros Hrun.
  apply EntryFacts.bind_Ret in Hrun as (u & st0 & Hinit & Hrun).
  apply EntryFacts.modify_Ret in Hinit.
  assert (Hst0 : snd (mCentral_Init c st) = st0) by (rewrite Hinit; reflexivity).
  rewrite Hst0. clear Hst0.
  assert (Hc0 : csizeclass st0 = c) by (subst st0; reflexivity).
  assert (Hne0 : nonempty st0 = []) by (subst st0; reflexivity).
  assert (Hem0 : empty st0 = []) by (subst st0; reflexivity).
  assert (Hhf0 : heapfree st0 = heapfree st) by (subst st0; reflexivity).
  clear Hinit.
  unfold mCentral_CacheSpan in Hrun.
  apply EntryFacts.bind_Ret in Hrun as (st0' & st0'' & Hget & Hrun).
  apply EntryFacts.get_Ret in Hget as [-> ->].
  apply EntryFacts.bind_Ret in Hrun as (sz & st0' & Hl & Hrun).
  apply EntryFacts.lift_Ret in Hl as [_ ->].
  apply EntryFacts.bind_Ret in Hrun as (st0' & st0'' & Hget & Hrun).
  apply EntryFacts.get_Ret in Hget as [-> ->].
  rewrite Hem0 in Hrun. cbn [length cacheSpanRetry] in Hrun.
  apply EntryFacts.bind_Ret in Hrun as (st0' & st0'' & Hget & Hrun).
  apply EntryFacts.get_Ret in Hget as [-> ->].
  rewrite Hne0, Hem0 in Hrun. cbn [scanNonempty scanEmpty] in Hrun.
  apply EntryFacts.bind_Ret in Hrun as (r1 & st1 & Hl & Hrun).
  apply EntryFacts.lift_Ret in Hl as [[= <-] ->].
  apply EntryFacts.bind_Ret in Hrun as (r2 & st1 & Hl & Hrun).
  apply EntryFacts.lift_Ret in Hl as [[= <-] ->].
  apply EntryFacts.bind_Ret in Hrun as (r3 & st1 & Hgrow & Hrun).
  apply Grow_lists in Hgrow as [Hc1 Hgrow].
  destruct r3 as [s|].
  - destruct Hgrow as (Hin & Hne1 & Hem1 & Hhf1).
    rewrite Hne0 in Hne1. rewrite Hem0 in Hem1. rewrite Hhf0 in Hin, Hhf1.
    cbn in Hne1, Hem1.
    apply EntryFacts.bind_Ret in Hrun as (u1 & st2 & Hins & Hrun).
    unfold mSpanList_InsertBack in Hins.
    apply EntryFacts.bind_Ret in Hins as (st1' & st1'' & Hget & Hins).
    apply EntryFacts.get_Ret in Hget as [-> ->].
    destruct (linked s st1); [discriminate|].
    apply EntryFacts.modify_Ret in Hins. subst st2.
    pose proof (havespan_usable _ _ _ _ Hrun) as [-> _].
    apply havespan_lists in Hrun as (Hc2 & Hne2 & Hem2 & Hhf2).
    cbn in Hc2, Hne2, Hem2, Hhf2.
    rewrite Hc2, Hne2, Hem2, Hhf2, Hc1, Hne1, Hem1, Hhf1.
    repeat split; try assumption.
  - subst st1. apply EntryFacts.ret_Ret in Hrun as [-> ->].
    split; [exact Hc0|]. split; [exact Hne0 | reflexivity].
Qed.

End CentralMore.

(** *** The operations on concrete states *)

Lemma mCentral_Grow_carves_witness :
  let st := fresh in
  let st' := snd (mCentral_Grow (X := firstFit) st) in
  let sp0 := mkSpan 20 1 [] 0 0 0 false 0 0 0 in
  (1 <= csizeclass st /\ csizeclass st <= 66 /\
   index (Msize.class_to_allocnpages sizeTables) (csizeclass st) = Ret 1 /\
   index (Msize.class_to_size sizeTables) (csizeclass st) = Ret 48 /\
   mCentral_Grow (X := firstFit) st = (Ret (Some 300), st') /\
   spans st !! 300 = Some sp0 /\
   0 <= start sp0 /\ (start sp0 + 1) * _PageSize < 2 ^ 64) /\
  exists sp',
    spans st' !! 300 = Some sp' /\
    let base := start sp0 * _PageSize in
    let n := (1 * _PageSize) / 48 in
    1 <= n /\
    freelist sp' = List.map (fun i => base + Z.of_nat i * 48) (seq 0 (Z.to_nat n)) /\
    limit sp' = base + n * 48 /\
    limit sp' <= base + 1 * _PageSize /\
    base + 1 * _PageSize - limit sp' <= (1 * _PageSize) / 8 /\
    sizeclass sp' = csizeclass st /\ elemsize sp' = 48 /\ ref sp' = 0 /\
    start sp' = start sp0 /\ sweepgen sp' = hsweepgen st.
Proof.
  intros st st' sp0.
  assert (H1 : 1 <= csizeclass st) by (vm_compute; discriminate).
  assert (H2 : csizeclass st <= 66) by (vm_compute; discriminate).
  assert (H3 : index (Msize.class_to_allocnpages sizeTables) (csizeclass st) = Ret 1)
    by reflexivity.
  assert (H4 : index (Msize.class_to_size sizeTables) (csizeclass st) = Ret 48)
    by reflexivity.
  assert (H5 : mCentral_Grow (X := firstFit) st = (Ret (Some 300), st'))
    by (vm_compute; reflexivity).
  assert (H6 : spans st !! 300 = Some sp0) by reflexivity.
  assert (H7 : 0 <= start sp0) by (vm_compute; discriminate).
  assert (H8 : (start sp0 + 1) * _PageSize < 2 ^ 64) by reflexivity.
  split; [auto 10|].
  exact (mCentral_Grow_carves (X := firstFit) st 300 st' sp0 1 48
           H1 H2 H3 H4 H5 H6 H7 H8).
Defined.

Lemma first_CacheSpan_grows_witness :
  let st := fresh in
  let st' := snd ((mCentral_Init 4;; mCentral_CacheSpan (X := firstFit)) st) in
  (mCentral_Init 4;; mCentral_CacheSpan (X := firstFit)) st = (Ret (Some 300), st') /\
  csizeclass st' = 4 /\ nonempty st' = [] /\
  300 ∈ heapfree st /\ empty st' = [300] /\ heapfree st' = unlink 300 (heapfree st).
Proof.
  intros st st'.
  assert (H1 : (mCentral_Init 4;; mCentral_CacheSpan (X := firstFit)) st
               = (Ret (Some 300), st')) by (vm_compute; reflexivity).
  split; [exact H1|].
  exact (first_CacheSpan_grows (X := firstFit) st 4 (Some 300) st' H1).
Defined.

Lemma mCentral_CacheSpan_usable_witness :
  let st := fresh in
  let st' := snd (mCentral_CacheSpan (X := firstFit) st) in
  mCentral_CacheSpan (X := firstFit) st = (Ret (Some 300), st') /\
  exists sp, spans st' !! 300 = Some sp /\ incache sp = true /\
    isNil (freelist sp) = false /\ room sp <> 0 /\ elemsize sp <> 0.
Proof.
  intros st st'.
  assert (H1 : mCentral_CacheSpan (X := firstFit) st = (Ret (Some 300), st'))
    by (vm_compute; reflexivity).
  split; [exact H1|].
  exact (mCentral_CacheSpan_usable (X := firstFit) st 300 st' H1).
Defined.

Lemma mCentral_UncacheSpan_files_witness :
  let st := inUse in
  let sp := mkSpan 16 1 [131120] 4 3 2 true 16 0 139264 in
  (spans st !! 100 = Some sp /\ elemsize sp <> 0 /\
   (100 ∉ nonempty st) /\ (100 ∉ heapfree st)) /\
  (ref sp = 0 ->
     exists st', mCentral_UncacheSpan 100 st = (Throw "uncaching full span", st')) /\
  (ref sp <> 0 ->
     exists st', mCentral_UncacheSpan 100 st = (Ret tt, st') /\
       spans st' = <[100 := set_incache false sp]> (spans st) /\
       heapfree st' = heapfree st /\
       (0 < room sp ->
          nonempty st' = 100 :: nonempty st /\ empty st' = unlink 100 (empty st)) /\
       (room sp <= 0 -> nonempty st' = nonempty st /\ empty st' = empty st)).
Proof.
  intros st sp.
  assert (H1 : spans st !! 100 = Some sp) by reflexivity.
  assert (H2 : elemsize sp <> 0) by discriminate.
  assert (H3 : 100 ∉ nonempty st) by (cbn; apply not_elem_of_nil).
  assert (H4 : 100 ∉ heapfree st) by (cbn; apply not_elem_of_nil).
  split; [auto|].
  exact (mCentral_UncacheSpan_files st 100 sp H1 H2 H3 H4).
Defined.

Lemma mCentral_FreeSpan_returns_witness :
  let st := swept in
  let sp := mkSpan 16 1 [131120] 4 3 2 false 16 0 139264 in
  let objs := [131072; 131088] in
  (spans st !! 100 = Some sp /\ incache sp = false /\ isNil objs = false /\
   (100 ∉ heapfree st) /\ (isNil (freelist sp) = false -> 100 ∈ nonempty st)) /\
  let ref' := wrap16 (ref sp - wrap16 2) in
  let sp1 := set_sweepgen (hsweepgen st)
               (set_ref ref' (set_freelist (objs ++ freelist sp) sp)) in
  exists b st',
    mCentral_FreeSpan 100 2 objs false st = (Ret b, st') /\
    (b = true <-> ref' = 0) /\
    (b = false ->
       100 ∈ nonempty st' /\ (100 ∉ heapfree st') /\ (spans st' !! 100 = Some sp1)) /\
    (b = true ->
       100 ∈ heapfree st' /\ (100 ∉ nonempty st') /\ (100 ∉ empty st') /\
       (spans st' !! 100 = Some (set_freelist [] (set_needzero 1 sp1)))).
Proof.
  intros st sp objs.
  assert (H1 : spans st !! 100 = Some sp) by reflexivity.
  assert (H2 : incache sp = false) by reflexivity.
  assert (H3 : isNil objs = false) by reflexivity.
  assert (H4 : 100 ∉ heapfree st) by (cbn; apply not_elem_of_nil).
  assert (H5 : isNil (freelist sp) = false -> 100 ∈ nonempty st)
    by (intros _; cbn; apply elem_of_cons; left; reflexivity).
  split; [auto 10|].
  exact (mCentral_FreeSpan_returns st 100 sp 2 objs H1 H2 H3 H4 H5).
Defined.

End CentralMore.

(** * chan.go: proofs *)

Module ChanFacts.
Import Chan.

(** ** Running the monad *)

Lemma wp_elim {St A} (m : M St A) (Q : outcome A -> St -> Prop) s :
  wp m Q s -> exists o s', m s = (o, s') /\ Q o s'.
Proof.
  unfold wp. destruct (m s) as [o s']. intros HQ.
  exists o, s'. split; [reflexivity | exact HQ].
Qed.

Lemma wp_bind {St A B} (m : M St A) (k : A -> M St B) (Q : outcome B -> St -> Prop) s :
  wp m (fun o s' =>
          match o with
          | Ret a => wp (k a) Q s'
          | Throw e => Q (Throw e) s'
          | Panic e => Q (Panic e) s'
          | OutOfFuel => Q OutOfFuel s'
          end) s ->
  wp (bind m k) Q s.
Proof.
  unfold wp, bind. destruct (m s) as [[a|e|e|] s']; intros HQ; exact HQ.
Qed.

Lemma wp_ret {St A} (a : A) (Q : outcome A -> St -> Prop) s : Q (Ret a) s -> wp (ret a) Q s.
Proof. intros HQ. exact HQ. Qed.

Lemma wp_panic {St A} e (Q : outcome A -> St -> Prop) s : Q (Panic e) s -> wp (panic e) Q s.
Proof. intros HQ. exact HQ. Qed.

Lemma wp_throw {St A} e (Q : outcome A -> St -> Prop) s : Q (Throw e) s -> wp (throw e) Q s.
Proof. intros HQ. exact HQ. Qed.

Lemma wp_get {St} (Q : outcome St -> St -> Prop) s : Q (Ret s) s -> wp get Q s.
Proof. intros HQ. exact HQ. Qed.

Lemma wp_modify {St} (f : St -> St) (Q : outcome unit -> St -> Prop) s :
  Q (Ret tt) (f s) -> wp (modify f) Q s.
Proof. intros HQ. exact HQ. Qed.

Lemma wp_mono {St A} (m : M St A) (Q Q' : outcome A -> St -> Prop) s :
  wp m Q s -> (forall o s', Q o s' -> Q' o s') -> wp m Q' s.
Proof. unfold wp. intros HQ Himp. apply Himp, HQ. Qed.

Lemma wp_chanAt c (Q : outcome hchan -> state -> Prop) st h :
  chans st !! c = Some h -> Q (Ret h) st -> wp (chanAt c) Q st.
Proof. intros Hc HQ. unfold wp, chanAt. rewrite Hc. exact HQ. Qed.

Lemma wp_updChan c f (Q : outcome unit -> state -> Prop) st h :
  chans st !! c = Some h ->
  Q (Ret tt) (set_chans (<[c := f h]> (chans st)) st) -> wp (updChan c f) Q st.
Proof. intros Hc HQ. unfold wp, updChan, bind, chanAt. rewrite Hc. exact HQ. Qed.

Lemma wp_sudogAt x (Q : outcome sudog -> state -> Prop) st s :
  sudogs st !! x = Some s -> Q (Ret s) st -> wp (sudogAt x) Q st.
Proof. intros Hx HQ. unfold wp, sudogAt. rewrite Hx. exact HQ. Qed.

Lemma wp_updSudog x f (Q : outcome unit -> state -> Prop) st s :
  sudogs st !! x = Some s ->
  Q (Ret tt) (set_sudogs (<[x := f s]> (sudogs st)) st) -> wp (updSudog x f) Q st.
Proof. intros Hx HQ. unfold wp, updSudog, bind, sudogAt. rewrite Hx. exact HQ. Qed.

Lemma wp_gAt gp (Q : outcome gobj -> state -> Prop) st x :
  gs st !! gp = Some x -> Q (Ret x) st -> wp (gAt gp) Q st.
Proof. intros Hx HQ. unfold wp, gAt. rewrite Hx. exact HQ. Qed.

Lemma wp_updG gp f (Q : outcome unit -> state -> Prop) st x :
  gs st !! gp = Some x ->
  Q (Ret tt) (set_gs (<[gp := f x]> (gs st)) st) -> wp (updG gp f) Q st.
Proof. intros Hx HQ. unfold wp, updG, bind, gAt. rewrite Hx. exact HQ. Qed.

Lemma wp_cellAt p (Q : outcome Z -> state -> Prop) st v :
  cells st !! p = Some v -> Q (Ret v) st -> wp (cellAt p) Q st.
Proof. intros Hp HQ. unfold wp, cellAt. rewrite Hp. exact HQ. Qed.

Lemma wp_lockChan c (Q : outcome unit -> state -> Prop) st h :
  chans st !! c = Some h -> lock h = false ->
  Q (Ret tt) (set_chans (<[c := set_lock true h]> (chans st)) st) -> wp (lockChan c) Q st.
Proof.
  intros Hc Hl HQ. unfold lockChan. apply wp_bind.
  apply (wp_chanAt _ _ _ _ Hc). rewrite Hl.
  apply (wp_updChan _ _ _ _ _ Hc). exact HQ.
Qed.

Lemma wp_unlockChan c (Q : outcome unit -> state -> Prop) st h :
  chans st !! c = Some h -> lock h = true ->
  Q (Ret tt) (set_chans (<[c := set_lock false h]> (chans st)) st) -> wp (unlockChan c) Q st.
Proof.
  intros Hc Hl HQ. unfold unlockChan. apply wp_bind.
  apply (wp_chanAt _ _ _ _ Hc). rewrite Hl.
  apply (wp_updChan _ _ _ _ _ Hc). exact HQ.
Qed.

Lemma wp_typedmemmove t dst src (Q : outcome unit -> state -> Prop) st :
  Q (Ret tt) (set_mem (memmove dst src (Malloc.tsize t) (mem st)) st) ->
  wp (typedmemmove (Some t) dst src) Q st.
Proof. intros HQ. exact HQ. Qed.

(** Projections and setters, and nothing else, are computed. *)
Ltac sst :=
  cbn [chans sudogs gs mem cells runq curg ticks
       set_chans set_sudogs set_gs set_mem set_cells set_runq
       qcount dataqsiz buf elemsize closed elemtype sendx recvx recvq sendq lock
       set_qcount set_closed set_sendx set_recvx set_lock getq set_q first last
       g selectdone next prev elem releasetime waitlink
       set_next set_prev set_elem set_releasetime
       param waiting set_param set_waiting negb andb orb fst snd].

Ltac sst_in H :=
  cbn [chans sudogs gs mem cells runq curg ticks
       set_chans set_sudogs set_gs set_mem set_cells set_runq
       qcount dataqsiz buf elemsize closed elemtype sendx recvx recvq sendq lock
       set_qcount set_closed set_sendx set_recvx set_lock getq set_q first last
       g selectdone next prev elem releasetime waitlink
       set_next set_prev set_elem set_releasetime
       param waiting set_param set_waiting negb andb orb fst snd] in H.

(** Tests on integers that [lia] settles. *)
Ltac zbool :=
  repeat match goal with
  | |- context [?a >=? ?b] => rewrite (Z.geb_leb a b)
  | |- context [?a >? ?b] => rewrite (Z.gtb_ltb a b)
  | |- context [?a =? ?b] =>
      first [ rewrite (proj2 (Z.eqb_eq a b)) by lia
            | rewrite (proj2 (Z.eqb_neq a b)) by lia ]
  | |- context [?a <? ?b] =>
      first [ rewrite (proj2 (Z.ltb_lt a b)) by lia
            | rewrite (proj2 (Z.ltb_ge a b)) by lia ]
  | |- context [?a <=? ?b] =>
      first [ rewrite (proj2 (Z.leb_le a b)) by lia
            | rewrite (proj2 (Z.leb_gt a b)) by lia ]
  end.

Ltac lookup :=
  sst;
  repeat first [ rewrite lookup_insert_eq
               | rewrite lookup_insert_ne by (first [assumption | congruence | lia]) ];
  first [ reflexivity | eassumption ].

(** One step of a run. *)
Ltac step :=
  cbv beta iota zeta; sst;
  lazymatch goal with
  | |- wp (bind _ _) _ _ => apply wp_bind
  | |- wp (ret _) _ _ => apply wp_ret
  | |- wp (panic _) _ _ => apply wp_panic
  | |- wp (throw _) _ _ => apply wp_throw
  | |- wp get _ _ => apply wp_get
  | |- wp (modify _) _ _ => apply wp_modify
  | |- wp (typedmemmove (Some _) _ _) _ _ => apply wp_typedmemmove
  | |- wp (chanAt _) _ _ => eapply wp_chanAt; [lookup|]
  | |- wp (updChan _ _) _ _ => eapply wp_updChan; [lookup|]
  | |- wp (sudogAt _) _ _ => eapply wp_sudogAt; [lookup|]
  | |- wp (updSudog _ _) _ _ => eapply wp_updSudog; [lookup|]
  | |- wp (gAt _) _ _ => eapply wp_gAt; [lookup|]
  | |- wp (updG _ _) _ _ => eapply wp_updG; [lookup|]
  | |- wp (cellAt _) _ _ => eapply wp_cellAt; [lookup|]
  | |- wp (lockChan _) _ _ => eapply wp_lockChan; [lookup | sst; first [reflexivity | eassumption] |]
  | |- wp (unlockChan _) _ _ => eapply wp_unlockChan; [lookup | sst; first [reflexivity | eassumption] |]
  | |- wp (goready _) _ _ => unfold goready; apply wp_modify
  end.

Ltac steps := repeat step; cbv beta iota zeta; sst.

Ltac go := repeat (progress (steps; zbool)).

(** States in constructor form. *)
Ltac nst :=
  unfold set_chans, set_sudogs, set_gs, set_mem, set_cells, set_runq, set_curg;
  cbn [chans sudogs gs mem cells runq curg ticks];
  rewrite ?insert_insert_eq.

Ltac run :=
  repeat (progress (repeat (step; nst); cbv beta iota zeta; sst; zbool; nst)).

(** ** Element memory *)

Lemma wrap64_below p a :
  0 <= p -> 0 <= a < p -> p <= 2 ^ 64 -> wrap64 (a - p) = a - p + 2 ^ 64.
Proof.
  intros Hp Ha Hp'. unfold wrap64. symmetry.
  apply (Z.mod_unique _ _ (-1)); [left; lia | lia].
Qed.

(** An address of the space is among the [n] bytes at [p] when it is, in
    plain arithmetic. *)
Lemma within p n a :
  0 <= p -> 0 <= n -> p + n <= 2 ^ 64 -> 0 <= a < 2 ^ 64 ->
  (wrap64 (a - p) <? n) = (p <=? a) && (a <? p + n).
Proof.
  intros Hp Hn Hb Ha.
  destruct (Z.leb_spec p a) as [Hle|Hlt].
  - rewrite wrap64_small by lia. cbn [andb].
    destruct (Z.ltb_spec (a - p) n), (Z.ltb_spec a (p + n)); lia || reflexivity.
  - rewrite wrap64_below by lia. cbn [andb].
    destruct (Z.ltb_spec (a - p + 2 ^ 64) n); lia || reflexivity.
Qed.

Lemma load_ext m m' p n :
  0 <= p -> p + n <= 2 ^ 64 ->
  (forall a, p <= a < p + n -> m' a = m a) -> load m' p n = load m p n.
Proof.
  intros Hp Hb Hext. unfold load. apply List.map_ext_in.
  intros i Hi. apply in_seq in Hi.
  rewrite wrap64_small by lia. apply Hext. lia.
Qed.

Lemma load_memmove m dst src n :
  0 <= dst -> dst + n <= 2 ^ 64 -> load (memmove dst src n m) dst n = load m src n.
Proof.
  intros Hd Hb. unfold load. apply List.map_ext_in.
  intros i Hi. apply in_seq in Hi. unfold memmove.
  rewrite (wrap64_small (dst + Z.of_nat i)) by lia.
  replace (dst + Z.of_nat i - dst) with (Z.of_nat i) by lia.
  rewrite (wrap64_small (Z.of_nat i)) by lia.
  destruct (Z.ltb_spec (Z.of_nat i) n) as [_|Hge]; [reflexivity|lia].
Qed.

Lemma load_memmove_other m dst src n p k :
  0 <= dst -> 0 <= n -> dst + n <= 2 ^ 64 -> 0 <= p -> p + k <= 2 ^ 64 ->
  p + k <= dst \/ dst + n <= p ->
  load (memmove dst src n m) p k = load m p k.
Proof.
  intros Hd Hn Hb Hp Hk Hapart. apply load_ext; [exact Hp | exact Hk |].
  intros a Ha. unfold memmove.
  rewrite within by lia.
  destruct (Z.leb_spec dst a), (Z.ltb_spec a (dst + n)); cbn [andb]; lia || reflexivity.
Qed.

Lemma load_memclr_other m q n p k :
  0 <= q -> 0 <= n -> q + n <= 2 ^ 64 -> 0 <= p -> p + k <= 2 ^ 64 ->
  p + k <= q \/ q + n <= p ->
  load (memclr q n m) p k = load m p k.
Proof.
  intros Hd Hn Hb Hp Hk Hapart. apply load_ext; [exact Hp | exact Hk |].
  intros a Ha. unfold memclr.
  rewrite within by lia.
  destruct (Z.leb_spec q a), (Z.ltb_spec a (q + n)); cbn [andb]; lia || reflexivity.
Qed.

Lemma load_memclr m p n :
  0 <= p -> p + n <= 2 ^ 64 ->
  load (memclr p n m) p n = zeros n.
Proof.
  intros Hp Hb. unfold load, zeros. apply List.map_ext_in.
  intros i Hi. apply in_seq in Hi. unfold memclr.
  rewrite (wrap64_small (p + Z.of_nat i)) by lia.
  replace (p + Z.of_nat i - p) with (Z.of_nat i) by lia.
  rewrite (wrap64_small (Z.of_nat i)) by lia.
  destruct (Z.ltb_spec (Z.of_nat i) n) as [_|Hge]; [reflexivity|lia].
Qed.

(** ** Closed and nil channels *)

Lemma state_eq st st' :
  chans st' = chans st -> sudogs st' = sudogs st -> gs st' = gs st ->
  mem st' = mem st -> cells st' = cells st -> runq st' = runq st ->
  curg st' = curg st -> ticks st' = ticks st -> st' = st.
Proof. destruct st, st'. cbn. intros. subst. reflexivity. Qed.

Lemma relock c (m : gmap Z hchan) h :
  m !! c = Some h -> lock h = false ->
  <[c := set_lock false (set_lock true h)]> (<[c := set_lock true h]> m) = m.
Proof.
  intros Hc Hl. rewrite insert_insert_eq, insert_id; [reflexivity|].
  destruct h; cbn in *; subst; exact Hc.
Qed.

Section Closed.
Context {SG : Sudogs}.

(** A send on a closed channel panics, whether it may block or not; the
    lock is taken and given back, and the state is as it was. *)
Lemma chansend_closed c ep block st h :
  c <> 0 -> chans st !! c = Some h -> closed h <> 0 -> lock h = false ->
  chansend c ep block st = (Panic "send on closed channel", st).
Proof.
  intros Hc0 Hc Hcl Hl.
  enough (Hwp : wp (chansend c ep block)
            (fun o st' => o = Panic "send on closed channel" /\ st' = st) st).
  { apply wp_elim in Hwp as (o & st' & Hrun & -> & ->). exact Hrun. }
  unfold chansend. zbool. step. step. zbool.
  rewrite andb_false_r. cbn [andb].
  steps. zbool. steps.
  split; [reflexivity|]. apply state_eq; sst; try reflexivity.
  apply relock; assumption.
Qed.

(** A receive from a closed channel with nothing buffered does not
    block: it returns [(true, false)], clears the element at [ep], and
    leaves the channel as it was. *)
Lemma chanrecv_closed c ep block st h :
  c <> 0 -> chans st !! c = Some h -> closed h <> 0 -> lock h = false ->
  qcount h = 0 -> 0 <= dataqsiz h -> 0 < ep -> ep + elemsize h <= 2 ^ 64 ->
  exists st',
    chanrecv c ep block st = (Ret (Done (true, false)), st') /\
    load (mem st') ep (elemsize h) = zeros (elemsize h) /\
    chans st' = chans st /\ sudogs st' = sudogs st /\ gs st' = gs st /\
    runq st' = runq st.
Proof.
  intros Hc0 Hc Hcl Hl Hq Hd Hep Hb.
  enough (Hwp : wp (chanrecv c ep block)
            (fun o st' => o = Ret (Done (true, false)) /\
               load (mem st') ep (elemsize h) = zeros (elemsize h) /\
               chans st' = chans st /\ sudogs st' = sudogs st /\ gs st' = gs st /\
               runq st' = runq st) st).
  { apply wp_elim in Hwp as (o & st' & Hrun & -> & Hrest).
    exists st'. split; [exact Hrun | exact Hrest]. }
  unfold chanrecv. zbool. step. step. zbool.
  rewrite andb_false_r.
  steps.
  destruct (Z.eqb_spec (dataqsiz h) 0) as [Hd0|Hd0].
  - zbool. unfold recvclosed. steps. zbool. steps.
    split; [reflexivity|]. split; [apply load_memclr; lia|].
    rewrite relock by assumption. repeat split; reflexivity.
  - unfold recvAsync. steps. zbool. unfold recvclosed. steps. zbool. steps.
    split; [reflexivity|]. split; [apply load_memclr; lia|].
    rewrite relock by assumption. repeat split; reflexivity.
Qed.

(** X22: On a closed channel with nothing buffered, a send panics with "send
    on closed channel" and leaves the state as it was, and a receive
    returns [(true, false)] at once with the element at [ep] zeroed and
    the channel, the sudogs and the goroutines untouched; neither
    depends on [block]. *)
Theorem closed_channel c ep block block' st h :
  c <> 0 -> chans st !! c = Some h -> closed h <> 0 -> lock h = false ->
  qcount h = 0 -> 0 <= dataqsiz h -> 0 < ep -> ep + elemsize h <= 2 ^ 64 ->
  chansend c ep block st = (Panic "send on closed channel", st) /\
  exists st',
    chanrecv c ep block' st = (Ret (Done (true, false)), st') /\
    load (mem st') ep (elemsize h) = zeros (elemsize h) /\
    chans st' = chans st /\ sudogs st' = sudogs st /\ gs st' = gs st /\
    runq st' = runq st.
Proof.
  intros Hc0 Hc Hcl Hl Hq Hd Hep Hb. split.
  - apply (chansend_closed c ep block st h); assumption.
  - apply (chanrecv_closed c ep block' st h); assumption.
Qed.

End Closed.

Lemma closed_channel_witness :
  let h := exBuffered 0 2 2 1 in
  let st := exState h ∅ ∅ in
  (100 <> 0 /\ chans st !! 100 = Some h /\ closed h <> 0 /\ lock h = false /\
   qcount h = 0 /\ 0 <= dataqsiz h /\ 0 < 2000 /\ 2000 + elemsize h <= 2 ^ 64) /\
  chansend (SG := oneSudog 500) 100 2000 true st
    = (Panic "send on closed channel", st) /\
  exists st',
    chanrecv (SG := oneSudog 500) 100 2000 false st = (Ret (Done (true, false)), st') /\
    load (mem st') 2000 (elemsize h) = zeros (elemsize h) /\
    chans st' = chans st /\ sudogs st' = sudogs st /\ gs st' = gs st /\
    runq st' = runq st.
Proof.
  intros h st.
  assert (H1 : 100 <> 0) by discriminate.
  assert (H2 : chans st !! 100 = Some h) by reflexivity.
  assert (H3 : closed h <> 0) by discriminate.
  assert (H4 : lock h = false) by reflexivity.
  assert (H5 : qcount h = 0) by reflexivity.
  assert (H6 : 0 <= dataqsiz h) by discriminate.
  assert (H7 : 0 < 2000) by reflexivity.
  assert (H8 : 2000 + elemsize h <= 2 ^ 64) by discriminate.
  split; [auto 10|].
  exact (closed_channel (SG := oneSudog 500) 100 2000 true false st h
           H1 H2 H3 H4 H5 H6 H7 H8).
Defined.

(** ** The buffer *)

Lemma buffered_spec h :
  buffered h = true <->
  (exists t, elemtype h = Some t /\ Malloc.tsize t = elemsize h) /\
  0 <= elemsize h /\ 0 < dataqsiz h < 2 ^ 64 /\ 0 <= qcount h <= dataqsiz h /\
  0 <= recvx h < dataqsiz h /\ sendx h = (recvx h + qcount h) mod dataqsiz h /\
  0 <= buf h < 2 ^ 64 /\ buf h + dataqsiz h * elemsize h <= 2 ^ 64.
Proof.
  unfold buffered. rewrite !andb_true_iff.
  rewrite !Z.leb_le, !Z.ltb_lt, Z.eqb_eq.
  split.
  - intros [[[[[[[[[[[Ht ?] ?] ?] ?] ?] ?] ?] ?] ?] ?] ?].
    split; [|lia].
    destruct (elemtype h) as [t|]; [|discriminate].
    exists t. split; [reflexivity|]. apply Z.eqb_eq. exact Ht.
  - intros [(t & Ht & Hs) ?]. rewrite Ht.
    repeat split; lia.
Qed.

Lemma chanbuf_eq h i :
  0 <= elemsize h -> 0 <= buf h < 2 ^ 64 -> buf h + dataqsiz h * elemsize h <= 2 ^ 64 ->
  0 <= i < dataqsiz h -> chanbuf h i = buf h + i * elemsize h.
Proof.
  intros He Hb Hend Hi. unfold chanbuf, Malloc.add.
  assert (Hle : i * elemsize h <= dataqsiz h * elemsize h - elemsize h) by nia.
  assert (Hes : elemsize h = 0 \/ 0 < elemsize h) by lia.
  rewrite (wrap64_small (i * elemsize h)) by nia.
  apply wrap64_small. nia.
Qed.

Lemma next_index d x :
  0 <= x < d -> (if x + 1 =? d then 0 else x + 1) = (x + 1) mod d.
Proof.
  intros Hx. destruct (Z.eqb_spec (x + 1) d) as [->|Hne].
  - symmetry. apply Z.mod_same. lia.
  - symmetry. apply Z.mod_small. lia.
Qed.

Lemma mod_apart d r i j :
  0 < d -> 0 <= i < j -> j < d -> (r + i) mod d <> (r + j) mod d.
Proof.
  intros Hd Hi Hj Heq.
  assert (Hz : (j - i) mod d = 0).
  { replace (j - i) with ((r + j) - (r + i)) by lia.
    rewrite Zminus_mod, Heq, Z.sub_diag. apply Z.mod_0_l. lia. }
  rewrite Z.mod_small in Hz by lia. lia.
Qed.

Lemma wp_dequeue_empty c d (Q : outcome Z -> state -> Prop) st h :
  chans st !! c = Some h -> first (getq d h) = 0 ->
  Q (Ret 0) st -> wp (dequeue c d) Q st.
Proof.
  intros Hc Hf HQ. unfold dequeue. step. step. cbn [dequeueLoop].
  step. step. rewrite Hf. cbn [Z.eqb]. step. exact HQ.
Qed.

Section Buffer.
Context {SG : Sudogs}.

(** X23: A send on a buffered channel that is open and not full succeeds
    without blocking, and the element at [ep] becomes the newest one in
    the buffer; the elements already there stay as they are. *)
Theorem chansend_buffered c ep block st h :
  c <> 0 -> chans st !! c = Some h -> buffered h = true ->
  lock h = false -> closed h = 0 -> qcount h < dataqsiz h ->
  first (recvq h) = 0 ->
  exists st',
    chansend c ep block st = (Ret (Done true), st') /\
    chans st' = <[c := afterSend h]> (chans st) /\
    buffered (afterSend h) = true /\
    contents st' (afterSend h) = contents st h ++ [load (mem st) ep (elemsize h)] /\
    sudogs st' = sudogs st /\ gs st' = gs st /\ runq st' = runq st.
Proof.
  intros Hc0 Hc Hbuf Hl Hcl Hq Hrq.
  pose proof (proj1 (buffered_spec h) Hbuf)
    as ((t & Ht & Hts) & Hes & Hd & Hqc & Hrx & Hsx & Hb & Hend).
  assert (Hsxr : 0 <= sendx h < dataqsiz h)
    by (rewrite Hsx; apply Z.mod_pos_bound; lia).
  enough (Hwp : wp (chansend c ep block)
            (fun o st' => o = Ret (Done true) /\
               chans st' = <[c := afterSend h]> (chans st) /\
               mem st' = memmove (chanbuf h (sendx h)) ep (elemsize h) (mem st) /\
               sudogs st' = sudogs st /\ gs st' = gs st /\ runq st' = runq st) st).
  { apply wp_elim in Hwp as (o & st' & Hrun & -> & Hch & Hmem & Hrest).
    exists st'. split; [exact Hrun|]. split; [exact Hch|].
    assert (Hbuf' : buffered (afterSend h) = true).
    { apply buffered_spec. unfold afterSend. sst.
      split; [exists t; split; assumption|].
      repeat split; try lia; try (apply Z.mod_pos_bound; lia).
      rewrite Hsx, Z.add_mod_idemp_l by lia. f_equal. lia. }
    split; [exact Hbuf'|]. split; [|exact Hrest].
    unfold contents, afterSend. sst. rewrite Hmem.
    change (chanbuf (set_qcount ?a (set_sendx ?b h))) with (chanbuf h).
    replace (Z.to_nat (qcount h + 1)) with (S (Z.to_nat (qcount h))) by lia.
    rewrite seq_S, List.map_app. cbn [List.map Nat.add]. f_equal.
    - apply List.map_ext_in. intros i Hi. apply in_seq in Hi.
      assert (Ha : 0 <= (recvx h + Z.of_nat i) mod dataqsiz h < dataqsiz h)
        by (apply Z.mod_pos_bound; lia).
      assert (Hne : (recvx h + Z.of_nat i) mod dataqsiz h <> sendx h).
      { rewrite Hsx. apply mod_apart; lia. }
      rewrite !chanbuf_eq by lia.
      apply load_memmove_other; nia.
    - f_equal. rewrite Z2Nat.id by lia. rewrite <- Hsx.
      rewrite chanbuf_eq by lia.
      apply load_memmove; nia. }
  unfold chansend. zbool. step. step. zbool.
  cbn [andb orb]. rewrite andb_false_r.
  steps. zbool. cbn [negb]. unfold sendAsync. steps. zbool.
  rewrite Ht. steps.
  rewrite (wrap64_small (sendx h + 1)) by lia.
  destruct (Z.eqb_spec (sendx h + 1) (dataqsiz h)) as [Hwrap|Hwrap].
  - steps. eapply wp_dequeue_empty; [lookup | sst; exact Hrq |].
    steps. zbool. steps.
    split; [reflexivity|]. split; [|rewrite Hts; repeat split; reflexivity].
    rewrite !insert_insert_eq. f_equal. unfold afterSend.
    rewrite wrap64_small by lia. rewrite <- next_index by lia.
    rewrite (proj2 (Z.eqb_eq _ _) Hwrap).
    destruct h; cbn in *; subst; reflexivity.
  - steps. eapply wp_dequeue_empty; [lookup | sst; exact Hrq |].
    steps. zbool. steps.
    split; [reflexivity|]. split; [|rewrite Hts; repeat split; reflexivity].
    rewrite !insert_insert_eq. f_equal. unfold afterSend.
    rewrite wrap64_small by lia. rewrite <- next_index by lia.
    rewrite (proj2 (Z.eqb_neq _ _) Hwrap).
    destruct h; cbn in *; subst; reflexivity.
Qed.

(** X24: A receive from a buffered channel that holds an element succeeds
    without blocking, open or closed: the oldest element is copied to
    [ep] and leaves the buffer, the others stay in their order. *)
Theorem chanrecv_buffered c ep block st h :
  c <> 0 -> chans st !! c = Some h -> buffered h = true ->
  apart h ep = true -> ep <> 0 ->
  lock h = false -> 0 < qcount h -> first (sendq h) = 0 ->
  exists st',
    chanrecv c ep block st = (Ret (Done (true, true)), st') /\
    chans st' = <[c := afterRecv h]> (chans st) /\
    buffered (afterRecv h) = true /\
    load (mem st') ep (elemsize h) :: contents st' (afterRecv h) = contents st h /\
    sudogs st' = sudogs st /\ gs st' = gs st /\ runq st' = runq st.
Proof.
  intros Hc0 Hc Hbuf Hap Hep Hl Hq Hsq.
  pose proof (proj1 (buffered_spec h) Hbuf)
    as ((t & Ht & Hts) & Hes & Hd & Hqc & Hrx & Hsx & Hb & Hend).
  unfold apart in Hap. rewrite !andb_true_iff, orb_true_iff in Hap.
  rewrite !Z.leb_le in Hap. destruct Hap as [[Hep0 Hepb] Hout].
  enough (Hwp : wp (chanrecv c ep block)
            (fun o st' => o = Ret (Done (true, true)) /\
               chans st' = <[c := afterRecv h]> (chans st) /\
               mem st' = memclr (chanbuf h (recvx h)) (elemsize h)
                           (memmove ep (chanbuf h (recvx h)) (elemsize h) (mem st)) /\
               sudogs st' = sudogs st /\ gs st' = gs st /\ runq st' = runq st) st).
  { apply wp_elim in Hwp as (o & st' & Hrun & -> & Hch & Hmem & Hrest).
    exists st'. split; [exact Hrun|]. split; [exact Hch|].
    assert (Hbuf' : buffered (afterRecv h) = true).
    { apply buffered_spec. unfold afterRecv. sst.
      split; [exists t; split; assumption|].
      repeat split; try lia; try (apply Z.mod_pos_bound; lia).
      rewrite Hsx, Z.add_mod_idemp_l by lia. f_equal. lia. }
    split; [exact Hbuf'|]. split; [|exact Hrest].
    unfold contents, afterRecv. sst. rewrite Hmem.
    change (chanbuf (set_qcount ?a (set_recvx ?b h))) with (chanbuf h).
    replace (Z.to_nat (qcount h)) with (S (Z.to_nat (qcount h - 1))) by lia.
    cbn [seq List.map]. f_equal.
    - rewrite Z.add_0_r, (Z.mod_small (recvx h)) by lia.
      rewrite chanbuf_eq by lia.
      rewrite load_memclr_other by nia.
      apply load_memmove; lia.
    - rewrite <- seq_shift, List.map_map.
      apply List.map_ext_in. intros i Hi. apply in_seq in Hi.
      rewrite Z.add_mod_idemp_l by lia.
      replace (recvx h + 1 + Z.of_nat i) with (recvx h + Z.of_nat (S i)) by lia.
      assert (Ha : 0 <= (recvx h + Z.of_nat (S i)) mod dataqsiz h < dataqsiz h)
        by (apply Z.mod_pos_bound; lia).
      assert (Hne : (recvx h + Z.of_nat (S i)) mod dataqsiz h <> recvx h).
      { rewrite <- (Z.mod_small (recvx h) (dataqsiz h)) at 2 by lia.
        rewrite <- (Z.add_0_r (recvx h)) at 2.
        intros Heq. symmetry in Heq. revert Heq. apply mod_apart; lia. }
      rewrite !chanbuf_eq by lia.
      rewrite load_memclr_other by nia.
      apply load_memmove_other; nia. }
  unfold chanrecv. zbool. step. step. zbool.
  cbn [andb orb]. rewrite andb_false_r. cbn [andb].
  steps. zbool. unfold recvAsync. steps. zbool.
  rewrite Ht. steps.
  rewrite (wrap64_small (recvx h + 1)) by lia.
  destruct (Z.eqb_spec (recvx h + 1) (dataqsiz h)) as [Hwrap|Hwrap].
  - steps. eapply wp_dequeue_empty; [lookup | sst; exact Hsq |].
    steps. zbool. steps.
    split; [reflexivity|]. split; [|rewrite Hts; repeat split; reflexivity].
    rewrite !insert_insert_eq. f_equal. unfold afterRecv.
    rewrite wrap64_small by lia. rewrite <- next_index by lia.
    rewrite (proj2 (Z.eqb_eq _ _) Hwrap).
    destruct h; cbn in *; subst; reflexivity.
  - steps. eapply wp_dequeue_empty; [lookup | sst; exact Hsq |].
    steps. zbool. steps.
    split; [reflexivity|]. split; [|rewrite Hts; repeat split; reflexivity].
    rewrite !insert_insert_eq. f_equal. unfold afterRecv.
    rewrite wrap64_small by lia. rewrite <- next_index by lia.
    rewrite (proj2 (Z.eqb_neq _ _) Hwrap).
    destruct h; cbn in *; subst; reflexivity.
Qed.

End Buffer.

Lemma chansend_buffered_witness :
  let h := exBuffered 1 2 1 0 in
  let st := exState h ∅ ∅ in
  (100 <> 0 /\ chans st !! 100 = Some h /\ buffered h = true /\ lock h = false /\
   closed h = 0 /\ qcount h < dataqsiz h /\ first (recvq h) = 0) /\
  exists st',
    chansend (SG := oneSudog 500) 100 2000 false st = (Ret (Done true), st') /\
    chans st' = <[100 := afterSend h]> (chans st) /\
    buffered (afterSend h) = true /\
    contents st' (afterSend h) = contents st h ++ [load (mem st) 2000 (elemsize h)] /\
    sudogs st' = sudogs st /\ gs st' = gs st /\ runq st' = runq st.
Proof.
  intros h st.
  assert (H1 : 100 <> 0) by discriminate.
  assert (H2 : chans st !! 100 = Some h) by reflexivity.
  assert (H3 : buffered h = true) by reflexivity.
  assert (H4 : lock h = false) by reflexivity.
  assert (H5 : closed h = 0) by reflexivity.
  assert (H6 : qcount h < dataqsiz h) by reflexivity.
  assert (H7 : first (recvq h) = 0) by reflexivity.
  split; [auto 10|].
  exact (chansend_buffered (SG := oneSudog 500) 100 2000 false st h
           H1 H2 H3 H4 H5 H6 H7).
Defined.

Lemma chanrecv_buffered_witness :
  let h := exBuffered 2 0 1 1 in
  let st := exState h ∅ ∅ in
  (100 <> 0 /\ chans st !! 100 = Some h /\ buffered h = true /\
   apart h 2000 = true /\ 2000 <> 0 /\ lock h = false /\ 0 < qcount h /\
   first (sendq h) = 0) /\
  exists st',
    chanrecv (SG := oneSudog 500) 100 2000 true st = (Ret (Done (true, true)), st') /\
    chans st' = <[100 := afterRecv h]> (chans st) /\
    buffered (afterRecv h) = true /\
    load (mem st') 2000 (elemsize h) :: contents st' (afterRecv h) = contents st h /\
    sudogs st' = sudogs st /\ gs st' = gs st /\ runq st' = runq st.
Proof.
  intros h st.
  assert (H1 : 100 <> 0) by discriminate.
  assert (H2 : chans st !! 100 = Some h) by reflexivity.
  assert (H3 : buffered h = true) by reflexivity.
  assert (H4 : apart h 2000 = true) by reflexivity.
  assert (H5 : 2000 <> 0) by discriminate.
  assert (H6 : lock h = false) by reflexivity.
  assert (H7 : 0 < qcount h) by reflexivity.
  assert (H8 : first (sendq h) = 0) by reflexivity.
  split; [auto 10|].
  exact (chanrecv_buffered (SG := oneSudog 500) 100 2000 true st h
           H1 H2 H3 H4 H5 H6 H7 H8).
Defined.

(** ** Non-blocking operations *)

(** The outcome is not a park. *)
Lemma bind_awake {St A B} (m : M St A) (k : A -> M St (res B)) s :
  (forall a s', wp (k a) (fun o _ => forall why, o <> Ret (Parked why)) s') ->
  wp (bind m k) (fun o _ => forall why, o <> Ret (Parked why)) s.
Proof.
  intros Hk. unfold wp, bind. destruct (m s) as [[a|e|e|] s']; cbn [fst snd].
  - apply Hk.
  - intros why. discriminate.
  - intros why. discriminate.
  - intros why. discriminate.
Qed.

Ltac awake :=
  repeat (cbv beta; cbn [negb];
    match goal with
    | |- wp (bind _ _) _ _ => apply bind_awake; intros
    | |- wp (ret (Done _)) _ _ => intros ?; discriminate
    | |- wp (panic _) _ _ => intros ?; discriminate
    | |- wp (throw _) _ _ => intros ?; discriminate
    | |- wp (if ?b then _ else _) _ _ => destruct b
    end).

Section Nonblocking.
Context {SG : Sudogs}.

Lemma sendAsync_awake c ep st :
  wp (sendAsync c ep false) (fun o _ => forall why, o <> Ret (Parked why)) st.
Proof. unfold sendAsync. awake. Qed.

Lemma chansend_awake c ep st :
  wp (chansend c ep false) (fun o _ => forall why, o <> Ret (Parked why)) st.
Proof. unfold chansend. awake. apply sendAsync_awake. Qed.

Lemma recvAsync_awake c ep st :
  wp (recvAsync c ep false) (fun o _ => forall why, o <> Ret (Parked why)) st.
Proof. unfold recvAsync. awake. Qed.

Lemma chanrecv_awake c ep st :
  wp (chanrecv c ep false) (fun o _ => forall why, o <> Ret (Parked why)) st.
Proof. unfold chanrecv. awake. apply recvAsync_awake. Qed.

(** X25: The calls a [select] with a [default] case compiles to never put the
    goroutine to sleep, whatever the channel ([nil] included) and
    whatever the state. *)
Theorem select_default_never_parks c ep st why st' :
  selectnbsend c ep st <> (Ret (Parked why), st') /\
  selectnbrecv ep c st <> (Ret (Parked why), st') /\
  selectnbrecv2 ep c st <> (Ret (Parked why), st').
Proof.
  pose proof (chansend_awake c ep st) as Hs.
  pose proof (chanrecv_awake c ep st) as Hr.
  unfold wp in Hs, Hr.
  split; [|split].
  - unfold selectnbsend. intros Heq. rewrite Heq in Hs. exact (Hs why eq_refl).
  - unfold selectnbrecv, bind. intros Heq.
    destruct (chanrecv c ep false st) as [[[[sel rcv]|why']|e|e|] s1];
      cbn [fst snd] in Hr; try discriminate.
    exact (Hr why' eq_refl).
  - unfold selectnbrecv2. intros Heq. rewrite Heq in Hr. exact (Hr why eq_refl).
Qed.

End Nonblocking.

(** ** The wait queues *)

Lemma isQueue_spec sd q l :
  isQueue sd q l = true <->
  first q = hd 0 l /\ last q = List.last l 0 /\ linked sd l = true /\ NoDup l.
Proof.
  unfold isQueue. rewrite !andb_true_iff, !Z.eqb_eq, bool_decide_eq_true. tauto.
Qed.

Lemma linked_ext sd sd' l :
  (forall y, y ∈ l -> next <$> (sd' !! y) = next <$> (sd !! y)) ->
  linked sd' l = linked sd l.
Proof.
  induction l as [|x l IH]; intros Hext; [reflexivity|].
  cbn [linked]. rewrite IH by (intros y Hy; apply Hext; right; exact Hy).
  specialize (Hext x (list_elem_of_here x l)).
  destruct (sd' !! x) as [s'|], (sd !! x) as [s|]; cbn in Hext; try discriminate.
  - injection Hext as ->. reflexivity.
  - reflexivity.
Qed.

Lemma linked_dom sd l y : linked sd l = true -> y ∈ l -> is_Some (sd !! y).
Proof.
  induction l as [|x l IH]; intros Hl Hy; [inversion Hy|].
  cbn [linked] in Hl. rewrite !andb_true_iff in Hl. destruct Hl as [[_ Hx] Hl].
  apply elem_of_cons in Hy as [->|Hy]; [|exact (IH Hl Hy)].
  destruct (sd !! x); [eexists; reflexivity | discriminate].
Qed.

Lemma linked_nonzero sd l y : linked sd l = true -> y ∈ l -> y <> 0.
Proof.
  induction l as [|x l IH]; intros Hl Hy; [inversion Hy|].
  cbn [linked] in Hl. rewrite !andb_true_iff in Hl. destruct Hl as [[Hx _] Hl].
  apply elem_of_cons in Hy as [->|Hy]; [|exact (IH Hl Hy)].
  apply negb_true_iff, Z.eqb_neq in Hx. exact Hx.
Qed.

Lemma length_le_size (sd : gmap Z sudog) l :
  NoDup l -> (forall y, y ∈ l -> is_Some (sd !! y)) -> (length l <= size sd)%nat.
Proof.
  intros Hnd Hdom.
  rewrite <- (size_list_to_set (C := gset Z) l Hnd), <- size_dom.
  apply subseteq_size. intros y Hy. apply elem_of_list_to_set in Hy.
  apply elem_of_dom. apply Hdom. exact Hy.
Qed.

Lemma sameWaiters_refl sd : sameWaiters sd sd.
Proof. intros y. reflexivity. Qed.

Lemma sameWaiters_trans sd1 sd2 sd3 :
  sameWaiters sd1 sd2 -> sameWaiters sd2 sd3 -> sameWaiters sd1 sd3.
Proof. intros H12 H23 y. rewrite H23. apply H12. Qed.

Lemma sameWaiters_insert sd x s s' :
  sd !! x = Some s -> payload s' = payload s -> sameWaiters sd (<[x := s']> sd).
Proof.
  intros Hx Hp y. destruct (decide (y = x)) as [->|Hne].
  - rewrite lookup_insert_eq, Hx. cbn. f_equal. exact Hp.
  - rewrite lookup_insert_ne by congruence. reflexivity.
Qed.

Lemma fired_same st st' y :
  sameWaiters (sudogs st) (sudogs st') -> cells st' = cells st ->
  fired st' y = fired st y.
Proof.
  intros Hsw Hcells. unfold fired. specialize (Hsw y). rewrite Hcells.
  destruct (sudogs st' !! y) as [s'|], (sudogs st !! y) as [s|]; cbn in Hsw;
    try discriminate; [|reflexivity].
  injection Hsw as _ Hsel _ _ _. rewrite Hsel. reflexivity.
Qed.

Lemma waiting_on_same st st' y :
  sameWaiters (sudogs st) (sudogs st') -> cells st' = cells st ->
  waiting_on st' y = waiting_on st y.
Proof.
  intros Hsw Hcells. unfold waiting_on. specialize (Hsw y). rewrite Hcells.
  destruct (sudogs st' !! y) as [s'|], (sudogs st !! y) as [s|]; cbn in Hsw;
    try discriminate; [|reflexivity].
  injection Hsw as _ Hsel _ _ _. rewrite Hsel. reflexivity.
Qed.

Lemma claim_same st st' y :
  sameWaiters (sudogs st) (sudogs st') -> cells st' = cells st ->
  claim st' y = claim st y.
Proof.
  intros Hsw Hcells. unfold claim. specialize (Hsw y). rewrite Hcells.
  destruct (sudogs st' !! y) as [s'|], (sudogs st !! y) as [s|]; cbn in Hsw;
    try discriminate; [|reflexivity].
  injection Hsw as _ Hsel _ _ _. rewrite Hsel. reflexivity.
Qed.

Lemma getq_set_q d q h : getq d (set_q d q h) = q.
Proof. destruct d; reflexivity. Qed.

Lemma set_q_set_q d q q' h : set_q d q (set_q d q' h) = set_q d q h.
Proof. destruct d; reflexivity. Qed.

Lemma isQueue_nil sd : isQueue sd (mkWaitq 0 0) [] = true.
Proof. apply isQueue_spec. repeat split. constructor. Qed.

(** One round of [dequeue] up to its test of [selectdone]: the head of
    the queue is unlinked. *)
Lemma unlink_spec c d st h y l sy :
  chans st !! c = Some h -> isQueue (sudogs st) (getq d h) (y :: l) = true ->
  sudogs st !! y = Some sy ->
  wp (if next sy =? 0
      then
        updChan c (fun h => set_q d (mkWaitq 0 (last (getq d h))) h);;
        updChan c (fun h => set_q d (mkWaitq (first (getq d h)) 0) h)
      else
        updSudog (next sy) (set_prev 0);;
        updChan c (fun h => set_q d (mkWaitq (next sy) (last (getq d h))) h);;
        updSudog y (set_next 0))
     (fun o st' => o = Ret tt /\ requeued c d h (y :: l) l st st' /\
                   cells st' = cells st) st.
Proof.
  intros Hc Hq Hy.
  apply isQueue_spec in Hq as (Hfirst & Hlast & Hlinked & Hnd).
  pose proof Hlinked as Hl0. cbn [linked] in Hl0. rewrite Hy in Hl0.
  rewrite !andb_true_iff in Hl0. destruct Hl0 as [[Hy0 Hnext] Hl].
  apply Z.eqb_eq in Hnext. apply NoDup_cons in Hnd as [Hyl Hnd].
  destruct l as [|z l].
  - cbn [hd] in Hnext. rewrite Hnext. cbn [Z.eqb]. steps.
    split; [reflexivity|]. split; [|reflexivity].
    split; [|split; [apply sameWaiters_refl|repeat split; reflexivity]].
    exists (mkWaitq 0 0). split; [|apply isQueue_nil].
    rewrite insert_insert_eq, !getq_set_q, set_q_set_q. reflexivity.
  - cbn [hd] in Hnext. rewrite Hnext.
    assert (Hz0 : z <> 0) by (apply (linked_nonzero _ _ _ Hl); left).
    assert (Hzy : z <> y) by (intros ->; apply Hyl; left).
    destruct (linked_dom _ _ z Hl (list_elem_of_here z l)) as [sz Hz].
    zbool. steps.
    split; [reflexivity|]. split; [|reflexivity].
    split; [|split; [|split; [|repeat split; reflexivity]]].
    + exists (mkWaitq z (last (getq d h))). split; [reflexivity|].
      apply isQueue_spec. split; [reflexivity|]. split; [exact Hlast|].
      split; [|exact Hnd].
      sst. rewrite <- Hl. apply linked_ext. intros w Hw.
      assert (Hwy : w <> y) by (intros ->; exact (Hyl Hw)).
      rewrite lookup_insert_ne by congruence.
      destruct (decide (w = z)) as [->|Hwz].
      * rewrite lookup_insert_eq, Hz. reflexivity.
      * rewrite lookup_insert_ne by congruence. reflexivity.
    + sst. eapply sameWaiters_trans.
      * apply (sameWaiters_insert _ z sz (set_prev 0 sz) Hz). reflexivity.
      * apply (sameWaiters_insert _ y sy (set_next 0 sy)); [|reflexivity].
        rewrite lookup_insert_ne by congruence. exact Hy.
    + sst. intros w Hw. apply not_elem_of_cons in Hw as [Hwy Hw].
      apply not_elem_of_cons in Hw as [Hwz Hw].
      rewrite !lookup_insert_ne by congruence. reflexivity.
Qed.

Lemma forallb_same {A} (f f' : A -> bool) l :
  (forall a, f' a = f a) -> forallb f' l = forallb f l.
Proof.
  intros Hext. induction l as [|a l IH]; [reflexivity|].
  cbn [forallb]. rewrite Hext, IH. reflexivity.
Qed.

Lemma requeued_trans c d h q1 L1 L2 L r1 r2 st st1 st2 :
  chans st1 = <[c := set_q d q1 h]> (chans st) ->
  requeued c d h L1 r1 st st1 -> requeued c d (set_q d q1 h) L2 r2 st1 st2 ->
  (forall y, y ∉ L -> (y ∉ L1) /\ (y ∉ L2)) ->
  requeued c d h L r2 st st2.
Proof.
  intros Hch1 (_ & Hsw1 & Hfr1 & Hg1 & Hm1 & Hr1 & Hc1 & Ht1)
         ((q' & Hch & Hq') & Hsw & Hfr & Hg & Hm & Hr & Hcu & Ht) Hsub.
  split; [|split; [|split]].
  - exists q'. split; [|exact Hq'].
    rewrite Hch, Hch1, insert_insert_eq, set_q_set_q. reflexivity.
  - eapply sameWaiters_trans; eassumption.
  - intros w Hw. destruct (Hsub w Hw) as [Hw1 Hw2].
    rewrite Hfr, Hfr1; [reflexivity | exact Hw1 | exact Hw2].
  - repeat split; congruence.
Qed.

Lemma dequeueLoop_spec c d x rest : forall skipped fuel st h,
  (length skipped < fuel)%nat ->
  chans st !! c = Some h ->
  isQueue (sudogs st) (getq d h) (skipped ++ x :: rest) = true ->
  forallb (fired st) skipped = true -> waiting_on st x = true ->
  wp (dequeueLoop fuel c d)
     (fun o st' => o = Ret x /\
        requeued c d h (skipped ++ x :: rest) rest st st' /\
        cells st' = claim st x) st.
Proof.
  induction skipped as [|y sk IH]; intros fuel st h Hfuel Hc Hq Hfired Hx;
    (destruct fuel as [|fuel]; [cbn in Hfuel; lia|]).
  - cbn [app] in *. cbn [dequeueLoop].
    pose proof (proj1 (isQueue_spec _ _ _) Hq) as (Hfirst & _ & Hlinked & _).
    cbn [hd] in Hfirst.
    assert (Hx0 : x <> 0) by (apply (linked_nonzero _ _ _ Hlinked); left).
    unfold waiting_on in Hx.
    destruct (sudogs st !! x) as [sx|] eqn:Hsx; [|discriminate].
    step. step. rewrite Hfirst. zbool. step. step. step.
    eapply wp_mono; [apply (unlink_spec c d st h x rest sx Hc Hq Hsx)|].
    intros o st1 (-> & Hre & Hcells). cbv beta iota.
    unfold claim. rewrite Hsx.
    destruct (Z.eqb_spec (selectdone sx) 0) as [Hsel|Hsel]; cbn [negb].
    + step. split; [reflexivity|]. split; [exact Hre | exact Hcells].
    + cbn [orb] in Hx.
      destruct (cells st !! selectdone sx) as [v|] eqn:Hv; [|discriminate].
      apply Z.eqb_eq in Hx. subst v.
      step. eapply wp_cellAt; [rewrite Hcells; exact Hv|].
      cbv beta iota. cbn [Z.eqb negb]. steps.
      split; [reflexivity|]. split; [|rewrite Hcells; reflexivity].
      destruct Hre as (Hch & Hrest). split; [exact Hch | exact Hrest].
  - cbn [app] in *. cbn [dequeueLoop].
    pose proof (proj1 (isQueue_spec _ _ _) Hq) as (Hfirst & _ & Hlinked & _).
    cbn [hd] in Hfirst.
    assert (Hy0 : y <> 0) by (apply (linked_nonzero _ _ _ Hlinked); left).
    cbn [forallb] in Hfired. apply andb_true_iff in Hfired as [Hy Hfired].
    unfold fired in Hy.
    destruct (sudogs st !! y) as [sy|] eqn:Hsy; [|discriminate].
    apply andb_true_iff in Hy as [Hsel Hv].
    destruct (cells st !! selectdone sy) as [v|] eqn:Hcell; [|discriminate].
    step. step. rewrite Hfirst. zbool. step. step. step.
    eapply wp_mono; [apply (unlink_spec c d st h y _ sy Hc Hq Hsy)|].
    intros o st1 (-> & Hre & Hcells). cbv beta iota.
    rewrite Hsel. step. eapply wp_cellAt; [rewrite Hcells; exact Hcell|].
    cbv beta iota. rewrite Hv.
    pose proof Hre as ((q1 & Hch1 & Hq1) & Hsw1 & _).
    eapply wp_mono.
    + apply (IH fuel st1 (set_q d q1 h)).
      * cbn in Hfuel. lia.
      * rewrite Hch1. apply lookup_insert_eq.
      * rewrite getq_set_q. exact Hq1.
      * rewrite <- Hfired. apply forallb_same. intros w.
        apply fired_same; assumption.
      * rewrite <- Hx. apply waiting_on_same; assumption.
    + intros o st' (-> & Hre' & Hcells'). split; [reflexivity|]. split.
      * eapply requeued_trans; [exact Hch1 | exact Hre | exact Hre' |].
        intros w Hw. split; [exact Hw|].
        intros Hin. apply Hw. right. exact Hin.
      * rewrite Hcells'. apply claim_same; assumption.
Qed.

Lemma dequeue_spec c d st h skipped x rest :
  chans st !! c = Some h ->
  isQueue (sudogs st) (getq d h) (skipped ++ x :: rest) = true ->
  forallb (fired st) skipped = true -> waiting_on st x = true ->
  wp (dequeue c d)
     (fun o st' => o = Ret x /\
        requeued c d h (skipped ++ x :: rest) rest st st' /\
        cells st' = claim st x) st.
Proof.
  intros Hc Hq Hfired Hx. unfold dequeue. step. step.
  apply dequeueLoop_spec; try assumption.
  apply isQueue_spec in Hq as (_ & _ & Hlinked & Hnd).
  pose proof (length_le_size (sudogs st) _ Hnd
                (fun y Hy => linked_dom _ _ y Hlinked Hy)) as Hlen.
  rewrite length_app in Hlen. cbn [length] in Hlen. lia.
Qed.

Lemma last_elem_of (a : Z) l : List.last (a :: l) 0 ∈ a :: l.
Proof.
  revert a. induction l as [|b l IH]; intros a; [left|].
  change (List.last (a :: b :: l) 0) with (List.last (b :: l) 0).
  right. apply IH.
Qed.

Lemma linked_cons sd x l :
  linked sd (x :: l) = true <->
  x <> 0 /\ (exists s, sd !! x = Some s /\ next s = hd 0 l) /\ linked sd l = true.
Proof.
  change (linked sd (x :: l))
    with (negb (x =? 0)
          && match sd !! x with Some s => next s =? hd 0 l | None => false end
          && linked sd l).
  rewrite !andb_true_iff, negb_true_iff, Z.eqb_neq.
  split.
  - intros [[Hx Hs] Hl]. split; [exact Hx|]. split; [|exact Hl].
    destruct (sd !! x) as [s|]; [|discriminate].
    exists s. split; [reflexivity|]. apply Z.eqb_eq. exact Hs.
  - intros (Hx & (s & Hs & Hn) & Hl). rewrite Hs.
    repeat split; [exact Hx | apply Z.eqb_eq; exact Hn | exact Hl].
Qed.

Lemma linked_snoc sd sgp s' : forall l a sx,
  linked sd (a :: l) = true -> NoDup (a :: l) -> sgp ∉ a :: l -> sgp <> 0 ->
  sd !! List.last (a :: l) 0 = Some sx -> next s' = 0 ->
  linked (<[List.last (a :: l) 0 := set_next sgp sx]> (<[sgp := s']> sd))
         ((a :: l) ++ [sgp]) = true.
Proof.
  induction l as [|b l IH]; intros a sx Hl Hnd Hsgp Hsgp0 Hlast Hnext.
  - cbn [List.last app linked hd] in *.
    apply not_elem_of_cons in Hsgp as [Hne _].
    rewrite !andb_true_iff in Hl. destruct Hl as [[Ha _] _].
    rewrite lookup_insert_eq, lookup_insert_ne by congruence.
    rewrite lookup_insert_eq. rewrite Ha, Hnext. cbn [set_next next].
    rewrite Z.eqb_refl. cbn [Z.eqb andb].
    apply andb_true_iff. split; [|reflexivity].
    apply andb_true_iff. split; [|reflexivity].
    apply negb_true_iff, Z.eqb_neq. exact Hsgp0.
  - change (List.last (a :: b :: l) 0) with (List.last (b :: l) 0) in *.
    apply NoDup_cons in Hnd as [Ha Hnd].
    apply not_elem_of_cons in Hsgp as [Hne Hsgp].
    pose proof (last_elem_of b l) as Hin.
    assert (Hal : List.last (b :: l) 0 <> a)
      by (intros Heq; apply Ha; rewrite <- Heq; exact Hin).
    change ((a :: b :: l) ++ [sgp]) with (a :: ((b :: l) ++ [sgp])).
    apply linked_cons in Hl as (Ha0 & (sa & Hsa & Hna) & Hl).
    apply linked_cons. split; [exact Ha0|]. split.
    + exists sa. split; [|exact Hna].
      rewrite !lookup_insert_ne by congruence. exact Hsa.
    + apply IH; assumption.
Qed.

Lemma enqueue_spec c d sgp st h l s :
  chans st !! c = Some h -> isQueue (sudogs st) (getq d h) l = true ->
  sudogs st !! sgp = Some s -> sgp <> 0 -> sgp ∉ l ->
  wp (enqueue c d sgp)
     (fun o st' => o = Ret tt /\
        requeued c d h (sgp :: l) (l ++ [sgp]) st st' /\
        cells st' = cells st) st.
Proof.
  intros Hc Hq Hs Hsgp0 Hsgp.
  apply isQueue_spec in Hq as (Hfirst & Hlast & Hlinked & Hnd).
  unfold enqueue. steps. rewrite Hlast.
  destruct l as [|a l].
  - cbn [List.last Z.eqb]. steps.
    split; [reflexivity|]. split; [|reflexivity].
    split; [|split; [|split; [|repeat split; reflexivity]]].
    + exists (mkWaitq sgp sgp). split.
      * rewrite insert_insert_eq, !getq_set_q, set_q_set_q. reflexivity.
      * apply isQueue_spec. cbn [app hd List.last first last linked].
        split; [reflexivity|]. split; [reflexivity|].
        split; [|apply NoDup_singleton].
        sst. rewrite lookup_insert_eq. cbn [next set_prev set_next].
        rewrite (proj2 (Z.eqb_neq sgp 0) Hsgp0). reflexivity.
    + sst. rewrite insert_insert_eq.
      apply (sameWaiters_insert _ sgp s _ Hs). reflexivity.
    + sst. intros w Hw. apply not_elem_of_cons in Hw as [Hw _].
      rewrite !lookup_insert_ne by congruence. reflexivity.
  - pose proof (last_elem_of a l) as Hin.
    set (x := List.last (a :: l) 0) in *.
    assert (Hx0 : x <> 0) by (apply (linked_nonzero _ _ _ Hlinked); exact Hin).
    assert (Hxs : x <> sgp) by (intros Heq; apply Hsgp; rewrite <- Heq; exact Hin).
    destruct (linked_dom _ _ x Hlinked Hin) as [sx Hx].
    zbool. steps.
    split; [reflexivity|]. split; [|reflexivity].
    split; [|split; [|split; [|repeat split; reflexivity]]].
    + exists (mkWaitq (first (getq d h)) sgp). split; [reflexivity|].
      apply isQueue_spec. cbn [first last].
      split; [exact Hfirst|]. split; [symmetry; apply last_last|].
      split.
      * sst. rewrite insert_insert_eq.
        apply (linked_snoc (sudogs st) sgp _ l a sx); try assumption. reflexivity.
      * apply NoDup_app. split; [exact Hnd|]. split; [|apply NoDup_singleton].
        intros w Hw Hw'. apply elem_of_cons in Hw' as [->|Hw']; [exact (Hsgp Hw)|].
        inversion Hw'.
    + sst. rewrite insert_insert_eq. eapply sameWaiters_trans.
      * apply (sameWaiters_insert _ sgp s (set_prev x (set_next 0 s)) Hs). reflexivity.
      * apply (sameWaiters_insert _ x sx (set_next sgp sx)); [|reflexivity].
        rewrite lookup_insert_ne by congruence. exact Hx.
    + sst. intros w Hw. apply not_elem_of_cons in Hw as [Hws Hw].
      assert (Hwx : w <> x) by (intros ->; exact (Hw Hin)).
      rewrite !lookup_insert_ne by congruence. reflexivity.
Qed.

(** X26: The waiters leave a queue in the order they joined it: after
    [enqueue] of [sgp], [dequeue] passes over the sudogs whose [select]
    has fired already and returns the oldest of the others, which it
    claims; those behind it stay queued in their order, [sgp] last. *)
Theorem waitq_fifo c d sgp st h l s skipped x rest :
  chans st !! c = Some h -> isQueue (sudogs st) (getq d h) l = true ->
  sudogs st !! sgp = Some s -> sgp <> 0 -> sgp ∉ l ->
  l ++ [sgp] = skipped ++ x :: rest ->
  forallb (fired st) skipped = true -> waiting_on st x = true ->
  exists st1 st2,
    enqueue c d sgp st = (Ret tt, st1) /\
    dequeue c d st1 = (Ret x, st2) /\
    requeued c d h (sgp :: l) rest st st2 /\
    cells st2 = claim st x.
Proof.
  intros Hc Hq Hs Hsgp0 Hsgp Hl Hfired Hx.
  pose proof (enqueue_spec c d sgp st h l s Hc Hq Hs Hsgp0 Hsgp) as Henq.
  apply wp_elim in Henq as (o1 & st1 & Hrun1 & -> & Hre1 & Hcells1).
  pose proof Hre1 as ((q1 & Hch1 & Hq1) & Hsw1 & _).
  rewrite Hl in Hq1.
  assert (Hdeq : wp (dequeue c d)
            (fun o st' => o = Ret x /\
               requeued c d (set_q d q1 h) (skipped ++ x :: rest) rest st1 st' /\
               cells st' = claim st1 x) st1).
  { apply dequeue_spec.
    - rewrite Hch1. apply lookup_insert_eq.
    - rewrite getq_set_q. exact Hq1.
    - rewrite <- Hfired. apply forallb_same. intros w. apply fired_same; assumption.
    - rewrite <- Hx. apply waiting_on_same; assumption. }
  apply wp_elim in Hdeq as (o2 & st2 & Hrun2 & -> & Hre2 & Hcells2).
  exists st1, st2. split; [exact Hrun1|]. split; [exact Hrun2|]. split.
  - eapply requeued_trans; [exact Hch1 | exact Hre1 | exact Hre2 |].
    intros w Hw. split; [exact Hw|]. rewrite <- Hl.
    apply not_elem_of_cons in Hw as [Hws Hwl].
    intros Hin. apply elem_of_app in Hin as [Hin|Hin]; [exact (Hwl Hin)|].
    apply elem_of_cons in Hin as [->|Hin]; [exact (Hws eq_refl) | inversion Hin].
  - rewrite Hcells2. apply claim_same; assumption.
Qed.

Lemma waitq_fifo_witness :
  let sd := <[ 502 := mkSudog 8 0 0 0 0 0 0 ]> (exSudogs 900 501) in
  let h := exUnbuffered (mkWaitq 500 501) in
  let st := exState h sd {[ 900 := 1 ]} in
  (chans st !! 100 = Some h /\ isQueue (sudogs st) (getq Recvq h) [500; 501] = true /\
   sudogs st !! 502 = Some (mkSudog 8 0 0 0 0 0 0) /\ 502 <> 0 /\
   (502 ∉ [500; 501]) /\ [500; 501] ++ [502] = [500] ++ 501 :: [502] /\
   forallb (fired st) [500] = true /\ waiting_on st 501 = true) /\
  exists st1 st2,
    enqueue 100 Recvq 502 st = (Ret tt, st1) /\
    dequeue 100 Recvq st1 = (Ret 501, st2) /\
    requeued 100 Recvq h [502; 500; 501] [502] st st2 /\
    cells st2 = claim st 501.
Proof.
  intros sd h st.
  assert (H1 : chans st !! 100 = Some h) by reflexivity.
  assert (H2 : isQueue (sudogs st) (getq Recvq h) [500; 501] = true)
    by (vm_compute; reflexivity).
  assert (H3 : sudogs st !! 502 = Some (mkSudog 8 0 0 0 0 0 0)) by reflexivity.
  assert (H4 : 502 <> 0) by discriminate.
  assert (H5 : 502 ∉ [500; 501]).
  { intros Hin. apply elem_of_cons in Hin as [Hin|Hin]; [discriminate|].
    apply elem_of_cons in Hin as [Hin|Hin]; [discriminate | inversion Hin]. }
  assert (H6 : [500; 501] ++ [502] = [500] ++ 501 :: [502]) by reflexivity.
  assert (H7 : forallb (fired st) [500] = true) by (vm_compute; reflexivity).
  assert (H8 : waiting_on st 501 = true) by (vm_compute; reflexivity).
  split; [auto 10|].
  exact (waitq_fifo 100 Recvq 502 st h [500; 501] (mkSudog 8 0 0 0 0 0 0)
           [500] 501 [502] H1 H2 H3 H4 H5 H6 H7 H8).
Defined.

(** ** Close *)

Lemma sameOwners_refl sd : sameOwners sd sd.
Proof. intros y. reflexivity. Qed.

Lemma sameOwners_trans sd1 sd2 sd3 :
  sameOwners sd1 sd2 -> sameOwners sd2 sd3 -> sameOwners sd1 sd3.
Proof. intros H12 H23 y. rewrite H23. apply H12. Qed.

Lemma sameWaiters_owners sd sd' : sameWaiters sd sd' -> sameOwners sd sd'.
Proof.
  intros Hsw y. specialize (Hsw y).
  destruct (sd' !! y) as [s'|], (sd !! y) as [s|]; cbn in Hsw |- *;
    try discriminate; [|reflexivity].
  unfold payload in Hsw. unfold owner. congruence.
Qed.

Lemma sameOwners_insert sd x s s' :
  sd !! x = Some s -> owner s' = owner s -> sameOwners sd (<[x := s']> sd).
Proof.
  intros Hx Hp y. destruct (decide (y = x)) as [->|Hne].
  - rewrite lookup_insert_eq, Hx. cbn. f_equal. exact Hp.
  - rewrite lookup_insert_ne by congruence. reflexivity.
Qed.

Lemma goroutines_same sd sd' l : sameOwners sd sd' -> goroutines sd' l = goroutines sd l.
Proof.
  intros Hso. unfold goroutines. apply List.map_ext. intros y.
  specialize (Hso y).
  destruct (sd' !! y) as [s'|], (sd !! y) as [s|]; cbn in Hso;
    try discriminate; [|reflexivity].
  unfold owner in Hso. congruence.
Qed.

Lemma plain_same sd sd' l : sameOwners sd sd' -> plain sd' l = plain sd l.
Proof.
  intros Hso. unfold plain. apply forallb_same. intros y.
  specialize (Hso y).
  destruct (sd' !! y) as [s'|], (sd !! y) as [s|]; cbn in Hso;
    try discriminate; [|reflexivity].
  unfold owner in Hso. injection Hso as _ ->. reflexivity.
Qed.

Lemma isQueue_frame sd sd' q l :
  (forall y, y ∈ l -> next <$> (sd' !! y) = next <$> (sd !! y)) ->
  isQueue sd' q l = isQueue sd q l.
Proof. intros Hext. unfold isQueue. rewrite (linked_ext sd sd' l Hext). reflexivity. Qed.

(** What [closechan]'s loop over one queue leaves. *)
Lemma releaseAll_spec c d : forall l fuel st h,
  (length l < fuel)%nat ->
  chans st !! c = Some h ->
  isQueue (sudogs st) (getq d h) l = true ->
  plain (sudogs st) l = true -> alive st l = true ->
  wp (releaseAll fuel c d)
     (fun o st' => o = Ret tt /\
        chans st' = <[c := set_q d (mkWaitq 0 0) h]> (chans st) /\
        runq st' = runq st ++ goroutines (sudogs st) l /\
        (forall gp, gp ∈ goroutines (sudogs st) l -> param <$> (gs st' !! gp) = Some 0) /\
        (forall gp, gp ∉ goroutines (sudogs st) l -> gs st' !! gp = gs st !! gp) /\
        (forall gp, is_Some (gs st !! gp) -> is_Some (gs st' !! gp)) /\
        (forall y, y ∈ l -> elem <$> (sudogs st' !! y) = Some 0) /\
        (forall y, y ∉ l -> sudogs st' !! y = sudogs st !! y) /\
        sameOwners (sudogs st) (sudogs st') /\
        mem st' = mem st /\ cells st' = cells st /\
        curg st' = curg st /\ ticks st' = ticks st) st.
Proof.
  induction l as [|x l IH]; intros fuel st h Hfuel Hc Hq Hplain Halive;
    (destruct fuel as [|fuel]; [cbn in Hfuel; lia|]); cbn [releaseAll].
  - pose proof (proj1 (isQueue_spec _ _ _) Hq) as (Hfirst & Hlast & _).
    cbn [hd List.last] in Hfirst, Hlast.
    step. eapply wp_dequeue_empty; [exact Hc | exact Hfirst |].
    cbv beta iota. cbn [Z.eqb]. step.
    split; [reflexivity|]. split.
    { rewrite insert_id; [reflexivity|]. rewrite Hc. f_equal.
      destruct d, h as [? ? ? ? ? ? ? ? [? ?] [? ?] ?]; cbn in *; subst; reflexivity. }
    split; [cbn [goroutines List.map]; rewrite app_nil_r; reflexivity|].
    split; [intros gp Hgp; inversion Hgp|].
    split; [reflexivity|]. split; [intros gp Hgp; exact Hgp|].
    split; [intros y Hy; inversion Hy|].
    split; [reflexivity|]. split; [apply sameOwners_refl|].
    repeat split; reflexivity.
  - cbn [plain forallb] in Hplain. apply andb_true_iff in Hplain as [Hxs Hplain].
    destruct (sudogs st !! x) as [sx|] eqn:Hsx; [|discriminate].
    apply Z.eqb_eq in Hxs.
    unfold alive in Halive. cbn [goroutines List.map forallb] in Halive.
    rewrite Hsx in Halive. apply andb_true_iff in Halive as [Hgx Halive].
    destruct (gs st !! g sx) as [xg|] eqn:Hxg; [|discriminate]. clear Hgx.
    pose proof (proj1 (isQueue_spec _ _ _) Hq) as (_ & _ & Hlinked & Hnd).
    assert (Hx0 : x <> 0) by (apply (linked_nonzero _ _ _ Hlinked); left).
    apply NoDup_cons in Hnd as [Hxl Hnd].
    step.
    eapply wp_mono.
    { apply (dequeue_spec c d st h [] x l Hc Hq); [reflexivity|].
      unfold waiting_on. rewrite Hsx, Hxs. reflexivity. }
    intros o st1 (-> & Hre & Hcells1). cbv beta iota.
    destruct Hre as ((q1 & Hch1 & Hq1) & Hsw1 & Hfr1 & Hg1 & Hm1 & Hr1 & Hcu1 & Ht1).
    unfold claim in Hcells1. rewrite Hsx, Hxs in Hcells1. cbn [Z.eqb] in Hcells1.
    zbool.
    pose proof (Hsw1 x) as Hpx. rewrite Hsx in Hpx.
    destruct (sudogs st1 !! x) as [sx1|] eqn:Hsx1; [|discriminate].
    cbn in Hpx. injection Hpx as Hgsx _ _ _ _.
    step. step. rewrite Hgsx. step. step. step.
    eapply wp_updG; [sst; rewrite Hg1; exact Hxg|].
    cbv beta iota. step. step. cbv beta iota.
    match goal with |- wp _ _ ?s => set (st2 := s) end.
    assert (Hso2 : sameOwners (sudogs st) (sudogs st2)).
    { eapply sameOwners_trans; [apply sameWaiters_owners; exact Hsw1|].
      subst st2. sst. apply (sameOwners_insert _ x sx1 _ Hsx1). reflexivity. }
    eapply wp_mono.
    { apply (IH fuel st2 (set_q d q1 h)).
      - cbn in Hfuel. lia.
      - subst st2. sst. rewrite Hch1. apply lookup_insert_eq.
      - rewrite getq_set_q. rewrite <- Hq1. subst st2. sst.
        apply isQueue_frame. intros y Hy.
        rewrite lookup_insert_ne; [reflexivity|]. intros ->. exact (Hxl Hy).
      - rewrite <- Hplain. apply plain_same. exact Hso2.
      - unfold alive. rewrite (goroutines_same _ _ l Hso2).
        etransitivity; [|exact Halive]. apply forallb_same. intros gp.
        subst st2. sst. rewrite Hg1.
        destruct (decide (gp = g sx)) as [->|Hne].
        + rewrite lookup_insert_eq, Hxg. reflexivity.
        + rewrite lookup_insert_ne by congruence. reflexivity. }
    intros o st' (-> & Hch' & Hrq' & Hpar' & Hoth' & Hdom' & Hel' & Hfr' & Hso' &
                  Hm' & Hce' & Hcu' & Ht').
    rewrite (goroutines_same _ _ l Hso2) in Hrq', Hpar', Hoth'.
    assert (Hgs2 : gs st2 = <[g sx := set_param 0 xg]> (gs st))
      by (subst st2; sst; rewrite Hg1; reflexivity).
    cbn [goroutines List.map]. rewrite Hsx. fold (goroutines (sudogs st) l).
    split; [reflexivity|]. split.
    { rewrite Hch'. subst st2. sst. rewrite Hch1, insert_insert_eq, set_q_set_q.
      reflexivity. }
    split.
    { rewrite Hrq'. subst st2. sst. rewrite Hr1, <- app_assoc. reflexivity. }
    split.
    { intros gp Hgp.
      destruct (decide (gp ∈ goroutines (sudogs st) l)) as [Hin|Hnin].
      - apply Hpar'. exact Hin.
      - apply elem_of_cons in Hgp as [->|Hgp]; [|contradiction].
        rewrite (Hoth' _ Hnin), Hgs2, lookup_insert_eq. reflexivity. }
    split.
    { intros gp Hgp. apply not_elem_of_cons in Hgp as [Hne Hgp].
      rewrite (Hoth' _ Hgp), Hgs2, lookup_insert_ne by congruence. reflexivity. }
    split.
    { intros gp Hgp. apply Hdom'. rewrite Hgs2.
      destruct (decide (gp = g sx)) as [->|Hne].
      - rewrite lookup_insert_eq. eexists; reflexivity.
      - rewrite lookup_insert_ne by congruence. exact Hgp. }
    split.
    { intros y Hy. apply elem_of_cons in Hy as [->|Hy]; [|apply Hel'; exact Hy].
      rewrite (Hfr' _ Hxl). subst st2. sst. rewrite lookup_insert_eq. reflexivity. }
    split.
    { intros y Hy. apply not_elem_of_cons in Hy as [Hne Hy].
      rewrite (Hfr' _ Hy). subst st2. sst.
      rewrite lookup_insert_ne by congruence. apply Hfr1.
      intros Hin. cbn [app] in Hin. apply elem_of_cons in Hin as [->|Hin]; contradiction. }
    split; [eapply sameOwners_trans; eassumption|].
    subst st2. sst_in Hm'. sst_in Hce'. sst_in Hcu'. sst_in Ht'.
    repeat split; congruence.
Qed.

Lemma goroutines_app sd l1 l2 :
  goroutines sd (l1 ++ l2) = goroutines sd l1 ++ goroutines sd l2.
Proof. unfold goroutines. apply List.map_app. Qed.

Lemma alive_app st l1 l2 : alive st (l1 ++ l2) = alive st l1 && alive st l2.
Proof. unfold alive. rewrite goroutines_app. apply forallb_app. Qed.

Lemma alive_same st st' l :
  sameOwners (sudogs st) (sudogs st') ->
  (forall gp, is_Some (gs st !! gp) -> is_Some (gs st' !! gp)) ->
  alive st l = true -> alive st' l = true.
Proof.
  intros Hso Hdom. unfold alive. rewrite (goroutines_same _ _ l Hso).
  rewrite !forallb_forall. intros Hal gp Hgp. specialize (Hal gp Hgp).
  destruct (gs st !! gp) as [xg|] eqn:Hxg; [|discriminate].
  destruct (Hdom gp) as [xg' Hxg']; [rewrite Hxg; eexists; reflexivity|].
  rewrite Hxg'. reflexivity.
Qed.

(** X27: [closechan] on an open channel marks it closed and empties both wait
    queues: every waiting goroutine is made runnable with [param] nil,
    the receivers before the senders and each queue oldest first, and
    the sudogs' [elem] are cleared.  The lock is given back. *)
Theorem closechan_wakes_all c st h lr ls :
  c <> 0 -> chans st !! c = Some h -> closed h = 0 -> lock h = false ->
  isQueue (sudogs st) (recvq h) lr = true ->
  isQueue (sudogs st) (sendq h) ls = true ->
  NoDup (lr ++ ls) -> plain (sudogs st) (lr ++ ls) = true ->
  alive st (lr ++ ls) = true ->
  exists st',
    closechan c st = (Ret tt, st') /\
    chans st' =
      <[c := set_closed 1 (set_q Sendq (mkWaitq 0 0) (set_q Recvq (mkWaitq 0 0) h))]>
        (chans st) /\
    runq st' = runq st ++ goroutines (sudogs st) (lr ++ ls) /\
    (forall gp, gp ∈ goroutines (sudogs st) (lr ++ ls) ->
                param <$> (gs st' !! gp) = Some 0) /\
    (forall y, y ∈ lr ++ ls -> elem <$> (sudogs st' !! y) = Some 0) /\
    mem st' = mem st.
Proof.
  intros Hc0 Hc Hcl Hl Hqr Hqs Hnd Hplain Halive.
  unfold plain in Hplain. rewrite forallb_app in Hplain.
  apply andb_true_iff in Hplain as [Hpr Hps].
  rewrite alive_app in Halive. apply andb_true_iff in Halive as [Har Has].
  apply NoDup_app in Hnd as (Hndr & Hdisj & Hnds).
  pose proof (proj1 (isQueue_spec _ _ _) Hqr) as (_ & _ & Hlr & _).
  pose proof (proj1 (isQueue_spec _ _ _) Hqs) as (_ & _ & Hls & _).
  enough (Hwp : wp (closechan c)
            (fun o st' => o = Ret tt /\
               chans st' =
                 <[c := set_closed 1 (set_q Sendq (mkWaitq 0 0)
                                        (set_q Recvq (mkWaitq 0 0) h))]> (chans st) /\
               runq st' = runq st ++ goroutines (sudogs st) (lr ++ ls) /\
               (forall gp, gp ∈ goroutines (sudogs st) (lr ++ ls) ->
                           param <$> (gs st' !! gp) = Some 0) /\
               (forall y, y ∈ lr ++ ls -> elem <$> (sudogs st' !! y) = Some 0) /\
               mem st' = mem st) st).
  { apply wp_elim in Hwp as (o & st' & Hrun & -> & Hrest).
    exists st'. split; [exact Hrun | exact Hrest]. }
  unfold closechan. zbool. steps. zbool. steps.
  match goal with |- wp _ _ ?s => set (sta := s) end.
  set (ha := set_closed 1 (set_lock true h)).
  assert (Hca : chans sta !! c = Some ha) by (subst sta ha; lookup).
  eapply wp_mono.
  { apply (releaseAll_spec c Recvq lr _ sta ha).
    - pose proof (length_le_size (sudogs st) lr Hndr
                    (fun y Hy => linked_dom _ _ y Hlr Hy)). lia.
    - exact Hca.
    - exact Hqr.
    - exact Hpr.
    - exact Har. }
  intros o st1 (-> & Hch1 & Hrq1 & Hpar1 & Hoth1 & Hdom1 & Hel1 & Hfr1 & Hso1 &
                Hm1 & Hce1 & Hcu1 & Ht1).
  cbv beta iota. step.
  set (h1 := set_q Recvq (mkWaitq 0 0) ha) in *.
  eapply wp_mono.
  { apply (releaseAll_spec c Sendq ls _ st1 h1).
    - pose proof (length_le_size (sudogs st) ls Hnds
                    (fun y Hy => linked_dom _ _ y Hls Hy)). lia.
    - rewrite Hch1. apply lookup_insert_eq.
    - etransitivity; [|exact Hqs].
      apply isQueue_frame. intros y Hy. rewrite Hfr1; [reflexivity|].
      intros Hin. exact (Hdisj y Hin Hy).
    - etransitivity; [|exact Hps]. apply (plain_same _ _ ls Hso1).
    - apply (alive_same sta st1 ls Hso1 Hdom1). exact Has. }
  intros o st2 (-> & Hch2 & Hrq2 & Hpar2 & Hoth2 & Hdom2 & Hel2 & Hfr2 & Hso2 &
                Hm2 & Hce2 & Hcu2 & Ht2).
  cbv beta iota.
  rewrite (goroutines_same _ _ ls Hso1) in Hrq2, Hpar2, Hoth2.
  eapply wp_unlockChan; [rewrite Hch2; apply lookup_insert_eq | reflexivity |].
  split; [reflexivity|]. sst. split.
  { rewrite Hch2, Hch1. subst sta. sst. rewrite !insert_insert_eq. f_equal.
    subst h1 ha. destruct h as [? ? ? ? ? ? ? ? ? ? lk]; cbn in *; subst; reflexivity. }
  split.
  { rewrite Hrq2, Hrq1, goroutines_app, <- app_assoc. reflexivity. }
  split.
  { intros gp Hgp. rewrite goroutines_app in Hgp.
    destruct (decide (gp ∈ goroutines (sudogs sta) ls)) as [Hin|Hnin].
    - apply Hpar2. exact Hin.
    - rewrite (Hoth2 _ Hnin). apply Hpar1.
      apply elem_of_app in Hgp as [Hgp|Hgp]; [exact Hgp | contradiction]. }
  split.
  { intros y Hy. apply elem_of_app in Hy as [Hy|Hy].
    - rewrite Hfr2; [apply Hel1; exact Hy|].
      intros Hin. exact (Hdisj y Hy Hin).
    - apply Hel2. exact Hy. }
  rewrite Hm2, Hm1. reflexivity.
Qed.

Lemma closechan_wakes_all_witness :
  let h := exUnbuffered (mkWaitq 500 501) in
  let st := exState h (exSudogs 0 501) ∅ in
  (100 <> 0 /\ chans st !! 100 = Some h /\ closed h = 0 /\ lock h = false /\
   isQueue (sudogs st) (recvq h) [500; 501] = true /\
   isQueue (sudogs st) (sendq h) [] = true /\
   NoDup ([500; 501] ++ []) /\ plain (sudogs st) ([500; 501] ++ []) = true /\
   alive st ([500; 501] ++ []) = true) /\
  exists st',
    closechan 100 st = (Ret tt, st') /\
    chans st' =
      <[100 := set_closed 1 (set_q Sendq (mkWaitq 0 0) (set_q Recvq (mkWaitq 0 0) h))]>
        (chans st) /\
    runq st' = runq st ++ goroutines (sudogs st) ([500; 501] ++ []) /\
    (forall gp, gp ∈ goroutines (sudogs st) ([500; 501] ++ []) ->
                param <$> (gs st' !! gp) = Some 0) /\
    (forall y, y ∈ [500; 501] ++ [] -> elem <$> (sudogs st' !! y) = Some 0) /\
    mem st' = mem st.
Proof.
  intros h st.
  assert (H1 : 100 <> 0) by discriminate.
  assert (H2 : chans st !! 100 = Some h) by reflexivity.
  assert (H3 : closed h = 0) by reflexivity.
  assert (H4 : lock h = false) by reflexivity.
  assert (H5 : isQueue (sudogs st) (recvq h) [500; 501] = true)
    by (vm_compute; reflexivity).
  assert (H6 : isQueue (sudogs st) (sendq h) [] = true) by (vm_compute; reflexivity).
  assert (H7 : NoDup ([500; 501] ++ [])).
  { apply (bool_decide_unpack _). vm_compute. exact I. }
  assert (H8 : plain (sudogs st) ([500; 501] ++ []) = true) by (vm_compute; reflexivity).
  assert (H9 : alive st ([500; 501] ++ []) = true) by (vm_compute; reflexivity).
  split; [auto 10|].
  exact (closechan_wakes_all 100 st h [500; 501] [] H1 H2 H3 H4 H5 H6 H7 H8 H9).
Defined.

(** ** Unbuffered channels *)


Section Rendezvous.
Context {SG : Sudogs}.
(** The sudog the blocking goroutine is handed, and gives back. *)
Variable mysg : Z.
Hypothesis acquire_mysg : forall s, acquireSudog s = (Ret mysg, s).
Hypothesis release_mysg : forall s, releaseSudog mysg s = (Ret tt, s).



End Rendezvous.



(** ** makechan *)

Section MakechanFacts.
Context {H : Type} {RT : Malloc.Runtime H}.
Variable hchanType : Malloc._type.

Lemma wp_inWorld {A} (m : M (Malloc.world H) A)
    (Q : outcome A -> Malloc.world H * state -> Prop) w st o w' :
  m w = (o, w') -> Q o (w', st) -> wp (inWorld m) Q (w, st).
Proof. intros Hrun HQ. unfold wp, inWorld. cbn [fst snd]. rewrite Hrun. exact HQ. Qed.

Lemma wp_inChans {A} (m : M state A)
    (Q : outcome A -> Malloc.world H * state -> Prop) w st :
  wp m (fun o st' => Q o (w, st')) st -> wp (inChans m) Q (w, st).
Proof.
  unfold wp, inChans. cbn [fst snd]. destruct (m st) as [o st']. intros HQ. exact HQ.
Qed.

Lemma wrap16_small z : 0 <= z < 2 ^ 16 -> wrap16 z = z.
Proof. intros Hz. unfold wrap16. apply Z.mod_small. exact Hz. Qed.

Lemma hchanSize_eq : hchanSize = 96.
Proof. reflexivity. Qed.

Lemma sint64_small z : 0 <= z < 2 ^ 63 -> sint64 (wrap64 z) = z.
Proof.
  intros Hz. unfold sint64. rewrite !(wrap64_small z) by lia. cbv zeta.
  destruct (Z.ltb_spec z (2 ^ 63)); lia.
Qed.

Lemma size_check size ts :
  0 <= size -> 0 < ts ->
  (Z.quot (_MaxMem - hchanSize) ts <? size) = (_MaxMem - hchanSize <? size * ts).
Proof.
  intros Hs Hts.
  assert (HM : 0 <= _MaxMem - hchanSize) by (vm_compute; discriminate).
  rewrite Z.quot_div_nonneg by lia.
  pose proof (Z.div_mod (_MaxMem - hchanSize) ts ltac:(lia)) as Hdm.
  pose proof (Z.mod_pos_bound (_MaxMem - hchanSize) ts Hts) as Hmod.
  generalize dependent (_MaxMem - hchanSize). intros m.
  generalize (m / ts) (m mod ts). intros q r HM Hdm Hmod.
  destruct (Z.ltb_spec q size) as [Hlt|Hge], (Z.ltb_spec m (size * ts)) as [Hlt'|Hge'];
    try reflexivity; exfalso.
  - assert (ts * (q + 1) <= ts * size) by (apply Z.mul_le_mono_nonneg_l; lia). lia.
  - assert (ts * size <= ts * q) by (apply Z.mul_le_mono_nonneg_l; lia). lia.
Qed.

Lemma makechan_range t size w st :
  0 <= Malloc.tsize (telem t) < 2 ^ 16 -> elemalign t <= maxAlign ->
  - 2 ^ 63 <= size < 2 ^ 63 ->
  size < 0 \/ _MaxMem - hchanSize < size * Malloc.tsize (telem t) ->
  makechan hchanType t size (w, st) = (Panic "makechan: size out of range", (w, st)).
Proof.
  intros Hts Hal Hsz Hbad. unfold makechan. cbv zeta.
  change (Z.shiftl 1 16) with 65536. change (Z.rem hchanSize maxAlign) with 0.
  unfold maxAlign in *. zbool. cbn [negb orb].
  destruct (Z.ltb_spec size 0) as [Hneg|Hpos]; [reflexivity|].
  destruct Hbad as [Hneg|Hbig]; [lia|].
  assert (Hts0 : 0 < Malloc.tsize (telem t)).
  { assert (0 <= _MaxMem - hchanSize) by (vm_compute; discriminate). nia. }
  rewrite sint64_small, Z.eqb_refl by lia.
  rewrite (wrap64_small size) by lia.
  rewrite size_check by lia.
  zbool. reflexivity.
Qed.

Lemma makechan_new t size w st c w' :
  0 <= Malloc.tsize (telem t) < 2 ^ 16 -> elemalign t <= maxAlign ->
  0 <= size < 2 ^ 63 ->
  size * Malloc.tsize (telem t) <= _MaxMem - hchanSize ->
  Z.land (Malloc.kind (telem t)) Malloc.kindNoPointers <> 0 \/ size = 0 ->
  Malloc.mallocgc (hchanSize + size * Malloc.tsize (telem t)) None flagNoScan w
    = (Ret c, w') ->
  0 <= c -> c + hchanSize + size * Malloc.tsize (telem t) <= 2 ^ 64 ->
  exists st' h,
    makechan hchanType t size (w, st) = (Ret c, (w', st')) /\
    chans st' = <[c := h]> (chans st) /\
    qcount h = 0 /\ dataqsiz h = size /\ elemsize h = Malloc.tsize (telem t) /\
    elemtype h = Some (telem t) /\ closed h = 0 /\ lock h = false /\
    recvq h = mkWaitq 0 0 /\ sendq h = mkWaitq 0 0 /\
    (0 < size -> Malloc.tsize (telem t) <> 0 -> buf h = c + hchanSize) /\
    (size = 0 \/ Malloc.tsize (telem t) = 0 -> buf h = c) /\
    (0 < size -> buffered h = true /\ contents st' h = []) /\
    sudogs st' = sudogs st /\ gs st' = gs st /\ mem st' = mem st /\
    runq st' = runq st.
Proof.
  intros Hts Hal Hsz Hfit Hkind Hrun Hc Hcb.
  assert (HM : _MaxMem - hchanSize < 2 ^ 40) by (vm_compute; reflexivity).
  set (ts := Malloc.tsize (telem t)) in *.
  set (b := if (0 <? size) && negb (ts =? 0) then Malloc.add c hchanSize else c).
  set (h := mkHchan 0 size b ts 0 (Some (telem t)) 0 0 (mkWaitq 0 0) (mkWaitq 0 0) false).
  enough (Hwp : wp (makechan hchanType t size)
            (fun o s => o = Ret c /\ s = (w', set_chans (<[c := h]> (chans st)) st))
            (w, st)).
  { apply wp_elim in Hwp as (o & s' & Hmk & -> & ->).
    exists (set_chans (<[c := h]> (chans st)) st), h.
    split; [exact Hmk|]. split; [reflexivity|].
    do 8 (split; [reflexivity|]).
    assert (Hb1 : 0 < size -> ts <> 0 -> b = c + hchanSize).
    { intros Hs Hz. subst b.
      destruct (Z.ltb_spec 0 size) as [_|?]; [|lia].
      destruct (Z.eqb_spec ts 0) as [?|_]; [contradiction|]. cbn [andb negb].
      assert (0 < size * ts) by nia.
      unfold Malloc.add. apply wrap64_small. rewrite hchanSize_eq in *. lia. }
    assert (Hb0 : size = 0 \/ ts = 0 -> b = c).
    { intros Hz. subst b.
      destruct (Z.ltb_spec 0 size) as [Hs|Hs], (Z.eqb_spec ts 0) as [Hz'|Hz'];
        cbn [andb negb]; try reflexivity. lia. }
    split; [exact Hb1|]. split; [exact Hb0|].
    split; [|repeat split; reflexivity].
    intros Hpos. split; [|reflexivity].
    apply buffered_spec. subst h. sst.
    split; [exists (telem t); split; reflexivity|].
    assert (Hb : b = c \/ (b = c + hchanSize /\ 0 < size * ts)).
    { destruct (Z.eq_dec ts 0) as [Hz|Hz]; [left; apply Hb0; right; exact Hz|].
      right. split; [apply Hb1; assumption | nia]. }
    rewrite hchanSize_eq in *.
    assert (0 <= size * ts) by nia.
    repeat split; try lia;
      try (destruct Hb as [->|[-> ?]]; lia);
      try (symmetry; apply Z.mod_0_l; lia). }
  unfold makechan. cbv zeta. fold ts.
  change (Z.shiftl 1 16) with 65536. change (Z.rem hchanSize maxAlign) with 0.
  unfold maxAlign in *. zbool. cbn [negb orb].
  rewrite sint64_small, Z.eqb_refl by lia. cbn [negb orb].
  rewrite (wrap64_small size) by lia.
  assert (Hguard : ((0 <? ts) && (Z.quot (_MaxMem - hchanSize) ts <? size)) = false).
  { destruct (Z.ltb_spec 0 ts) as [Hpos|Hz]; [|reflexivity].
    rewrite size_check by lia. cbn [andb]. apply Z.ltb_ge. lia. }
  rewrite Hguard.
  assert (Hbr : negb (Z.land (Malloc.kind (telem t)) Malloc.kindNoPointers =? 0)
                || (size =? 0) = true).
  { destruct Hkind as [Hk| ->]; [|apply orb_true_r].
    apply Z.eqb_neq in Hk. rewrite Hk. reflexivity. }
  rewrite Hbr.
  rewrite (wrap64_small (size * ts)) by nia.
  rewrite (wrap64_small (hchanSize + size * ts)) by (rewrite hchanSize_eq; nia).
  apply wp_bind. apply wp_bind.
  eapply wp_inWorld; [exact Hrun|]. cbv beta iota.
  apply wp_bind. apply wp_inChans. apply wp_modify. cbv beta iota.
  apply wp_bind.
  assert (Hset : forall (Q : outcome unit -> Malloc.world H * state -> Prop) f s0 h0,
            chans s0 !! c = Some h0 ->
            Q (Ret tt) (w', set_chans (<[c := f h0]> (chans s0)) s0) ->
            wp (inChans (H := H) (updChan c f)) Q (w', s0)).
  { intros Q f s0 h0 Hh0 HQ. apply wp_inChans.
    eapply wp_updChan; [exact Hh0 | exact HQ]. }
  assert (Hbuf : forall (Q : outcome unit -> Malloc.world H * state -> Prop) s0 h0,
            chans s0 !! c = Some h0 ->
            Q (Ret tt) (w', set_chans (<[c := set_buf b h0]> (chans s0)) s0) ->
            wp (if (0 <? size) && negb (ts =? 0)
                then inChans (H := H) (updChan c (set_buf (Malloc.add c hchanSize)))
                else inChans (updChan c (set_buf c))) Q (w', s0)).
  { intros Q s0 h0 Hh0 HQ. subst b.
    destruct ((0 <? size) && negb (ts =? 0)); eapply Hset; eassumption. }
  eapply Hbuf; [sst; apply lookup_insert_eq|]. cbv beta iota.
  apply wp_ret. cbv beta iota.
  apply wp_bind. eapply Hset; [sst; apply lookup_insert_eq|]. cbv beta iota.
  apply wp_bind. eapply Hset; [sst; apply lookup_insert_eq|]. cbv beta iota.
  apply wp_bind. eapply Hset; [sst; apply lookup_insert_eq|]. cbv beta iota.
  apply wp_ret. split; [reflexivity|]. f_equal.
  nst. rewrite (wrap16_small ts) by lia.
  subst h. reflexivity.
Qed.

(** X30: [makechan] for an element type without pointers (or no buffer): a
    negative size, or a buffer that does not fit below [_MaxMem] after
    the header, panics with "makechan: size out of range" before
    anything is allocated.  Otherwise one block of [hchanSize] plus
    [size] elements is requested, and the channel at the address [c] the
    allocator returns is open, unlocked and empty, with no waiters.  Its
    buffer starts right after the header ([c.buf = c + hchanSize]) when
    there is one ([size > 0] and elements of nonzero size); for size 0
    or elements of size 0 [c.buf] is [c] itself.  For [size > 0] the
    channel is in the state the buffered operations expect. *)
Theorem makechan_channel t size w st :
  0 <= Malloc.tsize (telem t) < 2 ^ 16 -> elemalign t <= maxAlign ->
  - 2 ^ 63 <= size < 2 ^ 63 ->
  (size < 0 \/ _MaxMem - hchanSize < size * Malloc.tsize (telem t) ->
   makechan hchanType t size (w, st)
     = (Panic "makechan: size out of range", (w, st))) /\
  (0 <= size -> size * Malloc.tsize (telem t) <= _MaxMem - hchanSize ->
   Z.land (Malloc.kind (telem t)) Malloc.kindNoPointers <> 0 \/ size = 0 ->
   forall c w',
   Malloc.mallocgc (hchanSize + size * Malloc.tsize (telem t)) None flagNoScan w
     = (Ret c, w') ->
   0 <= c -> c + hchanSize + size * Malloc.tsize (telem t) <= 2 ^ 64 ->
   exists st' h,
     makechan hchanType t size (w, st) = (Ret c, (w', st')) /\
     chans st' = <[c := h]> (chans st) /\
     qcount h = 0 /\ dataqsiz h = size /\ elemsize h = Malloc.tsize (telem t) /\
     elemtype h = Some (telem t) /\ closed h = 0 /\ lock h = false /\
     recvq h = mkWaitq 0 0 /\ sendq h = mkWaitq 0 0 /\
     (0 < size -> Malloc.tsize (telem t) <> 0 -> buf h = c + hchanSize) /\
     (size = 0 \/ Malloc.tsize (telem t) = 0 -> buf h = c) /\
     (0 < size -> buffered h = true /\ contents st' h = []) /\
     sudogs st' = sudogs st /\ gs st' = gs st /\ mem st' = mem st /\
     runq st' = runq st).
Proof.
  intros Hts Hal Hsz. split.
  - intros Hbad. apply makechan_range; assumption.
  - intros Hpos Hfit Hkind c w' Hrun Hc Hcb.
    apply makechan_new; try assumption. lia.
Qed.

End MakechanFacts.

Lemma makechan_channel_witness :
  let hchanType := Malloc.mkType 96 96 0 in
  let t := mkChantype exType 4 in
  let w := Malloc.bumpWorld 8192 16 in
  let st := exState (exUnbuffered (mkWaitq 0 0)) ∅ ∅ in
  let w' := snd (Malloc.mallocgc (RT := Malloc.bumpRuntime)
                   (hchanSize + 3 * Malloc.tsize (telem t)) None flagNoScan w) in
  (0 <= Malloc.tsize (telem t) < 2 ^ 16 /\ elemalign t <= maxAlign /\
   - 2 ^ 63 <= -1 < 2 ^ 63 /\ - 2 ^ 63 <= 3 < 2 ^ 63 /\
   (-1 < 0 \/ _MaxMem - hchanSize < -1 * Malloc.tsize (telem t)) /\
   0 <= 3 /\ 3 * Malloc.tsize (telem t) <= _MaxMem - hchanSize /\
   (Z.land (Malloc.kind (telem t)) (Malloc.kindNoPointers (Runtime := Malloc.bumpRuntime))
      <> 0 \/ 3 = 0) /\
   Malloc.mallocgc (RT := Malloc.bumpRuntime)
     (hchanSize + 3 * Malloc.tsize (telem t)) None flagNoScan w = (Ret 131072, w') /\
   0 <= 131072 /\ 131072 + hchanSize + 3 * Malloc.tsize (telem t) <= 2 ^ 64) /\
  makechan (RT := Malloc.bumpRuntime) hchanType t (-1) (w, st)
    = (Panic "makechan: size out of range", (w, st)) /\
  exists st' h,
    makechan (RT := Malloc.bumpRuntime) hchanType t 3 (w, st) = (Ret 131072, (w', st')) /\
    chans st' = <[131072 := h]> (chans st) /\
    qcount h = 0 /\ dataqsiz h = 3 /\ elemsize h = Malloc.tsize (telem t) /\
    elemtype h = Some (telem t) /\ closed h = 0 /\ lock h = false /\
    recvq h = mkWaitq 0 0 /\ sendq h = mkWaitq 0 0 /\
    (0 < 3 -> Malloc.tsize (telem t) <> 0 -> buf h = 131072 + hchanSize) /\
    (3 = 0 \/ Malloc.tsize (telem t) = 0 -> buf h = 131072) /\
    (0 < 3 -> buffered h = true /\ contents st' h = []) /\
    sudogs st' = sudogs st /\ gs st' = gs st /\ mem st' = mem st /\
    runq st' = runq st.
Proof.
  intros hchanType t w st w'.
  assert (H1 : 0 <= Malloc.tsize (telem t) < 2 ^ 16) by (vm_compute; split; discriminate || reflexivity).
  assert (H2 : elemalign t <= maxAlign) by discriminate.
  assert (H3 : - 2 ^ 63 <= -1 < 2 ^ 63) by lia.
  assert (H4 : - 2 ^ 63 <= 3 < 2 ^ 63) by lia.
  assert (H5 : -1 < 0 \/ _MaxMem - hchanSize < -1 * Malloc.tsize (telem t))
    by (left; reflexivity).
  assert (H6 : 0 <= 3) by discriminate.
  assert (H7 : 3 * Malloc.tsize (telem t) <= _MaxMem - hchanSize) by discriminate.
  assert (H8 : Z.land (Malloc.kind (telem t))
                 (Malloc.kindNoPointers (Runtime := Malloc.bumpRuntime)) <> 0 \/ 3 = 0)
    by (left; discriminate).
  assert (H9 : Malloc.mallocgc (RT := Malloc.bumpRuntime)
                 (hchanSize + 3 * Malloc.tsize (telem t)) None flagNoScan w
               = (Ret 131072, w')) by (vm_compute; reflexivity).
  assert (H10 : 0 <= 131072) by discriminate.
  assert (H11 : 131072 + hchanSize + 3 * Malloc.tsize (telem t) <= 2 ^ 64) by discriminate.
  split; [auto 20|]. split.
  - exact (proj1 (makechan_channel (RT := Malloc.bumpRuntime) hchanType t (-1) w st
                    H1 H2 H3) H5).
  - exact (proj2 (makechan_channel (RT := Malloc.bumpRuntime) hchanType t 3 w st
                    H1 H2 H4) H6 H7 H8 131072 w' H9 H10 H11).
Defined.
End ChanFacts.
